(* ===== verification/_CoqProject ===== *)
-Q . S2P
Prelude.v
GoText.v
GoEncoding.v
Sha256.v
GoJson.v
GoTime.v
GoFloat.v
GoUnicode.v
GoUrl.v
GoNet.v
GoCalendar.v
GoJsonParse.v
GoJsonGrammar.v
GoParseUrl.v
Errors.v
World.v
Trace.v
Item.v
Idempotency.v
Config.v
ConfigFacts.v
Telemetry.v
TelemetryFacts.v
Metrics.v
MetricsFacts.v
Cursor.v
CursorFacts.v
Order.v
Store.v
Memory.v
MemoryFacts.v
MemoryConcurrent.v
Service.v
ServiceFacts.v
Traversal.v
Scenario.v
Auth.v
AuthFacts.v
HttpApi.v
Responses.v
RequestBody.v
HttpFacts.v
ResponsesFacts.v
HttpConcurrent.v
HttpScenario.v
RateLimit.v
GoFloatFacts.v
RateLimitFacts.v
RateLimitScenario.v
Postgres.v
PostgresFacts.v
Sql.v
SqlReference.v
PostgresSpec.v
PostgresConcurrent.v
Collection.v
PostgresScenario.v
Exchange.v
Observability.v
Security.v
Router.v
Frames.v
RouterFacts.v
GuardFacts.v
CallerFacts.v
RouterScenario.v
Server.v
App.v
AppFacts.v
Commands.v
CommandsFacts.v
AppScenario.v
Deployment.v
GoRegexp.v
GoPath.v
Rewrite.v
Bootstrap.v
BootstrapFacts.v
BootstrapRun.v
BootstrapRunFacts.v
