(* ===== verification/Prelude.v ===== *)
(** * A verification of go-clean-architecture

    A service that stores items and serves them over HTTP, its configuration, and the
    commands beside it. The definitions follow the Go sources under src/, file by file,
    and keep their names; the theorems are about those definitions.

    ** The program and its model

    A request goes through the router of internal/controller/http (Router.v: routes,
    chain, operational endpoints), its middlewares (Observability.v: identifiers, access
    log, recovery, metrics, spans; Security.v: authentication, rate limiting, scopes),
    the adapter of internal/item/httpapi (HttpApi.v), and the use cases of
    internal/item/service.go and cursor.go (Service.v), which call a store through the
    interface of Store.v. Two stores implement it: internal/item/memory (Memory.v) and
    internal/item/postgres (Postgres.v). The parts a request meets on the way:

    - Item.v, Errors.v: internal/item/model.go and errors.go, and Go error values;
    - Idempotency.v: internal/item/idempotency.go, keys, fingerprints and scopes;
    - Cursor.v: internal/item/cursor.go, positions and signed tokens;
    - Auth.v: pkg/auth, principals, the Bearer parser and the digest verifier;
    - RateLimit.v: pkg/ratelimit, token buckets over binary64 numbers;
    - Metrics.v: pkg/metrics, labels and recorded series;
    - Exchange.v: what a middleware sees, and the state that requests share.

    The process around them: Config.v (config/config.go), Telemetry.v (pkg/telemetry),
    Server.v (pkg/httpserver, options and life cycle), App.v (internal/app, the
    composition root), Commands.v (cmd/migrate, cmd/healthcheck, cmd/app, pkg/logger) and
    Bootstrap.v with BootstrapRun.v (cmd/bootstrap; its rewriter is Rewrite.v).

    What the sources use of the Go library is modelled in GoText (strings, UTF-8, Unicode
    classes), GoEncoding (hexadecimal, base64), Sha256 (hashes, HMAC), GoJson, GoTime,
    GoFloat (IEEE 754 and strconv), GoUnicode (case), GoUrl and GoParseUrl (net/url),
    GoNet (net and the addresses of net/mail), GoCalendar (dates and RFC 3339),
    GoJsonParse and GoJsonGrammar (encoding/json and the grammar it accepts), GoRegexp
    and GoPath.

    ** Conventions

    A Go string is a list of bytes. An int64 is a Z, wrapped where the code can
    overflow. A nil pointer, interface, function or context is [None]. World.v runs
    sequential code in [M S]: a store, a tick that every observation of the outside
    (clock, context, random source) advances, and a failure that keeps the store.
    Trace.v runs code over the list of its outside calls, answered by an oracle about
    which nothing is assumed, with the rules of [emits]. Frames.v has the rules for what
    a handler keeps. Locked sections are atomic steps: MemoryConcurrent.v and
    RateLimitFacts.v quantify over their interleavings, HttpConcurrent.v over those of
    whole requests cut at them. PostgresConcurrent.v quantifies over the histories of a
    server that several processes share, statement by statement; Server.v has a step
    relation.

    ** What the theorems show

    - A collection: following cursors under concurrent inserts visits every item once and
      ends (Traversal); creates, reads and pages have the outcomes the use cases promise
      (ServiceFacts); the service, over PostgreSQL and over the memory store, refines an
      abstract collection with its records of keyed creates (Collection).
    - The wire: a create is decoded from exactly the JSON documents of a grammar
      (RequestBody), every answer is a document that a client reads back, and what a
      client posts it can read again, byte for byte (ResponsesFacts).
    - Exactly once: in every interleaving, one item per idempotency key and retention
      period (MemoryConcurrent), requests answered with an item under one key are
      answered with the same one, and no key stays reserved (HttpConcurrent); a keyed
      create is one transaction whatever the driver answers (PostgresFacts), and posts
      under one key that any processes serve over one server agree, however their
      transactions interleave and fail (PostgresConcurrent); a retry replays
      (ServiceFacts); callers do not share records (CallerFacts, Idempotency).
    - Tokens: a cursor decodes to what was encoded until it expires, and nothing else is
      accepted (CursorFacts); the verifier accepts the configured secret and the RFC 6750
      form only (AuthFacts).
    - The guard: no item is touched without the token, behind the guard handlers run as
      the authenticated caller, and a limited client is told long enough to wait
      (GuardFacts, CallerFacts), and this holds of every process that is started with
      authentication enabled (Deployment); the limiter keeps its rate and its bound
      (RateLimitFacts).
    - Observability: each request leaves one faithful log entry (RouterFacts), in
      bounded, balanced series (MetricsFacts).
    - The process: a loaded configuration is fit for production and its errors disclose
      nothing (ConfigFacts); a run releases what it acquired, last first, whatever fails,
      is wired as configured, and fails only when the outside does, an environment's
      name over 128 bytes apart (AppFacts); the server delivers its terminal error
      (Server); tracing shuts down once (TelemetryFacts); migrations follow the command
      line (CommandsFacts).
    - The bootstrap: the rewriter computes the longest-match rewriting and ends
      (Rewrite); nothing is written before the plan is complete, files are replaced
      atomically, a success puts every change in place, and a checkout that is already as
      asked is left unchanged (BootstrapRunFacts), which running a command twice does not
      always ensure (BootstrapFacts).

    The *Scenario files run the theorems on concrete inputs; all but a few concrete
    parameters are the definitions themselves, evaluated.

    ** Interfaces and parameters

    [StoreSpec], [IdempotentSpec], [RecordsSpec] and [CodecSpec] (Store.v) are what the
    service relies on; MemoryFacts and PostgresSpec give the instances of the stores and
    Store.v that of the codec. [SqlDatabase] (Sql.v) is what the PostgreSQL store relies
    on of its statements when it is alone, and SqlReference.v has a database with the
    tables of db/migrations that meets it. [SqlServer] (PostgresConcurrent.v) is what a
    server may do when sessions meet in it, with an instance that does all of it.
    [Hash256] is any function to 32 bytes: collisions appear in conclusions, and
    Sha256.v has the real one. [Unicode] is the case tables. Parameters, with no law but
    those that a theorem states: Gin's matching of paths, the size of Gin's own bodies,
    uuid.Parse, the OpenTelemetry SDK, map iteration order, the text of a printed float,
    timeouts of contexts and, behind oracles, PostgreSQL's driver, Git, the operating
    system, the migration library.

    ** Fuel

    Loops that are not structural take fuel, and are called with enough of it: the
    rewriter one turn per byte, with a theorem that it ends (Rewrite); the traversal one
    page per item and one more, with a theorem (Traversal); durations and SHA-256 blocks
    the length of their text (GoFloat, Sha256, each with its lemma); JSON documents two
    turns per byte, complete for the grammar (GoJsonGrammar), and literals one
    (GoJsonParse); decimal digits one turn per bit (GoText); groups of an IPv6 address
    one more than there can be (GoNet); regular expressions the length of the text, flags
    the number of arguments (GoRegexp, Bootstrap). Everything else is structural.

    ** Not modelled

    Mutexes themselves (a locked section is one step, so that a lock is free in the end is
    taken as given), what a first bootstrap leaves in general, requests without a URL
    (net/http serves none), the real duration of calls and the fairness of schedulers,
    constant-time comparison
    as such, the formats of log lines and usage texts, the encoders of zap, Prometheus's
    exposition, Gin's internals but for the chain, SQL texts beyond the class and the
    reference database, the indexes of the schema (they change no answer), shell scripts
    and containers. Requests meet in the limiter, in the memory store and in the
    database: interleavings are modelled there and for the item handlers over the memory
    store. The middlewares around a handler run on their own, since what they share
    besides is the recorded series and log lines, whose order is no promise; the text of
    a printed float, which only a message about the sampling ratio has, is a parameter.
    In httpserver, a Server without its http.Server, which only a literal can build, is
    a nil one. *)
From stdpp Require Export base tactics list list_numbers gmap fin_maps sets sorting strings.
From Stdlib Require Export ZArith Lia.
From Stdlib Require Strings.Byte.

Set Default Proof Using "Type".

(** ** Bytes

    A Go [string] and a Go [[]byte] are both finite sequences of octets. *)

Abbreviation byte := Corelib.Init.Byte.byte.
Abbreviation bytes := (list Corelib.Init.Byte.byte).

Declare Scope go_scope.
Delimit Scope go_scope with go.

#[global] Instance byte_eq_dec : EqDecision byte := Strings.Byte.byte_eq_dec.

(** The value of an octet, in [0, 256). *)
Definition bz (b : byte) : Z := Z.of_N (Strings.Byte.to_N b).

(** Truncation of an integer to an octet (Go's [byte(x)]). *)
Definition zb (z : Z) : byte :=
  default Corelib.Init.Byte.x00 (Strings.Byte.of_N (Z.to_N (z mod 256))).

(** Go source text literals. *)
Definition lit (s : string) : bytes := String.list_byte_of_string s.
Arguments lit : simpl never.
Notation "& s" := (lit s%string) (at level 1, s at level 0, format "& s") : go_scope.
Open Scope go_scope.
Open Scope Z_scope.

Definition all_bytes : bytes := zb <$> seqZ 0 256.

(** Lexicographic order of byte sequences: Go's [bytes.Compare] and the order
    of Go strings. *)
Fixpoint bytes_compare (a b : bytes) : comparison :=
  match a, b with
  | [], [] => Eq
  | [], _ :: _ => Lt
  | _ :: _, [] => Gt
  | x :: a', y :: b' =>
    match bz x ?= bz y with
    | Eq => bytes_compare a' b'
    | c => c
    end
  end.

Definition bytes_ltb (a b : bytes) : bool :=
  match bytes_compare a b with Lt => true | _ => false end.

Definition bytes_gtb (a b : bytes) : bool :=
  match bytes_compare a b with Gt => true | _ => false end.

(** ** Go arrays [[n]byte] *)

Record array (n : nat) := Array {
  arr_bytes : bytes;
  arr_len : bool_decide (length arr_bytes = n);
}.
Arguments Array {n} _ _.
Arguments arr_bytes {n} _.
Arguments arr_len {n} _.

(** [copy(a[:], src)] into a zeroed array. *)
Definition pad_to (n : nat) (l : bytes) : bytes :=
  take n (l ++ replicate n Corelib.Init.Byte.x00).

Lemma pad_to_length n l : length (pad_to n l) = n.
Proof. unfold pad_to. rewrite length_take, length_app, length_replicate. lia. Qed.

Definition array_of (n : nat) (l : bytes) : array n :=
  Array (pad_to n l) (bool_decide_pack _ (pad_to_length n l)).

Definition zero_array (n : nat) : array n := array_of n [].

(** ** 64-bit signed integers: wrap-around of Go's [int] and [int64] *)

Definition wrap64 (z : Z) : Z := (z + 2 ^ 63) mod 2 ^ 64 - 2 ^ 63.
Definition int64_range (z : Z) : Prop := - 2 ^ 63 <= z < 2 ^ 63.
#[global] Instance int64_range_dec z : Decision (int64_range z).
Proof. unfold int64_range. apply _. Defined.

(** Unsigned value of [n] low bits. *)
Definition uwrap (n z : Z) : Z := z mod 2 ^ n.

(** ** Tactics *)

(** Case analysis on every boolean test and every [match] scrutinee of the goal. *)
Ltac break_if :=
  match goal with
  | |- context [if ?b then _ else _] => destruct b eqn:?
  | H : context [if ?b then _ else _] |- _ => destruct b eqn:?
  end.

(** Turn boolean hypotheses and goals into propositions. *)
Ltac bool_simpl :=
  repeat match goal with
  | H : _ && _ = true |- _ => apply andb_true_iff in H as [? ?]
  | H : _ || _ = false |- _ => apply orb_false_iff in H as [? ?]
  | H : negb _ = true |- _ => apply negb_true_iff in H
  | H : negb _ = false |- _ => apply negb_false_iff in H
  | H : (_ <? _) = true |- _ => apply Z.ltb_lt in H
  | H : (_ <? _) = false |- _ => apply Z.ltb_ge in H
  | H : (_ <=? _) = true |- _ => apply Z.leb_le in H
  | H : (_ <=? _) = false |- _ => apply Z.leb_gt in H
  | H : (_ >? _) = true |- _ => rewrite Z.gtb_ltb in H; apply Z.ltb_lt in H
  | H : (_ >? _) = false |- _ => rewrite Z.gtb_ltb in H; apply Z.ltb_ge in H
  | H : (_ =? _) = true |- _ => apply Z.eqb_eq in H
  | H : (_ =? _) = false |- _ => apply Z.eqb_neq in H
  | H : bool_decide _ = true |- _ => apply bool_decide_eq_true in H
  | H : bool_decide _ = false |- _ => apply bool_decide_eq_false in H
  end.

Create HintDb go discriminated.
Create Rewrite HintDb go.

(** ** Bytes: lemmas *)

Lemma bz_range b : 0 <= bz b < 256.
Proof.
  unfold bz. pose proof (Strings.Byte.to_N_bounded b). lia.
Qed.

Lemma zb_bz b : zb (bz b) = b.
Proof.
  unfold zb, bz. pose proof (Strings.Byte.to_N_bounded b).
  rewrite Z.mod_small by lia. rewrite N2Z.id, Strings.Byte.of_to_N. done.
Qed.

Lemma bz_zb z : bz (zb z) = z mod 256.
Proof.
  unfold bz, zb. pose proof (Z.mod_pos_bound z 256 eq_refl) as Hb.
  destruct (Strings.Byte.of_N (Z.to_N (z mod 256))) as [b|] eqn:E; simpl.
  - apply Strings.Byte.to_of_N in E. rewrite E. lia.
  - apply Strings.Byte.of_N_None_iff in E. lia.
Qed.

Lemma bz_zb_small z : 0 <= z < 256 -> bz (zb z) = z.
Proof. intros H. rewrite bz_zb. by apply Z.mod_small. Qed.

#[global] Instance bz_inj : Inj (=) (=) bz.
Proof. intros a b E. rewrite <- (zb_bz a), <- (zb_bz b). by rewrite E. Qed.

#[global] Instance byte_countable : Countable byte.
Proof.
  refine (inj_countable' Strings.Byte.to_N
    (fun n => default Corelib.Init.Byte.x00 (Strings.Byte.of_N n)) _).
  intros b. by rewrite (Strings.Byte.of_to_N b).
Defined.

#[export] Hint Rewrite zb_bz bz_zb : go.

(** A decidable fact about bytes holds when it is checked on the 256 octets. *)
Lemma byte_forall (P : byte -> bool) :
  forallb P all_bytes = true -> forall b, P b = true.
Proof.
  intros H b. rewrite forallb_forall in H. apply H.
  apply list_elem_of_In, list_elem_of_fmap. exists (bz b).
  rewrite zb_bz. split; [done|]. apply elem_of_seqZ. pose proof (bz_range b). lia.
Qed.

(** The same on pairs, used for facts on two-byte patterns. *)
Lemma Forall_bytes_forall (P : byte -> Prop) `{forall b, Decision (P b)} :
  forallb (fun b => bool_decide (P b)) all_bytes = true -> forall b, P b.
Proof.
  intros Hall b. apply (bool_decide_eq_true_1 (P b)).
  exact (byte_forall (fun b => bool_decide (P b)) Hall b).
Qed.

(** ** Arrays: lemmas *)

Lemma arr_eq {n} (a b : array n) : arr_bytes a = arr_bytes b -> a = b.
Proof.
  destruct a as [x p], b as [y q]; simpl. intros <-. f_equal. apply proof_irrel.
Qed.

Lemma arr_length {n} (a : array n) : length (arr_bytes a) = n.
Proof. destruct a as [l p]; simpl. by apply bool_decide_unpack in p. Qed.

Lemma pad_to_exact n l : length l = n -> pad_to n l = l.
Proof. intros <-. unfold pad_to. by rewrite take_app_length. Qed.

Lemma arr_bytes_array_of n l : length l = n -> arr_bytes (array_of n l) = l.
Proof. apply pad_to_exact. Qed.

Lemma array_of_arr_bytes {n} (a : array n) : array_of n (arr_bytes a) = a.
Proof. apply arr_eq, arr_bytes_array_of, arr_length. Qed.

#[global] Instance array_eq_dec n : EqDecision (array n).
Proof.
  intros a b. destruct (decide (arr_bytes a = arr_bytes b)) as [E|E].
  - left. by apply arr_eq.
  - right. by intros ->.
Defined.

#[global] Instance array_countable n : Countable (array n).
Proof. refine (inj_countable' arr_bytes (array_of n) _). apply array_of_arr_bytes. Defined.

(** ** The order of byte sequences *)

Lemma bytes_compare_refl a : bytes_compare a a = Eq.
Proof. induction a as [|x a IH]; [done|]; simpl. by rewrite Z.compare_refl. Qed.

Lemma bytes_compare_eq a b : bytes_compare a b = Eq <-> a = b.
Proof.
  split; [|intros ->; apply bytes_compare_refl].
  revert b. induction a as [|x a IH]; intros [|y b]; simpl; try done.
  destruct (bz x ?= bz y) eqn:E; try done.
  apply Z.compare_eq, bz_inj in E as ->. intros H. f_equal. by apply IH.
Qed.

Lemma bytes_compare_antisym a b : bytes_compare b a = CompOpp (bytes_compare a b).
Proof.
  revert b. induction a as [|x a IH]; intros [|y b]; simpl; try done.
  rewrite (Z.compare_antisym (bz x) (bz y)). destruct (bz x ?= bz y); simpl; auto.
Qed.

Lemma bytes_ltb_irrefl a : bytes_ltb a a = false.
Proof. unfold bytes_ltb. by rewrite bytes_compare_refl. Qed.

Lemma bytes_gtb_ltb a b : bytes_gtb a b = bytes_ltb b a.
Proof.
  unfold bytes_gtb, bytes_ltb. rewrite (bytes_compare_antisym a b).
  by destruct (bytes_compare a b).
Qed.

Lemma bytes_ltb_trans a b c :
  bytes_ltb a b = true -> bytes_ltb b c = true -> bytes_ltb a c = true.
Proof.
  unfold bytes_ltb. revert b c.
  induction a as [|x a IH]; intros [|y b] [|z c]; simpl; try done.
  destruct (Z.compare_spec (bz x) (bz y)) as [E|E|E],
    (Z.compare_spec (bz y) (bz z)) as [F|F|F]; try done; intros G1 G2.
  - rewrite E, F, Z.compare_refl. eapply IH; eauto.
  - by rewrite E, (proj2 (Z.compare_lt_iff _ _) F).
  - by rewrite <- F, (proj2 (Z.compare_lt_iff _ _) E).
  - by rewrite (proj2 (Z.compare_lt_iff _ _) (Z.lt_trans _ _ _ E F)).
Qed.

Lemma bytes_ltb_total a b : a <> b -> bytes_ltb a b = false -> bytes_ltb b a = true.
Proof.
  intros Hne. unfold bytes_ltb. rewrite (bytes_compare_antisym a b).
  destruct (bytes_compare a b) eqn:E; try done.
  by apply bytes_compare_eq in E.
Qed.

Lemma bytes_ltb_asym a b : bytes_ltb a b = true -> bytes_ltb b a = false.
Proof.
  unfold bytes_ltb. rewrite (bytes_compare_antisym a b). by destruct (bytes_compare a b).
Qed.

(** ** 64-bit integers: lemmas *)

Lemma wrap64_range z : int64_range (wrap64 z).
Proof.
  unfold int64_range, wrap64.
  pose proof (Z.mod_pos_bound (z + 2 ^ 63) (2 ^ 64) eq_refl). lia.
Qed.

Lemma wrap64_small z : int64_range z -> wrap64 z = z.
Proof. unfold int64_range, wrap64. intros H. rewrite Z.mod_small; lia. Qed.

(** Wrap-around loses nothing that a later wrap-around would keep. *)
Lemma wrap64_add_l a b : wrap64 (wrap64 a + b) = wrap64 (a + b).
Proof.
  unfold wrap64.
  replace ((a + 2 ^ 63) mod 2 ^ 64 - 2 ^ 63 + b + 2 ^ 63)
    with ((a + 2 ^ 63) mod 2 ^ 64 + b) by lia.
  rewrite Z.add_mod_idemp_l by lia. do 2 f_equal. lia.
Qed.
