(* ===== verification/GoText.v ===== *)
(** * Go strings

    The parts of Go's [unicode/utf8], [unicode], [strings] and [strconv] that the
    sources use: UTF-8 decoding as a list of runes paired with the bytes they
    came from, the [IsSpace] and [IsControl] classes, trimming, ASCII-targeted
    case folding, prefixes, searching, splitting, and base-10 conversions.
    Strings are byte sequences; an invalid byte decodes as [RuneError] of width
    one, as in Go. *)
From S2P Require Import Prelude.

(** ** UTF-8 *)

Definition RuneError : Z := 0xFFFD.

Definition in_range (lo hi : Z) (b : byte) : bool := (lo <=? bz b) && (bz b <=? hi).
Definition is_cont (b : byte) : bool := in_range 0x80 0xBF b.

(** Continuation bytes announced by a leading byte; 0 for an ASCII byte and for a
    byte that starts no sequence. *)
Definition lead_len (b0 : byte) : nat :=
  if in_range 0xC2 0xDF b0 then 1
  else if in_range 0xE0 0xEF b0 then 2
  else if in_range 0xF0 0xF4 b0 then 3 else 0.

(** The accepted range of the second byte: no overlong forms, no surrogates,
    nothing above U+10FFFF. *)
Definition second_ok (b0 b1 : byte) : bool :=
  if in_range 0xE0 0xE0 b0 then in_range 0xA0 0xBF b1
  else if in_range 0xED 0xED b0 then in_range 0x80 0x9F b1
  else if in_range 0xF0 0xF0 b0 then in_range 0x90 0xBF b1
  else if in_range 0xF4 0xF4 b0 then in_range 0x80 0x8F b1
  else is_cont b1.

(** How many continuation bytes complete the sequence that [b0] starts in front
    of [s]; 0 when the sequence is a single byte, valid or not. *)
Definition seq_len (b0 : byte) (s : bytes) : nat :=
  match lead_len b0, s with
  | 1, b1 :: _ => if second_ok b0 b1 then 1 else 0
  | 2, b1 :: b2 :: _ => if second_ok b0 b1 && is_cont b2 then 2 else 0
  | 3, b1 :: b2 :: b3 :: _ => if second_ok b0 b1 && is_cont b2 && is_cont b3 then 3 else 0
  | _, _ => 0
  end%nat.

Definition rune1 (b0 : byte) : Z := if bz b0 <? 0x80 then bz b0 else RuneError.
Definition rune2 (b0 b1 : byte) : Z := (bz b0 - 0xC0) * 64 + (bz b1 - 0x80).
Definition rune3 (b0 b1 b2 : byte) : Z :=
  (bz b0 - 0xE0) * 4096 + (bz b1 - 0x80) * 64 + (bz b2 - 0x80).
Definition rune4 (b0 b1 b2 b3 : byte) : Z :=
  (bz b0 - 0xF0) * 262144 + (bz b1 - 0x80) * 4096 + (bz b2 - 0x80) * 64 + (bz b3 - 0x80).

Definition rune_of (c : bytes) : Z :=
  match c with
  | [b0] => rune1 b0
  | [b0; b1] => rune2 b0 b1
  | [b0; b1; b2] => rune3 b0 b1 b2
  | [b0; b1; b2; b3] => rune4 b0 b1 b2 b3
  | _ => RuneError
  end.

(** The runes of a string, as a [range] loop visits them, each with its bytes. *)
Fixpoint runes (s : bytes) : list (Z * bytes) :=
  match s with
  | [] => []
  | b0 :: s1 =>
    match seq_len b0 s1, s1 with
    | 1%nat, b1 :: s2 => (rune2 b0 b1, [b0; b1]) :: runes s2
    | 2%nat, b1 :: b2 :: s3 => (rune3 b0 b1 b2, [b0; b1; b2]) :: runes s3
    | 3%nat, b1 :: b2 :: b3 :: s4 => (rune4 b0 b1 b2 b3, [b0; b1; b2; b3]) :: runes s4
    | _, _ => (rune1 b0, [b0]) :: runes s1
    end
  end.

Definition rune_ok (rc : Z * bytes) : bool :=
  negb ((rc.1 =? RuneError) && (length rc.2 =? 1)%nat).

(** [utf8.ValidString] and [utf8.RuneCountInString]. *)
Definition ValidString (s : bytes) : bool := forallb rune_ok (runes s).
Definition RuneCountInString (s : bytes) : Z := Z.of_nat (length (runes s)).

(** ** Character classes *)

Definition is_space (r : Z) : bool :=
  ((9 <=? r) && (r <=? 13)) || (r =? 0x20) || (r =? 0x85) || (r =? 0xA0)
  || (r =? 0x1680) || ((0x2000 <=? r) && (r <=? 0x200A))
  || (r =? 0x2028) || (r =? 0x2029) || (r =? 0x202F) || (r =? 0x205F) || (r =? 0x3000).

Definition is_control (r : Z) : bool :=
  ((0 <=? r) && (r <=? 0x1F)) || ((0x7F <=? r) && (r <=? 0x9F)).

(** [strings.IndexFunc(s, f) >= 0]. *)
Definition has_rune (f : Z -> bool) (s : bytes) : bool := existsb (fun rc => f rc.1) (runes s).

Definition is_lower (b : byte) : bool := in_range 97 122 b.
Definition is_upper (b : byte) : bool := in_range 65 90 b.
Definition is_digit (b : byte) : bool := in_range 48 57 b.
Definition is_alnum (b : byte) : bool := is_lower b || is_upper b || is_digit b.

(** [strings.ContainsRune(set, rune(b))] for an ASCII set: a byte of 0x80 or
    above is a rune that the set does not hold. *)
Definition in_set (set : bytes) (b : byte) : bool := bool_decide (b ∈ set).

(** ** Trimming *)

Fixpoint drop_while {A} (f : A -> bool) (l : list A) : list A :=
  match l with
  | [] => []
  | x :: l' => if f x then drop_while f l' else l
  end.

Definition trim_both {A} (f : A -> bool) (l : list A) : list A :=
  rev (drop_while f (rev (drop_while f l))).

Definition unrunes (l : list (Z * bytes)) : bytes := concat (snd <$> l).
Definition space_rune (rc : Z * bytes) : bool := is_space rc.1.

(** [strings.TrimSpace]. *)
Definition TrimSpace (s : bytes) : bytes := unrunes (trim_both space_rune (runes s)).

(** [strings.TrimRight(s, "/")] and the like, for a one-byte cutset. *)
Definition trim_right_byte (c : byte) (s : bytes) : bytes :=
  rev (drop_while (fun b => bool_decide (b = c)) (rev s)).

(** ** Searching and comparing *)

Fixpoint has_prefix (s p : bytes) : bool :=
  match p, s with
  | [], _ => true
  | x :: p', y :: s' => bool_decide (x = y) && has_prefix s' p'
  | _ :: _, [] => false
  end.

Definition has_suffix (s p : bytes) : bool := has_prefix (rev s) (rev p).

(** [strings.Contains]. *)
Fixpoint contains (s p : bytes) : bool :=
  has_prefix s p || match s with [] => false | _ :: s' => contains s' p end.

(** [strings.IndexByte]; [None] for -1. *)
Fixpoint index_byte (s : bytes) (c : byte) : option nat :=
  match s with
  | [] => None
  | x :: s' => if bool_decide (x = c) then Some 0%nat else S <$> index_byte s' c
  end.

(** [strings.Split(s, sep)] for a one-byte separator. *)
Fixpoint split_byte (c : byte) (s : bytes) : list bytes :=
  match s with
  | [] => [[]]
  | x :: s' =>
    if bool_decide (x = c) then [] :: split_byte c s'
    else match split_byte c s' with
         | seg :: segs => (x :: seg) :: segs
         | [] => [[x]]
         end
  end.

(** [strings.Join(segs, sep)]. *)
Fixpoint join_bytes (sep : bytes) (segs : list bytes) : bytes :=
  match segs with
  | [] => []
  | [s] => s
  | s :: rest => s ++ sep ++ join_bytes sep rest
  end.

(** Simple case folding towards ASCII: besides the 26 letters, only U+017F and
    U+212A fold to an ASCII letter. *)
Definition fold_rune (r : Z) : Z :=
  if (65 <=? r) && (r <=? 90) then r + 32
  else if r =? 0x17F then 115
  else if r =? 0x212A then 107
  else r.

(** [strings.EqualFold(s, t)] for an ASCII [t]. *)
Definition equal_fold (s t : bytes) : bool :=
  bool_decide ((fun rc => fold_rune rc.1) <$> runes s = (fun rc => fold_rune rc.1) <$> runes t).

(** The lower case of an ASCII byte. *)
Definition lower_byte (b : byte) : byte := if is_upper b then zb (bz b + 32) else b.

(** ** Base-10 conversions *)

Definition digit_val (b : byte) : Z := bz b - 48.

Fixpoint parse_digits (acc : Z) (s : bytes) : option Z :=
  match s with
  | [] => Some acc
  | b :: s' => if is_digit b then parse_digits (acc * 10 + digit_val b) s' else None
  end.

(** [strconv.Atoi] on a 64-bit platform: an optional sign, at least one digit,
    and a value in the range of [int]. *)
Definition Atoi (s : bytes) : option Z :=
  let '(sign, ds) :=
    match s with
    | b :: s' =>
      if bool_decide (b = zb 45) then (-1, s')
      else if bool_decide (b = zb 43) then (1, s') else (1, s)
    | [] => (1, [])
    end in
  match ds with
  | [] => None
  | _ => v ← parse_digits 0 ds;
         if decide (int64_range (sign * v)) then Some (sign * v) else None
  end.

Fixpoint nat_digits (fuel : nat) (n : Z) (acc : bytes) : bytes :=
  match fuel with
  | O => acc
  | S fuel' =>
    let acc' := zb (48 + n mod 10) :: acc in
    if n <? 10 then acc' else nat_digits fuel' (n / 10) acc'
  end.

(** [strconv.Itoa] / [strconv.FormatInt(n, 10)]. *)
Definition Itoa (n : Z) : bytes :=
  let digits m := nat_digits (S (Z.to_nat (Z.log2 m))) m [] in
  if n <? 0 then zb 45 :: digits (- n) else digits n.

(** ** UTF-8: lemmas *)

Ltac seq_len_cases b0 s :=
  unfold seq_len; destruct (lead_len b0) as [|[|[|[|?]]]];
  destruct s as [|? [|? [|? s]]]; simpl.

Lemma seq_len_bound b0 s : (seq_len b0 s <= length s)%nat /\ (seq_len b0 s <= 3)%nat.
Proof. seq_len_cases b0 s; try case_match; simpl; lia. Qed.

(** One decoding step: a rune, its bytes and the rest of the string. *)
Lemma runes_cons b0 s1 :
  let c := b0 :: take (seq_len b0 s1) s1 in
  runes (b0 :: s1) = (rune_of c, c) :: runes (drop (seq_len b0 s1) s1).
Proof.
  pose proof (seq_len_bound b0 s1) as [Hl H3]. cbn [runes].
  destruct (seq_len b0 s1) as [|[|[|[|n]]]]; [| | | |lia];
    destruct s1 as [|b1 [|b2 [|b3 s1]]]; simpl in Hl; try lia; reflexivity.
Qed.

Arguments runes : simpl never.

(** The decision to consume [n] bytes depends on those bytes only. *)
Lemma seq_len_app b0 s t :
  (seq_len b0 s <> 0)%nat ->
  seq_len b0 (take (seq_len b0 s) s ++ t) = seq_len b0 s.
Proof.
  seq_len_cases b0 s; try done; destruct (second_ok b0 _) eqn:E1; try done;
    try destruct (is_cont _) eqn:E2; try done; try destruct (is_cont b2) eqn:E3; try done;
    simpl; intros _; rewrite ?E1, ?E2, ?E3; done.
Qed.

Lemma seq_len_prefix b0 s t :
  seq_len b0 s = 0%nat -> t `prefix_of` s -> seq_len b0 t = 0%nat.
Proof. intros H [u ->]. revert H. seq_len_cases b0 t; done. Qed.

Lemma runes_ind (P : bytes -> Prop) :
  P [] ->
  (forall b0 s1, P (drop (seq_len b0 s1) s1) -> P (b0 :: s1)) ->
  forall s, P s.
Proof.
  intros H0 HS s. remember (length s) as n eqn:E.
  revert s E. induction n as [n IH] using lt_wf_ind. intros [|b0 s1] ->; [done|].
  apply HS. eapply IH; [|done]. rewrite length_drop. simpl. lia.
Qed.

Lemma unrunes_cons r c l : unrunes ((r, c) :: l) = c ++ unrunes l.
Proof. done. Qed.

Lemma unrunes_app l1 l2 : unrunes (l1 ++ l2) = unrunes l1 ++ unrunes l2.
Proof. unfold unrunes. by rewrite fmap_app, concat_app. Qed.

(** Decoding loses no byte. *)
Lemma unrunes_runes s : unrunes (runes s) = s.
Proof.
  induction s as [|b0 s1 IH] using runes_ind; [done|].
  rewrite runes_cons; cbv zeta.
  rewrite unrunes_cons, IH. simpl. by rewrite take_drop.
Qed.

(** Cutting a string at a rune boundary cuts its list of runes. *)
Lemma runes_suffix s k : runes (unrunes (drop k (runes s))) = drop k (runes s).
Proof.
  revert k. induction s as [|b0 s1 IH] using runes_ind; intros k.
  { by destruct k. }
  pose proof (runes_cons b0 s1) as E; cbv zeta in E.
  destruct k as [|k].
  - by rewrite drop_0, unrunes_runes.
  - rewrite E. simpl. apply IH.
Qed.

Lemma runes_prefix s k : runes (unrunes (take k (runes s))) = take k (runes s).
Proof.
  revert k. induction s as [|b0 s1 IH] using runes_ind; intros k.
  { by destruct k. }
  destruct k as [|k]; [done|].
  rewrite runes_cons; cbv zeta. cbn [take].
  rewrite unrunes_cons. cbn [app].
  set (p := unrunes (take k (runes (drop (seq_len b0 s1) s1)))).
  assert (Hlen : seq_len b0 (take (seq_len b0 s1) s1 ++ p) = seq_len b0 s1).
  { destruct (decide (seq_len b0 s1 = 0%nat)) as [E0|E0].
    - rewrite E0. simpl. eapply seq_len_prefix; [exact E0|].
      subst p. rewrite E0. simpl.
      exists (unrunes (drop k (runes s1))).
      by rewrite <- unrunes_app, take_drop, unrunes_runes.
    - by apply seq_len_app. }
  rewrite runes_cons; cbv zeta. rewrite Hlen.
  pose proof (seq_len_bound b0 s1) as [Hb H3].
  rewrite take_app_length', drop_app_length' by (rewrite length_take; lia).
  subst p. by rewrite IH.
Qed.

(** ** Trimming: lemmas *)

Section Trim.
Context {A : Type} (f : A -> bool).
Implicit Types l : list A.

Lemma drop_while_drop l : exists k, drop_while f l = drop k l.
Proof.
  induction l as [|x l [k IH]]; simpl; [by exists 0%nat|].
  destruct (f x); [by exists (S k)|by exists 0%nat].
Qed.

Lemma drop_while_head l : match drop_while f l with x :: _ => f x = false | [] => True end.
Proof. induction l as [|x l IH]; simpl; [done|]. by destruct (f x) eqn:E. Qed.

Lemma drop_while_fixed l :
  match l with x :: _ => f x = false | [] => True end -> drop_while f l = l.
Proof. destruct l as [|x l]; [done|]. simpl. by intros ->. Qed.

Lemma drop_while_idemp l : drop_while f (drop_while f l) = drop_while f l.
Proof. apply drop_while_fixed, drop_while_head. Qed.

Lemma trim_both_sub l : exists j k, trim_both f l = take j (drop k l).
Proof.
  unfold trim_both. destruct (drop_while_drop l) as [k ->].
  destruct (drop_while_drop (rev (drop k l))) as [j ->].
  exists (length (drop k l) - j)%nat, k. by rewrite skipn_rev, rev_involutive.
Qed.

(** Nothing is left to trim at the left end. *)
Lemma trim_both_head l : match trim_both f l with x :: _ => f x = false | [] => True end.
Proof.
  unfold trim_both. pose proof (drop_while_head l) as H.
  destruct (drop_while_drop (rev (drop_while f l))) as [j ->].
  rewrite skipn_rev, rev_involutive.
  destruct (drop_while f l) as [|x l']; [by rewrite take_nil|].
  by destruct (length (x :: l') - j)%nat.
Qed.

Lemma trim_both_idemp l : trim_both f (trim_both f l) = trim_both f l.
Proof.
  unfold trim_both at 1. rewrite (drop_while_fixed _ (trim_both_head l)).
  unfold trim_both. by rewrite rev_involutive, drop_while_idemp.
Qed.

Lemma trim_both_cons x l : f x = true -> trim_both f (x :: l) = trim_both f l.
Proof. unfold trim_both. simpl. by intros ->. Qed.

Lemma drop_while_snoc x l :
  f x = true ->
  drop_while f (l ++ [x]) = match drop_while f l with [] => [] | l' => l' ++ [x] end.
Proof.
  intros Hx. induction l as [|y l IH]; simpl; [by rewrite Hx|].
  by destruct (f y).
Qed.

Lemma trim_both_snoc x l : f x = true -> trim_both f (l ++ [x]) = trim_both f l.
Proof.
  intros Hx. unfold trim_both. rewrite drop_while_snoc by done.
  destruct (drop_while f l) as [|y l']; [done|].
  rewrite rev_app_distr. cbn [rev app]. by cbn [drop_while]; rewrite Hx.
Qed.
End Trim.

Lemma runes_app_boundary s k j :
  runes (unrunes (take j (drop k (runes s)))) = take j (drop k (runes s)).
Proof.
  pose proof (runes_prefix (unrunes (drop k (runes s))) j) as H.
  by rewrite runes_suffix in H.
Qed.

(** The runes of the trimmed string are the trimmed runes. *)
Lemma runes_TrimSpace s : runes (TrimSpace s) = trim_both space_rune (runes s).
Proof.
  unfold TrimSpace. destruct (trim_both_sub space_rune (runes s)) as (j & k & ->).
  apply runes_app_boundary.
Qed.

Lemma TrimSpace_idemp s : TrimSpace (TrimSpace s) = TrimSpace s.
Proof. unfold TrimSpace at 1. by rewrite runes_TrimSpace, trim_both_idemp. Qed.

Lemma ValidString_trim s : ValidString s = true -> ValidString (TrimSpace s) = true.
Proof.
  unfold ValidString. rewrite runes_TrimSpace, !forallb_forall.
  destruct (trim_both_sub space_rune (runes s)) as (j & k & ->).
  intros H x Hx. apply H. apply list_elem_of_In in Hx. apply list_elem_of_In.
  eapply (subseteq_drop k), (subseteq_take j), Hx.
Qed.

(** ASCII bytes decode to themselves wherever they stand. *)
Lemma lead_len_ascii b : bz b < 0x80 -> lead_len b = 0%nat.
Proof.
  intros H. unfold lead_len, in_range.
  repeat (rewrite (proj2 (Z.leb_gt _ _)) by lia; simpl). done.
Qed.

Lemma runes_cons_ascii b s : bz b < 0x80 -> runes (b :: s) = (bz b, [b]) :: runes s.
Proof.
  intros H. rewrite runes_cons; cbv zeta.
  assert (seq_len b s = 0%nat) as ->; [by unfold seq_len; rewrite (lead_len_ascii b H)|].
  rewrite drop_0. cbn [take rune_of]. unfold rune1.
  by rewrite (proj2 (Z.ltb_lt _ _) H).
Qed.

Lemma not_cont_ascii b : bz b < 0x80 -> is_cont b = false.
Proof. intros H. unfold is_cont, in_range. by rewrite (proj2 (Z.leb_gt _ _)) by lia. Qed.

Lemma second_ok_ascii b0 b : bz b < 0x80 -> second_ok b0 b = false.
Proof.
  intros H. unfold second_ok, is_cont, in_range.
  repeat case_match; rewrite (proj2 (Z.leb_gt _ _)) by lia; done.
Qed.

Lemma seq_len_snoc_ascii b0 s b : bz b < 0x80 -> seq_len b0 (s ++ [b]) = seq_len b0 s.
Proof.
  intros H. seq_len_cases b0 s;
    rewrite ?(fun x => second_ok_ascii x b H), ?(not_cont_ascii b H), ?andb_false_r; done.
Qed.

Lemma runes_snoc_ascii s b : bz b < 0x80 -> runes (s ++ [b]) = runes s ++ [(bz b, [b])].
Proof.
  intros H. induction s as [|b0 s1 IH] using runes_ind.
  { cbn [app]. by rewrite runes_cons_ascii. }
  cbn [app]. rewrite !runes_cons; cbv zeta. rewrite seq_len_snoc_ascii by done.
  pose proof (seq_len_bound b0 s1) as [Hl _].
  rewrite take_app_le, drop_app_le, IH by done. done.
Qed.

Definition ascii_space (b : byte) : bool := (bz b <? 0x80) && is_space (bz b).

(** Edge padding made of ASCII white space does not change the trimmed string. *)
Lemma TrimSpace_pad p s q :
  forallb ascii_space p = true -> forallb ascii_space q = true ->
  TrimSpace (p ++ s ++ q) = TrimSpace s.
Proof.
  intros Hp Hq. unfold TrimSpace. f_equal.
  induction p as [|b p IH]; simpl in *.
  - induction q as [|b q IH] using rev_ind; [by rewrite app_nil_r|].
    rewrite forallb_app in Hq. apply andb_true_iff in Hq as [Hq Hb].
    cbn [forallb] in Hb. rewrite andb_true_r in Hb. apply andb_true_iff in Hb as [Hb Hs].
    apply Z.ltb_lt in Hb. rewrite app_assoc, runes_snoc_ascii by done.
    by rewrite trim_both_snoc, IH.
  - apply andb_true_iff in Hp as [Hb Hp]. apply andb_true_iff in Hb as [Hb Hs].
    apply Z.ltb_lt in Hb. rewrite runes_cons_ascii by done. by rewrite trim_both_cons, IH.
Qed.

Lemma length_concat_chunks l : (length (unrunes l) = sum_list ((fun rc => length rc.2) <$> l))%nat.
Proof.
  induction l as [|[r c] l IH]; [done|]. rewrite unrunes_cons, length_app, IH. done.
Qed.

(** A rune takes at least one byte. *)
Lemma runes_length_le s : (length (runes s) <= length s)%nat.
Proof.
  induction s as [|b0 s1 IH] using runes_ind; [done|].
  rewrite runes_cons; cbv zeta. simpl. rewrite length_drop in IH. lia.
Qed.

Lemma runes_nil_iff s : runes s = [] <-> s = [].
Proof.
  split; [|by intros ->]. intros H. by rewrite <- (unrunes_runes s), H.
Qed.

(** ** Prefixes: lemmas *)

Lemma has_prefix_app p s : has_prefix (p ++ s) p = true.
Proof. induction p as [|x p IH]; [by destruct s|]. simpl. by rewrite bool_decide_true. Qed.

Lemma has_prefix_inv s p : has_prefix s p = true -> s = p ++ drop (length p) s.
Proof.
  revert s. induction p as [|x p IH]; intros [|y s]; simpl; try done.
  intros Hp. bool_simpl. subst. f_equal. by apply IH.
Qed.

Lemma has_prefix_spec s p : has_prefix s p = true <-> p `prefix_of` s.
Proof.
  split.
  - intros Hp%has_prefix_inv. by exists (drop (length p) s).
  - intros [t ->]. apply has_prefix_app.
Qed.

(** ** Multi-byte runes are not ASCII *)

Lemma multi_rune_high b0 s :
  seq_len b0 s <> 0%nat -> 0x80 <= rune_of (b0 :: take (seq_len b0 s) s).
Proof.
  destruct s as [|b1 [|b2 [|b3 s]]]; unfold seq_len; destruct (lead_len b0) as [|[|[|[|?]]]] eqn:El; try done;
    destruct (second_ok b0 b1) eqn:E1; try done; cbn [andb];
    try (destruct (is_cont b2) eqn:E2; try done); cbn [andb];
    try (destruct (is_cont b3) eqn:E3; try done); intros _; cbn [take]; unfold rune_of, rune2, rune3, rune4;
    unfold second_ok in E1;
    unfold lead_len, is_cont, in_range in *;
    repeat case_match; simplify_eq; bool_simpl; try lia.
Qed.

Lemma rune_chunk_ascii s r c : (r, c) ∈ runes s -> r < 0x80 -> exists b, c = [b] /\ r = bz b.
Proof.
  induction s as [|b0 s1 IH] using runes_ind; [by intros ?%elem_of_nil|].
  rewrite runes_cons. cbv zeta. intros [E|Hin]%elem_of_cons Hr; [|by apply IH].
  injection E as -> ->. destruct (decide (seq_len b0 s1 = 0%nat)) as [E|E].
  - clear IH. rewrite E in *. change (take 0 s1) with (@nil byte) in *. exists b0. split; [done|]. revert Hr. unfold rune_of, rune1.
    destruct (Z.ltb_spec (bz b0) 0x80); [done|unfold RuneError; lia].
  - pose proof (multi_rune_high b0 s1 E). change (rune_of (b0 :: take (seq_len b0 s1) s1) < 128) in Hr. lia.
Qed.

Definition ascii (s : bytes) : Prop := Forall (fun b => bz b < 0x80) s.

Lemma runes_ascii s : ascii s -> runes s = (fun b => (bz b, [b])) <$> s.
Proof. induction 1 as [|b s Hb Hs IH]; [done|]. by rewrite runes_cons_ascii, IH. Qed.

(** ASCII strings fold byte by byte. *)
Lemma fold_ascii s : ascii s -> (fun rc => fold_rune rc.1) <$> runes s = bz <$> (lower_byte <$> s).
Proof.
  intros Hs. rewrite runes_ascii by done. rewrite <- !list_fmap_compose.
  apply list_fmap_ext. intros i b Hb. cbn [compose fst].
  apply (Forall_lookup_1 _ _ _ _ Hs) in Hb. clear i s Hs. revert b Hb.
  apply (Forall_bytes_forall (fun b => bz b < 0x80 -> fold_rune (bz b) = bz (lower_byte b))).
  vm_compute. reflexivity.
Qed.

(** A string whose runes are all ASCII is ASCII. *)
Lemma ascii_of_runes s : Forall (fun rc => rc.1 < 0x80) (runes s) -> ascii s.
Proof.
  intros Hf. rewrite <- (unrunes_runes s) at 1. unfold ascii, unrunes.
  assert (forall l, (forall r c, (r, c) ∈ l -> (r, c) ∈ runes s) -> Forall (fun rc => rc.1 < 0x80) l ->
    Forall (fun b => bz b < 0x80) (concat (snd <$> l))) as Hgen; [|by apply Hgen].
  intros l. induction l as [|[r c] l IH]; intros Hs Hl; [constructor|].
  apply Forall_cons in Hl as [Hr Hl]. cbn [fst] in Hr. rewrite fmap_cons. cbn [concat snd].
  apply Forall_app. split; [|apply IH; [set_solver|done]].
  destruct (rune_chunk_ascii s r c (Hs r c ltac:(constructor)) Hr) as (b & -> & ->).
  by repeat constructor.
Qed.

(** An ASCII string with no space at either end is trimmed already. *)
Lemma TrimSpace_tight s :
  ascii s ->
  match s with b :: _ => is_space (bz b) = false | [] => True end ->
  match rev s with b :: _ => is_space (bz b) = false | [] => True end ->
  TrimSpace s = s.
Proof.
  intros Ha Hh Hl. unfold TrimSpace.
  assert (trim_both space_rune (runes s) = runes s) as ->; [|apply unrunes_runes].
  rewrite runes_ascii by done. unfold trim_both.
  rewrite (drop_while_fixed _ (_ <$> s)) by (by destruct s).
  rewrite drop_while_fixed; [apply rev_involutive|].
  replace (rev ((fun b => (bz b, [b])) <$> s)) with ((fun b => (bz b, [b])) <$> rev s)
    by apply map_rev.
  by destruct (rev s).
Qed.

(** ** Searching: lemmas *)

Lemma index_byte_split s c n :
  index_byte s c = Some n ->
  s = take n s ++ c :: drop (S n) s /\ c ∉ take n s /\ (n < length s)%nat.
Proof.
  revert n. induction s as [|x s IH]; intros n; simpl; [done|].
  destruct (decide (x = c)) as [->|Hne].
  - rewrite bool_decide_true by done. intros [= <-]. split_and!; [done|by intros ?%elem_of_nil|lia].
  - rewrite bool_decide_false by done. destruct (index_byte s c) as [m|]; [|done]. intros [= <-].
    destruct (IH m eq_refl) as (Es & Hn & Hl). simpl. split_and!; [by f_equal|set_solver|lia].
Qed.

Lemma index_byte_app p q c : c ∉ p -> index_byte (p ++ c :: q) c = Some (length p).
Proof.
  induction p as [|x p IH]; intros Hc; simpl.
  - by rewrite bool_decide_true.
  - rewrite bool_decide_false by set_solver. by rewrite IH by set_solver.
Qed.

Lemma index_byte_None s c : index_byte s c = None <-> c ∉ s.
Proof.
  induction s as [|x s IH]; simpl; [split; [by intros _ ?%elem_of_nil|done]|].
  rewrite not_elem_of_cons, <- IH.
  destruct (decide (x = c)) as [->|Hne].
  - rewrite bool_decide_true by done. split; [done|by intros []].
  - rewrite bool_decide_false by done. destruct (index_byte s c); simpl;
      (split; [intros ?; split; congruence|by intros [_ ?]]).
Qed.
