(* ===== verification/GoEncoding.v ===== *)
(** * Go encodings

    [encoding/hex], the unpadded URL-safe alphabet of [encoding/base64]
    ([RawURLEncoding]) and the big-endian conversions of [encoding/binary], with
    their round trips. *)
From S2P Require Import Prelude.

(** ** Hexadecimal *)

Definition hex_digit (z : Z) : byte := zb (if z <? 10 then 48 + z else 87 + z).

Definition hex_val (b : byte) : option Z :=
  let z := bz b in
  if (48 <=? z) && (z <=? 57) then Some (z - 48)
  else if (97 <=? z) && (z <=? 102) then Some (z - 87)
  else if (65 <=? z) && (z <=? 70) then Some (z - 55)
  else None.

(** [hex.EncodeToString]. *)
Fixpoint hex_encode (l : bytes) : bytes :=
  match l with
  | [] => []
  | b :: l' => hex_digit (bz b / 16) :: hex_digit (bz b mod 16) :: hex_encode l'
  end.

(** [hex.DecodeString]; [None] for an odd length or a character outside the
    alphabet. *)
Fixpoint hex_decode (s : bytes) : option bytes :=
  match s with
  | [] => Some []
  | [_] => None
  | x :: y :: s' =>
    h ← hex_val x; l ← hex_val y; rest ← hex_decode s';
    Some (zb (16 * h + l) :: rest)
  end.

(** ** Base64 (raw, URL-safe) *)

Definition b64_char (z : Z) : byte :=
  zb (if z <? 26 then 65 + z
      else if z <? 52 then 71 + z
      else if z <? 62 then z - 4
      else if z =? 62 then 45 else 95).

Definition b64_val (b : byte) : option Z :=
  let z := bz b in
  if (65 <=? z) && (z <=? 90) then Some (z - 65)
  else if (97 <=? z) && (z <=? 122) then Some (z - 71)
  else if (48 <=? z) && (z <=? 57) then Some (z + 4)
  else if z =? 45 then Some 62
  else if z =? 95 then Some 63
  else None.

(** [base64.RawURLEncoding.EncodeToString]. *)
Fixpoint b64_encode (l : bytes) : bytes :=
  match l with
  | [] => []
  | [a] => [b64_char (bz a / 4); b64_char (bz a mod 4 * 16)]
  | [a; b] =>
    [b64_char (bz a / 4); b64_char (bz a mod 4 * 16 + bz b / 16);
     b64_char (bz b mod 16 * 4)]
  | a :: b :: c :: l' =>
    b64_char (bz a / 4) :: b64_char (bz a mod 4 * 16 + bz b / 16)
    :: b64_char (bz b mod 16 * 4 + bz c / 64) :: b64_char (bz c mod 64) :: b64_encode l'
  end.

(** Groups of four characters; a final group of two or three is completed with
    the bits it has, the surplus ones being dropped (Go's non-strict mode). *)
Fixpoint b64_decode_groups (s : bytes) : option bytes :=
  match s with
  | [] => Some []
  | [_] => None
  | [x; y] => a ← b64_val x; b ← b64_val y; Some [zb (a * 4 + b / 16)]
  | [x; y; z] =>
    a ← b64_val x; b ← b64_val y; c ← b64_val z;
    Some [zb (a * 4 + b / 16); zb (b mod 16 * 16 + c / 4)]
  | x :: y :: z :: w :: s' =>
    a ← b64_val x; b ← b64_val y; c ← b64_val z; d ← b64_val w;
    rest ← b64_decode_groups s';
    Some (zb (a * 4 + b / 16) :: zb (b mod 16 * 16 + c / 4) :: zb (c mod 4 * 64 + d) :: rest)
  end.

Definition not_newline (b : byte) : bool := negb ((bz b =? 10) || (bz b =? 13)).

(** [base64.RawURLEncoding.DecodeString]: carriage returns and line feeds are
    skipped wherever they stand. *)
Definition b64_decode (s : bytes) : option bytes :=
  b64_decode_groups (List.filter not_newline s).

(** ** Big-endian integers *)

Fixpoint be_bytes (n : nat) (z : Z) : bytes :=
  match n with
  | O => []
  | S n' => be_bytes n' (z / 256) ++ [zb z]
  end.

Definition be_value (l : bytes) : Z := fold_left (fun acc b => acc * 256 + bz b) l 0.

(** ** Hexadecimal: lemmas *)

Ltac div_mod_lia := Z.div_mod_to_equations; lia.

(** A fact on a small integer range, checked on each value. *)
Lemma range_forall (lo n : Z) (P : Z -> bool) :
  forallb P (seqZ lo n) = true -> forall z, lo <= z < lo + n -> P z = true.
Proof.
  intros H z Hz. rewrite forallb_forall in H. apply H.
  apply list_elem_of_In, elem_of_seqZ. lia.
Qed.

Lemma range_forall_prop (lo n : Z) (P : Z -> Prop) `{forall z, Decision (P z)} :
  forallb (fun z => bool_decide (P z)) (seqZ lo n) = true ->
  forall z, lo <= z < lo + n -> P z.
Proof.
  intros Hall z Hz. apply (bool_decide_eq_true_1 (P z)).
  exact (range_forall lo n (fun z => bool_decide (P z)) Hall z Hz).
Qed.

Lemma hex_val_digit z : 0 <= z < 16 -> hex_val (hex_digit z) = Some z.
Proof.
  by apply (range_forall_prop 0 16 (fun z => hex_val (hex_digit z) = Some z)).
Qed.

Lemma hex_decode_encode l : hex_decode (hex_encode l) = Some l.
Proof.
  induction l as [|b l IH]; [done|]. cbn [hex_encode hex_decode].
  pose proof (bz_range b).
  rewrite !hex_val_digit by div_mod_lia. simpl. rewrite IH. simpl.
  replace (16 * (bz b / 16) + bz b mod 16) with (bz b) by div_mod_lia.
  by rewrite zb_bz.
Qed.

Lemma hex_encode_length l : length (hex_encode l) = (2 * length l)%nat.
Proof. induction l as [|b l IH]; simpl; lia. Qed.

Lemma hex_encode_chars l : Forall (fun b => exists z, 0 <= z < 16 /\ b = hex_digit z) (hex_encode l).
Proof.
  induction l as [|b l IH]; [constructor|]. pose proof (bz_range b). cbn [hex_encode].
  constructor; [exists (bz b / 16); split; [|done]|constructor; [exists (bz b mod 16); split; [|done]|done]].
  - split; [apply Z.div_pos; lia|]. apply Z.div_lt_upper_bound; lia.
  - by apply Z.mod_pos_bound.
Qed.

#[global] Instance hex_encode_inj : Inj (=) (=) hex_encode.
Proof.
  intros a b E. apply (f_equal hex_decode) in E. rewrite !hex_decode_encode in E. congruence.
Qed.

Lemma hex_decode_length s d : hex_decode s = Some d -> length s = (2 * length d)%nat.
Proof.
  revert d. induction s as [s IH] using (induction_ltof1 _ (@length byte)); unfold ltof in IH.
  destruct s as [|x [|y s]]; cbn [hex_decode]; intros d; try (by intros [= <-]).
  destruct (hex_val x), (hex_val y); try done. simpl.
  destruct (hex_decode s) as [r|] eqn:E; try done. intros [= <-].
  apply IH in E; simpl in *; lia.
Qed.

(** ** Base64: lemmas *)

Lemma b64_val_char z : 0 <= z < 64 -> b64_val (b64_char z) = Some z.
Proof.
  by apply (range_forall_prop 0 64 (fun z => b64_val (b64_char z) = Some z)).
Qed.

Lemma b64_char_not_newline z : 0 <= z < 64 -> not_newline (b64_char z) = true.
Proof. by apply (range_forall 0 64 (fun z => not_newline (b64_char z))). Qed.

(** Induction three bytes at a time. *)
Lemma triple_ind (P : bytes -> Prop) :
  P [] -> (forall a, P [a]) -> (forall a b, P [a; b]) ->
  (forall a b c l, P l -> P (a :: b :: c :: l)) -> forall l, P l.
Proof.
  intros H0 H1 H2 H3. fix IH 1. intros [|a [|b [|c l]]]; [done|done|done|].
  apply H3, IH.
Qed.

Lemma b64_encode_chars l :
  Forall (fun c => exists z, 0 <= z < 64 /\ c = b64_char z) (b64_encode l).
Proof.
  induction l as [|a|a b|a b c l IH] using triple_ind; cbn [b64_encode];
    repeat constructor; try done;
    try pose proof (bz_range a); try pose proof (bz_range b); try pose proof (bz_range c);
    eexists; (split; [|reflexivity]); div_mod_lia.
Qed.

Lemma b64_filter_encode l : List.filter not_newline (b64_encode l) = b64_encode l.
Proof.
  pose proof (b64_encode_chars l) as H. induction H as [|c s [z [Hz ->]] H IH]; [done|].
  simpl. by rewrite b64_char_not_newline, IH.
Qed.

(** How the three bytes of a group are recovered from its four sextets. *)
Lemma sextets_fst a y : 0 <= y < 16 -> zb (bz a / 4 * 4 + (bz a mod 4 * 16 + y) / 16) = a.
Proof.
  intros H. rewrite <- (zb_bz a) at 3. f_equal.
  rewrite Z.div_add_l, (Z.div_small y), Z.add_0_r by lia. div_mod_lia.
Qed.

Lemma sextets_snd x b y :
  0 <= y < 4 -> zb ((x * 16 + bz b / 16) mod 16 * 16 + (bz b mod 16 * 4 + y) / 4) = b.
Proof.
  intros H. rewrite <- (zb_bz b) at 3. f_equal. pose proof (bz_range b).
  rewrite Z.div_add_l, (Z.div_small y), Z.add_0_r by lia.
  rewrite Z.add_comm, Z.mul_comm, (Z.add_comm (x * 16)), Z.mod_add by lia.
  rewrite (Z.mod_small (bz b / 16)) by div_mod_lia. div_mod_lia.
Qed.

Lemma sextets_trd x c : zb ((x * 4 + bz c / 64) mod 4 * 64 + bz c mod 64) = c.
Proof.
  rewrite <- (zb_bz c) at 3. f_equal. pose proof (bz_range c).
  rewrite (Z.add_comm (x * 4)), Z.mod_add by lia.
  rewrite (Z.mod_small (bz c / 64)) by div_mod_lia. div_mod_lia.
Qed.

Lemma b64_groups_encode l : b64_decode_groups (b64_encode l) = Some l.
Proof.
  induction l as [|a|a b|a b c l IH] using triple_ind; [done|..];
    cbn [b64_encode b64_decode_groups];
    try pose proof (bz_range a); try pose proof (bz_range b); try pose proof (bz_range c);
    rewrite !b64_val_char by div_mod_lia; simpl; rewrite ?IH; simpl.
  - pose proof (sextets_fst a 0). rewrite Z.add_0_r in *. by do 2 f_equal; auto with lia.
  - rewrite sextets_fst by div_mod_lia. pose proof (sextets_snd (bz a mod 4) b 0) as E.
    rewrite Z.add_0_r in E. by rewrite E.
  - by rewrite sextets_fst, sextets_snd, sextets_trd by div_mod_lia.
Qed.

Lemma b64_decode_encode l : b64_decode (b64_encode l) = Some l.
Proof. unfold b64_decode. by rewrite b64_filter_encode, b64_groups_encode. Qed.

#[global] Instance b64_encode_inj : Inj (=) (=) b64_encode.
Proof.
  intros a b E. apply (f_equal b64_decode) in E. rewrite !b64_decode_encode in E. congruence.
Qed.

(** [n] bytes take [ceil(4n/3)] characters. *)
Lemma b64_encode_length l : length (b64_encode l) = ((4 * length l + 2) / 3)%nat.
Proof.
  induction l as [|a|a b|a b c l IH] using triple_ind; try done.
  cbn [b64_encode length]. rewrite IH.
  replace (4 * S (S (S (length l))) + 2)%nat with (4 * length l + 2 + 4 * 3)%nat by lia.
  rewrite Nat.div_add by lia. lia.
Qed.

(** ** Big-endian: lemmas *)

Lemma be_bytes_length n z : length (be_bytes n z) = n.
Proof. revert z. induction n as [|n IH]; intros z; simpl; [done|]. rewrite length_app, IH. simpl. lia. Qed.

Lemma be_value_snoc l b : be_value (l ++ [b]) = be_value l * 256 + bz b.
Proof. unfold be_value. by rewrite fold_left_app. Qed.

Lemma be_value_bytes n z : be_value (be_bytes n z) = z mod 256 ^ Z.of_nat n.
Proof.
  revert z. induction n as [|n IH]; intros z; simpl be_bytes.
  { by rewrite Z.mod_1_r. }
  rewrite be_value_snoc, IH, bz_zb, Nat2Z.inj_succ, Z.pow_succ_r by lia.
  rewrite Z.rem_mul_r by lia. lia.
Qed.

Lemma be_value_range l : 0 <= be_value l < 256 ^ Z.of_nat (length l).
Proof.
  induction l as [|b l IH] using rev_ind; [done|].
  rewrite be_value_snoc, length_app. simpl length.
  rewrite Nat2Z.inj_add, Z.pow_add_r by lia.
  pose proof (bz_range b). change (256 ^ Z.of_nat 1) with 256. nia.
Qed.

Lemma be_bytes_value l : be_bytes (length l) (be_value l) = l.
Proof.
  induction l as [|b l IH] using rev_ind; [done|].
  rewrite length_app. simpl length. rewrite Nat.add_1_r. cbn [be_bytes].
  rewrite be_value_snoc. pose proof (bz_range b).
  f_equal.
  - rewrite Z.div_add_l, Z.div_small, Z.add_0_r by lia. done.
  - f_equal. apply bz_inj. rewrite bz_zb.
    rewrite Z.add_comm, Z.mod_add, Z.mod_small by lia. done.
Qed.

Lemma be_bytes_mod n z : be_bytes n z = be_bytes n (z mod 256 ^ Z.of_nat n).
Proof.
  rewrite <- be_value_bytes.
  rewrite <- (be_bytes_length n z) at 2. by rewrite be_bytes_value.
Qed.
