(* ===== verification/Sha256.v ===== *)
(** * SHA-256 and HMAC

    [crypto/sha256] and [crypto/hmac] as the sources use them. The components that
    hash are stated against the class [Hash256], whose one operation has the type
    of Go's [sha256.Sum256]; [sha256_hash] is the real function (FIPS 180-4),
    checked on published vectors. *)
From S2P Require Import Prelude GoEncoding.

(** A function from messages to 32-byte digests. *)
Class Hash256 := Sum256 : bytes -> array 32.

(** ** HMAC *)

Section Hmac.
Context {H : Hash256}.

Definition hmac_block : nat := 64.

Definition xor_pad (c : Z) (key : bytes) : bytes :=
  (fun b => zb (Z.lxor (bz b) c)) <$> pad_to hmac_block key.

(** [hmac.New(sha256.New, key)] fed with [msg]; a key longer than a block is
    hashed first. *)
Definition hmac (key msg : bytes) : bytes :=
  let key := if (hmac_block <? length key)%nat then arr_bytes (Sum256 key) else key in
  arr_bytes (Sum256 (xor_pad 0x5c key ++ arr_bytes (Sum256 (xor_pad 0x36 key ++ msg)))).

Lemma hmac_length key msg : length (hmac key msg) = 32%nat.
Proof. apply arr_length. Qed.
End Hmac.

(** ** SHA-256 *)

Definition w32 (z : Z) : Z := Z.land z 0xffffffff.
Definition rotr (x n : Z) : Z := w32 (Z.lor (Z.shiftr x n) (Z.shiftl x (32 - n))).

Definition big_sigma0 x := Z.lxor (rotr x 2) (Z.lxor (rotr x 13) (rotr x 22)).
Definition big_sigma1 x := Z.lxor (rotr x 6) (Z.lxor (rotr x 11) (rotr x 25)).
Definition small_sigma0 x := Z.lxor (rotr x 7) (Z.lxor (rotr x 18) (Z.shiftr x 3)).
Definition small_sigma1 x := Z.lxor (rotr x 17) (Z.lxor (rotr x 19) (Z.shiftr x 10)).
Definition ch x y z := Z.lxor (Z.land x y) (Z.land (Z.lxor x 0xffffffff) z).
Definition maj x y z := Z.lxor (Z.land x y) (Z.lxor (Z.land x z) (Z.land y z)).

(** The round constants and the initial state are the first 32 bits of the
    fractional parts of the cube and square roots of the first primes. *)
Definition is_prime (p : Z) : bool :=
  forallb (fun d => negb (p mod d =? 0)) (seqZ 2 (p - 2)).

Definition sha_primes : list Z := List.filter is_prime (seqZ 2 310).

(** The largest [x] below [acc + 2 ^ bits] with [x ^ k <= n]. *)
Fixpoint int_root (k n : Z) (bits : nat) (acc : Z) : Z :=
  match bits with
  | O => acc
  | S bits' =>
    let x := acc + 2 ^ Z.of_nat bits' in
    int_root k n bits' (if x ^ k <=? n then x else acc)
  end.

Definition root_fraction (k p : Z) : Z := w32 (int_root k (p * 2 ^ (32 * k)) 38 0).

Definition sha_k : list Z := Eval vm_compute in root_fraction 3 <$> sha_primes.

(** The eight working variables. *)
Record sha_state := ShaState { sa : Z; sb : Z; sc : Z; sd : Z; se : Z; sf : Z; sg : Z; sh : Z }.

Definition sha_of_words (ws : list Z) : sha_state :=
  let w i := nth i ws 0 in
  ShaState (w 0%nat) (w 1%nat) (w 2%nat) (w 3%nat) (w 4%nat) (w 5%nat) (w 6%nat) (w 7%nat).

Definition sha_init : sha_state :=
  Eval vm_compute in sha_of_words (root_fraction 2 <$> take 8 sha_primes).

Definition sha_round (st : sha_state) (k w : Z) : sha_state :=
  let t1 := w32 (sh st + big_sigma1 (se st) + ch (se st) (sf st) (sg st) + k + w) in
  let t2 := w32 (big_sigma0 (sa st) + maj (sa st) (sb st) (sc st)) in
  ShaState (w32 (t1 + t2)) (sa st) (sb st) (sc st) (w32 (sd st + t1)) (se st) (sf st) (sg st).

(** One round per constant, with a sliding window of sixteen schedule words. *)
Fixpoint sha_rounds (ks win : list Z) (st : sha_state) : sha_state :=
  match ks, win with
  | k :: ks', w :: win' =>
    let next :=
      w32 (small_sigma1 (nth 14 win 0) + nth 9 win 0 + small_sigma0 (nth 1 win 0) + w) in
    sha_rounds ks' (win' ++ [next]) (sha_round st k w)
  | _, _ => st
  end.

Definition sha_add (x y : sha_state) : sha_state :=
  ShaState (w32 (sa x + sa y)) (w32 (sb x + sb y)) (w32 (sc x + sc y)) (w32 (sd x + sd y))
    (w32 (se x + se y)) (w32 (sf x + sf y)) (w32 (sg x + sg y)) (w32 (sh x + sh y)).

Fixpoint sha_words (n : nat) (block : bytes) : list Z :=
  match n with
  | O => []
  | S n' => be_value (take 4 block) :: sha_words n' (drop 4 block)
  end.

Definition sha_compress (st : sha_state) (block : bytes) : sha_state :=
  sha_add st (sha_rounds sha_k (sha_words 16 block) st).

Definition sha_pad (m : bytes) : bytes :=
  let n := Z.of_nat (length m) in
  m ++ zb 0x80 :: replicate (Z.to_nat ((55 - n) mod 64)) (zb 0) ++ be_bytes 8 (8 * n).

Fixpoint sha_blocks (fuel : nat) (m : bytes) (st : sha_state) : sha_state :=
  match fuel, m with
  | S fuel', _ :: _ => sha_blocks fuel' (drop 64 m) (sha_compress st (take 64 m))
  | _, _ => st
  end.

Definition sha_output (st : sha_state) : bytes :=
  concat (be_bytes 4 <$> [sa st; sb st; sc st; sd st; se st; sf st; sg st; sh st]).

(** Each block takes 64 bytes, so the length of the padded message is enough fuel. *)
Definition sha256 (m : bytes) : bytes :=
  let p := sha_pad m in sha_output (sha_blocks (length p) p sha_init).

Definition sha256_hash : Hash256 := fun m => array_of 32 (sha256 m).

(** ** Lemmas *)

Lemma concat_be_length n ws : length (concat (be_bytes n <$> ws)) = (n * length ws)%nat.
Proof.
  induction ws as [|w ws IH]; [simpl; lia|].
  rewrite fmap_cons. cbn [concat length]. rewrite length_app, be_bytes_length, IH. lia.
Qed.

Lemma sha256_length m : length (sha256 m) = 32%nat.
Proof. unfold sha256, sha_output. by rewrite concat_be_length. Qed.

(** The class instance returns the digest unchanged. *)
Lemma sha256_hash_bytes m : arr_bytes (sha256_hash m) = sha256 m.
Proof. apply arr_bytes_array_of, sha256_length. Qed.

(** The padded message is a whole number of 64-byte blocks. *)
Lemma sha_pad_length m : (length (sha_pad m) mod 64 = 0)%nat.
Proof.
  unfold sha_pad. rewrite length_app. cbn [length].
  rewrite length_app, length_replicate, be_bytes_length.
  apply Nat2Z.inj. rewrite Nat2Z.inj_mod.
  pose proof (Z.mod_pos_bound (55 - Z.of_nat (length m)) 64 eq_refl).
  rewrite Nat2Z.inj_add, Nat2Z.inj_succ, Nat2Z.inj_add, Z2Nat.id by lia.
  Z.div_mod_to_equations. lia.
Qed.

Example sha_k_length : length sha_k = 64%nat.
Proof. reflexivity. Qed.

Example sha256_empty :
  hex_encode (sha256 []) = &"e3b0c44298fc1c149afbf4c8996fb92427ae41e4649b934ca495991b7852b855".
Proof. vm_compute. reflexivity. Qed.

Example sha256_abc :
  hex_encode (sha256 &"abc") = &"ba7816bf8f01cfea414140de5dae2223b00361a396177a9cb410ff61f20015ad".
Proof. vm_compute. reflexivity. Qed.

(** RFC 4231, test case 2. *)
Example hmac_rfc4231 :
  hex_encode (@hmac sha256_hash &"Jefe" &"what do ya want for nothing?")
  = &"5bdcc146bf60754e6a042426089575c75a003f089d2739839dec58b964ec3843".
Proof. vm_compute. reflexivity. Qed.
