(* ===== verification/GoJson.v ===== *)
(** * JSON strings

    The string encoder of [encoding/json] with HTML escaping, as [json.Marshal]
    uses it, and objects with two string members. The encoding of valid UTF-8
    strings is unambiguous: it can be cut out of any following text. *)
From S2P Require Import Prelude GoText GoEncoding.

Definition quote : byte := zb 34.
Definition backslash : byte := zb 92.

(** Bytes below 0x80 that are copied: printable ones and DEL, except the quote,
    the backslash and the HTML-sensitive characters. *)
Definition html_safe (b : byte) : bool :=
  (0x20 <=? bz b) && (bz b <? 0x80) && negb (in_set [quote; backslash; zb 38; zb 60; zb 62] b).

Definition short_escape (b : byte) : option byte :=
  match bz b with
  | 92 => Some (zb 92) | 34 => Some (zb 34) | 8 => Some (zb 98) | 12 => Some (zb 102)
  | 10 => Some (zb 110) | 13 => Some (zb 114) | 9 => Some (zb 116) | _ => None
  end.

Definition escape_ascii (b : byte) : bytes :=
  if html_safe b then [b]
  else match short_escape b with
       | Some e => [backslash; e]
       | None => [backslash; zb 117; zb 48; zb 48; hex_digit (bz b / 16); hex_digit (bz b mod 16)]
       end.

Definition escape_rune (rc : Z * bytes) : bytes :=
  let '(r, c) := rc in
  match c with
  | [b] => if bz b <? 0x80 then escape_ascii b else &"\ufffd"
  | _ =>
    if (r =? 0x2028) || (r =? 0x2029)
    then [backslash; zb 117; zb 50; zb 48; zb 50; hex_digit (r mod 16)]
    else c
  end.

Definition json_string (s : bytes) : bytes :=
  quote :: concat (escape_rune <$> runes s) ++ [quote].

(** [json.Marshal] of a struct with two string fields, tagged [k1] and [k2]. *)
Definition json_object2 (k1 v1 k2 v2 : bytes) : bytes :=
  [zb 123] ++ json_string k1 ++ [zb 58] ++ json_string v1
  ++ [zb 44] ++ json_string k2 ++ [zb 58] ++ json_string v2 ++ [zb 125].

(** ** Chunks of valid strings *)

(** The bytes of a valid rune: one ASCII byte, or a leading byte with the
    continuation bytes it announces. *)
Definition chunk_ok (c : bytes) : Prop :=
  match c with
  | [] => False
  | b0 :: ext => (bz b0 < 0x80 /\ ext = []) \/ (seq_len b0 ext <> 0%nat /\ length ext = seq_len b0 ext)
  end.

(** Reading an escape sequence back. *)
Definition unescape (s : bytes) : option Z :=
  match s with
  | _ :: u :: a :: b :: c :: d :: _ =>
    if bz u =? 117 then
      x ← hex_val a; y ← hex_val b; z ← hex_val c; w ← hex_val d;
      Some (((x * 16 + y) * 16 + z) * 16 + w)
    else if bz u =? 98 then Some 8 else if bz u =? 102 then Some 12
    else if bz u =? 110 then Some 10 else if bz u =? 114 then Some 13
    else if bz u =? 116 then Some 9 else Some (bz u)
  | _ :: u :: _ =>
    if bz u =? 98 then Some 8 else if bz u =? 102 then Some 12
    else if bz u =? 110 then Some 10 else if bz u =? 114 then Some 13
    else if bz u =? 116 then Some 9 else Some (bz u)
  | _ => None
  end.

(** ** Lemmas *)

Lemma seq_len_lead b0 s : seq_len b0 s <> 0%nat -> seq_len b0 s = lead_len b0.
Proof. seq_len_cases b0 s; repeat case_match; done. Qed.

Lemma valid_chunks s :
  ValidString s = true -> Forall (fun rc => chunk_ok rc.2 /\ rc.1 = rune_of rc.2) (runes s).
Proof.
  unfold ValidString. induction s as [|b0 s1 IH] using runes_ind; [constructor|].
  rewrite runes_cons; cbv zeta. cbn [forallb]. rewrite andb_true_iff.
  intros [Hok Hv]. constructor; [|by apply IH]. cbn [fst snd]. split; [|done].
  unfold chunk_ok. pose proof (seq_len_bound b0 s1) as [Hl _].
  destruct (decide (seq_len b0 s1 = 0%nat)) as [E|E].
  - left. rewrite E in *. split; [|done]. revert Hok. unfold rune_ok. cbn. unfold rune1.
    destruct (bz b0 <? 128) eqn:Hb; [lia|]. done.
  - right. pose proof (seq_len_app b0 s1 [] E) as Ha. rewrite app_nil_r in Ha.
    rewrite Ha, length_take, Nat.min_l by done. done.
Qed.

Lemma escape_ascii_cases b y :
  bz b < 0x80 ->
  (html_safe b = true /\ escape_ascii b = [b])
  \/ (hd_error (escape_ascii b) = Some backslash /\ unescape (escape_ascii b ++ y) = Some (bz b)).
Proof.
  intros H. destruct b; vm_compute in H; try discriminate H;
    solve [left; split; reflexivity | right; split; [reflexivity|]; destruct y as [|? [|? [|? [|? ?]]]]; reflexivity].
Qed.

Lemma html_safe_first b : html_safe b = true -> b <> quote /\ b <> backslash.
Proof.
  unfold html_safe. intros [_ H]%andb_true_iff. unfold in_set in H. bool_simpl.
  split; intros ->; apply H; set_solver.
Qed.

(** Lower and upper bounds of the bytes of a multi-byte rune. *)
Lemma second_ok_range b0 b1 : second_ok b0 b1 = true -> 0x80 <= bz b1 <= 0xBF.
Proof.
  unfold second_ok, is_cont, in_range. repeat case_match; intros Hb; bool_simpl; lia.
Qed.

Lemma second_ok_four b0 b1 :
  second_ok b0 b1 = true -> lead_len b0 = 3%nat -> 0x10000 <= (bz b0 - 0xF0) * 262144 + (bz b1 - 0x80) * 4096.
Proof.
  unfold second_ok, is_cont, lead_len, in_range.
  repeat case_match; intros Hb; try done; intros _; bool_simpl; lia.
Qed.

(** U+2028 and U+2029 have one encoding. *)
Lemma special_chunk b0 ext r :
  seq_len b0 ext <> 0%nat -> length ext = seq_len b0 ext -> rune_of (b0 :: ext) = r ->
  r = 0x2028 \/ r = 0x2029 -> b0 :: ext = [zb 0xE2; zb 0x80; zb (r - 0x1F80)].
Proof.
  intros Hn Hl Hr Hs.
  destruct ext as [|b1 [|b2 [|b3 [|b4 ext]]]]; revert Hn Hl Hr;
    unfold seq_len; destruct (lead_len b0) as [|[|[|[|?]]]] eqn:El; try done;
    destruct (second_ok b0 b1) eqn:E1; try done;
    try (destruct (is_cont b2) eqn:E2; try done); try (destruct (is_cont b3) eqn:E3; try done).
  - intros _ _ <-. unfold rune_of, rune2 in Hs. apply second_ok_range in E1.
    unfold lead_len, in_range in El. repeat case_match; simplify_eq; bool_simpl. lia.
  - intros _ _ <-. unfold rune_of, rune3 in *.
    apply second_ok_range in E1. unfold is_cont, in_range in E2.
    unfold lead_len, in_range in El. repeat case_match; simplify_eq; bool_simpl.
    assert (bz b0 = 0xE2 /\ bz b1 = 0x80 /\ (bz b2 = 0xA8 \/ bz b2 = 0xA9)) as (B0 & B1 & B2) by lia.
    repeat f_equal; apply bz_inj; rewrite bz_zb; [by rewrite B0|by rewrite B1|].
    rewrite B0, B1. rewrite Z.mod_small; lia.
  - intros _ _ <-. unfold rune_of, rune4 in Hs.
    pose proof (second_ok_four b0 b1 E1 El). unfold is_cont, in_range in E2, E3. bool_simpl. lia.
Qed.

Lemma lead_high b : lead_len b <> 0%nat -> 0x80 <= bz b.
Proof. intros H. destruct (Z.ltb_spec (bz b) 0x80); [by rewrite lead_len_ascii in H|lia]. Qed.

(** Three kinds of escaped runes: copied ones, which start with neither a quote
    nor a backslash, and two kinds of escapes, which can be read back. *)
Lemma escape_rune_cases rc y :
  chunk_ok rc.2 -> rc.1 = rune_of rc.2 ->
  (exists b0 ext, rc.2 = b0 :: ext /\ escape_rune rc = rc.2 /\ b0 <> quote /\ b0 <> backslash
     /\ (ext = [] \/ 0x80 <= bz b0))
  \/ (hd_error (escape_rune rc) = Some backslash
      /\ unescape (escape_rune rc ++ y) = Some rc.1
      /\ ((exists b, rc.2 = [b] /\ rc.1 = bz b /\ bz b < 0x80)
          \/ (0x2028 <= rc.1 /\ rc.2 = [zb 0xE2; zb 0x80; zb (rc.1 - 0x1F80)]))).
Proof.
  destruct rc as [r c]. cbn [fst snd]. destruct c as [|b0 ext]; [done|].
  intros [[Hb ->]|[Hl He]] ->.
  - cbn [escape_rune]. rewrite (proj2 (Z.ltb_lt _ _) Hb).
    assert (rune_of [b0] = bz b0) as ->.
    { unfold rune_of, rune1. by rewrite (proj2 (Z.ltb_lt _ _) Hb). }
    destruct (escape_ascii_cases b0 y Hb) as [[Hs ->]|[H1 H2]].
    + left. exists b0, []. apply html_safe_first in Hs as [? ?]. auto 10.
    + right. split; [done|]. split; [done|]. left. eauto.
  - assert (lead_len b0 <> 0%nat) as Hll by (by rewrite <- (seq_len_lead _ _ Hl)).
    pose proof (lead_high b0 Hll) as Hh.
    assert (b0 <> quote /\ b0 <> backslash) as [? ?].
    { split; intros ->; vm_compute in Hh; by apply Hh. }
    pose proof (special_chunk b0 ext _ Hl He eq_refl) as Hsp.
    destruct ext as [|b1 ext]; [simpl in He; lia|].
    unfold escape_rune. destruct ((_ =? 0x2028) || (_ =? 0x2029)) eqn:E.
    + right. apply orb_true_iff in E as [E|E]; apply Z.eqb_eq in E; rewrite E in *;
        (split; [reflexivity|]); (split; [by destruct y|]); right; (split; [lia|]); auto.
    + left. exists b0, (b1 :: ext). auto 10.
Qed.

(** Two escaped runes that start the same text are the same rune. *)
Lemma escape_prefix_free rc1 rc2 x y :
  chunk_ok rc1.2 -> rc1.1 = rune_of rc1.2 -> chunk_ok rc2.2 -> rc2.1 = rune_of rc2.2 ->
  escape_rune rc1 ++ x = escape_rune rc2 ++ y -> rc1.2 = rc2.2.
Proof.
  intros Hc1 Hr1 Hc2 Hr2 E.
  destruct (escape_rune_cases rc1 x Hc1 Hr1) as [(b1 & e1 & E1 & P1 & Q1 & B1 & _)|(B1 & U1 & K1)],
    (escape_rune_cases rc2 y Hc2 Hr2) as [(b2 & e2 & E2 & P2 & Q2 & B2 & _)|(B2 & U2 & K2)].
  - rewrite P1, P2, E1, E2 in E. rewrite E1, E2. simpl in E. injection E as Eb E. subst b2.
    rewrite E1, E2 in *. cbn [chunk_ok] in Hc1, Hc2.
    assert (length e1 = length e2) as Hlen.
    { assert (forall s, bz b1 < 0x80 -> seq_len b1 s = 0%nat) as Hz.
      { intros s Hb. unfold seq_len. by rewrite lead_len_ascii. }
      destruct Hc1 as [[L1 ->]|[L1 ->]], Hc2 as [[L2 ->]|[L2 ->]]; try done;
        try (by rewrite Hz in *). by rewrite !seq_len_lead. }
    by apply app_inj_1 in E as [-> _].
  - rewrite P1, E1 in E. destruct (escape_rune rc2); simplify_eq/=.
  - rewrite P2, E2 in E. destruct (escape_rune rc1); simplify_eq/=.
  - rewrite E, U2 in U1. injection U1 as U1.
    destruct K1 as [(a1 & -> & R1 & L1)|(R1 & ->)], K2 as [(a2 & -> & R2 & L2)|(R2 & ->)];
      rewrite U1 in *; try lia; try done.
    do 2 f_equal. apply bz_inj. congruence.
Qed.

(** No escaped rune starts with a quote, so a closing quote is recognised. *)
Lemma escape_rune_head rc :
  chunk_ok rc.2 -> rc.1 = rune_of rc.2 -> exists b l, escape_rune rc = b :: l /\ b <> quote.
Proof.
  intros Hc Hr. destruct (escape_rune_cases rc [] Hc Hr) as [(b & e & E & -> & Q & _)|(B & _)].
  - rewrite E. eauto.
  - destruct (escape_rune rc) as [|b l]; simplify_eq/=. eexists _, _. split; [done|].
    intros Hb. by apply (f_equal bz) in Hb; vm_compute in Hb.
Qed.

Lemma escape_runes_inj l1 l2 x y :
  Forall (fun rc => chunk_ok rc.2 /\ rc.1 = rune_of rc.2) l1 ->
  Forall (fun rc => chunk_ok rc.2 /\ rc.1 = rune_of rc.2) l2 ->
  concat (escape_rune <$> l1) ++ quote :: x = concat (escape_rune <$> l2) ++ quote :: y ->
  l1 = l2 /\ x = y.
Proof.
  intros H1. revert l2. induction H1 as [|[r1 c1] l1 [Hc1 Hr1] H1 IH]; intros l2 H2;
    destruct H2 as [|[r2 c2] l2 [Hc2 Hr2] H2]; rewrite ?fmap_cons; cbn [concat app] in *.
  - by intros [= ->].
  - destruct (escape_rune_head _ Hc2 Hr2) as (b & l & -> & Hb). intros [= E _]. done.
  - destruct (escape_rune_head _ Hc1 Hr1) as (b & l & -> & Hb). intros [= E _]. done.
  - rewrite <- !app_assoc. intros E.
    pose proof (escape_prefix_free _ _ _ _ Hc1 Hr1 Hc2 Hr2 E) as Ec. cbn [fst snd] in *. subst.
    apply app_inv_head in E. apply IH in E as [-> ->]; done.
Qed.

(** A JSON string determines both the string and the text that follows it. *)
Lemma json_string_inj s1 s2 x y :
  ValidString s1 = true -> ValidString s2 = true ->
  json_string s1 ++ x = json_string s2 ++ y -> s1 = s2 /\ x = y.
Proof.
  intros V1 V2. unfold json_string. rewrite <- !app_comm_cons, <- !app_assoc. cbn [app].
  intros [= E]. apply escape_runes_inj in E as [E ->]; [|by apply valid_chunks..].
  split; [|done]. by rewrite <- (unrunes_runes s1), <- (unrunes_runes s2), E.
Qed.

(** Two objects with the same keys are equal only when their values are. *)
Lemma json_object2_inj k1 k2 v1 v2 w1 w2 :
  ValidString v1 = true -> ValidString v2 = true ->
  ValidString w1 = true -> ValidString w2 = true ->
  json_object2 k1 v1 k2 v2 = json_object2 k1 w1 k2 w2 -> v1 = w1 /\ v2 = w2.
Proof.
  intros Hv1 Hv2 Hw1 Hw2. unfold json_object2. intros E.
  apply app_inv_head in E. apply app_inv_head in E. apply app_inv_head in E.
  apply json_string_inj in E as [-> E]; [|done..]. split; [done|].
  apply app_inv_head in E. apply app_inv_head in E. apply app_inv_head in E.
  by apply json_string_inj in E as [-> _].
Qed.

Example json_string_escapes :
  json_string (&"a&" ++ [zb 9; zb 0xE2; zb 0x80; zb 0xA8])
  = [quote] ++ &"a\u0026\t\u2028" ++ [quote].
Proof. vm_compute. reflexivity. Qed.
