(* ===== verification/GoTime.v ===== *)
(** * Go times

    [time.Time] and [time.Duration] as the sources use them: a wall clock
    reading (seconds since January 1, year 1 UTC as an [int64], and a nanosecond
    field), an optional monotonic reading and a location. Comparisons use the
    monotonic readings when both sides have one; [UTC] and [Round(0)] drop it;
    [Add] saturates like the library does; [MarshalBinary] is the version-1/2
    wire format. *)
From S2P Require Import Prelude GoEncoding.

Inductive location := UTC | Zone (offset : Z).
#[global] Instance location_eq_dec : EqDecision location.
Proof. solve_decision. Defined.

Record time := Time {
  t_sec : Z;
  t_nsec : Z;
  t_mono : option Z;
  t_loc : location;
}.
#[global] Instance time_eq_dec : EqDecision time.
Proof. solve_decision. Defined.

(** [time.Time{}]. *)
Definition zero_time : time := Time 0 0 None UTC.

Definition Second : Z := 1000000000.
Definition Minute : Z := 60 * Second.
Definition Hour : Z := 60 * Minute.

(** Seconds between the years 1 and 1970, and between 1 and 1885. *)
Definition unixToInternal : Z := 62135596800.
Definition wallToInternal : Z := 59453308800.

Definition strip_mono (t : time) : time := Time (t_sec t) (t_nsec t) None (t_loc t).
Definition IsZero (t : time) : bool := (t_sec t =? 0) && (t_nsec t =? 0).
(** [t.UTC()] and [t.Round(0)]. *)
Definition to_utc (t : time) : time := Time (t_sec t) (t_nsec t) None UTC.
Definition Round0 (t : time) : time := strip_mono t.

(** [t.Unix()] and [time.Unix(sec, nsec)], on wrapping 64-bit integers. *)
Definition Unix (t : time) : Z := wrap64 (t_sec t - unixToInternal).
Definition from_unix (sec nsec : Z) : time :=
  if (nsec <? 0) || (Second <=? nsec) then
    let n := Z.quot nsec Second in
    let sec1 := wrap64 (sec + n) in
    let nsec1 := nsec - n * Second in
    if nsec1 <? 0 then Time (wrap64 (sec1 - 1 + unixToInternal)) (nsec1 + Second) None (Zone 0)
    else Time (wrap64 (sec1 + unixToInternal)) nsec1 None (Zone 0)
  else Time (wrap64 (sec + unixToInternal)) nsec None (Zone 0).

(** ** Comparisons *)

Definition both_mono (t u : time) : option (Z * Z) :=
  match t_mono t, t_mono u with Some a, Some b => Some (a, b) | _, _ => None end.

Definition Equal (t u : time) : bool :=
  match both_mono t u with
  | Some (a, b) => a =? b
  | None => (t_sec t =? t_sec u) && (t_nsec t =? t_nsec u)
  end.

Definition Before (t u : time) : bool :=
  match both_mono t u with
  | Some (a, b) => a <? b
  | None => (t_sec t <? t_sec u) || ((t_sec t =? t_sec u) && (t_nsec t <? t_nsec u))
  end.

Definition After (t u : time) : bool := Before u t.

(** ** Arithmetic *)

(** [t.addSec(d)]: saturating, and dropping the monotonic reading when the wall
    second leaves the packed range. *)
Definition add_sec (t : time) (d : Z) : time :=
  let packed := t_sec t + d - wallToInternal in
  if bool_decide (is_Some (t_mono t)) && (0 <=? packed) && (packed <? 2 ^ 33) then
    Time (t_sec t + d) (t_nsec t) (t_mono t) (t_loc t)
  else
    let sum := wrap64 (t_sec t + d) in
    let sec :=
      if Bool.eqb (t_sec t <? sum) (0 <? d) then sum
      else if 0 <? d then 2 ^ 63 - 1 else - (2 ^ 63 - 1) in
    Time sec (t_nsec t) None (t_loc t).

Definition Add (t : time) (d : Z) : time :=
  let dsec := Z.quot d Second in
  let nsec := t_nsec t + Z.rem d Second in
  let '(dsec, nsec) :=
    if Second <=? nsec then (dsec + 1, nsec - Second)
    else if nsec <? 0 then (dsec - 1, nsec + Second) else (dsec, nsec) in
  let t1 := add_sec (Time (t_sec t) nsec (t_mono t) (t_loc t)) dsec in
  match t_mono t1 with
  | None => t1
  | Some m =>
    let te := wrap64 (m + d) in
    if ((d <? 0) && (m <? te)) || ((0 <? d) && (te <? m)) then strip_mono t1
    else Time (t_sec t1) (t_nsec t1) (Some te) (t_loc t1)
  end.

Definition minDuration : Z := - 2 ^ 63.
Definition maxDuration : Z := 2 ^ 63 - 1.

(** [t.Sub(u)]. *)
Definition Sub (t u : time) : Z :=
  match both_mono t u with
  | Some (a, b) =>
    let d := wrap64 (a - b) in
    if (d <? 0) && (b <? a) then maxDuration
    else if (0 <? d) && (a <? b) then minDuration else d
  | None =>
    let d := wrap64 ((t_sec t - t_sec u) * Second + (t_nsec t - t_nsec u)) in
    if Equal (Add u d) t then d
    else if Before t u then minDuration else maxDuration
  end.

(** ** Binary encoding *)

(** [t.MarshalBinary()]; [None] for a zone offset that the format cannot hold. *)
Definition MarshalBinary (t : time) : option bytes :=
  match t_loc t with
  | UTC => Some (zb 1 :: be_bytes 8 (t_sec t) ++ be_bytes 4 (t_nsec t) ++ be_bytes 2 (-1))
  | Zone offset =>
    let osec := Z.rem offset 60 in
    let omin := Z.quot offset 60 in
    if (omin <? -32768) || (omin =? -1) || (32767 <? omin) then None
    else
      let version := if osec =? 0 then zb 1 else zb 2 in
      Some (version :: be_bytes 8 (t_sec t) ++ be_bytes 4 (t_nsec t) ++ be_bytes 2 omin
              ++ (if osec =? 0 then [] else [zb osec]))
  end.

(** Two's complement reading of [n] bits. *)
Definition signed (n z : Z) : Z := if z <? 2 ^ (n - 1) then z else z - 2 ^ n.

(** [t.UnmarshalBinary(data)]. The nanosecond field is stored into the packed
    word without a range check: a negative one sets the monotonic flag, which
    [setLoc] then resolves by taking the seconds from the packed bits. *)
Definition UnmarshalBinary (data : bytes) : option time :=
  match data with
  | [] => None
  | version :: buf =>
    let v := bz version in
    if negb ((v =? 1) || (v =? 2)) then None
    else if negb (Nat.eqb (length buf) (if v =? 2 then 15 else 14)) then None
    else
      let sec := signed 64 (be_value (take 8 buf)) in
      let nsec := signed 32 (be_value (take 4 (drop 8 buf))) in
      let off := signed 16 (be_value (take 2 (drop 12 buf))) * 60
                 + (if v =? 2 then be_value (drop 14 buf) else 0) in
      let wall := uwrap 64 nsec in
      let sec' := if nsec <? 0 then wallToInternal + uwrap 64 (wall * 2) / 2 ^ 31 else sec in
      Some (Time sec' (uwrap 30 wall) None (if off =? -60 then UTC else Zone off))
  end.

(** ** Well-formed times *)

Definition time_wf (t : time) : Prop :=
  int64_range (t_sec t) /\ 0 <= t_nsec t < Second.

(** The form in which the domain keeps times: UTC, no monotonic reading. *)
Definition canonical_time (t : time) : Prop :=
  time_wf t /\ t_mono t = None /\ t_loc t = UTC.

(** Nanoseconds since January 1, year 1. *)
Definition instant (t : time) : Z := t_sec t * Second + t_nsec t.

#[global] Instance time_wf_dec t : Decision (time_wf t).
Proof. unfold time_wf. apply _. Defined.
#[global] Instance canonical_time_dec t : Decision (canonical_time t).
Proof. unfold canonical_time. apply _. Defined.

(** ** Lemmas *)

Lemma both_mono_l t u : t_mono t = None -> both_mono t u = None.
Proof. unfold both_mono. by intros ->. Qed.

Lemma both_mono_r t u : t_mono u = None -> both_mono t u = None.
Proof. unfold both_mono. intros ->. by destruct (t_mono t). Qed.

Lemma to_utc_canonical t : time_wf t -> canonical_time (to_utc t).
Proof. done. Qed.

Lemma to_utc_id t : canonical_time t -> to_utc t = t.
Proof. destruct t; unfold canonical_time, to_utc; simpl. by intros (_ & -> & ->). Qed.

Lemma Equal_instant t u :
  canonical_time t -> canonical_time u -> Equal t u = (instant t =? instant u).
Proof.
  intros ([_ Ht] & Mt & _) ([_ Hu] & _). unfold Equal, instant.
  rewrite both_mono_l by done. apply Bool.eq_iff_eq_true.
  rewrite andb_true_iff, !Z.eqb_eq. unfold Second in *. lia.
Qed.

Lemma Before_instant t u :
  canonical_time t -> canonical_time u -> Before t u = (instant t <? instant u).
Proof.
  intros ([_ Ht] & Mt & _) ([_ Hu] & _). unfold Before, instant.
  rewrite both_mono_l by done. apply Bool.eq_iff_eq_true.
  rewrite orb_true_iff, andb_true_iff, !Z.ltb_lt, Z.eqb_eq. unfold Second in *. lia.
Qed.

Lemma After_instant t u :
  canonical_time t -> canonical_time u -> After t u = (instant u <? instant t).
Proof. intros. by apply Before_instant. Qed.

Lemma instant_inj t u :
  canonical_time t -> canonical_time u -> instant t = instant u -> t = u.
Proof.
  destruct t, u. intros ([_ Ht] & Mt & Lt) ([_ Hu] & Mu & Lu). unfold instant. simpl in *.
  subst. intros E. unfold Second in *. f_equal; lia.
Qed.

(** Going to Unix seconds and back is the identity on 64-bit integers, however
    large the year: the two wrap-arounds cancel. *)
Lemma Unix_roundtrip t :
  int64_range (t_sec t) -> wrap64 (Unix t + unixToInternal) = t_sec t.
Proof.
  intros H. unfold Unix. rewrite wrap64_add_l.
  replace (t_sec t - unixToInternal + unixToInternal) with (t_sec t) by lia.
  by apply wrap64_small.
Qed.

(** Adding a small duration to a canonical time, away from the ends of the range. *)
Lemma Add_canonical t d :
  canonical_time t -> 0 <= d < 2 ^ 62 ->
  - 2 ^ 62 <= t_sec t < 2 ^ 62 ->
  canonical_time (Add t d) /\ instant (Add t d) = instant t + d.
Proof.
  intros ([Hs Hn] & Mt & Lt) Hd Hb. unfold Add.
  rewrite Z.quot_div_nonneg, Z.rem_mod_nonneg by (unfold Second; lia).
  pose proof (Z.mod_pos_bound d Second eq_refl) as Hm.
  pose proof (Z.div_mod d Second ltac:(done)) as Ed.
  assert (0 <= d / Second < 2 ^ 40) as Hq.
  { split; [apply Z.div_pos; unfold Second; lia|]. apply Z.div_lt_upper_bound; unfold Second; lia. }
  assert (Hgen : forall ds ns, 0 <= ds < 2 ^ 41 -> 0 <= ns < Second ->
    let t1 := add_sec (Time (t_sec t) ns (t_mono t) (t_loc t)) ds in
    t_mono t1 = None /\ canonical_time t1 /\ instant t1 = (t_sec t + ds) * Second + ns).
  { intros ds ns Hds Hns. unfold add_sec. cbn [t_mono t_sec t_nsec t_loc]. rewrite Mt, Lt.
    cbn [andb bool_decide]. rewrite bool_decide_false by (by intros [? ?]). cbn [andb].
    rewrite wrap64_small by (unfold int64_range; lia).
    assert (Bool.eqb (t_sec t <? t_sec t + ds) (0 <? ds) = true) as ->.
    { apply Bool.eqb_true_iff, Bool.eq_iff_eq_true. rewrite !Z.ltb_lt. lia. }
    repeat split; simpl; try done; lia. }
  destruct (Second <=? t_nsec t + d mod Second) eqn:E1; [|destruct (t_nsec t + d mod Second <? 0) eqn:E2];
    bool_simpl; [| lia |].
  - destruct (Hgen (d / Second + 1) (t_nsec t + d mod Second - Second)) as (-> & H1 & H2); [lia..|].
    split; [done|]. rewrite H2. unfold instant. unfold Second in *. lia.
  - destruct (Hgen (d / Second) (t_nsec t + d mod Second)) as (-> & H1 & H2); [lia..|].
    split; [done|]. rewrite H2. unfold instant. unfold Second in *. lia.
Qed.

Lemma Add_no_mono t d : t_mono t = None -> t_mono (Add t d) = None.
Proof.
  intros H. unfold Add.
  set (x := if Second <=? _ then _ else _). destruct x as [ds ns].
  assert (t_mono (add_sec (Time (t_sec t) ns (t_mono t) (t_loc t)) ds) = None) as E.
  { unfold add_sec. cbn [t_mono]. rewrite H. by rewrite bool_decide_false by (by intros [? ?]). }
  cbv zeta. by rewrite E.
Qed.

(** ** The binary round trip *)

Lemma MarshalBinary_utc t :
  t_loc t = UTC ->
  MarshalBinary t = Some (zb 1 :: be_bytes 8 (t_sec t) ++ be_bytes 4 (t_nsec t) ++ be_bytes 2 (-1)).
Proof. unfold MarshalBinary. by intros ->. Qed.

Lemma MarshalBinary_length t w :
  t_loc t = UTC -> MarshalBinary t = Some w -> length w = 15%nat.
Proof.
  intros H. rewrite MarshalBinary_utc by done. intros E%Some_inj. subst w.
  cbn [length]. by rewrite !length_app, !be_bytes_length.
Qed.

(** Decoding the three fields of a version-1 UTC encoding. *)
Lemma Unmarshal_fields s n :
  UnmarshalBinary (zb 1 :: be_bytes 8 s ++ be_bytes 4 n ++ be_bytes 2 (-1)) =
  let nsec := signed 32 (n mod 2 ^ 32) in
  Some (Time (if nsec <? 0 then wallToInternal + uwrap 64 (uwrap 64 nsec * 2) / 2 ^ 31
              else signed 64 (s mod 2 ^ 64))
          (uwrap 30 (uwrap 64 nsec)) None UTC).
Proof.
  unfold UnmarshalBinary. rewrite bz_zb.
  change (1 mod 256) with 1. cbn [Z.eqb orb negb Pos.eqb].
  rewrite !length_app, !be_bytes_length. cbn [Nat.eqb Nat.add negb].
  rewrite take_app_length' by (by rewrite be_bytes_length).
  rewrite drop_app_length' by (by rewrite be_bytes_length).
  rewrite take_app_length' by (by rewrite be_bytes_length).
  rewrite app_assoc, drop_app_length' by (by rewrite length_app, !be_bytes_length).
  change (signed 16 (be_value (take 2 (be_bytes 2 (-1)))) * 60 + 0 =? -60) with true.
  by rewrite !be_value_bytes.
Qed.

Lemma Unmarshal_nsec data t : UnmarshalBinary data = Some t -> 0 <= t_nsec t < 2 ^ 30.
Proof.
  unfold UnmarshalBinary. destruct data; [done|]. do 2 (case_match; [done|]).
  intros Hu. injection Hu as <-. cbn [t_nsec]. unfold uwrap. by apply Z.mod_pos_bound.
Qed.

Lemma signed_range k z : 0 < k -> 0 <= z < 2 ^ k -> - 2 ^ (k - 1) <= signed k z < 2 ^ (k - 1).
Proof.
  intros Hk Hz. unfold signed.
  assert (2 ^ k = 2 * 2 ^ (k - 1)) as E by (rewrite <- Z.pow_succ_r by lia; f_equal; lia).
  destruct (Z.ltb_spec z (2 ^ (k - 1))); lia.
Qed.

Lemma signed64_range z : int64_range (signed 64 (z mod 2 ^ 64)).
Proof. exact (signed_range 64 _ eq_refl (Z.mod_pos_bound z (2 ^ 64) eq_refl)). Qed.

Lemma signed_mod k z : 0 < k -> - 2 ^ (k - 1) <= z < 2 ^ (k - 1) -> signed k (z mod 2 ^ k) = z.
Proof.
  intros Hk Hz. unfold signed.
  assert (2 ^ k = 2 * 2 ^ (k - 1)) as E by (rewrite <- Z.pow_succ_r by lia; f_equal; lia).
  destruct (Z.leb_spec 0 z).
  - rewrite Z.mod_small by lia. destruct (Z.ltb_spec z (2 ^ (k - 1))); lia.
  - rewrite <- (Z.mod_add z 1), Z.mul_1_l, Z.mod_small by lia.
    destruct (Z.ltb_spec (z + 2 ^ k) (2 ^ (k - 1))); lia.
Qed.

(** A version-1 UTC encoding whose nanosecond field fits 30 bits decodes to 64-bit
    seconds and to that field. *)
Lemma Unmarshal_fields_small s n :
  0 <= n < 2 ^ 30 ->
  UnmarshalBinary (zb 1 :: be_bytes 8 s ++ be_bytes 4 n ++ be_bytes 2 (-1))
  = Some (Time (signed 64 (s mod 2 ^ 64)) n None UTC).
Proof.
  intros Hn. rewrite Unmarshal_fields. cbv zeta.
  rewrite signed_mod by lia. rewrite (proj2 (Z.ltb_ge _ _)) by lia.
  unfold uwrap. by rewrite (Z.mod_small n (2 ^ 64)), (Z.mod_small n (2 ^ 30)) by lia.
Qed.

(** A canonical time survives the wire format. *)
Lemma Unmarshal_Marshal t w :
  canonical_time t -> MarshalBinary t = Some w -> UnmarshalBinary w = Some t.
Proof.
  intros ([Hs Hn] & Mt & Lt). rewrite MarshalBinary_utc by done. intros E%Some_inj. subst w.
  rewrite Unmarshal_fields_small by (unfold Second in *; lia).
  rewrite signed_mod by (unfold int64_range in Hs; lia).
  destruct t; simpl in *; by subst.
Qed.
