(* ===== verification/GoFloat.v ===== *)
(** * Floating point

    Go's [float64] is IEEE 754 binary64 with rounding to nearest, ties to even: the
    Standard Library's specification floats at precision 53 and maximal exponent
    1024. Every operation rounds on its own, as the compiler's output does where
    multiply-adds are not fused (amd64). *)
From S2P Require Import Prelude GoText GoTime.
From Stdlib Require Export SpecFloat.

Definition float64 : Type := spec_float.
#[global] Instance float64_eq_dec : EqDecision float64.
Proof. solve_decision. Defined.

Definition prec : Z := 53.
Definition emax : Z := 1024.

Definition fadd : float64 -> float64 -> float64 := SFadd prec emax.
Definition fsub : float64 -> float64 -> float64 := SFsub prec emax.
Definition fmul : float64 -> float64 -> float64 := SFmul prec emax.
Definition fdiv : float64 -> float64 -> float64 := SFdiv prec emax.
Definition flt : float64 -> float64 -> bool := SFltb.
Definition fle : float64 -> float64 -> bool := SFleb.

(** [float64(n)] for an integer [n]. *)
Definition of_int (n : Z) : float64 := binary_normalize prec emax n 0 false.
Definition f_zero : float64 := S754_zero false.

Definition IsNaN (x : float64) : bool := match x with S754_nan => true | _ => false end.
Definition IsInf (x : float64) : bool := match x with S754_infinity _ => true | _ => false end.

(** The integers below and above a finite float: [math.Floor] and [math.Ceil]. *)
Definition signed_mantissa (s : bool) (m : positive) : Z := if s then Z.neg m else Z.pos m.
Definition Floor (x : float64) : option Z :=
  match x with
  | S754_zero _ => Some 0
  | S754_finite s m e =>
    if 0 <=? e then Some (signed_mantissa s m * 2 ^ e) else Some (signed_mantissa s m / 2 ^ (- e))
  | _ => None
  end.
Definition Ceil (x : float64) : option Z :=
  match x with
  | S754_zero _ => Some 0
  | S754_finite s m e =>
    if 0 <=? e then Some (signed_mantissa s m * 2 ^ e) else Some (- (- signed_mantissa s m / 2 ^ (- e)))
  | _ => None
  end.

(** Conversion of an integral float to a signed 64-bit integer; out of range the
    result is the one of amd64. *)
Definition to_int64 (x : option Z) : Z :=
  match x with
  | Some z => if (- 2 ^ 63 <=? z) && (z <? 2 ^ 63) then z else - 2 ^ 63
  | None => - 2 ^ 63
  end.

(** [d.Seconds()]. *)
Definition Seconds (d : Z) : float64 :=
  fadd (of_int (Z.quot d Second)) (fdiv (of_int (Z.rem d Second)) (of_int Second)).

Example of_int_max : of_int maxDuration = S754_finite false (2 ^ 52) 11.
Proof. vm_compute. reflexivity. Qed.
Example seconds_half : Seconds 1500000000 = fdiv (of_int 3) (of_int 2).
Proof. vm_compute. reflexivity. Qed.

(** ** Numbers as text

    [strconv.ParseBool], [strconv.ParseFloat] at 64 bits and [time.ParseDuration].
    A parser gives [None] where Go gives an error: callers look at nothing else. *)

(** [strconv.ParseBool]. *)
Definition ParseBool (s : bytes) : option bool :=
  let among l := existsb (fun n => bool_decide (s = n)) l in
  if among [&"1"; &"t"; &"T"; &"true"; &"TRUE"; &"True"] then Some true
  else if among [&"0"; &"f"; &"F"; &"false"; &"FALSE"; &"False"] then Some false
  else None.

(** ** Floating point *)

Definition sign_of (s : bytes) : bool * bytes :=
  match s with
  | b :: rest => if bool_decide (b = zb 45) then (true, rest) else if bool_decide (b = zb 43) then (false, rest) else (false, s)
  | [] => (false, [])
  end.

(** The value of a mantissa digit in base 16, or in base 10. *)
Definition mantissa_digit (hex : bool) (b : byte) : option Z :=
  if is_digit b then Some (digit_val b)
  else if hex && in_range 97 102 (lower_byte b) then Some (bz (lower_byte b) - 87)
  else None.

(** What the loop of [readFloat] over the mantissa knows: its digits as an integer, how
    many of them follow the point, and what it saw. *)
Record mantissa := mkMantissa { mt_value : Z; mt_fraction : Z; mt_dot : bool; mt_digits : bool }.

Fixpoint read_mantissa (hex : bool) (m : mantissa) (s : bytes) : mantissa * bytes :=
  match s with
  | [] => (m, [])
  | b :: rest =>
    if bool_decide (b = zb 95) then read_mantissa hex m rest
    else if bool_decide (b = zb 46) then
      if mt_dot m then (m, s)
      else read_mantissa hex (mkMantissa (mt_value m) (mt_fraction m) true (mt_digits m)) rest
    else
      match mantissa_digit hex b with
      | Some d =>
        read_mantissa hex
          (mkMantissa (mt_value m * (if hex then 16 else 10) + d)
             (mt_fraction m + if mt_dot m then 1 else 0) (mt_dot m) true) rest
      | None => (m, s)
      end
  end.

(** The digits of an exponent, which stops growing at 10000. *)
Fixpoint read_exponent (e : Z) (s : bytes) : Z * bytes :=
  match s with
  | [] => (e, [])
  | b :: rest =>
    if bool_decide (b = zb 95) then read_exponent e rest
    else if is_digit b then read_exponent (if e <? 10000 then e * 10 + digit_val b else e) rest
    else (e, s)
  end.

(** [strconv.underscoreOK] after the sign and the base prefix: an underscore stands
    after a digit and before a digit. *)
Fixpoint underscores_ok (hex : bool) (digit under : bool) (s : bytes) : bool :=
  match s with
  | [] => negb under
  | b :: rest =>
    match mantissa_digit hex b with
    | Some _ => underscores_ok hex true false rest
    | None =>
      if bool_decide (b = zb 95) then digit && underscores_ok hex false true rest
      else negb under && underscores_ok hex false false rest
    end
  end.

(** The float nearest to [n / d], ties to even: enough bits of the quotient for every
    rounding, and one more that says whether anything is left. *)
Definition round_ratio (n d : Z) : float64 :=
  let k := Z.max 0 (66 + Z.log2 d - Z.log2 n) in
  let q := n * 2 ^ k / d in
  let sticky := if (n * 2 ^ k) mod d =? 0 then 0 else 1 in
  binary_normalize prec emax (2 * q + sticky) (- k - 1) false.

Definition scaled (base value exponent : Z) : float64 :=
  if value =? 0 then f_zero
  else if 0 <=? exponent then round_ratio (value * base ^ exponent) 1
  else round_ratio value (base ^ (- exponent)).

Definition signed_float (negative : bool) (x : float64) : float64 := if negative then SFopp x else x.

(** [strconv.special]: the spellings of the infinities and of NaN. *)
Definition special_float (negative : bool) (s unsigned : bytes) : option float64 :=
  let lower := lower_byte <$> unsigned in
  if bool_decide (lower = &"inf") || bool_decide (lower = &"infinity") then Some (S754_infinity negative)
  else if bool_decide (lower_byte <$> s = &"nan") then Some S754_nan
  else None.

(** The exponent after the mantissa: none is needed in base 10. *)
Definition exponent_part (hex : bool) (s : bytes) : option Z :=
  match s with
  | b :: rest =>
    if bool_decide (lower_byte b = (if hex then zb 112 else zb 101)) then
      let '(negative, digits) := sign_of rest in
      match digits with
      | c :: _ =>
        if is_digit c then
          let '(e, tail) := read_exponent 0 digits in
          match tail with [] => Some (if negative then - e else e) | _ => None end
        else None
      | [] => None
      end
    else None
  | [] => if hex then None else Some 0
  end.

Definition hex_prefixed (s : bytes) : bool :=
  match s with
  | z :: x :: _ :: _ => bool_decide (z = zb 48) && bool_decide (lower_byte x = zb 120)
  | _ => false
  end.

(** [strconv.ParseFloat(s, 64)]; a value that overflows is an error. *)
Definition ParseFloat (s : bytes) : option float64 :=
  let '(negative, unsigned) := sign_of s in
  match special_float negative s unsigned with
  | Some x => Some x
  | None =>
    let hex := hex_prefixed unsigned in
    let number := if hex then drop 2 unsigned else unsigned in
    let '(m, rest) := read_mantissa hex (mkMantissa 0 0 false false) number in
    if negb (mt_digits m) then None
    else
      e ← exponent_part hex rest;
      if negb (underscores_ok hex hex false number) then None
      else
        let x := if hex then scaled 2 (mt_value m) (e - 4 * mt_fraction m)
                 else scaled 10 (mt_value m) (e - mt_fraction m) in
        if IsInf x then None else Some (signed_float negative x)
  end.

(** ** Durations *)

(** [time.leadingInt]. *)
Fixpoint leadingInt (x : Z) (s : bytes) : option (Z * bytes) :=
  match s with
  | [] => Some (x, [])
  | b :: rest =>
    if is_digit b then
      if 2 ^ 63 / 10 <? x then None
      else
        let x := x * 10 + digit_val b in
        if 2 ^ 63 <? x then None else leadingInt x rest
    else Some (x, s)
  end.

(** [time.leadingFraction]: the digits that fit, their scale and the rest. *)
Fixpoint leadingFraction (x : Z) (scale : float64) (overflow : bool) (s : bytes) : Z * float64 * bytes :=
  match s with
  | [] => (x, scale, [])
  | b :: rest =>
    if is_digit b then
      if overflow || ((2 ^ 63 - 1) / 10 <? x) then leadingFraction x scale true rest
      else
        let y := x * 10 + digit_val b in
        if 2 ^ 63 <? y then leadingFraction x scale true rest
        else leadingFraction y (fmul scale (of_int 10)) false rest
    else (x, scale, s)
  end.

Fixpoint span_unit (s : bytes) : bytes * bytes :=
  match s with
  | [] => ([], [])
  | b :: rest =>
    if bool_decide (b = zb 46) || is_digit b then ([], s)
    else let '(u, t) := span_unit rest in (b :: u, t)
  end.

(** [time.unitMap]; the two micro signs are U+00B5 and U+03BC. *)
Definition duration_unit (u : bytes) : option Z :=
  let name n := bool_decide (u = n) in
  if name (&"ns") then Some 1
  else if name (&"us") || name (zb 0xC2 :: zb 0xB5 :: &"s") || name (zb 0xCE :: zb 0xBC :: &"s") then Some 1000
  else if name (&"ms") then Some 1000000
  else if name (&"s") then Some Second
  else if name (&"m") then Some Minute
  else if name (&"h") then Some Hour
  else None.

(** The optional fraction of a number: its digits, their scale, the rest, and whether
    there were any. *)
Definition fraction_part (s : bytes) : Z * float64 * bytes * bool :=
  match s with
  | c :: t =>
    if bool_decide (c = zb 46) then
      let '(f, scale, rest) := leadingFraction 0 (of_int 1) false t in
      (f, scale, rest, negb (Nat.eqb (length rest) (length t)))
    else (0, of_int 1, s, false)
  | [] => (0, of_int 1, s, false)
  end.

(** One "number unit" term: its nanoseconds and the rest. *)
Definition duration_term (s : bytes) : option (Z * bytes) :=
  match s with
  | b :: _ =>
    if negb (bool_decide (b = zb 46) || is_digit b) then None
    else
      '(v, s1) ← leadingInt 0 s;
      let pre := negb (Nat.eqb (length s1) (length s)) in
      let '(f, scale, s2, post) := fraction_part s1 in
      if negb pre && negb post then None
      else
        let '(u, s3) := span_unit s2 in
        unit ← duration_unit u;
        if 2 ^ 63 / unit <? v then None
        else
          let v := v * unit in
          if 0 <? f then
            let v := v + to_int64 (Floor (fmul (of_int f) (fdiv (of_int unit) scale))) in
            if 2 ^ 63 <? v then None else Some (v, s3)
          else Some (v, s3)
  | [] => None
  end.

(** The loop over the terms; the sum is an unsigned 64-bit integer. *)
Fixpoint duration_terms (fuel : nat) (d : Z) (s : bytes) : option Z :=
  match fuel, s with
  | _, [] => Some d
  | O, _ => None
  | S fuel, _ =>
    '(v, rest) ← duration_term s;
    let d := uwrap 64 (d + v) in
    if 2 ^ 63 <? d then None else duration_terms fuel d rest
  end.

(** [time.ParseDuration]. *)
Definition ParseDuration (s : bytes) : option Z :=
  let '(negative, s) := sign_of s in
  if bool_decide (s = &"0") then Some 0
  else
    match s with
    | [] => None
    | _ =>
      d ← duration_terms (length s) 0 s;
      if negative then Some (wrap64 (- d))
      else if 2 ^ 63 - 1 <? d then None else Some d
    end.

(** ** Examples *)

Example float_tenth : ParseFloat &"0.1" = Some (S754_finite false 7205759403792794 (-56)).
Proof. vm_compute. reflexivity. Qed.
Example float_forms :
  ParseFloat &"10" = Some (of_int 10) /\ ParseFloat &"1_0e-1" = Some (of_int 1) /\ ParseFloat &"0x1p-1" = Some (fdiv (of_int 1) (of_int 2))
  /\ ParseFloat &"-Inf" = Some (S754_infinity true) /\ ParseFloat &"+nan" = None /\ ParseFloat &"0x1" = None
  /\ ParseFloat &"1e400" = None /\ ParseFloat &"1__0" = None /\ ParseFloat &"1e-400" = Some f_zero /\ ParseFloat &"." = None.
Proof. vm_compute. repeat split. Qed.
Example duration_forms :
  ParseDuration &"10m" = Some (10 * Minute) /\ ParseDuration &"1h30m" = Some (90 * Minute) /\ ParseDuration &"1.5s" = Some 1500000000
  /\ ParseDuration &"-3ms" = Some (-3000000) /\ ParseDuration &"0" = Some 0 /\ ParseDuration &"5" = None /\ ParseDuration &".s" = None.
Proof. vm_compute. repeat split. Qed.

(** ** Termination *)

Lemma leadingInt_shorter s x v t : leadingInt x s = Some (v, t) -> (length t <= length s)%nat.
Proof.
  revert x. induction s as [|b s IH]; intros x; simpl; [by intros [= <- <-]|].
  repeat case_match; try done; [|by intros [= <- <-]]. intros H'%IH. lia.
Qed.

Lemma leadingFraction_shorter s x scale o : (length (leadingFraction x scale o s).2 <= length s)%nat.
Proof.
  revert x scale o. induction s as [|b s IH]; intros x scale o; simpl; [done|].
  repeat case_match; simpl; try lia;
    match goal with |- context [leadingFraction ?a ?b ?c s] => pose proof (IH a b c); lia end.
Qed.

Lemma fraction_part_shorter s : (length (fraction_part s).1.2 <= length s)%nat.
Proof.
  destruct s as [|c t]; [done|]. unfold fraction_part. case_match; [|done].
  pose proof (leadingFraction_shorter t 0 (of_int 1) false) as H1.
  destruct (leadingFraction 0 (of_int 1) false t) as [[f scale] rest]. simpl in *. lia.
Qed.

Lemma span_unit_length s u t : span_unit s = (u, t) -> length s = (length u + length t)%nat.
Proof.
  revert u t. induction s as [|b s IH]; intros u t; simpl; [by intros [= <- <-]|].
  case_match; [by intros [= <- <-]|]. destruct (span_unit s) as [u' t'].
  intros [= <- <-]. simpl. by rewrite (IH u' t').
Qed.

(** Every term consumes something: a unit is never empty. *)
Lemma duration_term_shorter s v t : duration_term s = Some (v, t) -> (length t < length s)%nat.
Proof.
  unfold duration_term. destruct s as [|b s]; [done|]. case_match; [done|].
  destruct (leadingInt 0 (b :: s)) as [[v0 s1]|] eqn:EI; [|done]. apply leadingInt_shorter in EI. simpl mbind.
  pose proof (fraction_part_shorter s1) as H2. destruct (fraction_part s1) as [[[f scale] s2] post]. simpl in H2.
  case_match; [done|]. destruct (span_unit s2) as [u s3] eqn:ES. apply span_unit_length in ES.
  destruct (duration_unit u) as [unit|] eqn:EU; [|done]. simpl mbind.
  destruct u as [|x u]; [done|]. simpl in ES, EI.
  repeat case_match; try done; intros [= <- <-]; simpl; lia.
Qed.

(** The length of the text is enough fuel. *)
Lemma duration_terms_fuel n m d s :
  (length s <= n)%nat -> (length s <= m)%nat -> duration_terms n d s = duration_terms m d s.
Proof.
  revert m d s. induction n as [|n IH]; intros [|m] d [|b s] Hn Hm; simpl in Hn, Hm; try lia; try done.
  cbn [duration_terms]. destruct (duration_term (b :: s)) as [[v t]|] eqn:E; [|done].
  apply duration_term_shorter in E. simpl in E. cbn [mbind option_bind].
  case_match; [done|]. apply IH; lia.
Qed.
