(* ===== verification/GoUnicode.v ===== *)
(** * Case

    [strings.ToLower] and [strings.ToUpper]. Unicode's tables of letters are an
    interface: the model asks nothing of them, and their ASCII part is written out. *)
From S2P Require Import Prelude GoText.

(** [utf8.AppendRune]; a value that is no Unicode scalar becomes [RuneError]. *)
Definition encode_rune (r : Z) : bytes :=
  if (0 <=? r) && (r <=? 0x7F) then [zb r]
  else if (0x80 <=? r) && (r <=? 0x7FF) then [zb (0xC0 + r / 64); zb (0x80 + r mod 64)]
  else if (r <? 0) || (0x10FFFF <? r) || ((0xD800 <=? r) && (r <=? 0xDFFF))
  then [zb 0xEF; zb 0xBF; zb 0xBD]
  else if r <=? 0xFFFF
  then [zb (0xE0 + r / 4096); zb (0x80 + (r / 64) mod 64); zb (0x80 + r mod 64)]
  else [zb (0xF0 + r / 262144); zb (0x80 + (r / 4096) mod 64); zb (0x80 + (r / 64) mod 64); zb (0x80 + r mod 64)].

(** [unicode.ToLower] and [unicode.ToUpper] above ASCII. *)
Class Unicode := { lower_letter : Z -> Z; upper_letter : Z -> Z }.

Section Case.
Context {U : Unicode}.

Definition lower_rune (r : Z) : Z :=
  if (65 <=? r) && (r <=? 90) then r + 32 else if (0 <=? r) && (r <? 0x80) then r else lower_letter r.

Definition ToLower (s : bytes) : bytes := concat ((fun rc => encode_rune (lower_rune rc.1)) <$> runes s).

Definition upper_rune (r : Z) : Z :=
  if (97 <=? r) && (r <=? 122) then r - 32 else if (0 <=? r) && (r <? 0x80) then r else upper_letter r.

Definition ToUpper (s : bytes) : bytes := concat ((fun rc => encode_rune (upper_rune rc.1)) <$> runes s).

Lemma encode_rune_ascii r : 0 <= r < 0x80 -> encode_rune r = [zb r].
Proof. intros Hr. unfold encode_rune. by rewrite (proj2 (Z.leb_le 0 r)), (proj2 (Z.leb_le r 0x7F)) by lia. Qed.

Lemma lower_rune_ascii b : bz b < 0x80 -> lower_rune (bz b) = bz (lower_byte b).
Proof.
  intros Hb. pose proof (bz_range b). unfold lower_rune, lower_byte, is_upper, in_range.
  case_match eqn:Eu; [rewrite bz_zb_small; bool_simpl; lia|].
  by rewrite (proj2 (Z.leb_le 0 (bz b))), (proj2 (Z.ltb_lt (bz b) 0x80)) by lia.
Qed.

Lemma lower_byte_ascii b : bz b < 0x80 -> bz (lower_byte b) < 0x80.
Proof.
  intros Hb. pose proof (bz_range b). unfold lower_byte, is_upper, in_range.
  case_match eqn:Eu; [rewrite bz_zb_small; bool_simpl; lia|done].
Qed.

(** An ASCII string is lowered byte by byte. *)
Lemma ToLower_ascii s : ascii s -> ToLower s = lower_byte <$> s.
Proof.
  intros Hs. unfold ToLower. rewrite runes_ascii by done.
  induction Hs as [|b s Hb Hs IH]; [done|]. rewrite !fmap_cons. cbn [concat fst]. rewrite IH.
  pose proof (lower_byte_ascii b Hb). pose proof (bz_range (lower_byte b)).
  rewrite lower_rune_ascii, encode_rune_ascii by (done || lia). by rewrite zb_bz.
Qed.

(** An ASCII byte in front is lowered on its own. *)
Lemma ToLower_cons b s : bz b < 0x80 -> ToLower (b :: s) = lower_byte b :: ToLower s.
Proof.
  intros Hb. unfold ToLower. rewrite runes_cons_ascii by done. rewrite fmap_cons. cbn [concat fst].
  pose proof (lower_byte_ascii b Hb). pose proof (bz_range (lower_byte b)).
  rewrite lower_rune_ascii, encode_rune_ascii by (done || lia). by rewrite zb_bz.
Qed.
End Case.

(** ** Encoding runes

    [utf8.AppendRune] inverts the decoding of a valid sequence, and whatever it writes
    is one valid rune wherever it stands. *)

Lemma lead_len_range b :
  (lead_len b = 1%nat -> 0xC2 <= bz b <= 0xDF) /\ (lead_len b = 2%nat -> 0xE0 <= bz b <= 0xEF)
  /\ (lead_len b = 3%nat -> 0xF0 <= bz b <= 0xF4).
Proof. unfold lead_len, in_range. repeat case_match; split_and!; intros ?; try done; bool_simpl; lia. Qed.

Lemma is_cont_range b : is_cont b = true -> 0x80 <= bz b <= 0xBF.
Proof. unfold is_cont, in_range. intros ?; bool_simpl; lia. Qed.

(** What the second byte guarantees about a sequence of three and of four bytes. *)
Lemma second_ok_bounds b0 b1 :
  second_ok b0 b1 = true ->
  0x80 <= bz b1 <= 0xBF /\ (bz b0 = 0xE0 -> 0xA0 <= bz b1) /\ (bz b0 = 0xED -> bz b1 <= 0x9F)
  /\ (bz b0 = 0xF0 -> 0x90 <= bz b1) /\ (bz b0 = 0xF4 -> bz b1 <= 0x8F).
Proof. unfold second_ok, is_cont, in_range. repeat case_match; intros Hb; bool_simpl; split_and!; lia. Qed.

Lemma second_ok_intro b0 b1 :
  0x80 <= bz b1 <= 0xBF -> (bz b0 = 0xE0 -> 0xA0 <= bz b1) -> (bz b0 = 0xED -> bz b1 <= 0x9F)
  -> (bz b0 = 0xF0 -> 0x90 <= bz b1) -> (bz b0 = 0xF4 -> bz b1 <= 0x8F) -> second_ok b0 b1 = true.
Proof.
  intros. unfold second_ok, is_cont, in_range.
  repeat case_match; bool_simpl; apply andb_true_iff; split; apply Z.leb_le; lia.
Qed.

Lemma zb_is x b : x = bz b -> zb x = b.
Proof. intros ->. apply zb_bz. Qed.

Ltac range_tests :=
  repeat match goal with
  | |- context [?a <=? ?b] => first [rewrite (proj2 (Z.leb_le a b)) by lia | rewrite (proj2 (Z.leb_gt a b)) by lia]
  | |- context [?a <? ?b] => first [rewrite (proj2 (Z.ltb_lt a b)) by lia | rewrite (proj2 (Z.ltb_ge a b)) by lia]
  end; cbn [andb orb].

(** A decoded sequence is encoded back. *)
Lemma encode_rune_of b0 s :
  seq_len b0 s <> 0%nat -> let c := b0 :: take (seq_len b0 s) s in encode_rune (rune_of c) = c.
Proof.
  cbv zeta. pose proof (lead_len_range b0) as (L1 & L2 & L3).
  destruct s as [|b1 [|b2 [|b3 s]]]; unfold seq_len; destruct (lead_len b0) as [|[|[|[|?]]]] eqn:El; try done;
    destruct (second_ok b0 b1) eqn:E1; try done; apply second_ok_bounds in E1 as (E1 & B1 & B2 & B3 & B4); cbn [andb];
    try (destruct (is_cont b2) eqn:E2; [apply is_cont_range in E2|done]); cbn [andb];
    try (destruct (is_cont b3) eqn:E3; [apply is_cont_range in E3|done]); intros _; cbn [take];
    rewrite ?take_0, ?take_nil; try specialize (L1 eq_refl); try specialize (L2 eq_refl); try specialize (L3 eq_refl);
    unfold rune_of, rune2, rune3, rune4, encode_rune; range_tests;
    try (destruct (Z.lt_total (bz b0) 0xED) as [?|[?|?]]; first [exfalso; lia|range_tests]);
    repeat f_equal; apply zb_is; Z.div_mod_to_equations; lia.
Qed.

(** ** The bytes [encode_rune] writes are one valid sequence in front of any text *)

Lemma lead_len_1 b : 0xC2 <= bz b <= 0xDF -> lead_len b = 1%nat.
Proof. intros. unfold lead_len, in_range. by range_tests. Qed.
Lemma lead_len_2 b : 0xE0 <= bz b <= 0xEF -> lead_len b = 2%nat.
Proof. intros. unfold lead_len, in_range. by range_tests. Qed.
Lemma lead_len_3 b : 0xF0 <= bz b <= 0xF4 -> lead_len b = 3%nat.
Proof. intros. unfold lead_len, in_range. by range_tests. Qed.
Lemma is_cont_intro b : 0x80 <= bz b <= 0xBF -> is_cont b = true.
Proof. intros. unfold is_cont, in_range. by range_tests. Qed.

Definition one_rune (c : bytes) : Prop :=
  exists b s, c = b :: s /\ (forall x, seq_len b (s ++ x) = length s) /\ rune_ok (rune_of c, c) = true.

Lemma one_rune_ascii b : bz b < 0x80 -> one_rune [b].
Proof.
  intros Hb. pose proof (bz_range b). exists b, []. split_and!; [done| |].
  - intros x. unfold seq_len. by rewrite lead_len_ascii.
  - unfold rune_ok, rune_of, rune1, RuneError. cbn [fst snd]. range_tests. by rewrite (proj2 (Z.eqb_neq _ _)) by lia.
Qed.

Lemma one_rune_multi b s :
  s <> [] -> (forall x, seq_len b (s ++ x) = length s) -> one_rune (b :: s).
Proof. intros Hs Hl. exists b, s. split_and!; [done..|]. unfold rune_ok. cbn [fst snd]. destruct s; [done|]. by rewrite andb_false_r. Qed.

Lemma encode_rune_one r : one_rune (encode_rune r).
Proof.
  unfold encode_rune.
  destruct (Z.leb_spec 0 r), (Z.leb_spec r 0x7F); cbn [andb].
  { apply one_rune_ascii. rewrite bz_zb_small; lia. }
  all: destruct (Z.leb_spec 0x80 r), (Z.leb_spec r 0x7FF); cbn [andb]; try (exfalso; lia).
  { apply one_rune_multi; [done|]. intros x. unfold seq_len. cbn [app].
    rewrite lead_len_1 by (rewrite bz_zb_small; Z.div_mod_to_equations; lia).
    rewrite second_ok_intro; [done|rewrite !bz_zb_small; Z.div_mod_to_equations; lia ..]. }
  all: destruct ((r <? 0) || (0x10FFFF <? r) || ((0xD800 <=? r) && (r <=? 0xDFFF))) eqn:Es;
    [apply one_rune_multi; [done|by intros [|? [|? ?]]]|].
  all: try (exfalso; lia).
  apply orb_false_iff in Es as [Es Ec]. apply orb_false_iff in Es as [Ea Eb]. bool_simpl.
  apply andb_false_iff in Ec. rewrite !Z.leb_gt in Ec.
  destruct (Z.leb_spec r 0xFFFF); apply one_rune_multi; try done; intros x; unfold seq_len; cbn [app].
  - rewrite lead_len_2 by (rewrite bz_zb_small; Z.div_mod_to_equations; lia).
    rewrite second_ok_intro by (rewrite !bz_zb_small; Z.div_mod_to_equations; lia).
    by rewrite is_cont_intro by (rewrite bz_zb_small; Z.div_mod_to_equations; lia).
  - rewrite lead_len_3 by (rewrite bz_zb_small; Z.div_mod_to_equations; lia).
    rewrite second_ok_intro by (rewrite !bz_zb_small; Z.div_mod_to_equations; lia).
    by rewrite !is_cont_intro by (rewrite bz_zb_small; Z.div_mod_to_equations; lia).
Qed.

Lemma runes_one c x : one_rune c -> runes (c ++ x) = (rune_of c, c) :: runes x.
Proof.
  intros (b & s & -> & Hl & _). cbn [app]. rewrite runes_cons, Hl. cbv zeta.
  by rewrite take_app_length, drop_app_length.
Qed.

Lemma ValidString_one c x : one_rune c -> ValidString (c ++ x) = ValidString x.
Proof.
  intros Hc. unfold ValidString. rewrite runes_one by done. cbn [forallb].
  by destruct Hc as (b & s & -> & _ & ->).
Qed.
