(* ===== verification/GoUrl.v ===== *)
(** * URLs

    The parts of [net/url] that the HTTP adapters use: [ParseQuery] with its
    unescaping, and [PathEscape]. *)
From S2P Require Import Prelude GoText GoEncoding.

(** [url.QueryUnescape]; [None] for a malformed percent escape. *)
Fixpoint query_unescape (s : bytes) : option bytes :=
  match s with
  | [] => Some []
  | b :: rest =>
    if bool_decide (b = zb 37) then
      match rest with
      | x :: y :: rest' =>
        h ← hex_val x; l ← hex_val y; t ← query_unescape rest'; Some (zb (16 * h + l) :: t)
      | _ => None
      end
    else if bool_decide (b = zb 43) then t ← query_unescape rest; Some (zb 32 :: t)
    else t ← query_unescape rest; Some (b :: t)
  end.

(** [strings.Cut(s, sep)] for a one-byte separator. *)
Definition cut_byte (s : bytes) (sep : byte) : bytes * bytes :=
  match index_byte s sep with
  | None => (s, [])
  | Some n => (take n s, drop (S n) s)
  end.

(** One "key=value" pair of a query, unescaped. *)
Definition query_pair (segment : bytes) : option (bytes * bytes) :=
  if bool_decide (zb 59 ∈ segment) then None
  else
    let '(k, v) := cut_byte segment (zb 61) in
    k ← query_unescape k; v ← query_unescape v; Some (k, v).

(** The most parameters that [ParseQuery] accepts. *)
Definition max_query_params : Z := 10000.

(** [url.ParseQuery]: the pairs in order; [None] when there are too many segments or
    when any pair is malformed. *)
Definition ParseQuery (query : bytes) : option (list (bytes * bytes)) :=
  let segments := split_byte (zb 38) query in
  if max_query_params <? Z.of_nat (length segments) then None
  else mapM query_pair (List.filter (fun s => negb (bool_decide (s = []))) segments).

(** [values[key]]: an absent key has no values. *)
Definition query_values (values : list (bytes * bytes)) (key : bytes) : list bytes :=
  snd <$> List.filter (fun p => bool_decide (fst p = key)) values.

Definition upper_hex (z : Z) : byte := zb (if z <? 10 then 48 + z else 55 + z).

(** [url.PathEscape]. *)
Definition path_unreserved (b : byte) : bool := is_alnum b || in_set &"-_.~$&+=:@" b.
Fixpoint path_escape (s : bytes) : bytes :=
  match s with
  | [] => []
  | b :: rest =>
    if path_unreserved b then b :: path_escape rest
    else zb 37 :: upper_hex (bz b / 16) :: upper_hex (bz b mod 16) :: path_escape rest
  end.

(** ** Lemmas *)

Lemma path_escape_plain s : forallb path_unreserved s = true -> path_escape s = s.
Proof.
  induction s as [|b s IH]; [done|]. simpl. intros [Hb Hs]%andb_true_iff.
  rewrite Hb. by rewrite IH.
Qed.

Lemma query_unescape_plain s :
  forallb (fun b => negb (bool_decide (b = zb 37)) && negb (bool_decide (b = zb 43))) s = true ->
  query_unescape s = Some s.
Proof.
  induction s as [|b s IH]; [done|]. simpl. intros [[Hp Hq]%andb_true_iff Hs]%andb_true_iff.
  bool_simpl. rewrite !bool_decide_false by done. by rewrite IH.
Qed.

Lemma cut_byte_app p q c : c ∉ p -> cut_byte (p ++ c :: q) c = (p, q).
Proof.
  intros Hc. unfold cut_byte. rewrite index_byte_app, take_app_length by done. f_equal.
  rewrite (cons_middle c p q), app_assoc. apply drop_app_length'. rewrite length_app. simpl. lia.
Qed.

Lemma split_byte_app c p q : c ∉ p -> split_byte c (p ++ c :: q) = p :: split_byte c q.
Proof.
  induction p as [|b p IH]; intros Hc; simpl.
  - by rewrite bool_decide_true.
  - rewrite bool_decide_false by set_solver. by rewrite IH by set_solver.
Qed.

Lemma split_byte_none c p : c ∉ p -> split_byte c p = [p].
Proof.
  induction p as [|b p IH]; intros Hc; simpl; [done|].
  rewrite bool_decide_false by set_solver. by rewrite IH by set_solver.
Qed.

(** Bytes that mean nothing special in a query. *)
Definition query_plain (b : byte) : bool :=
  negb (in_set [zb 38; zb 59; zb 61; zb 37; zb 43] b).

Lemma query_plain_notin s b :
  forallb query_plain s = true -> b ∈ [zb 38; zb 59; zb 61; zb 37; zb 43] -> b ∉ s.
Proof.
  intros Hs Hb Hin. rewrite forallb_forall in Hs. apply list_elem_of_In, Hs in Hin.
  unfold query_plain, in_set in Hin. bool_simpl. done.
Qed.

Lemma query_pair_plain k v :
  forallb query_plain k = true -> forallb query_plain v = true ->
  query_pair (k ++ zb 61 :: v) = Some (k, v).
Proof.
  intros Hk Hv. unfold query_pair.
  assert (forall s, forallb query_plain s = true -> query_unescape s = Some s) as Hplain.
  { intros s Hs. apply query_unescape_plain, forallb_forall. intros b Hb.
    rewrite forallb_forall in Hs. apply Hs in Hb. unfold query_plain, in_set in Hb. bool_simpl.
    rewrite !bool_decide_false; [done|set_solver..]. }
  rewrite bool_decide_false.
  2: { intros [Hin|Hin]%elem_of_app; [by eapply query_plain_notin in Hin; [|done|set_solver]|].
       apply elem_of_cons in Hin as [E|Hin]; [by vm_compute in E|].
       by eapply query_plain_notin in Hin; [|done|set_solver]. }
  rewrite cut_byte_app by (eapply query_plain_notin; [done|set_solver]).
  by rewrite !Hplain.
Qed.

Lemma b64_encode_plain l : forallb query_plain (b64_encode l) = true.
Proof.
  apply forallb_forall. intros b Hb%list_elem_of_In. pose proof (b64_encode_chars l) as Hc.
  rewrite Forall_forall in Hc. destruct (Hc b Hb) as (z & Hz & ->).
  clear Hb. revert z Hz. apply (range_forall 0 64 (fun z => query_plain (b64_char z))). vm_compute. reflexivity.
Qed.

(** ** URL values *)

(** What the program reads of a [url.URL]: [u_hostname] and [u_port] are the two
    parts of the host, and a present [User] is a flag. *)
Record url := mkUrl {
  u_scheme : bytes;
  u_opaque : bytes;
  u_user : bool;
  u_host : bytes;
  u_hostname : bytes;
  u_port : bytes;
  u_path : bytes;
  u_forceQuery : bool;
  u_rawQuery : bytes;
  u_fragment : bytes;
}.

Definition set_scheme (u : url) (scheme : bytes) : url :=
  mkUrl scheme (u_opaque u) (u_user u) (u_host u) (u_hostname u) (u_port u) (u_path u) (u_forceQuery u) (u_rawQuery u) (u_fragment u).
Definition set_path (u : url) (path : bytes) : url :=
  mkUrl (u_scheme u) (u_opaque u) (u_user u) (u_host u) (u_hostname u) (u_port u) path (u_forceQuery u) (u_rawQuery u) (u_fragment u).
Definition set_fragment (u : url) (fragment : bytes) : url :=
  mkUrl (u_scheme u) (u_opaque u) (u_user u) (u_host u) (u_hostname u) (u_port u) (u_path u) (u_forceQuery u) (u_rawQuery u) fragment.
