(* ===== verification/GoNet.v ===== *)
(** * Addresses

    The parts of [net] and [net/netip] that the sources use: [netip.ParseAddr] and
    [net.ParseIP], the canonical text of an address, [net.SplitHostPort] and
    [net.JoinHostPort]; and of [net/mail], the texts that are their own address. *)
From S2P Require Import Prelude GoText GoEncoding GoUrl.

(** ** Searching *)

(** [strings.LastIndexByte]; [None] for -1. *)
Definition last_index_byte (s : bytes) (c : byte) : option nat :=
  (fun n => length s - 1 - n)%nat <$> index_byte (rev s) c.

Fixpoint span (f : byte -> bool) (s : bytes) : bytes * bytes :=
  match s with
  | b :: rest => if f b then let '(u, t) := span f rest in (b :: u, t) else ([], s)
  | [] => ([], [])
  end.

(** ** Parsing addresses *)

(** The four fields of a dotted address, no leading zeros; [digits] counts those of the
    field being read, whose value so far is [val]. *)
Fixpoint ipv4_fields (fields : list Z) (digits : nat) (val : Z) (s : bytes) : option (list Z) :=
  match s with
  | [] => if Nat.eqb (length fields) 3 && negb (Nat.eqb digits 0) then Some (fields ++ [val]) else None
  | b :: rest =>
    if is_digit b then
      if Nat.eqb digits 1 && (val =? 0) then None
      else
        let val := val * 10 + digit_val b in
        if 255 <? val then None else ipv4_fields fields (S digits) val rest
    else if bool_decide (b = zb 46) then
      if Nat.eqb digits 0 || Nat.eqb (length fields) 3 then None else ipv4_fields (fields ++ [val]) 0 0 rest
    else None
  end.

Definition parse_ipv4 (s : bytes) : option (list Z) := ipv4_fields [] 0 0 s.

Definition is_hex (b : byte) : bool := match hex_val b with Some _ => true | None => false end.
Definition hex_number (digits : bytes) : Z :=
  fold_left (fun acc b => acc * 16 + default 0 (hex_val b)) digits 0.

(** The eight groups, zeros in the place of an ellipsis, which stands for one at least. *)
Definition fill_ellipsis (groups : list Z) (ellipsis : option nat) : option (list Z) :=
  if (length groups <? 8)%nat then
    k ← ellipsis; Some (take k groups ++ replicate (8 - length groups) 0 ++ drop k groups)
  else match ellipsis with None => Some groups | Some _ => None end.

(** The two groups of an embedded dotted address. *)
Definition embedded (fields : list Z) : list Z :=
  match fields with [a; b; c; d] => [a * 256 + b; c * 256 + d] | _ => [] end.

(** The loop of [netip.parseIPv6]; every turn but the last adds a group. *)
Fixpoint ipv6_groups (fuel : nat) (groups : list Z) (ellipsis : option nat) (s : bytes) : option (list Z) :=
  match fuel with
  | O => None
  | S fuel =>
    if (8 <=? length groups)%nat then None
    else
      let '(digits, rest) := span is_hex s in
      if (4 <? length digits)%nat || Nat.eqb (length digits) 0 then None
      else
        let groups' := groups ++ [hex_number digits] in
        match rest with
        | b :: next =>
          if bool_decide (b = zb 46) then
            if (match ellipsis with None => negb (Nat.eqb (length groups) 6) | Some _ => false end)
               || (6 <? length groups)%nat then None
            else fields ← parse_ipv4 s; fill_ellipsis (groups ++ embedded fields) ellipsis
          else if negb (bool_decide (b = zb 58)) then None
          else
            match next with
            | [] => None
            | c :: next' =>
              if bool_decide (c = zb 58) then
                match ellipsis with
                | Some _ => None
                | None =>
                  match next' with
                  | [] => fill_ellipsis groups' (Some (length groups'))
                  | _ => ipv6_groups fuel groups' (Some (length groups')) next'
                  end
                end
              else ipv6_groups fuel groups' ellipsis next
            end
        | [] => fill_ellipsis groups' ellipsis
        end
  end.

Definition parse_ipv6_address (s : bytes) : option (list Z) :=
  match s with
  | a :: b :: rest =>
    if bool_decide (a = zb 58) && bool_decide (b = zb 58) then
      match rest with [] => Some (replicate 8 0) | _ => ipv6_groups 9 [] (Some 0%nat) rest end
    else ipv6_groups 9 [] None s
  | _ => None
  end.

Inductive addr := Addr4 (fields : list Z) | Addr6 (groups : list Z) (zone : bytes).

(** [netip.ParseAddr]: the first dot, colon or percent sign decides. *)
Definition ParseAddr (s : bytes) : option addr :=
  match List.find (fun b => in_set &".:%" b) s with
  | Some b =>
    if bool_decide (b = zb 46) then Addr4 <$> parse_ipv4 s
    else if bool_decide (b = zb 58) then
      let '(address, zone) := cut_byte s (zb 37) in
      if bool_decide (zb 37 ∈ s) && bool_decide (zone = []) then None
      else groups ← parse_ipv6_address address; Some (Addr6 groups zone)
    else None
  | None => None
  end.

(** ** Addresses as text *)

Definition ipv4_text (fields : list Z) : bytes := join_bytes &"." (Itoa <$> fields).

(** Hexadecimal digits without leading zeros. *)
Definition hex_text (n : Z) : bytes :=
  let digits := [hex_digit (n / 4096); hex_digit ((n / 256) mod 16); hex_digit ((n / 16) mod 16)] in
  drop_while (fun b => bool_decide (b = zb 48)) digits ++ [hex_digit (n mod 16)].

(** The length of the run of zero groups at the front. *)
Fixpoint zero_run (groups : list Z) : nat :=
  match groups with g :: rest => if g =? 0 then S (zero_run rest) else 0%nat | [] => 0%nat end.

(** The first of the longest runs of two zero groups or more: its start and its length. *)
Fixpoint longest_run (i : nat) (groups : list Z) (best : nat * nat) : nat * nat :=
  match groups with
  | [] => best
  | _ :: rest =>
    let l := zero_run groups in
    longest_run (S i) rest (if (2 <=? l)%nat && (best.2 <? l)%nat then (i, l) else best)
  end.

Definition ipv6_text (groups : list Z) : bytes :=
  let '(start, l) := longest_run 0 groups (0%nat, 0%nat) in
  match l with
  | O => join_bytes &":" (hex_text <$> groups)
  | _ => join_bytes &":" (hex_text <$> take start groups) ++ &"::" ++ join_bytes &":" (hex_text <$> drop (start + l) groups)
  end.

(** [net.ParseIP(s).String()]; [None] for a nil address. A zone is refused, and an
    IPv4 address embedded in IPv6 is written as IPv4. *)
Definition ip_string (s : bytes) : option bytes :=
  match ParseAddr s with
  | Some (Addr4 fields) => Some (ipv4_text fields)
  | Some (Addr6 groups []) =>
    match groups with
    | [0; 0; 0; 0; 0; 0xFFFF; hi; lo] => Some (ipv4_text [hi / 256; hi mod 256; lo / 256; lo mod 256])
    | _ => Some (ipv6_text groups)
    end
  | _ => None
  end.

(** ** Hosts and ports *)

(** [net.SplitHostPort]; [None] for its errors. *)
Definition SplitHostPort (hostport : bytes) : option (bytes * bytes) :=
  i ← last_index_byte hostport (zb 58);
  let port := drop (S i) hostport in
  match hostport with
  | b :: rest =>
    if bool_decide (b = zb 91) then
      close ← index_byte hostport (zb 93);
      if negb (Nat.eqb (S close) i) then None
      else if bool_decide (zb 91 ∈ rest) || bool_decide (zb 93 ∈ drop (S close) hostport) then None
      else Some (take (close - 1) rest, port)
    else
      let host := take i hostport in
      if bool_decide (zb 58 ∈ host) || bool_decide (zb 91 ∈ hostport) || bool_decide (zb 93 ∈ hostport) then None
      else Some (host, port)
  | [] => None
  end.

(** [net.JoinHostPort]. *)
Definition JoinHostPort (host port : bytes) : bytes :=
  if bool_decide (zb 58 ∈ host) || bool_decide (zb 37 ∈ host)
  then &"[" ++ host ++ &"]:" ++ port else host ++ &":" ++ port.

(** ** Mail addresses

    The addr-spec of [mail.ParseAddress]. *)

(** [isAtext], dots allowed: a printable character that is no special, or beyond ASCII. *)
Definition is_atext (r : Z) : bool :=
  negb (existsb (fun b => r =? bz b) &"()<>[]:;@\,") && negb (r =? 34)
  && ((33 <=? r) && (r <=? 126) || (0x80 <=? r)).

(** The characters of an atom and what follows; [None] when they end at a byte that is
    no UTF-8. *)
Fixpoint atom_run (l : list (Z * bytes)) : option (bytes * bytes) :=
  match l with
  | [] => Some ([], [])
  | (r, chunk) :: l' =>
    if negb (rune_ok (r, chunk)) then None
    else if is_atext r then '(atom, rest) ← atom_run l'; Some (chunk ++ atom, rest)
    else Some ([], unrunes l)
  end.

(** [consumeAtom(true, false)]: a dot neither leads, nor trails, nor follows a dot. *)
Definition consumeAtom (s : bytes) : option (bytes * bytes) :=
  '(atom, rest) ← atom_run (runes s);
  if bool_decide (atom = []) || has_prefix atom &"." || contains atom &".." || has_suffix atom &"."
  then None else Some (atom, rest).

(** A domain that is an address in brackets. *)
Definition domain_literal (s : bytes) : bool :=
  match s, rev s with
  | opening :: _ :: _, closing :: _ =>
    bool_decide (opening = zb 91) && bool_decide (closing = zb 93)
    && match ip_string (removelast (drop 1 s)) with Some _ => true | None => false end
  | _, _ => false
  end.

(** Whether [mail.ParseAddress] succeeds on a text with the address equal to the text: an
    atom, the sign and an atom or a literal. In every other form that it accepts (a
    display name, angle brackets, a quoted local part, spaces, comments, a group) the
    address is shorter than the text. *)
Definition own_address (s : bytes) : bool :=
  match consumeAtom s with
  | Some (_, at_sign :: domain) =>
    bool_decide (at_sign = zb 64)
    && (domain_literal domain || match consumeAtom domain with Some (_, []) => true | _ => false end)
  | _ => false
  end.

(** ** Examples *)

Example ip_forms :
  ip_string &"192.0.2.1" = Some &"192.0.2.1" /\ ip_string &"192.0.2.01" = None /\ ip_string &"256.0.0.1" = None
  /\ ip_string &"2001:DB8::0:1" = Some &"2001:db8::1" /\ ip_string &"::" = Some &"::" /\ ip_string &"::1" = Some &"::1"
  /\ ip_string &"1::" = Some &"1::" /\ ip_string &"::ffff:10.1.2.3" = Some &"10.1.2.3" /\ ip_string &"1:2:3:4:5:6:7:8" = Some &"1:2:3:4:5:6:7:8"
  /\ ip_string &"1:2:3:4:5:6:7::" = Some &"1:2:3:4:5:6:7:0" /\ ip_string &"1:2:3:4:5:6:7:8::" = None /\ ip_string &"1:0:0:2:0:0:0:3" = Some &"1:0:0:2::3"
  /\ ip_string &"fe80::1%eth0" = None /\ ip_string &"a.b" = None /\ ip_string &"" = None /\ ip_string &"12345::" = None.
Proof. vm_compute. repeat split. Qed.

Example split_forms :
  SplitHostPort &"192.0.2.1:443" = Some (&"192.0.2.1", &"443") /\ SplitHostPort &"[::1]:80" = Some (&"::1", &"80")
  /\ SplitHostPort &"::1:80" = None /\ SplitHostPort &"host" = None /\ SplitHostPort &"[::1]" = None /\ SplitHostPort &":8080" = Some ([], &"8080").
Proof. vm_compute. repeat split. Qed.

Example address_forms :
  (own_address <$> [&"a.b+c@example.com"; &"a@b"; &"a@[192.0.2.1]"; &"a@example.com-"; [zb 0xC3; zb 0xA9] ++ &"@example.com"])
    = replicate 5 true
  /\ (own_address <$> [&""; &"a"; &"a@"; &"@b"; &".a@b"; &"a.@b"; &"a..b@c"; &"a@b c"; &" a@b"; &"A <a@b>"; &"a@b@c"; &"a@b."; &"a@[b]"; [zb 0xC3] ++ &"@b"])
    = replicate 14 false.
Proof. vm_compute. repeat split. Qed.

(** ** Facts

    The canonical text of an address is short and made of hexadecimal digits, colons
    and dots. *)

Definition octet (n : Z) : Prop := 0 <= n < 256.
Definition group (n : Z) : Prop := 0 <= n < 65536.

(** ** Parsed addresses are in range *)

Lemma digit_val_range b : is_digit b = true -> 0 <= digit_val b <= 9.
Proof. unfold is_digit, in_range, digit_val. intros Hb. bool_simpl. lia. Qed.

Lemma ipv4_fields_range s fields digits val r :
  Forall octet fields -> octet val -> ipv4_fields fields digits val s = Some r -> Forall octet r /\ length r = 4%nat.
Proof.
  revert fields digits val. induction s as [|b s IH]; intros fields digits val Hf Hv; cbn [ipv4_fields].
  - destruct (Nat.eqb_spec (length fields) 3) as [E|]; [|done]. case_match; [|done]. intros [= <-]. split.
    + apply Forall_app_2; [done|by constructor].
    + rewrite length_app, E. done.
  - destruct (is_digit b) eqn:Ed.
    + case_match; [done|]. destruct (Z.ltb_spec 255 (val * 10 + digit_val b)); [done|]. apply IH; [done|].
      apply digit_val_range in Ed. unfold octet in *. lia.
    + case_bool_decide; [|done]. destruct (_ || _); [done|]. apply IH; [apply Forall_app_2; [done|by constructor]|done].
Qed.

Lemma hex_val_range b v : hex_val b = Some v -> 0 <= v < 16.
Proof.
  set (ok := fun b => match hex_val b with Some v => (0 <=? v) && (v <? 16) | None => true end).
  assert (ok b = true) as Hb by (apply byte_forall; vm_compute; reflexivity).
  unfold ok in Hb. intros E. rewrite E in Hb. bool_simpl. lia.
Qed.

Lemma hex_number_range digits : (length digits <= 4)%nat -> group (hex_number digits).
Proof.
  unfold hex_number. intros Hl.
  assert (forall l acc n, 0 <= acc < 16 ^ Z.of_nat n ->
    0 <= fold_left (fun acc b => acc * 16 + default 0 (hex_val b)) l acc < 16 ^ Z.of_nat (n + length l)) as Hg.
  { intros l. induction l as [|b l IH]; intros acc n Ha; [by rewrite Nat.add_0_r|]. cbn [fold_left].
    replace (n + length (b :: l))%nat with (S n + length l)%nat by (simpl; lia). apply IH.
    assert (0 <= default 0 (hex_val b) < 16).
    { destruct (hex_val b) as [v|] eqn:E; [by apply hex_val_range in E|simpl; lia]. }
    rewrite Nat2Z.inj_succ, Z.pow_succ_r by lia. lia. }
  pose proof (Hg digits 0 0%nat ltac:(simpl; lia)) as Hr. cbn [Nat.add] in Hr.
  assert (16 ^ Z.of_nat (length digits) <= 16 ^ 4) by (apply Z.pow_le_mono_r; lia). unfold group.
  change (16 ^ 4) with 65536 in *. lia.
Qed.

Lemma span_all f s u t : span f s = (u, t) -> s = u ++ t.
Proof.
  revert u t. induction s as [|b s IH]; intros u t; cbn [span]; [by intros [= <- <-]|].
  destruct (f b); [|by intros [= <- <-]]. destruct (span f s) as [u' t']. intros [= <- <-]. cbn. by rewrite (IH u' t').
Qed.

Definition groups_ok (r : list Z) : Prop := Forall group r /\ length r = 8%nat.

Lemma fill_ellipsis_ok groups ellipsis r :
  Forall group groups -> (length groups <= 8)%nat -> fill_ellipsis groups ellipsis = Some r -> groups_ok r.
Proof.
  unfold fill_ellipsis. intros Hg Hl. destruct (Nat.ltb_spec (length groups) 8).
  - destruct ellipsis as [k|]; [|done]. cbn [mbind option_bind]. intros [= <-]. split.
    + repeat apply Forall_app_2; [by apply Forall_take|apply Forall_replicate; unfold group; lia|by apply Forall_drop].
    + rewrite !length_app, length_take, length_replicate, length_drop. lia.
  - destruct ellipsis; [done|]. intros [= <-]. split; [done|lia].
Qed.

Lemma embedded_ok fields : Forall octet fields -> length fields = 4%nat -> Forall group (embedded fields) /\ length (embedded fields) = 2%nat.
Proof.
  destruct fields as [|a [|b [|c [|d [|]]]]]; try done. intros Hf _. unfold embedded. split; [|done].
  rewrite !Forall_cons in Hf. unfold octet, group in *. repeat constructor; lia.
Qed.

Lemma ipv6_groups_ok fuel groups ellipsis s r :
  Forall group groups -> ipv6_groups fuel groups ellipsis s = Some r -> groups_ok r.
Proof.
  revert groups ellipsis s. induction fuel as [|fuel IH]; intros groups ellipsis s Hg; [done|]. cbn [ipv6_groups].
  destruct (Nat.leb_spec 8 (length groups)); [done|]. destruct (span is_hex s) as [digits rest].
  destruct (Nat.ltb_spec 4 (length digits)); [done|]. cbn [orb]. case_match; [done|].
  assert (Forall group (groups ++ [hex_number digits])) as Hg'.
  { apply Forall_app_2; [done|]. constructor; [by apply hex_number_range|done]. }
  assert (length (groups ++ [hex_number digits]) <= 8)%nat as Hl by (rewrite length_app; simpl; lia).
  destruct rest as [|b next]; [by apply fill_ellipsis_ok|]. case_bool_decide.
  - destruct ((match ellipsis with None => _ | Some _ => _ end) || _) eqn:Ee; [done|]. unfold parse_ipv4.
    destruct (ipv4_fields [] 0 0 s) as [fields|] eqn:Ef; [|done]. cbn [mbind option_bind].
    apply ipv4_fields_range in Ef as [Hf1 Hf2]; [|constructor|unfold octet; lia].
    destruct (embedded_ok fields Hf1 Hf2) as [He1 He2]. apply orb_false_iff in Ee as [_ Ee]. apply Nat.ltb_ge in Ee.
    apply fill_ellipsis_ok; [by apply Forall_app_2|rewrite length_app; lia].
  - case_bool_decide; [|done]. cbn [negb]. destruct next as [|c next']; [done|]. case_bool_decide; [|by apply IH].
    destruct ellipsis; [done|]. destruct next' as [|? ?]; [by apply fill_ellipsis_ok|by apply IH].
Qed.

Lemma ParseAddr_ok s :
  match ParseAddr s with
  | Some (Addr4 fields) => Forall octet fields /\ length fields = 4%nat
  | Some (Addr6 groups _) => groups_ok groups
  | None => True
  end.
Proof.
  unfold ParseAddr. destruct (List.find _ s); [|done]. case_bool_decide.
  - unfold parse_ipv4. destruct (ipv4_fields [] 0 0 s) eqn:E; [|done]. cbn.
    eapply ipv4_fields_range; [| |exact E]; [constructor|unfold octet; lia].
  - case_bool_decide; [|done]. destruct (cut_byte s (zb 37)) as [address zone].
    destruct (bool_decide (zb 37 ∈ s) && _); [done|].
    destruct (parse_ipv6_address address) as [groups|] eqn:E; [|done]. cbn [mbind option_bind].
    unfold parse_ipv6_address in E. destruct address as [|x [|y rest]]; try done.
    destruct (bool_decide (x = zb 58) && _).
    + destruct rest; [|eapply ipv6_groups_ok; [constructor|exact E]]. injection E as <-. split; [|done].
      repeat (constructor; [unfold group; lia|]). constructor.
    + eapply ipv6_groups_ok; [constructor|exact E].
Qed.

(** ** Their texts *)

Definition address_char (b : byte) : bool := is_hex b || in_set &":." b.

(** A text of at most [n] characters of an address. *)
Definition short (n : nat) (s : bytes) : Prop := (length s <= n)%nat /\ forallb address_char s = true.

Lemma short_app n m s t : short n s -> short m t -> short (n + m) (s ++ t).
Proof. intros [Hs Hcs] [Ht Hct]. split; [rewrite length_app; lia|by rewrite forallb_app, Hcs]. Qed.

Lemma short_le n m s : (n <= m)%nat -> short n s -> short m s.
Proof. intros ? [? ?]. split; [lia|done]. Qed.

Lemma short_join sep n texts :
  short 1 sep -> Forall (short n) texts -> short (length texts * S n) (join_bytes sep texts).
Proof.
  intros Hs. induction 1 as [|t texts Ht Hts IH]; [by split|]. destruct texts as [|t' texts].
  - eapply short_le; [|exact Ht]. simpl. lia.
  - change (join_bytes sep (t :: t' :: texts)) with (t ++ sep ++ join_bytes sep (t' :: texts)).
    eapply short_le; [|apply short_app; [exact Ht|apply short_app; [exact Hs|exact IH]]]. simpl. lia.
Qed.

Lemma Itoa_octet n : octet n -> short 3 (Itoa n).
Proof.
  intros Hn. assert (((length (Itoa n) <=? 3)%nat && forallb address_char (Itoa n)) = true) as Ht.
  { apply (range_forall 0 256 (fun n => (length (Itoa n) <=? 3)%nat && forallb address_char (Itoa n))); [vm_compute; reflexivity|].
    unfold octet in Hn. lia. }
  apply andb_true_iff in Ht as [Hl Hc]. apply Nat.leb_le in Hl. by split.
Qed.

Lemma hex_digit_char z : 0 <= z < 16 -> address_char (hex_digit z) = true.
Proof. apply (range_forall 0 16 (fun z => address_char (hex_digit z))). vm_compute. reflexivity. Qed.

Lemma hex_text_group n : group n -> short 4 (hex_text n).
Proof.
  unfold group, hex_text. intros Hn. set (digits := [hex_digit (n / 4096); _; _]).
  assert (forallb address_char digits = true) as Hd.
  { unfold digits. cbn [forallb]. rewrite !hex_digit_char; [done|apply Z.mod_pos_bound; lia|apply Z.mod_pos_bound; lia|].
    split; [apply Z.div_pos; lia|apply Z.div_lt_upper_bound; lia]. }
  destruct (drop_while_drop (fun b => bool_decide (b = zb 48)) digits) as [k ->]. apply (short_app 3 1).
  - split; [rewrite length_drop; simpl; lia|]. rewrite <- (take_drop k digits), forallb_app in Hd. by apply andb_true_iff in Hd as [_ ?].
  - split; [done|]. cbn [forallb]. rewrite hex_digit_char by (apply Z.mod_pos_bound; lia). done.
Qed.

Lemma texts_short {A} (f : A -> bytes) (P : A -> Prop) n l : (forall a, P a -> short n (f a)) -> Forall P l -> Forall (short n) (f <$> l).
Proof. intros Hf Hl. apply Forall_fmap. eapply Forall_impl; [exact Hl|exact Hf]. Qed.

Lemma sep_short b : address_char b = true -> short 1 [b].
Proof. intros Hb. split; [done|]. cbn. by rewrite Hb. Qed.

(** The text of an address. *)
Lemma ip_string_short s t : ip_string s = Some t -> short 82 t /\ t <> [].
Proof.
  assert (forall fields, Forall octet fields -> length fields = 4%nat -> short 82 (ipv4_text fields)) as H4.
  { intros fields Hf Hl. eapply short_le; [|apply short_join; [by apply sep_short|by eapply texts_short; [apply Itoa_octet|]]].
    rewrite length_fmap, Hl. simpl. lia. }
  assert (forall groups, groups_ok groups -> short 82 (ipv6_text groups)) as H6.
  { intros groups [Hg Hl]. unfold ipv6_text. destruct (longest_run 0 groups (0%nat, 0%nat)) as [start l].
    assert (forall part, Forall group part -> (length part <= 8)%nat -> short 40 (join_bytes &":" (hex_text <$> part))) as Hj.
    { intros part Hp Hlp. eapply short_le; [|apply short_join; [by apply sep_short|by eapply texts_short; [apply hex_text_group|]]].
      rewrite length_fmap. lia. }
    destruct l; [eapply short_le; [|by apply Hj; [|lia]]; lia|].
    apply (short_app 40 42), (short_app 2 40); [apply Hj; [by apply Forall_take|rewrite length_take; lia]|by split|].
    apply Hj; [by apply Forall_drop|rewrite length_drop; lia]. }
  assert (forall fields : list Z, length fields = 4%nat -> ipv4_text fields <> []) as N4.
  { intros [|a [|b fields]] Hl E; [done|done|]. apply (f_equal length) in E. unfold ipv4_text in E. rewrite !fmap_cons in E.
    change (join_bytes &"." (Itoa a :: Itoa b :: ?r)) with (Itoa a ++ &"." ++ join_bytes &"." (Itoa b :: r)) in E.
    rewrite !length_app in E. simpl in E. lia. }
  assert (forall groups, groups_ok groups -> ipv6_text groups <> []) as N6.
  { intros groups [_ Hl] E. apply (f_equal length) in E. unfold ipv6_text in E. destruct (longest_run _ _ _) as [start [|l]].
    - destruct groups as [|a [|b groups]]; [done|done|]. rewrite !fmap_cons in E.
      change (join_bytes &":" (hex_text a :: hex_text b :: ?r)) with (hex_text a ++ &":" ++ join_bytes &":" (hex_text b :: r)) in E.
      rewrite !length_app in E. simpl in E. lia.
    - rewrite !length_app in E. simpl in E. lia. }
  unfold ip_string. pose proof (ParseAddr_ok s) as Hp. destruct (ParseAddr s) as [[fields|groups [|? ?]]|]; try done.
  { intros [= <-]. destruct Hp as [Hf Hl]. auto. }
  assert (forall g, Some (ipv6_text groups) = Some g -> short 82 g /\ g <> []) as Hd by (intros g [= <-]; auto).
  destruct Hp as [Hg Hl].
  repeat (case_match; try by apply Hd). intros [= <-]. subst.
  assert (forall hi lo, group hi -> group lo -> Forall octet [hi / 256; hi mod 256; lo / 256; lo mod 256]) as Ho.
  { unfold group, octet. intros hi lo Hhi Hlo. repeat constructor; try (apply Z.mod_pos_bound; lia); try (apply Z.div_pos; lia);
      apply Z.div_lt_upper_bound; lia. }
  rewrite !Forall_cons in Hg. split; [apply H4; [apply Ho; tauto|done]|by apply N4].
Qed.

(** ** The texts that are addresses *)

Lemma atom_run_app l atom rest :
  atom_run l = Some (atom, rest) -> unrunes l = atom ++ rest.
Proof.
  revert atom rest. induction l as [|[r c] l IH]; intros atom rest; cbn [atom_run]; [by intros [= <- <-]|].
  destruct (negb (rune_ok (r, c))); [done|]. destruct (is_atext r); [|by intros [= <- <-]].
  destruct (atom_run l) as [[a b]|]; [|done]. intros [= <- <-]. rewrite unrunes_cons, <- app_assoc. f_equal. by apply IH.
Qed.

Lemma consumeAtom_app s atom rest : consumeAtom s = Some (atom, rest) -> s = atom ++ rest /\ atom <> [].
Proof.
  unfold consumeAtom. destruct (atom_run (runes s)) as [[a b]|] eqn:E; [|done]. cbn [mbind option_bind].
  destruct (decide (a = [])) as [->|Hne]; [done|]. rewrite bool_decide_eq_false_2 by done. cbn [orb].
  destruct (_ || _); [done|]. intros [= <- <-]. split; [|done]. rewrite <- (unrunes_runes s) at 1. by apply atom_run_app.
Qed.

(** An address has a local part and a domain. *)
Lemma own_address_parts s :
  own_address s = true -> exists local domain, s = local ++ &"@" ++ domain /\ local <> [] /\ domain <> [].
Proof.
  unfold own_address. destruct (consumeAtom s) as [[local [|b domain]]|] eqn:E; try done.
  apply consumeAtom_app in E as [-> Hl]. rewrite andb_true_iff, bool_decide_eq_true. intros [-> Hd].
  exists local, domain. split; [done|]. split; [done|]. by intros ->.
Qed.
