(* ===== verification/GoCalendar.v ===== *)
(** * Dates and their text

    The civil date of a day number in the proleptic Gregorian calendar, the text that
    [time.Time.MarshalJSON] gives a time (RFC 3339 with up to nine digits of a second),
    and a reader of the text of a UTC time, which inverts it. *)
From S2P Require Import Prelude GoText GoEncoding GoTime GoNet.

(** ** Civil dates *)

(** A day number counts from January 1 of year 1; the computation from March 1 of year 0,
    306 days before, in eras of 400 years. *)
Record date := mkDate { d_year : Z; d_month : Z; d_day : Z }.

(** Centuries, cycles of four years and years of an era; the last of each kind is longer
    than the others. *)
Definition era_parts (doe : Z) : Z * Z * Z * Z :=
  let c := Z.min 3 (doe / 36524) in
  let r := doe - c * 36524 in
  let a := Z.min 3 (r mod 1461 / 365) in
  (c, r / 1461, a, r mod 1461 - a * 365).

(** The month and the day of a day of a year that starts in March. *)
Definition month_day (doy : Z) : Z * Z :=
  let mp := (5 * doy + 2) / 153 in
  (if mp <? 10 then mp + 3 else mp - 9, doy - (153 * mp + 2) / 5 + 1).

Definition civil_of_era (doe : Z) : date :=
  let '(c, f, a, doy) := era_parts doe in
  let '(month, day) := month_day doy in
  mkDate (100 * c + 4 * f + a + if month <=? 2 then 1 else 0) month day.

Definition civil (day : Z) : date :=
  let z := day + 306 in
  let d := civil_of_era (z mod 146097) in
  mkDate (d_year d + z / 146097 * 400) (d_month d) (d_day d).

(** The day number of a date. *)
Definition day_number (d : date) : Z :=
  let y := d_year d - if d_month d <=? 2 then 1 else 0 in
  let yoe := y mod 400 in
  let doy := (153 * ((d_month d + 9) mod 12) + 2) / 5 + d_day d - 1 in
  y / 400 * 146097 + (yoe * 365 + yoe / 4 - yoe / 100 + doy) - 306.

Definition leap (year : Z) : bool := (year mod 4 =? 0) && (negb (year mod 100 =? 0) || (year mod 400 =? 0)).
Definition month_days (year month : Z) : Z :=
  if month =? 2 then if leap year then 29 else 28
  else if bool_decide (month ∈ [4; 6; 9; 11]) then 30 else 31.
Definition valid_date (d : date) : bool :=
  (1 <=? d_month d) && (d_month d <=? 12) && (1 <=? d_day d) && (d_day d <=? month_days (d_year d) (d_month d)).

(** ** Text *)

(** [n] in [w] decimal digits. *)
Fixpoint pad (w : nat) (n : Z) : bytes :=
  match w with O => [] | S w => pad w (n / 10) ++ [zb (48 + n mod 10)] end.

Definition zone_offset (t : time) : Z := match t_loc t with UTC => 0 | Zone offset => offset end.

Definition fraction_text (nsec : Z) : bytes :=
  if nsec =? 0 then [] else zb 46 :: trim_right_byte (zb 48) (pad 9 nsec).

Definition zone_text (offset : Z) : bytes :=
  if offset =? 0 then &"Z"
  else
    let zone := Z.quot offset 60 in
    (if zone <? 0 then zb 45 else zb 43) :: pad 2 (Z.abs zone / 60) ++ &":" ++ pad 2 (Z.abs zone mod 60).

(** [appendStrictRFC3339]; a year beyond four digits or a zone of a day or more is an
    error. *)
Definition time_text (t : time) : option bytes :=
  let offset := zone_offset t in
  let local := t_sec t + offset in
  let d := civil (local / 86400) in
  let second := local mod 86400 in
  if (d_year d <? 0) || (9999 <? d_year d) || (24 <=? Z.abs (Z.quot offset 60) / 60) then None
  else Some (pad 4 (d_year d) ++ &"-" ++ pad 2 (d_month d) ++ &"-" ++ pad 2 (d_day d) ++ &"T"
             ++ pad 2 (second / 3600) ++ &":" ++ pad 2 (second / 60 mod 60) ++ &":" ++ pad 2 (second mod 60)
             ++ fraction_text (t_nsec t) ++ zone_text offset).

(** *** The reader *)

Definition read_digits (w : nat) (s : bytes) : option (Z * bytes) :=
  if (w <=? length s)%nat then n ← parse_digits 0 (take w s); Some (n, drop w s) else None.

Definition read_byte (b : byte) (s : bytes) : option bytes :=
  match s with c :: rest => if bool_decide (c = b) then Some rest else None | [] => None end.

Definition read_fraction (s : bytes) : option (Z * bytes) :=
  match read_byte (zb 46) s with
  | None => Some (0, s)
  | Some rest =>
    let '(digits, rest) := span is_digit rest in
    n ← parse_digits 0 digits; Some (n * 10 ^ (9 - Z.of_nat (length digits)), rest)
  end.

Definition read_time (s : bytes) : option time :=
  '(year, s) ← read_digits 4 s; s ← read_byte (zb 45) s;
  '(month, s) ← read_digits 2 s; s ← read_byte (zb 45) s;
  '(day, s) ← read_digits 2 s; s ← read_byte (zb 84) s;
  '(hour, s) ← read_digits 2 s; s ← read_byte (zb 58) s;
  '(minute, s) ← read_digits 2 s; s ← read_byte (zb 58) s;
  '(second, s) ← read_digits 2 s;
  '(nsec, s) ← read_fraction s; s ← read_byte (zb 90) s;
  if bool_decide (s = []) then
    Some (Time (day_number (mkDate year month day) * 86400 + hour * 3600 + minute * 60 + second) nsec None UTC)
  else None.

Example time_text_zero : time_text zero_time = Some &"0001-01-01T00:00:00Z".
Proof. vm_compute. reflexivity. Qed.
Example time_text_2024 :
  time_text (Time (unixToInternal + 1709210096) 120000000 None (Zone (-19800))) = Some &"2024-02-29T07:04:56.12-05:30".
Proof. vm_compute. reflexivity. Qed.
Example time_text_far : time_text (Time (unixToInternal + 253402300800) 0 None UTC) = None.
Proof. vm_compute. reflexivity. Qed.

(** ** Dates: lemmas *)

Lemma era_parts_spec doe c f a doy :
  0 <= doe < 146097 -> era_parts doe = (c, f, a, doy) ->
  doe = c * 36524 + f * 1461 + a * 365 + doy /\ 0 <= c <= 3 /\ 0 <= f <= 24 /\ 0 <= a <= 3
  /\ 0 <= doy <= 365 /\ (doy = 365 -> a = 3 /\ (f = 24 -> c = 3)).
Proof. intros Hd. unfold era_parts. intros [= <- <- <- <-]. Z.div_mod_to_equations. lia. Qed.

Lemma month_day_spec doy :
  0 <= doy < 366 ->
  let '(m, d) := month_day doy in
  1 <= m <= 12 /\ 1 <= d <= (if m =? 2 then if doy =? 365 then 29 else 28 else if bool_decide (m ∈ [4; 6; 9; 11]) then 30 else 31)
  /\ (153 * ((m + 9) mod 12) + 2) / 5 + d - 1 = doy /\ (doy = 365 -> m = 2).
Proof.
  apply (range_forall_prop 0 366 (fun doy => let '(m, d) := month_day doy in
    1 <= m <= 12 /\ 1 <= d <= (if m =? 2 then if doy =? 365 then 29 else 28 else if bool_decide (m ∈ [4; 6; 9; 11]) then 30 else 31)
    /\ (153 * ((m + 9) mod 12) + 2) / 5 + d - 1 = doy /\ (doy = 365 -> m = 2))).
  vm_compute. reflexivity.
Qed.

Lemma civil_of_era_spec doe :
  0 <= doe < 146097 -> valid_date (civil_of_era doe) = true /\ day_number (civil_of_era doe) = doe - 306.
Proof.
  intros Hd. unfold civil_of_era. destruct (era_parts doe) as [[[c f] a] doy] eqn:E.
  apply era_parts_spec in E as (E & Hc & Hf & Ha & Hdoy & Hlast); [|done].
  pose proof (month_day_spec doy ltac:(lia)) as Hm. destruct (month_day doy) as [m d]. destruct Hm as (Hm & Hday & Hback & Hfeb).
  set (y := 100 * c + 4 * f + a). unfold valid_date, day_number. cbn [d_year d_month d_day].
  replace (y + (if m <=? 2 then 1 else 0) - (if m <=? 2 then 1 else 0)) with y by lia.
  assert (0 <= y < 400) as Hy by lia. rewrite (Z.mod_small y), (Z.div_small y) by lia.
  assert (y / 4 = 25 * c + f /\ y / 100 = c) as [-> ->] by (subst y; Z.div_mod_to_equations; lia).
  split; [|lia].
  rewrite !andb_true_iff, !Z.leb_le. split; [lia|]. etransitivity; [apply Hday|]. unfold month_days.
  destruct (Z.eqb_spec m 2) as [->|]; [|lia]. destruct (Z.eqb_spec doy 365) as [->|]; [|destruct (leap _); lia].
  destruct (Hlast eq_refl) as [-> Hcent]. assert (leap (y + 1) = true) as Hleap.
  { unfold leap. rewrite andb_true_iff, orb_true_iff, negb_true_iff, !Z.eqb_eq, Z.eqb_neq. subst y.
    destruct (decide (f = 24)) as [->|]; [rewrite Hcent by done; split; [reflexivity|by right]|]. Z.div_mod_to_equations. lia. }
  change (2 <=? 2) with true. cbv iota. by rewrite Hleap.
Qed.

(** The calendar repeats every 400 years. *)
Lemma day_number_shift d k : day_number (mkDate (d_year d + k * 400) (d_month d) (d_day d)) = day_number d + k * 146097.
Proof.
  unfold day_number. cbn [d_year d_month d_day].
  replace (d_year d + k * 400 - (if d_month d <=? 2 then 1 else 0))
    with (d_year d - (if d_month d <=? 2 then 1 else 0) + k * 400) by lia.
  rewrite Z.mod_add, Z.div_add by lia. lia.
Qed.

Lemma month_days_shift y k m : month_days (y + k * 400) m = month_days y m.
Proof.
  unfold month_days, leap. destruct (m =? 2); [|done].
  replace (y + k * 400) with (y + (k * 100) * 4) at 1 by lia. rewrite Z.mod_add by lia.
  replace (y + k * 400) with (y + (k * 4) * 100) at 1 by lia. rewrite Z.mod_add by lia.
  by rewrite Z.mod_add by lia.
Qed.

(** The date of a day is a date of the calendar, and its day number is that day. *)
Lemma civil_day day : valid_date (civil day) = true /\ day_number (civil day) = day.
Proof.
  unfold civil. set (z := day + 306). pose proof (Z.mod_pos_bound z 146097 ltac:(lia)) as Hb.
  destruct (civil_of_era_spec _ Hb) as [Hv Hn]. split.
  - unfold valid_date in *. cbn [d_year d_month d_day]. by rewrite month_days_shift.
  - rewrite day_number_shift, Hn. pose proof (Z.div_mod z 146097). subst z. lia.
Qed.

(** ** Text: lemmas *)

Lemma length_pad w n : length (pad w n) = w.
Proof. revert n. induction w as [|w IH]; intros n; [done|]. cbn [pad]. rewrite length_app, IH. simpl. lia. Qed.

Lemma digit_char n : 0 <= n < 10 -> is_digit (zb (48 + n)) = true /\ digit_val (zb (48 + n)) = n.
Proof.
  intros Hn. unfold is_digit, in_range, digit_val. rewrite bz_zb_small by lia.
  rewrite !(proj2 (Z.leb_le _ _)) by lia. split; [done|lia].
Qed.

Lemma pad_digits w n : Forall (fun b => is_digit b = true) (pad w n).
Proof.
  revert n. induction w as [|w IH]; intros n; [constructor|]. cbn [pad]. apply Forall_app. split; [done|].
  constructor; [|constructor]. apply digit_char, Z.mod_pos_bound. lia.
Qed.

Lemma parse_digits_app acc s t : Forall (fun b => is_digit b = true) s ->
  parse_digits acc (s ++ t) = v ← parse_digits acc s; parse_digits v t.
Proof. intros Hs. revert acc. induction Hs as [|b s Hb Hs IH]; intros acc; [done|]. cbn [app parse_digits]. by rewrite Hb. Qed.

Lemma parse_pad w n acc : 0 <= n < 10 ^ Z.of_nat w -> parse_digits acc (pad w n) = Some (acc * 10 ^ Z.of_nat w + n).
Proof.
  revert n acc. induction w as [|w IH]; intros n acc Hn.
  { cbn in *. f_equal. lia. }
  rewrite Nat2Z.inj_succ, Z.pow_succ_r in * by lia.
  cbn [pad]. rewrite parse_digits_app by apply pad_digits. rewrite IH by (Z.div_mod_to_equations; lia).
  cbn [mbind option_bind parse_digits]. destruct (digit_char (n mod 10)) as [-> ->]; [apply Z.mod_pos_bound; lia|].
  f_equal. pose proof (Z.div_mod n 10). lia.
Qed.

Lemma read_pad w n rest : 0 <= n < 10 ^ Z.of_nat w -> read_digits w (pad w n ++ rest) = Some (n, rest).
Proof.
  intros Hn. unfold read_digits. rewrite length_app, length_pad.
  rewrite (proj2 (Nat.leb_le _ _)) by lia. rewrite take_app_length', drop_app_length' by (by rewrite length_pad).
  by rewrite parse_pad.
Qed.

Lemma read_byte_cons b s : read_byte b (b :: s) = Some s.
Proof. unfold read_byte. by rewrite bool_decide_true. Qed.

Lemma trim_right_split c s : exists k, s = trim_right_byte c s ++ replicate k c.
Proof.
  unfold trim_right_byte. induction s as [|x s [k IH]] using rev_ind; [by exists 0%nat|].
  rewrite rev_unit. cbn [drop_while]. destruct (bool_decide_reflect (x = c)) as [->|Hne].
  - exists (S k). rewrite replicate_S_end, app_assoc. by f_equal.
  - exists 0%nat. cbn [rev]. by rewrite rev_involutive, app_nil_r.
Qed.

Lemma parse_zeros k acc : parse_digits acc (replicate k (zb 48)) = Some (acc * 10 ^ Z.of_nat k).
Proof.
  revert acc. induction k as [|k IH]; intros acc; [cbn; f_equal; lia|].
  rewrite Nat2Z.inj_succ, Z.pow_succ_r by lia. cbn [replicate parse_digits].
  change (is_digit (zb 48)) with true. cbv iota. rewrite IH. change (digit_val (zb 48)) with 0. f_equal. lia.
Qed.

Lemma parse_digits_some acc s : Forall (fun b => is_digit b = true) s -> is_Some (parse_digits acc s).
Proof. intros Hs. revert acc. induction Hs as [|b s Hb Hs IH]; intros acc; [done|]. cbn [parse_digits]. by rewrite Hb. Qed.

Lemma span_stops f s b rest : Forall (fun b => f b = true) s -> f b = false -> span f (s ++ b :: rest) = (s, b :: rest).
Proof. intros Hs Hb. induction Hs as [|c s Hc Hs IH]; cbn [app span]; [by rewrite Hb|]. by rewrite Hc, IH. Qed.

Lemma read_fraction_text nsec rest :
  0 <= nsec < Second -> read_fraction (fraction_text nsec ++ zb 90 :: rest) = Some (nsec, zb 90 :: rest).
Proof.
  intros Hn. unfold fraction_text, read_fraction. destruct (Z.eqb_spec nsec 0) as [->|Hne]; [reflexivity|].
  cbn [app]. rewrite read_byte_cons. destruct (trim_right_split (zb 48) (pad 9 nsec)) as [k Ek].
  set (s := trim_right_byte (zb 48) (pad 9 nsec)) in *.
  pose proof (pad_digits 9 nsec) as Hd. rewrite Ek in Hd. apply Forall_app in Hd as [Hd _].
  rewrite span_stops by done. pose proof (f_equal length Ek) as Hl. rewrite length_pad, length_app, length_replicate in Hl.
  pose proof (parse_pad 9 nsec 0 Hn) as Hp. rewrite Ek, parse_digits_app in Hp by done.
  destruct (parse_digits 0 s) as [v|]; [|done]. cbn [mbind option_bind] in *. rewrite parse_zeros in Hp.
  replace (9 - Z.of_nat (length s)) with (Z.of_nat k) by lia. injection Hp as Hp. by rewrite Hp.
Qed.

(** The reader inverts the text of a time kept in UTC. *)
Lemma read_time_text t s : canonical_time t -> time_text t = Some s -> read_time s = Some t.
Proof.
  destruct t as [sec nsec mono loc]. intros ([_ Hn] & Hm & Hl). cbn [t_nsec t_mono t_loc] in *. subst mono loc.
  unfold time_text, zone_offset. cbn [t_sec t_nsec t_loc]. rewrite Z.add_0_r.
  pose proof (civil_day (sec / 86400)) as [Hv Hd]. destruct (civil (sec / 86400)) as [y m d] eqn:Ec.
  unfold valid_date in Hv. cbn [d_year d_month d_day] in *. rewrite !andb_true_iff, !Z.leb_le in Hv.
  assert (month_days y m <= 31) as H31 by (unfold month_days; repeat case_match; lia).
  destruct (_ || _ || _) eqn:Er; [done|]. apply orb_false_iff in Er as [[Ey0 Ey]%orb_false_iff _].
  pose proof (Z.mod_pos_bound sec 86400 ltac:(lia)) as Hs. intros Et. apply (inj Some) in Et as <-. unfold read_time.
  set (second := sec mod 86400) in *.
  rewrite read_pad by lia. cbn [mbind option_bind app]. change (&"-") with [zb 45]. change (&"T") with [zb 84].
  change (&":") with [zb 58]. change (zone_text 0) with [zb 90]. cbn [app]. rewrite read_byte_cons. cbn [mbind option_bind].
  rewrite read_pad by lia. cbn [mbind option_bind]. rewrite read_byte_cons. cbn [mbind option_bind].
  rewrite read_pad by lia. cbn [mbind option_bind]. rewrite read_byte_cons. cbn [mbind option_bind].
  rewrite read_pad by (Z.div_mod_to_equations; lia). cbn [mbind option_bind]. rewrite read_byte_cons. cbn [mbind option_bind].
  rewrite read_pad by (Z.div_mod_to_equations; lia). cbn [mbind option_bind]. rewrite read_byte_cons. cbn [mbind option_bind].
  rewrite read_pad by (Z.div_mod_to_equations; lia). cbn [mbind option_bind].
  rewrite read_fraction_text by done. cbn [mbind option_bind]. rewrite read_byte_cons. cbn [mbind option_bind].
  rewrite bool_decide_true by done. do 2 f_equal. rewrite Hd. subst second. Z.div_mod_to_equations. lia.
Qed.

(** The text of a time: valid UTF-8, and made exactly for the years of four digits. *)
Lemma time_text_total t : t_loc t = UTC -> is_Some (time_text t) <-> 0 <= d_year (civil (t_sec t / 86400)) <= 9999.
Proof.
  intros Hl. unfold time_text, zone_offset. rewrite Hl, Z.add_0_r. change (24 <=? Z.abs (Z.quot 0 60) / 60) with false.
  rewrite orb_false_r. destruct (_ || _) eqn:Er.
  - apply orb_true_iff in Er. rewrite !Z.ltb_lt in Er. split; [by intros [? ?]|lia].
  - apply orb_false_iff in Er. rewrite !Z.ltb_ge in Er. split; [intros _; lia|by eexists].
Qed.

Lemma ascii_valid s : ascii s -> ValidString s = true.
Proof.
  intros Hs. unfold ValidString. rewrite runes_ascii by done. rewrite forallb_forall. intros rc Hrc.
  apply list_elem_of_In, list_elem_of_fmap in Hrc as (b & -> & Hb). unfold ascii in Hs. rewrite Forall_forall in Hs.
  apply Hs in Hb. unfold rune_ok, RuneError. cbn [fst snd]. by rewrite (proj2 (Z.eqb_neq _ _)) by lia.
Qed.

Lemma digits_ascii s : Forall (fun b => is_digit b = true) s -> ascii s.
Proof. intros Hs. eapply Forall_impl; [exact Hs|]. intros b. cbv beta. unfold is_digit, in_range. intros ?; bool_simpl; lia. Qed.

Lemma time_text_ascii t s : time_text t = Some s -> ascii s.
Proof.
  unfold time_text. destruct (_ || _ || _); [done|]. intros E. apply (inj Some) in E as <-.
  assert (forall w n, ascii (pad w n)) as Hp by (intros w n; apply digits_ascii, pad_digits).
  assert (ascii (fraction_text (t_nsec t))) as Hf.
  { unfold fraction_text. destruct (_ =? 0); [constructor|]. constructor; [by vm_compute|].
    destruct (trim_right_split (zb 48) (pad 9 (t_nsec t))) as [k Ek]. pose proof (Hp 9%nat (t_nsec t)) as Hn.
    rewrite Ek in Hn. by apply Forall_app in Hn as [Hn _]. }
  assert (ascii (zone_text (zone_offset t))) as Hz.
  { unfold zone_text. destruct (_ =? 0); [by repeat constructor|]. constructor; [by destruct (_ <? 0)|].
    apply Forall_app; split; [apply Hp|]. apply Forall_app; split; [by repeat constructor|apply Hp]. }
  unfold ascii in *. repeat first [apply Hp|exact Hf|exact Hz|apply Forall_app; split]; by repeat constructor.
Qed.
