(* ===== verification/GoJsonParse.v ===== *)
(** * JSON documents

    The scanner of [encoding/json] over a whole input, what its string literals
    stand for, and the encoder of documents. A parsed document is a tree; numbers
    keep their text. *)
From S2P Require Import Prelude GoText GoEncoding GoJson GoFloat GoUnicode GoNet.

#[warnings="-register-all"]
Inductive json :=
  | JNull
  | JBool (b : bool)
  | JNumber (text : bytes)
  | JString (s : bytes)
  | JArray (items : list json)
  | JObject (members : list (bytes * json)).

(** ** Lexemes *)

Definition json_space (b : byte) : bool := in_set [zb 32; zb 9; zb 13; zb 10] b.
Definition skip_space (s : bytes) : bytes := drop_while json_space s.

(** Where the scanner stands in a string literal. *)
Inductive string_state := InString | InEscape | InUnicode (n : nat).
#[global] Instance string_state_eq_dec : EqDecision string_state.
Proof. solve_decision. Defined.

Definition simple_escape (b : byte) : bool :=
  in_set [quote; backslash; zb 47; zb 98; zb 102; zb 110; zb 114; zb 116] b.

(** The next state after a byte other than the closing quote. *)
Definition string_step (st : string_state) (b : byte) : option string_state :=
  match st with
  | InString =>
    if bool_decide (b = backslash) then Some InEscape else if bz b <? 0x20 then None else Some InString
  | InEscape =>
    if simple_escape b then Some InString else if bool_decide (b = zb 117) then Some (InUnicode 3) else None
  | InUnicode n =>
    if is_hex b then Some (match n with O => InString | S n => InUnicode n end) else None
  end.

(** The text of a string literal up to its closing quote, and what follows the quote. *)
Fixpoint string_end (st : string_state) (s : bytes) : option (bytes * bytes) :=
  match s with
  | [] => None
  | b :: rest =>
    match st, bool_decide (b = quote) with
    | InString, true => Some ([], rest)
    | _, _ => st' ← string_step st b; '(raw, after) ← string_end st' rest; Some (b :: raw, after)
    end
  end.

(** [getu4]: the code unit of an escape at the head of [s]. *)
Definition getu4 (s : bytes) : option Z :=
  match s with
  | b :: u :: h1 :: h2 :: h3 :: h4 :: _ =>
    if bool_decide (b = backslash) && bool_decide (u = zb 117) then
      x ← hex_val h1; y ← hex_val h2; z ← hex_val h3; w ← hex_val h4;
      Some (((x * 16 + y) * 16 + z) * 16 + w)
    else None
  | _ => None
  end.

Definition is_surrogate (r : Z) : bool := (0xD800 <=? r) && (r <? 0xE000).

(** [utf16.DecodeRune], [None] for the replacement character. *)
Definition decode_pair (r1 r2 : Z) : option Z :=
  if (0xD800 <=? r1) && (r1 <? 0xDC00) && (0xDC00 <=? r2) && (r2 <? 0xE000)
  then Some ((r1 - 0xD800) * 0x400 + (r2 - 0xDC00) + 0x10000) else None.

(** The byte that a short escape stands for. *)
Definition escaped_byte (e : byte) : option byte :=
  match bz e with
  | 34 | 39 | 47 | 92 => Some e
  | 98 => Some (zb 8) | 102 => Some (zb 12) | 110 => Some (zb 10) | 114 => Some (zb 13) | 116 => Some (zb 9)
  | _ => None
  end.

(** What one step of [unquoteBytes] writes, and how many bytes it reads. *)
Definition unquote_step (b : byte) (s : bytes) : bytes * nat :=
  if bool_decide (b = backslash) then
    match s with
    | [] => ([], 1%nat)
    | e :: _ =>
      if bool_decide (e = zb 117) then
        match getu4 (b :: s) with
        | None => ([], S (length s))
        | Some r =>
          if is_surrogate r then
            match (r1 ← getu4 (drop 6 (b :: s)); decode_pair r r1) with
            | Some r2 => (encode_rune r2, 12%nat)
            | None => (encode_rune RuneError, 6%nat)
            end
          else (encode_rune r, 6%nat)
        end
      else match escaped_byte e with Some c => ([c], 2%nat) | None => ([], S (length s)) end
    end
  else
    let n := seq_len b s in (encode_rune (rune_of (b :: take n s)), S n).

(** [unquoteBytes] on a scanned literal; [n] bounds the steps. *)
Fixpoint unquote_upto (n : nat) (s : bytes) : bytes :=
  match n, s with
  | S n, b :: rest => let '(out, k) := unquote_step b rest in out ++ unquote_upto n (drop (pred k) rest)
  | _, _ => []
  end.
Definition unquote (s : bytes) : bytes := unquote_upto (length s) s.

(** *** Numbers *)

Definition json_digits (s : bytes) : option (bytes * bytes) :=
  match span is_digit s with ([], _) => None | found => Some found end.

Definition json_integer (s : bytes) : option (bytes * bytes) :=
  match s with
  | b :: rest => if bool_decide (b = zb 48) then Some ([b], rest) else json_digits s
  | [] => None
  end.

Definition json_fraction (s : bytes) : option (bytes * bytes) :=
  match s with
  | b :: rest =>
    if bool_decide (b = zb 46) then '(digits, after) ← json_digits rest; Some (b :: digits, after) else Some ([], s)
  | [] => Some ([], [])
  end.

Definition json_exponent (s : bytes) : option (bytes * bytes) :=
  match s with
  | b :: rest =>
    if in_set &"eE" b then
      let '(sign, rest) :=
        match rest with
        | c :: after => if in_set &"+-" c then ([c], after) else ([], rest)
        | [] => ([], [])
        end in
      '(digits, after) ← json_digits rest; Some (b :: sign ++ digits, after)
    else Some ([], s)
  | [] => Some ([], [])
  end.

Definition json_sign (s : bytes) : bytes * bytes :=
  match s with
  | b :: rest => if bool_decide (b = zb 45) then ([b], rest) else ([], s)
  | [] => ([], [])
  end.

Definition json_number (s : bytes) : option (bytes * bytes) :=
  let '(sign, s1) := json_sign s in
  '(whole, s2) ← json_integer s1;
  '(fraction, s3) ← json_fraction s2;
  '(exponent, s4) ← json_exponent s3;
  Some (sign ++ whole ++ fraction ++ exponent, s4).

(** ** Documents *)

Definition maxNestingDepth : Z := 10000.

Definition json_literal (s : bytes) : option (json * bytes) :=
  if has_prefix s &"null" then Some (JNull, drop 4 s)
  else if has_prefix s &"true" then Some (JBool true, drop 4 s)
  else if has_prefix s &"false" then Some (JBool false, drop 5 s)
  else '(text, after) ← json_number s; Some (JNumber text, after).

(** The value at the head of [s], and what follows it; [depth] containers are open. The
    elements of an array and the members of an object end with their closing bracket. *)
Fixpoint json_value (n : nat) (depth : Z) (s : bytes) : option (json * bytes) :=
  match n with
  | O => None
  | S n =>
    match skip_space s with
    | [] => None
    | b :: rest =>
      if bool_decide (b = quote) then
        '(raw, after) ← string_end InString rest; Some (JString (unquote raw), after)
      else if bool_decide (b = zb 91) then
        if maxNestingDepth <=? depth then None
        else match skip_space rest with
             | c :: after =>
               if bool_decide (c = zb 93) then Some (JArray [], after)
               else '(items, after) ← json_elements n (depth + 1) rest; Some (JArray items, after)
             | [] => None
             end
      else if bool_decide (b = zb 123) then
        if maxNestingDepth <=? depth then None
        else match skip_space rest with
             | c :: after =>
               if bool_decide (c = zb 125) then Some (JObject [], after)
               else '(members, after) ← json_members n (depth + 1) rest; Some (JObject members, after)
             | [] => None
             end
      else json_literal (b :: rest)
    end
  end
with json_elements (n : nat) (depth : Z) (s : bytes) : option (list json * bytes) :=
  match n with
  | O => None
  | S n =>
    '(v, after) ← json_value n depth s;
    match skip_space after with
    | c :: rest =>
      if bool_decide (c = zb 44) then '(vs, after) ← json_elements n depth rest; Some (v :: vs, after)
      else if bool_decide (c = zb 93) then Some ([v], rest) else None
    | [] => None
    end
  end
with json_members (n : nat) (depth : Z) (s : bytes) : option (list (bytes * json) * bytes) :=
  match n with
  | O => None
  | S n =>
    match skip_space s with
    | b :: rest =>
      if bool_decide (b = quote) then
        '(raw, after) ← string_end InString rest;
        match skip_space after with
        | c :: rest =>
          if bool_decide (c = zb 58) then
            '(v, after) ← json_value n depth rest;
            match skip_space after with
            | c :: rest =>
              if bool_decide (c = zb 44) then
                '(ms, after) ← json_members n depth rest; Some ((unquote raw, v) :: ms, after)
              else if bool_decide (c = zb 125) then Some ([(unquote raw, v)], rest) else None
            | [] => None
            end
          else None
        | [] => None
        end
      else None
    | [] => None
    end
  end.

(** [readValue]: two steps a byte are enough. *)
Definition json_read (s : bytes) : option (json * bytes) := json_value (2 * length s + 2) 0 s.

(** A tree that [Decode] stores into an [any]: its numbers are in the range of [float64]. *)
Fixpoint json_any (v : json) : bool :=
  match v with
  | JNumber text => bool_decide (is_Some (ParseFloat text))
  | JArray items => forallb json_any items
  | JObject members => forallb (fun m => json_any m.2) members
  | _ => true
  end.

(** ** The encoder *)

Fixpoint json_render (v : json) : bytes :=
  match v with
  | JNull => &"null"
  | JBool b => if b then &"true" else &"false"
  | JNumber text => text
  | JString s => json_string s
  | JArray items => zb 91 :: join_bytes [zb 44] (json_render <$> items) ++ [zb 93]
  | JObject members =>
    zb 123 :: join_bytes [zb 44] ((fun m => json_string m.1 ++ zb 58 :: json_render m.2) <$> members) ++ [zb 125]
  end.

Example json_read_mixed :
  json_read (&" { " ++ json_string &"a" ++ &" : [1, -2.50e+3,true , null]," ++ json_string (&"b" ++ [zb 9]) ++ &":{}} x")
  = Some (JObject [(&"a", JArray [JNumber &"1"; JNumber &"-2.50e+3"; JBool true; JNull]); (&"b" ++ [zb 9], JObject [])], &" x").
Proof. vm_compute. reflexivity. Qed.

Example unquote_pairs :
  unquote (&"\ud83d\ude00\ud83d\u0041\/" ++ [zb 0xFF]) = encode_rune 0x1F600 ++ encode_rune RuneError ++ &"A/" ++ encode_rune RuneError.
Proof. vm_compute. reflexivity. Qed.

Example json_read_rejects :
  json_read &"{,}" = None /\ json_read &"[1,]" = None /\ json_read &"-" = None /\ json_read &"1." = None
  /\ json_read &"01" = Some (JNumber &"0", &"1").
Proof. repeat split; vm_compute; reflexivity. Qed.

(** ** String literals

    Scanning a literal finds its closing quote whatever follows; what a literal stands
    for is valid UTF-8; and the encoder's literal of a valid string is read back. *)

(** ** Scanning *)

Lemma string_end_inv st s raw after :
  string_end st s = Some (raw, after) ->
  s = raw ++ quote :: after /\ forall x, string_end st (raw ++ quote :: x) = Some (raw, x).
Proof.
  revert st raw. induction s as [|b s IH]; intros st raw; [done|]. cbn [string_end].
  destruct (match st with InString => bool_decide (b = quote) | _ => false end) eqn:Eq.
  - destruct st; try done. apply bool_decide_eq_true in Eq as ->. rewrite bool_decide_true by done.
    intros [= <- <-]. split; [done|]. intros x. cbn. by rewrite bool_decide_true.
  - assert ((st' ← string_step st b; '(raw, after) ← string_end st' s; Some (b :: raw, after)) = Some (raw, after) ->
      b :: s = raw ++ quote :: after
      /\ forall x, string_end st (raw ++ quote :: x) = Some (raw, x)) as Hstep.
    { destruct (string_step st b) as [st'|] eqn:Es; [|done]. cbn [mbind option_bind].
      destruct (string_end st' s) as [[raw' a]|] eqn:Er; [|done]. cbn. intros [= <- <-].
      destruct (IH _ _ Er) as [-> Hx]. split; [done|]. intros x. cbn [app string_end].
      rewrite Es. cbn [mbind option_bind]. rewrite Hx. by destruct st; [rewrite Eq| |]. }
    destruct st; [rewrite Eq|..]; apply Hstep.
Qed.

(** A text that the scanner passes inside a literal. *)
Definition scans (c : bytes) : Prop :=
  forall rest, string_end InString (c ++ rest) = '(raw, after) ← string_end InString rest; Some (c ++ raw, after).

Lemma scans_nil : scans [].
Proof. intros rest. cbn. by destruct (string_end InString rest) as [[? ?]|]. Qed.

Lemma scans_app c d : scans c -> scans d -> scans (c ++ d).
Proof.
  intros Hc Hd rest. rewrite <- app_assoc, Hc, Hd.
  destruct (string_end InString rest) as [[? ?]|]; [|done]. cbn. by rewrite app_assoc.
Qed.

Lemma scans_concat l : Forall scans l -> scans (concat l).
Proof. induction 1; [apply scans_nil|]. by apply scans_app. Qed.

Lemma scans_plain b : 0x20 <= bz b -> b <> quote -> b <> backslash -> scans [b].
Proof.
  intros Hb Hq Hs rest. cbn [app string_end]. rewrite bool_decide_false by done. cbn [string_step].
  rewrite bool_decide_false by done. by rewrite (proj2 (Z.ltb_ge _ _)) by lia.
Qed.

Lemma scans_high c : Forall (fun b => 0x80 <= bz b) c -> scans c.
Proof.
  induction 1 as [|b c Hb Hc IH]; [apply scans_nil|]. apply (scans_app [b]); [|done].
  apply scans_plain; [lia| |]; intros ->; vm_compute in Hb; by apply Hb.
Qed.

(** The state after a text that does not close the literal. *)
Fixpoint scan_run (st : string_state) (s : bytes) : option string_state :=
  match s with
  | [] => Some st
  | b :: rest =>
    match st, bool_decide (b = quote) with
    | InString, true => None
    | _, _ => st' ← string_step st b; scan_run st' rest
    end
  end.

Lemma scan_run_end st st' c rest :
  scan_run st c = Some st' ->
  string_end st (c ++ rest) = '(raw, after) ← string_end st' rest; Some (c ++ raw, after).
Proof.
  revert st. induction c as [|b c IH]; intros st; cbn [scan_run string_end app].
  - intros [= ->]. by destruct (string_end st' rest) as [[? ?]|].
  - destruct st; [destruct (bool_decide (b = quote)); [done|]|..];
      (destruct (string_step _ b) as [st1|]; [|done]); cbn [mbind option_bind]; intros Hr;
      rewrite (IH _ Hr); by destruct (string_end st' rest) as [[? ?]|].
Qed.

Lemma scans_run c : scan_run InString c = Some InString -> scans c.
Proof. intros Hc rest. by apply scan_run_end. Qed.

(** What the encoder writes for one rune: it scans. *)
Lemma escape_ascii_scans b : scans (escape_ascii b).
Proof.
  apply scans_run. revert b. apply (Forall_bytes_forall (fun b => scan_run InString (escape_ascii b) = Some InString)).
  vm_compute. reflexivity.
Qed.

Lemma chunk_high b0 ext :
  seq_len b0 ext <> 0%nat -> length ext = seq_len b0 ext -> Forall (fun b => 0x80 <= bz b) (b0 :: ext).
Proof.
  intros Hn Hl. constructor. { apply lead_high. by rewrite <- (seq_len_lead _ _ Hn). }
  destruct ext as [|b1 [|b2 [|b3 [|b4 ext]]]]; revert Hn Hl; unfold seq_len;
    destruct (lead_len b0) as [|[|[|[|?]]]]; try done;
    destruct (second_ok b0 b1) eqn:E1; try done; apply second_ok_range in E1; cbn [andb];
    try (destruct (is_cont b2) eqn:E2; [apply is_cont_range in E2|done]); cbn [andb];
    try (destruct (is_cont b3) eqn:E3; [apply is_cont_range in E3|done]); try done; intros _ _;
    repeat constructor; lia.
Qed.

Lemma escape_rune_scans rc : chunk_ok rc.2 -> scans (escape_rune rc).
Proof.
  destruct rc as [r c]. cbn [snd]. destruct c as [|b0 ext]; [done|]. intros [[Hb ->]|[Hn Hl]].
  - cbn [escape_rune]. rewrite (proj2 (Z.ltb_lt _ _) Hb). apply escape_ascii_scans.
  - destruct ext as [|b1 ext]; [simpl in Hl; lia|]. unfold escape_rune.
    destruct ((r =? 0x2028) || (r =? 0x2029)) eqn:E; [|apply scans_high; by apply chunk_high].
    apply orb_true_iff in E as [E|E]; apply Z.eqb_eq in E as ->; apply scans_run; reflexivity.
Qed.

(** A valid string's literal is scanned to its end. *)
Lemma json_string_scanned s rest :
  ValidString s = true ->
  string_end InString (concat (escape_rune <$> runes s) ++ quote :: rest)
  = Some (concat (escape_rune <$> runes s), rest).
Proof.
  intros Hv. rewrite scans_concat.
  - cbn [string_end]. rewrite bool_decide_true by done. cbn. by rewrite app_nil_r.
  - apply Forall_fmap. eapply Forall_impl; [by apply valid_chunks|]. intros rc [Hc _]. by apply escape_rune_scans.
Qed.

(** ** Unquoting *)

Lemma unquote_upto_enough n m s : (length s <= n)%nat -> (length s <= m)%nat -> unquote_upto n s = unquote_upto m s.
Proof.
  revert m s. induction n as [|n IH]; intros m s Hn Hm; [destruct s; [by destruct m|simpl in Hn; lia]|].
  destruct m as [|m]; [destruct s; [done|simpl in Hm; lia]|]. destruct s as [|b s]; [done|]. simpl in *.
  destruct (unquote_step b s) as [out k]. f_equal. apply IH; rewrite length_drop; lia.
Qed.

Lemma unquote_cons b s :
  unquote (b :: s) = let '(out, k) := unquote_step b s in out ++ unquote (drop (pred k) s).
Proof.
  unfold unquote. cbn [length unquote_upto]. destruct (unquote_step b s) as [out k]. f_equal.
  apply unquote_upto_enough; rewrite ?length_drop; lia.
Qed.

Lemma unquote_nil : unquote [] = [].
Proof. done. Qed.

(** Induction along the steps of [unquote]. *)
Lemma unquote_ind (P : bytes -> Prop) :
  P [] -> (forall b s, (forall k, P (drop k s)) -> P (b :: s)) -> forall s, P s.
Proof.
  intros H0 HS s. remember (length s) as n eqn:E. revert s E.
  induction n as [n IH] using lt_wf_ind. intros [|b s] ->; [done|].
  apply HS. intros k. eapply IH; [|done]. rewrite length_drop. simpl. lia.
Qed.

Lemma escaped_byte_ascii e c : escaped_byte e = Some c -> bz c < 0x80.
Proof.
  pose proof (byte_forall (fun e => match escaped_byte e with Some c => bz c <? 0x80 | None => true end)) as Hb.
  specialize (Hb ltac:(vm_compute; reflexivity) e). cbv beta in Hb. intros E. rewrite E in Hb. lia.
Qed.

(** Whatever a step writes is empty or one valid rune. *)
Lemma unquote_step_one b s : (unquote_step b s).1 = [] \/ one_rune (unquote_step b s).1.
Proof.
  unfold unquote_step. destruct (bool_decide (b = backslash)); [|right; apply encode_rune_one].
  destruct s as [|e s]; [by left|]. destruct (bool_decide (e = zb 117)).
  - destruct (getu4 _) as [r|]; [|by left].
    destruct (is_surrogate r); [destruct (r1 ← _; _)|]; right; apply encode_rune_one.
  - destruct (escaped_byte e) as [c|] eqn:Ec; [|by left]. right. by apply one_rune_ascii, (escaped_byte_ascii e).
Qed.

(** What a literal stands for is valid UTF-8. *)
Lemma unquote_valid s : ValidString (unquote s) = true.
Proof.
  induction s as [|b s IH] using unquote_ind; [done|]. rewrite unquote_cons.
  pose proof (unquote_step_one b s) as Ho. destruct (unquote_step b s) as [out k]. cbn [fst] in Ho.
  destruct Ho as [->|Ho]; [apply IH|]. rewrite ValidString_one by done. apply IH.
Qed.

(** A literal is read back rune by rune. *)
Lemma unquote_escape_ascii b x : bz b < 0x80 -> unquote (escape_ascii b ++ x) = b :: unquote x.
Proof.
  intros H. destruct (html_safe b) eqn:Eh.
  - pose proof (html_safe_first b Eh) as [_ Hs]. unfold escape_ascii. rewrite Eh. cbn [app]. rewrite unquote_cons.
    unfold unquote_step. rewrite bool_decide_false by done. unfold seq_len. rewrite lead_len_ascii by done.
    rewrite take_0. cbn [rune_of]. unfold rune1. rewrite (proj2 (Z.ltb_lt _ _) H).
    pose proof (bz_range b). rewrite encode_rune_ascii by lia. by rewrite zb_bz.
  - destruct b; vm_compute in H, Eh; try discriminate H; try discriminate Eh;
      (match goal with |- unquote (escape_ascii ?b ++ _) = _ =>
         let e := eval vm_compute in (escape_ascii b) in change (escape_ascii b) with e end);
      cbn [app]; rewrite unquote_cons; reflexivity.
Qed.

Lemma unquote_escape_rune rc x : chunk_ok rc.2 -> rc.1 = rune_of rc.2 -> unquote (escape_rune rc ++ x) = rc.2 ++ unquote x.
Proof.
  destruct rc as [r c]. cbn [fst snd]. destruct c as [|b0 ext]; [done|]. intros [[Hb ->]|[Hn Hl]] Hr.
  - cbn [escape_rune]. rewrite (proj2 (Z.ltb_lt _ _) Hb). by apply unquote_escape_ascii.
  - pose proof (special_chunk b0 ext _ Hn Hl eq_refl) as Hsp. rewrite <- Hr in Hsp.
    destruct ext as [|b1 ext]; [simpl in Hl; lia|]. unfold escape_rune.
    destruct ((r =? 0x2028) || (r =? 0x2029)) eqn:E.
    + apply orb_true_iff in E as [E|E]; apply Z.eqb_eq in E; rewrite E in *; (rewrite Hsp by lia);
        cbn [app]; rewrite unquote_cons; reflexivity.
    + assert (b0 <> backslash) as Hs.
      { pose proof (chunk_high b0 _ Hn Hl) as Hf. apply Forall_cons in Hf as [Hf _].
        intros ->. vm_compute in Hf. by apply Hf. }
      pose proof (seq_len_app b0 (b1 :: ext) x Hn) as Ha.
      assert (take (seq_len b0 (b1 :: ext)) (b1 :: ext) = b1 :: ext) as Et by (rewrite <- Hl; by rewrite firstn_all).
      rewrite Et in Ha. cbn [app]. rewrite unquote_cons. unfold unquote_step. rewrite bool_decide_false by done.
      cbn [app] in Ha. rewrite Ha. cbn [pred]. rewrite <- Hl.
      change (b1 :: ext ++ x) with ((b1 :: ext) ++ x). rewrite take_app_length, drop_app_length.
      pose proof (encode_rune_of b0 (b1 :: ext) Hn) as Ho. cbv zeta in Ho. rewrite Et in Ho. by rewrite Ho.
Qed.

Lemma unquote_json_string s : ValidString s = true -> unquote (concat (escape_rune <$> runes s)) = s.
Proof.
  intros Hv. pose proof (valid_chunks s Hv) as Hc.
  assert (forall l, Forall (fun rc => chunk_ok rc.2 /\ rc.1 = rune_of rc.2) l ->
    unquote (concat (escape_rune <$> l)) = unrunes l) as Hl.
  { clear. induction 1 as [|rc l [Hc Hr] Hl IH]; [done|]. rewrite fmap_cons. cbn [concat].
    rewrite unquote_escape_rune by done. rewrite IH. by destruct rc. }
  rewrite Hl by done. apply unrunes_runes.
Qed.
