(* ===== verification/GoJsonGrammar.v ===== *)
(** * JSON documents: the grammar

    The texts of a document as an inductive relation, white space included. The reader
    is sound and complete for it, whatever follows the document, and the encoder writes
    one of the texts of its document. *)
From S2P Require Import Prelude GoText GoEncoding GoJson GoTime GoFloat GoUnicode GoNet GoCalendar GoJsonParse.

Definition white (w : bytes) : Prop := Forall (fun b => json_space b = true) w.

(** The text between the quotes of a literal. *)
Definition literal_text (raw : bytes) : Prop := string_end InString (raw ++ [quote]) = Some (raw, []).

(** [spells d v p]: the text [p] is a document [v] inside [d] open containers. *)
Inductive spells : Z -> json -> bytes -> Prop :=
  | sp_null d : spells d JNull &"null"
  | sp_true d : spells d (JBool true) &"true"
  | sp_false d : spells d (JBool false) &"false"
  | sp_number d t : json_number t = Some (t, []) -> spells d (JNumber t) t
  | sp_string d raw : literal_text raw -> spells d (JString (unquote raw)) (quote :: raw ++ [quote])
  | sp_empty_array d w : d < maxNestingDepth -> white w -> spells d (JArray []) (zb 91 :: w ++ [zb 93])
  | sp_array d vs p : d < maxNestingDepth -> spells_items (d + 1) vs p -> spells d (JArray vs) (zb 91 :: p)
  | sp_empty_object d w : d < maxNestingDepth -> white w -> spells d (JObject []) (zb 123 :: w ++ [zb 125])
  | sp_object d ms p : d < maxNestingDepth -> spells_members (d + 1) ms p -> spells d (JObject ms) (zb 123 :: p)
with spells_items : Z -> list json -> bytes -> Prop :=
  | sp_item d v w1 p w2 :
    white w1 -> spells d v p -> white w2 -> spells_items d [v] (w1 ++ p ++ w2 ++ [zb 93])
  | sp_items d v vs w1 p w2 q :
    white w1 -> spells d v p -> white w2 -> spells_items d vs q ->
    spells_items d (v :: vs) (w1 ++ p ++ w2 ++ zb 44 :: q)
with spells_members : Z -> list (bytes * json) -> bytes -> Prop :=
  | sp_member d raw v w1 w2 w3 p w4 :
    white w1 -> literal_text raw -> white w2 -> white w3 -> spells d v p -> white w4 ->
    spells_members d [(unquote raw, v)]
      (w1 ++ quote :: raw ++ quote :: w2 ++ zb 58 :: w3 ++ p ++ w4 ++ [zb 125])
  | sp_members d raw v ms w1 w2 w3 p w4 q :
    white w1 -> literal_text raw -> white w2 -> white w3 -> spells d v p -> white w4 -> spells_members d ms q ->
    spells_members d ((unquote raw, v) :: ms)
      (w1 ++ quote :: raw ++ quote :: w2 ++ zb 58 :: w3 ++ p ++ w4 ++ zb 44 :: q).

Scheme spells_min := Minimality for spells Sort Prop
  with spells_items_min := Minimality for spells_items Sort Prop
  with spells_members_min := Minimality for spells_members Sort Prop.
Combined Scheme spells_mutual from spells_min, spells_items_min, spells_members_min.

(** ** Lexemes *)

Lemma skip_space_split s : exists w, s = w ++ skip_space s /\ white w.
Proof.
  unfold skip_space. induction s as [|b s (w & E & Hw)]; cbn [drop_while]; [exists []; split; [done|constructor]|].
  destruct (json_space b) eqn:Eb; [|exists []; split; [done|constructor]].
  exists (b :: w). split; [cbn [app]; by f_equal|by constructor].
Qed.

Lemma skip_space_white w s : white w -> skip_space (w ++ s) = skip_space s.
Proof. unfold skip_space. induction 1 as [|b w Hb Hw IH]; [done|]. cbn [app drop_while]. by rewrite Hb. Qed.

Lemma skip_space_solid b s : json_space b = false -> skip_space (b :: s) = b :: s.
Proof. intros Hb. unfold skip_space. cbn [drop_while]. by rewrite Hb. Qed.

Lemma skip_space_cons s b rest :
  skip_space s = b :: rest -> exists w, s = w ++ b :: rest /\ white w.
Proof. intros E. destruct (skip_space_split s) as (w & Hs & Hw). rewrite E in Hs. eauto. Qed.

Lemma skip_space_head s : match skip_space s with b :: _ => json_space b = false | [] => True end.
Proof. apply drop_while_head. Qed.

Lemma all_white s : forallb json_space s = true <-> white s.
Proof. unfold white. rewrite forallb_forall, Forall_forall. by setoid_rewrite list_elem_of_In. Qed.

Lemma string_end_literal s raw after :
  string_end InString s = Some (raw, after) -> literal_text raw /\ s = raw ++ quote :: after.
Proof. intros [E Hx]%string_end_inv. split; [apply Hx|done]. Qed.

Lemma literal_end raw rest : literal_text raw -> string_end InString (raw ++ quote :: rest) = Some (raw, rest).
Proof. intros [_ Hx]%string_end_inv. apply Hx. Qed.

Lemma json_string_literal s :
  ValidString s = true ->
  exists raw, json_string s = quote :: raw ++ [quote] /\ literal_text raw /\ unquote raw = s.
Proof.
  intros Hv. exists (concat (escape_rune <$> runes s)). split; [done|].
  split; [by apply json_string_scanned|by apply unquote_json_string].
Qed.

(** *** Numbers *)

(** What follows does not go on with a number. *)
Definition delimits (r : bytes) : Prop :=
  match r with b :: _ => is_digit b = false /\ b <> zb 46 /\ in_set &"eE" b = false | [] => True end.

Lemma span_split f s u t : span f s = (u, t) -> s = u ++ t /\ match t with b :: _ => f b = false | [] => True end.
Proof.
  revert u t. induction s as [|b s IH]; intros u t; cbn [span]; [by intros [= <- <-]|].
  destruct (f b) eqn:Eb; [|by intros [= <- <-]].
  destruct (span f s) as [u' t'] eqn:Es. intros [= <- <-]. destruct (IH _ _ eq_refl) as [-> Ht]. done.
Qed.

Lemma span_app f s u t r :
  span f s = (u, t) -> match t ++ r with b :: _ => f b = false | [] => True end -> span f (s ++ r) = (u, t ++ r).
Proof.
  revert u t. induction s as [|b s IH]; intros u t; cbn [span app].
  - intros [= <- <-]. destruct r as [|c r]; [done|]. cbn [app span]. by intros ->.
  - destruct (f b) eqn:Eb; [|by intros [= <- <-]; intros _].
    destruct (span f s) as [u' t'] eqn:Es. intros [= <- <-] Ht. by rewrite (IH _ _ eq_refl Ht).
Qed.

Lemma json_digits_split s u t : json_digits s = Some (u, t) -> s = u ++ t.
Proof.
  unfold json_digits. destruct (span is_digit s) as [u' t'] eqn:Es. apply span_split in Es as [-> _].
  destruct u'; [done|]. by intros [= <- <-].
Qed.

Lemma json_digits_app s u t r : json_digits s = Some (u, t) -> delimits r -> json_digits (s ++ r) = Some (u, t ++ r).
Proof.
  unfold json_digits. destruct (span is_digit s) as [u' t'] eqn:Es. intros Hu Hr.
  pose proof (span_split _ _ _ _ Es) as [_ Ht].
  rewrite (span_app _ _ _ _ r Es); [destruct u'; [done|]; by injection Hu as <- <-|].
  destruct t'; [|done]. destruct r; [done|]. apply Hr.
Qed.

Lemma json_integer_split s u t : json_integer s = Some (u, t) -> s = u ++ t.
Proof.
  destruct s as [|b s]; [done|]. cbn [json_integer].
  destruct (bool_decide (b = zb 48)); [by intros [= <- <-]|apply json_digits_split].
Qed.

Lemma json_integer_app s u t r : json_integer s = Some (u, t) -> delimits r -> json_integer (s ++ r) = Some (u, t ++ r).
Proof.
  destruct s as [|b s]; [done|]. cbn [json_integer app].
  destruct (bool_decide (b = zb 48)); [by intros [= <- <-]|apply json_digits_app].
Qed.

Lemma json_fraction_split s u t : json_fraction s = Some (u, t) -> s = u ++ t.
Proof.
  destruct s as [|b s]; [by intros [= <- <-]|]. cbn [json_fraction].
  destruct (bool_decide (b = zb 46)); [|by intros [= <- <-]].
  destruct (json_digits s) as [[d a]|] eqn:E; [|done]. apply json_digits_split in E as ->. by intros [= <- <-].
Qed.

Lemma json_fraction_app s u t r : json_fraction s = Some (u, t) -> delimits r -> json_fraction (s ++ r) = Some (u, t ++ r).
Proof.
  destruct s as [|b s]; cbn [json_fraction app].
  - intros [= <- <-] Hr. destruct r as [|c r]; [done|]. cbn. by rewrite bool_decide_false by apply Hr.
  - destruct (bool_decide (b = zb 46)); [|by intros [= <- <-]].
    destruct (json_digits s) as [[d a]|] eqn:E; [|done]. intros [= <- <-] Hr.
    by rewrite (json_digits_app _ _ _ _ E Hr).
Qed.

Lemma json_exponent_split s u t : json_exponent s = Some (u, t) -> s = u ++ t.
Proof.
  destruct s as [|b s]; [by intros [= <- <-]|]. cbn [json_exponent].
  destruct (in_set &"eE" b); [|by intros [= <- <-]]. destruct s as [|c s]; [done|].
  destruct (in_set &"+-" c).
  - destruct (json_digits s) as [[d a]|] eqn:E; [|done]. apply json_digits_split in E as ->. by intros [= <- <-].
  - destruct (json_digits (c :: s)) as [[d a]|] eqn:E; [|done]. apply json_digits_split in E as ->. by intros [= <- <-].
Qed.

Lemma json_exponent_app s u t r : json_exponent s = Some (u, t) -> delimits r -> json_exponent (s ++ r) = Some (u, t ++ r).
Proof.
  destruct s as [|b s]; cbn [json_exponent app].
  - intros [= <- <-] Hr. destruct r as [|c r]; [done|]. cbn [json_exponent]. by destruct Hr as (_ & _ & ->).
  - destruct (in_set &"eE" b); [|by intros [= <- <-]]. destruct s as [|c s]; [done|]. cbn [app].
    destruct (in_set &"+-" c).
    + destruct (json_digits s) as [[d a]|] eqn:E; [|done]. intros [= <- <-] Hr. by rewrite (json_digits_app _ _ _ _ E Hr).
    + destruct (json_digits (c :: s)) as [[d a]|] eqn:E; [|done]. intros [= <- <-] Hr.
      change (c :: s ++ r) with ((c :: s) ++ r). by rewrite (json_digits_app _ _ _ _ E Hr).
Qed.

Lemma json_number_split s u t : json_number s = Some (u, t) -> s = u ++ t.
Proof.
  unfold json_number. destruct (json_sign s) as [sign s1] eqn:E1.
  assert (s = sign ++ s1) as ->.
  { destruct s as [|b s]; cbn in E1; [by injection E1 as <- <-|]. destruct (bool_decide _); by injection E1 as <- <-. }
  destruct (json_integer s1) as [[p2 s2]|] eqn:E2; [|done]. apply json_integer_split in E2 as ->. cbn [mbind option_bind].
  destruct (json_fraction s2) as [[p3 s3]|] eqn:E3; [|done]. apply json_fraction_split in E3 as ->. cbn [mbind option_bind].
  destruct (json_exponent s3) as [[p4 s4]|] eqn:E4; [|done]. apply json_exponent_split in E4 as ->.
  intros [= <- <-]. by rewrite <- !app_assoc.
Qed.

Lemma json_number_app s u t r : json_number s = Some (u, t) -> delimits r -> json_number (s ++ r) = Some (u, t ++ r).
Proof.
  unfold json_number. destruct (json_sign s) as [sign s1] eqn:E1. intros Hn Hr.
  assert (json_sign (s ++ r) = (sign, s1 ++ r)) as ->.
  { destruct s as [|b s]; cbn in E1 |- *; [injection E1 as <- <-; cbn in Hn; done|].
    destruct (bool_decide _); by injection E1 as <- <-. }
  destruct (json_integer s1) as [[p2 s2]|] eqn:E2; [|done]. rewrite (json_integer_app _ _ _ _ E2 Hr). cbn [mbind option_bind] in *.
  destruct (json_fraction s2) as [[p3 s3]|] eqn:E3; [|done]. rewrite (json_fraction_app _ _ _ _ E3 Hr). cbn [mbind option_bind] in *.
  destruct (json_exponent s3) as [[p4 s4]|] eqn:E4; [|done]. rewrite (json_exponent_app _ _ _ _ E4 Hr). cbn [mbind option_bind] in *.
  by injection Hn as <- <-.
Qed.

(** *** A number is read again from its own text *)

Lemma span_cut f s u k k' : span f s = (u, k ++ k') -> span f (u ++ k) = (u, k).
Proof.
  intros Es. pose proof (span_split _ _ _ _ Es) as [-> Ht].
  assert (span f u = (u, [])) as Hu.
  { clear Ht. revert Es. induction u as [|b u IH]; [done|]. cbn [app span]. destruct (f b); [|done].
    destruct (span f (u ++ k ++ k')) as [u' t'] eqn:E. intros [= -> ->]. by rewrite IH. }
  pose proof (span_app f u u [] k Hu) as Ha. apply Ha. by destruct k.
Qed.

Lemma json_digits_cut s u k k' : json_digits s = Some (u, k ++ k') -> json_digits (u ++ k) = Some (u, k).
Proof.
  unfold json_digits. destruct (span is_digit s) as [u' t'] eqn:Es. destruct u' as [|b u']; [done|].
  intros [= <- ->]. by rewrite (span_cut _ _ _ _ _ Es).
Qed.

Lemma json_integer_cut s u k k' : json_integer s = Some (u, k ++ k') -> json_integer (u ++ k) = Some (u, k).
Proof.
  destruct s as [|b s]; [done|]. cbn [json_integer]. destruct (bool_decide (b = zb 48)) eqn:Eb.
  - intros [= <- ->]. cbn [app json_integer]. by rewrite Eb.
  - intros E. pose proof (json_digits_split _ _ _ E) as Es. apply json_digits_cut in E as Ec.
    destruct u as [|c u]; [unfold json_digits in E; by destruct (span is_digit (b :: s)) as [[|? ?] ?]|].
    cbn [app] in Es |- *. injection Es as <- _. cbn [json_integer]. by rewrite Eb.
Qed.

Lemma json_fraction_cut s u k k' : json_fraction s = Some (u, k ++ k') -> json_fraction (u ++ k) = Some (u, k).
Proof.
  destruct s as [|b s]; cbn [json_fraction].
  - intros [= <- E]. by destruct k.
  - destruct (bool_decide (b = zb 46)) eqn:Eb.
    + destruct (json_digits s) as [[d a]|] eqn:E; [|done]. intros [= <- ->]. cbn [app json_fraction].
      rewrite Eb. by rewrite (json_digits_cut _ _ _ _ E).
    + intros [= <- E]. destruct k as [|c k]; [done|]. injection E as <- _. cbn. by rewrite Eb.
Qed.

Lemma json_exponent_cut s u k k' : json_exponent s = Some (u, k ++ k') -> json_exponent (u ++ k) = Some (u, k).
Proof.
  destruct s as [|b s]; cbn [json_exponent].
  - intros [= <- E]. by destruct k.
  - destruct (in_set &"eE" b) eqn:Eb.
    + destruct s as [|c s]; [done|]. destruct (in_set &"+-" c) eqn:Ec.
      * destruct (json_digits s) as [[d a]|] eqn:E; [|done]. intros [= <- ->]. cbn [app json_exponent].
        rewrite Eb, Ec. by rewrite (json_digits_cut _ _ _ _ E).
      * destruct (json_digits (c :: s)) as [[d a]|] eqn:E; [|done]. intros [= <- ->]. cbn [app json_exponent].
        pose proof (json_digits_split _ _ _ E) as Es. pose proof (json_digits_cut _ _ _ _ E) as Hc. rewrite Eb.
        destruct d as [|x d]; [unfold json_digits in E; by destruct (span is_digit (c :: s)) as [[|? ?] ?]|].
        cbn [app] in Es, Hc |- *. injection Es as <- _. rewrite Ec. by rewrite Hc.
    + intros [= <- E]. destruct k as [|c k]; [done|]. injection E as <- _. cbn [app json_exponent]. by rewrite Eb.
Qed.

Lemma json_number_whole s u t : json_number s = Some (u, t) -> json_number u = Some (u, []).
Proof.
  unfold json_number. destruct (json_sign s) as [sign s1] eqn:E1.
  destruct (json_integer s1) as [[p2 s2]|] eqn:E2; [|done]. cbn [mbind option_bind].
  destruct (json_fraction s2) as [[p3 s3]|] eqn:E3; [|done]. cbn [mbind option_bind].
  destruct (json_exponent s3) as [[p4 s4]|] eqn:E4; [|done]. cbn [mbind option_bind]. intros [= <- <-].
  pose proof (json_fraction_split _ _ _ E3) as ->. pose proof (json_exponent_split _ _ _ E4) as ->.
  rewrite app_assoc in E2. apply json_integer_cut in E2 as C2. apply json_fraction_cut in E3 as C3.
  pose proof (json_exponent_cut _ _ [] _ E4) as C4. rewrite app_nil_r in C4.
  assert (json_sign (sign ++ p2 ++ p3 ++ p4) = (sign, p2 ++ p3 ++ p4)) as ->.
  { destruct s as [|b s]; cbn in E1; [injection E1 as <- <-; done|].
    destruct (bool_decide (b = zb 45)) eqn:Eb; injection E1 as <- <-; cbn [app json_sign]; [by rewrite Eb|].
    apply json_integer_split in E2. rewrite <- !app_assoc in E2. destruct (p2 ++ p3 ++ p4) as [|c l] eqn:El; [done|].
    assert (c = b) as ->; [|cbn [json_sign]; by rewrite Eb].
    rewrite !app_assoc in E2. rewrite <- (app_assoc p2 p3 p4), El in E2. by injection E2. }
  rewrite C2. cbn [mbind option_bind]. rewrite C3. cbn [mbind option_bind]. by rewrite C4.
Qed.

(** Both sides of an equation between texts, reassociated. *)
Ltac flat_app := repeat (first [rewrite <- app_assoc | progress (cbn [app])]); reflexivity.

(** ** Soundness: what the reader accepts is spelt by the grammar *)

Definition reads_values (n : nat) : Prop :=
  forall d s v r, json_value n d s = Some (v, r) -> exists w p, s = w ++ p ++ r /\ white w /\ spells d v p.
Definition reads_items (n : nat) : Prop :=
  forall d s vs r, json_elements n d s = Some (vs, r) -> exists p, s = p ++ r /\ spells_items d vs p.
Definition reads_members (n : nat) : Prop :=
  forall d s ms r, json_members n d s = Some (ms, r) -> exists p, s = p ++ r /\ spells_members d ms p.

Lemma json_literal_sound d s v r : json_literal s = Some (v, r) -> exists p, s = p ++ r /\ spells d v p.
Proof.
  unfold json_literal.
  destruct (has_prefix s &"null") eqn:E1.
  { intros [= <- <-]. apply has_prefix_inv in E1. eexists. split; [exact E1|constructor]. }
  destruct (has_prefix s &"true") eqn:E2.
  { intros [= <- <-]. apply has_prefix_inv in E2. eexists. split; [exact E2|constructor]. }
  destruct (has_prefix s &"false") eqn:E3.
  { intros [= <- <-]. apply has_prefix_inv in E3. eexists. split; [exact E3|constructor]. }
  destruct (json_number s) as [[t a]|] eqn:E; [|done]. intros [= <- <-]. exists t.
  split; [by apply json_number_split|]. constructor. by eapply json_number_whole.
Qed.

Lemma reads_values_step n : reads_items n -> reads_members n -> reads_values (S n).
Proof.
  intros Hi Hm d s v r. cbn [json_value]. destruct (skip_space s) as [|b rest] eqn:Es; [done|].
  apply skip_space_cons in Es as (w & -> & Hw). intros E. exists w.
  assert (exists p, b :: rest = p ++ r /\ spells d v p) as (p & -> & Hp); [|by exists p]. clear w Hw.
  destruct (bool_decide_reflect (b = quote)) as [->|_].
  { destruct (string_end InString rest) as [[raw after]|] eqn:El; [|done].
    apply string_end_literal in El as [El ->]. injection E as <- <-.
    exists (quote :: raw ++ [quote]). split; [cbn; by rewrite <- app_assoc|by constructor]. }
  destruct (bool_decide_reflect (b = zb 91)) as [->|_].
  { destruct (Z.leb_spec maxNestingDepth d); [done|]. destruct (skip_space rest) as [|c after] eqn:Ea; [done|].
    destruct (bool_decide_reflect (c = zb 93)) as [->|_].
    - injection E as <- <-. apply skip_space_cons in Ea as (w & -> & Hw).
      exists (zb 91 :: w ++ [zb 93]). split; [cbn; by rewrite <- app_assoc|by constructor].
    - destruct (json_elements n (d + 1) rest) as [[vs a]|] eqn:Ee; [|done]. injection E as <- <-.
      apply Hi in Ee as (p & -> & Hp). exists (zb 91 :: p). split; [done|by constructor]. }
  destruct (bool_decide_reflect (b = zb 123)) as [->|_]; [|by apply json_literal_sound].
  destruct (Z.leb_spec maxNestingDepth d); [done|]. destruct (skip_space rest) as [|c after] eqn:Ea; [done|].
  destruct (bool_decide_reflect (c = zb 125)) as [->|_].
  - injection E as <- <-. apply skip_space_cons in Ea as (w & -> & Hw).
    exists (zb 123 :: w ++ [zb 125]). split; [cbn; by rewrite <- app_assoc|by constructor].
  - destruct (json_members n (d + 1) rest) as [[vs a]|] eqn:Ee; [|done]. injection E as <- <-.
    apply Hm in Ee as (p & -> & Hp). exists (zb 123 :: p). split; [done|by constructor].
Qed.

Lemma reads_items_step n : reads_values n -> reads_items n -> reads_items (S n).
Proof.
  intros Hv Hi d s vs r. cbn [json_elements].
  destruct (json_value n d s) as [[v a]|] eqn:Ev; [|done]. cbn [mbind option_bind].
  apply Hv in Ev as (w1 & p & -> & Hw1 & Hp). destruct (skip_space a) as [|c rest] eqn:Ea; [done|].
  apply skip_space_cons in Ea as (w2 & -> & Hw2).
  destruct (bool_decide_reflect (c = zb 44)) as [->|_].
  - destruct (json_elements n d rest) as [[vs' a]|] eqn:Ee; [|done]. intros [= <- <-].
    apply Hi in Ee as (q & -> & Hq). exists (w1 ++ p ++ w2 ++ zb 44 :: q).
    split; [by rewrite <- !app_assoc|by constructor].
  - destruct (bool_decide_reflect (c = zb 93)) as [->|_]; [|done]. intros [= <- <-].
    exists (w1 ++ p ++ w2 ++ [zb 93]). split; [by rewrite <- !app_assoc|by constructor].
Qed.

Lemma reads_members_step n : reads_values n -> reads_members n -> reads_members (S n).
Proof.
  intros Hv Hm d s ms r. cbn [json_members]. destruct (skip_space s) as [|b rest] eqn:Es; [done|].
  apply skip_space_cons in Es as (w1 & -> & Hw1). destruct (bool_decide_reflect (b = quote)) as [->|_]; [|done].
  destruct (string_end InString rest) as [[raw after]|] eqn:El; [|done]. cbn [mbind option_bind].
  apply string_end_literal in El as [El ->]. destruct (skip_space after) as [|c rest] eqn:Ea; [done|].
  apply skip_space_cons in Ea as (w2 & -> & Hw2). destruct (bool_decide_reflect (c = zb 58)) as [->|_]; [|done].
  destruct (json_value n d rest) as [[v a]|] eqn:Ev; [|done]. cbn [mbind option_bind].
  apply Hv in Ev as (w3 & p & -> & Hw3 & Hp). destruct (skip_space a) as [|c rest] eqn:Ea; [done|].
  apply skip_space_cons in Ea as (w4 & -> & Hw4).
  destruct (bool_decide_reflect (c = zb 44)) as [->|_].
  - destruct (json_members n d rest) as [[ms' a]|] eqn:Ee; [|done]. intros [= <- <-].
    apply Hm in Ee as (q & -> & Hq). eexists. split; [|by apply (sp_members d raw v ms' w1 w2 w3 p w4 q)].
    flat_app.
  - destruct (bool_decide_reflect (c = zb 125)) as [->|_]; [|done]. intros [= <- <-].
    eexists. split; [|by apply (sp_member d raw v w1 w2 w3 p w4)].
    flat_app.
Qed.

Lemma json_reads n : reads_values n /\ reads_items n /\ reads_members n.
Proof.
  induction n as [|n (Hv & Hi & Hm)]; [by split_and!; intros ????|].
  split_and!; [by apply reads_values_step|by apply reads_items_step|by apply reads_members_step].
Qed.

Lemma json_value_sound n d s v r :
  json_value n d s = Some (v, r) -> exists w p, s = w ++ p ++ r /\ white w /\ spells d v p.
Proof. apply json_reads. Qed.

(** ** Completeness: every text of the grammar is accepted, whatever follows *)

Lemma white_delimits w b r :
  white w -> in_set [zb 44; zb 93; zb 125] b = true -> delimits (w ++ b :: r).
Proof.
  intros Hw Hb. destruct Hw as [|c w Hc Hw]; cbn [app delimits].
  - revert Hb. unfold in_set. rewrite bool_decide_eq_true, !elem_of_cons, elem_of_nil.
    intros [->|[->|[->|[]]]]; (split_and!; [reflexivity|by vm_compute|reflexivity]).
  - revert Hc. unfold json_space, in_set. rewrite bool_decide_eq_true, !elem_of_cons, elem_of_nil.
    intros [->|[->|[->|[->|[]]]]]; (split_and!; [reflexivity|by vm_compute|reflexivity]).
Qed.

Lemma json_value_white n d w s : white w -> json_value n d (w ++ s) = json_value n d s.
Proof. intros Hw. destruct n; [done|]. cbn [json_value]. by rewrite skip_space_white. Qed.

Lemma json_number_head t r : json_number t = Some (t, r) -> exists b p, t = b :: p /\ (b = zb 45 \/ is_digit b = true).
Proof.
  destruct t as [|b p]; [done|]. intros E. exists b, p. split; [done|]. revert E.
  unfold json_number, json_sign. destruct (bool_decide_reflect (b = zb 45)) as [->|_]; [by left|]. right.
  revert E. unfold json_integer. destruct (bool_decide_reflect (b = zb 48)) as [->|_]; [done|].
  unfold json_digits. cbn [span]. by destruct (is_digit b).
Qed.

Lemma spells_head d v p : spells d v p -> exists b q, p = b :: q /\ json_space b = false.
Proof.
  destruct 1; try (eexists _, _; split; [reflexivity|reflexivity]).
  destruct (json_number_head _ _ H) as (b & q & -> & Hb). exists b, q. split; [done|].
  destruct Hb as [->|Hb]; [done|]. unfold json_space, in_set. apply bool_decide_eq_false.
  rewrite !elem_of_cons, elem_of_nil. by intros [->|[->|[->|[->|[]]]]].
Qed.

(** The three brackets and the quote start no literal. *)
Lemma json_value_literal n d b s :
  json_space b = false -> b <> quote -> b <> zb 91 -> b <> zb 123 -> json_value (S n) d (b :: s) = json_literal (b :: s).
Proof. intros. cbn [json_value]. rewrite skip_space_solid by done. by rewrite !bool_decide_false by done. Qed.

Lemma json_value_number n d t r : json_number t = Some (t, []) -> delimits r -> json_value (S n) d (t ++ r) = Some (JNumber t, r).
Proof.
  intros Ht Hr. destruct (json_number_head _ _ Ht) as (b & p & -> & Hb).
  assert (json_space b = false /\ b <> quote /\ b <> zb 91 /\ b <> zb 123 /\ b <> zb 110 /\ b <> zb 116 /\ b <> zb 102) as (H1 & H2 & H3 & H4 & H5 & H6 & H7).
  { destruct Hb as [->|Hb]; [split_and!; [reflexivity|by vm_compute ..]|].
    split_and!; [|intros ->; vm_compute in Hb; discriminate Hb ..]. unfold json_space, in_set.
    apply bool_decide_eq_false. rewrite !elem_of_cons, elem_of_nil. by intros [->|[->|[->|[->|[]]]]]. }
  cbn [app]. rewrite json_value_literal by done. unfold json_literal.
  assert (forall l, match l with c :: _ => b <> c | [] => False end -> has_prefix (b :: p ++ r) l = false) as Hp.
  { intros [|c l] Hc; [done|]. cbn [has_prefix]. by rewrite bool_decide_false by congruence. }
  rewrite (Hp &"null" H5), (Hp &"true" H6), (Hp &"false" H7).
  change (b :: p ++ r) with ((b :: p) ++ r). by rewrite (json_number_app _ _ _ _ Ht Hr).
Qed.

Definition read_back (d : Z) (v : json) (p : bytes) : Prop :=
  forall n r, (2 * length p < n)%nat -> delimits r -> json_value n d (p ++ r) = Some (v, r).
Definition items_back (d : Z) (vs : list json) (p : bytes) : Prop :=
  (forall n r, (2 * length p <= n)%nat -> json_elements n d (p ++ r) = Some (vs, r))
  /\ forall r, exists b q, skip_space (p ++ r) = b :: q /\ b <> zb 93.
Definition members_back (d : Z) (ms : list (bytes * json)) (p : bytes) : Prop :=
  (forall n r, (2 * length p <= n)%nat -> json_members n d (p ++ r) = Some (ms, r))
  /\ forall r, exists b q, skip_space (p ++ r) = b :: q /\ b <> zb 125.

Lemma literals_read r :
  json_literal (&"null" ++ r) = Some (JNull, r) /\ json_literal (&"true" ++ r) = Some (JBool true, r)
  /\ json_literal (&"false" ++ r) = Some (JBool false, r).
Proof.
  unfold json_literal. rewrite !has_prefix_app.
  change (has_prefix (&"true" ++ r) &"null") with false. change (has_prefix (&"false" ++ r) &"null") with false.
  by change (has_prefix (&"false" ++ r) &"true") with false.
Qed.

Lemma literal_back d v l b p r n :
  json_literal (l ++ r) = Some (v, r) -> l = b :: p -> json_space b = false -> b <> quote -> b <> zb 91 -> b <> zb 123 ->
  (2 * length l < n)%nat -> json_value n d (l ++ r) = Some (v, r).
Proof. intros Hl -> Hs Hq Ha Ho Hn. destruct n as [|n]; [lia|]. cbn [app] in *. by rewrite json_value_literal. Qed.

Lemma string_back n d raw r : literal_text raw -> json_value (S n) d ((quote :: raw ++ [quote]) ++ r) = Some (JString (unquote raw), r).
Proof.
  intros Hl. cbn [app json_value]. rewrite skip_space_solid by done. rewrite bool_decide_true by done.
  rewrite <- app_assoc. cbn [app]. by rewrite literal_end.
Qed.

Lemma not_bracket_head d v p w b : spells d v p -> white w -> exists c q, skip_space (w ++ p ++ b) = c :: q /\ c <> zb 93.
Proof.
  intros Hp Hw. rewrite skip_space_white by done.
  destruct (spells_head d v p Hp) as (c & q & -> & Hc). cbn [app]. rewrite skip_space_solid by done. exists c, (q ++ b).
  split; [done|]. intros ->. by inversion Hp.
Qed.

(** *** One step of the reader over an opening bracket, an element and a member *)

Lemma read_array n d s b q :
  d < maxNestingDepth -> skip_space s = b :: q -> b <> zb 93 ->
  json_value (S n) d (zb 91 :: s) = '(vs, after) ← json_elements n (d + 1) s; Some (JArray vs, after).
Proof.
  intros Hd Hs Hb. cbn [json_value]. rewrite skip_space_solid by done. rewrite (proj2 (Z.leb_gt _ _)) by lia.
  rewrite Hs. change (bool_decide (zb 91 = quote)) with false. change (bool_decide (zb 91 = zb 91)) with true. cbv iota.
  by rewrite bool_decide_false by done.
Qed.

Lemma read_object n d s b q :
  d < maxNestingDepth -> skip_space s = b :: q -> b <> zb 125 ->
  json_value (S n) d (zb 123 :: s) = '(ms, after) ← json_members n (d + 1) s; Some (JObject ms, after).
Proof.
  intros Hd Hs Hb. cbn [json_value]. rewrite skip_space_solid by done. rewrite (proj2 (Z.leb_gt _ _)) by lia.
  rewrite Hs. change (bool_decide (zb 123 = quote)) with false. change (bool_decide (zb 123 = zb 91)) with false.
  change (bool_decide (zb 123 = zb 123)) with true. cbv iota. by rewrite bool_decide_false by done.
Qed.

Lemma read_empty n d w r (a b : byte) (v : json) :
  d < maxNestingDepth -> white w -> (a, b, v) = (zb 91, zb 93, JArray []) \/ (a, b, v) = (zb 123, zb 125, JObject []) ->
  json_value (S n) d ((a :: w ++ [b]) ++ r) = Some (v, r).
Proof.
  intros Hd Hw Hab. cbn [app]. rewrite <- app_assoc. cbn [json_value].
  destruct Hab as [[= -> -> ->]|[= -> -> ->]]; rewrite skip_space_solid by done;
    (rewrite (proj2 (Z.leb_gt _ _)) by lia); rewrite skip_space_white by done; reflexivity.
Qed.

Lemma read_item n d w1 v p w2 (c : byte) rest :
  white w1 -> white w2 -> in_set [zb 44; zb 93; zb 125] c = true ->
  json_value n d (p ++ w2 ++ c :: rest) = Some (v, w2 ++ c :: rest) ->
  json_elements (S n) d (w1 ++ p ++ w2 ++ c :: rest)
  = if bool_decide (c = zb 44) then '(vs, after) ← json_elements n d rest; Some (v :: vs, after)
    else if bool_decide (c = zb 93) then Some ([v], rest) else None.
Proof.
  intros Hw1 Hw2 Hc Hv. cbn [json_elements]. rewrite json_value_white, Hv by done. cbn [mbind option_bind].
  assert (json_space c = false) as Hs.
  { revert Hc. unfold in_set. rewrite bool_decide_eq_true, !elem_of_cons, elem_of_nil. by intros [->|[->|[->|[]]]]. }
  by rewrite skip_space_white, skip_space_solid.
Qed.

Lemma read_member n d w1 raw w2 w3 v p w4 (c : byte) rest :
  white w1 -> literal_text raw -> white w2 -> white w3 -> white w4 -> in_set [zb 44; zb 93; zb 125] c = true ->
  json_value n d (p ++ w4 ++ c :: rest) = Some (v, w4 ++ c :: rest) ->
  json_members (S n) d (w1 ++ quote :: raw ++ quote :: w2 ++ zb 58 :: w3 ++ p ++ w4 ++ c :: rest)
  = if bool_decide (c = zb 44) then '(ms, after) ← json_members n d rest; Some ((unquote raw, v) :: ms, after)
    else if bool_decide (c = zb 125) then Some ([(unquote raw, v)], rest) else None.
Proof.
  intros Hw1 Hl Hw2 Hw3 Hw4 Hc Hv. cbn [json_members].
  rewrite skip_space_white, skip_space_solid by done. rewrite bool_decide_true by done.
  rewrite literal_end by done. cbn [mbind option_bind]. rewrite skip_space_white, skip_space_solid by done.
  rewrite bool_decide_true by done. rewrite json_value_white, Hv by done. cbn [mbind option_bind].
  assert (json_space c = false) as Hs.
  { revert Hc. unfold in_set. rewrite bool_decide_eq_true, !elem_of_cons, elem_of_nil. by intros [->|[->|[->|[]]]]. }
  by rewrite skip_space_white, skip_space_solid.
Qed.

Lemma app_cons_members w1 raw w2 w3 p w4 t r :
  (w1 ++ quote :: raw ++ quote :: w2 ++ zb 58 :: w3 ++ p ++ w4 ++ t) ++ r
  = w1 ++ quote :: raw ++ quote :: w2 ++ zb 58 :: w3 ++ p ++ w4 ++ t ++ r.
Proof. flat_app. Qed.

(** The length of a text that is a sequence of pieces. *)
Ltac text_length H := repeat (first [rewrite length_app in H | progress (cbn [length] in H)]).

Lemma reads_back :
  (forall d v p, spells d v p -> read_back d v p)
  /\ (forall d vs p, spells_items d vs p -> items_back d vs p)
  /\ (forall d ms p, spells_members d ms p -> members_back d ms p).
Proof.
  apply spells_mutual; unfold read_back, items_back, members_back.
  1-3: intros d n r Hn _; eapply literal_back; [apply literals_read|reflexivity|by vm_compute ..|exact Hn].
  - intros d t Ht [|n] r Hn Hr; [lia|]. by apply json_value_number.
  - intros d raw Hl [|n] r Hn _; [lia|]. by apply string_back.
  - intros d w Hd Hw [|n] r Hn _; [lia|]. apply read_empty; auto.
  - intros d vs p Hd _ [IH Hh] [|n] r Hn _; [lia|]. cbn [app length] in *. destruct (Hh r) as (b & q & Hs & Hb).
    by rewrite (read_array n d _ b q), IH by (done || lia).
  - intros d w Hd Hw [|n] r Hn _; [lia|]. apply read_empty; auto.
  - intros d vs p Hd _ [IH Hh] [|n] r Hn _; [lia|]. cbn [app length] in *. destruct (Hh r) as (b & q & Hs & Hb).
    by rewrite (read_object n d _ b q), IH by (done || lia).
  - intros d v w1 p w2 Hw1 Hp IH Hw2. split; [|intros r; rewrite <- !app_assoc; by eapply not_bracket_head].
    intros [|n] r Hn; text_length Hn; [lia|]. rewrite <- !app_assoc. cbn [app].
    by rewrite (read_item n d w1 v) by (first [done|apply IH; first [lia|by apply white_delimits]]).
  - intros d v vs w1 p w2 q Hw1 Hp IH Hw2 _ [IHq _]. split; [|intros r; rewrite <- !app_assoc; by eapply not_bracket_head].
    intros [|n] r Hn; text_length Hn; [lia|]. rewrite <- !app_assoc. cbn [app].
    rewrite (read_item n d w1 v) by (first [done|apply IH; first [lia|by apply white_delimits]]). by rewrite bool_decide_true, IHq by (done || lia).
  - intros d raw v w1 w2 w3 p w4 Hw1 Hl Hw2 Hw3 Hp IH Hw4.
    split; [|intros r; rewrite <- app_assoc, skip_space_white by done; eexists _, _; split; [reflexivity|by vm_compute]].
    intros [|n] r Hn; text_length Hn; [lia|]. rewrite (app_cons_members w1 raw w2 w3 p w4). cbn [app].
    by rewrite (read_member n d w1 raw w2 w3 v) by (first [done|apply IH; first [lia|by apply white_delimits]]).
  - intros d raw v ms w1 w2 w3 p w4 q Hw1 Hl Hw2 Hw3 Hp IH Hw4 _ [IHq _].
    split; [|intros r; rewrite <- app_assoc, skip_space_white by done; eexists _, _; split; [reflexivity|by vm_compute]].
    intros [|n] r Hn; text_length Hn; [lia|]. rewrite (app_cons_members w1 raw w2 w3 p w4). cbn [app].
    rewrite (read_member n d w1 raw w2 w3 v) by (first [done|apply IH; first [lia|by apply white_delimits]]).
    by rewrite bool_decide_true, IHq by (done || lia).
Qed.

(** ** The reader over a whole input *)

Lemma json_read_sound s v r : json_read s = Some (v, r) -> exists w p, s = w ++ p ++ r /\ white w /\ spells 0 v p.
Proof. apply json_value_sound. Qed.

Lemma json_read_complete w v p r : white w -> spells 0 v p -> delimits r -> json_read (w ++ p ++ r) = Some (v, r).
Proof.
  intros Hw Hp Hr. unfold json_read. rewrite json_value_white by done.
  apply reads_back; [done| |done]. rewrite !length_app. lia.
Qed.

(** ** The encoder spells its document *)

Section TreeInduction.
Context (P : json -> Prop).
Context (Hnull : P JNull) (Hbool : forall b, P (JBool b)) (Hnumber : forall t, P (JNumber t)) (Hstring : forall s, P (JString s)).
Context (Harray : forall l, Forall P l -> P (JArray l)) (Hobject : forall l, Forall (fun m => P m.2) l -> P (JObject l)).

Fixpoint json_tree_ind (v : json) : P v :=
  match v with
  | JNull => Hnull
  | JBool b => Hbool b
  | JNumber t => Hnumber t
  | JString s => Hstring s
  | JArray l =>
    Harray l ((fix go l : Forall P l :=
      match l with [] => Forall_nil_2 _ | x :: l' => Forall_cons_2 _ x l' (json_tree_ind x) (go l') end) l)
  | JObject l =>
    Hobject l ((fix go l : Forall (fun m => P m.2) l :=
      match l with [] => Forall_nil_2 _ | x :: l' => Forall_cons_2 _ x l' (json_tree_ind x.2) (go l') end) l)
  end.
End TreeInduction.

(** Numbers are numbers, strings are valid, and no more than the allowed containers are
    open. *)
Fixpoint json_ok (d : Z) (v : json) : bool :=
  match v with
  | JNumber t => bool_decide (json_number t = Some (t, []))
  | JString s => ValidString s
  | JArray items => (d <? maxNestingDepth) && forallb (json_ok (d + 1)) items
  | JObject members => (d <? maxNestingDepth) && forallb (fun m => ValidString m.1 && json_ok (d + 1) m.2) members
  | _ => true
  end.

Lemma spells_render_items d l :
  l <> [] -> Forall (fun v => spells d v (json_render v)) l ->
  spells_items d l (join_bytes [zb 44] (json_render <$> l) ++ [zb 93]).
Proof.
  intros Hne Hl. induction Hl as [|v l Hv Hl IH]; [done|]. destruct l as [|x l].
  - apply (sp_item d v [] (json_render v) []); [constructor|done|constructor].
  - specialize (IH ltac:(done)). change (join_bytes [zb 44] (json_render <$> v :: x :: l))
      with (json_render v ++ [zb 44] ++ join_bytes [zb 44] (json_render <$> x :: l)).
    rewrite <- !app_assoc. apply (sp_items d v (x :: l) [] (json_render v) []); [constructor|done|constructor|done].
Qed.

Definition render_member (m : bytes * json) : bytes := json_string m.1 ++ zb 58 :: json_render m.2.

Lemma spells_render_members d l :
  l <> [] -> Forall (fun m => ValidString m.1 = true /\ spells d m.2 (json_render m.2)) l ->
  spells_members d l (join_bytes [zb 44] (render_member <$> l) ++ [zb 125]).
Proof.
  intros Hne Hl. induction Hl as [|[k v] l [Hk Hv] Hl IH]; [done|]. cbn [fst snd] in *.
  destruct (json_string_literal k Hk) as (raw & Ek & Hr & <-). destruct l as [|x l].
  - cbn [fmap list_fmap join_bytes]. unfold render_member. cbn [fst snd]. rewrite Ek. cbn [app]. repeat (first [rewrite <- app_assoc | progress (cbn [app])]).
    by apply (sp_member d raw v [] [] [] (json_render v) []); try constructor.
  - specialize (IH ltac:(done)). change (join_bytes [zb 44] (render_member <$> (unquote raw, v) :: x :: l))
      with (render_member (unquote raw, v) ++ [zb 44] ++ join_bytes [zb 44] (render_member <$> x :: l)).
    unfold render_member at 1. cbn [fst snd]. rewrite Ek. cbn [app]. repeat (first [rewrite <- app_assoc | progress (cbn [app])]).
    by apply (sp_members d raw v (x :: l) [] [] [] (json_render v) []); try constructor.
Qed.

Lemma json_render_spells d v : json_ok d v = true -> spells d v (json_render v).
Proof.
  revert d. induction v as [|b|t|s|l IH|l IH] using json_tree_ind; intros d; cbn [json_ok].
  - constructor.
  - destruct b; constructor.
  - intros Ht. constructor. by apply bool_decide_eq_true in Ht.
  - intros Hs. destruct (json_string_literal s Hs) as (raw & E & Hl & <-). cbn [json_render]. rewrite E. by constructor.
  - rewrite andb_true_iff, Z.ltb_lt. intros [Hd Hl]. destruct l as [|x l]; [apply (sp_empty_array d []); [done|constructor]|].
    cbn [json_render]. apply sp_array; [done|]. apply spells_render_items; [done|].
    rewrite forallb_forall in Hl. rewrite Forall_forall in IH |- *. intros v Hv. apply IH; [done|]. by apply Hl, list_elem_of_In.
  - rewrite andb_true_iff, Z.ltb_lt. intros [Hd Hl]. destruct l as [|x l]; [apply (sp_empty_object d []); [done|constructor]|].
    cbn [json_render]. apply sp_object; [done|]. apply (spells_render_members _ (x :: l)); [done|].
    rewrite forallb_forall in Hl. rewrite Forall_forall in IH |- *. intros m Hm.
    pose proof (Hl m ltac:(by apply list_elem_of_In)) as Ho. rewrite andb_true_iff in Ho. split; [by apply Ho|]. by apply IH; [|apply Ho].
Qed.

(** What the encoder writes is read back, whatever white space surrounds it. *)
Lemma json_render_read w v r :
  white w -> json_ok 0 v = true -> delimits r -> json_read (w ++ json_render v ++ r) = Some (v, r).
Proof. intros Hw Hv Hr. apply json_read_complete; [done|by apply json_render_spells|done]. Qed.

(** ** Decimal integers

    What [strconv.Itoa] writes is read back by [strconv.Atoi], and is a number of JSON. *)

(** The digits of [n]: no leading zero. *)
Definition digits_of (n : Z) (ds : bytes) : Prop :=
  Forall (fun b => is_digit b = true) ds /\ ds <> []
  /\ (forall acc, parse_digits acc ds = Some (acc * 10 ^ Z.of_nat (length ds) + n))
  /\ (n = 0 -> ds = [zb 48]) /\ (n <> 0 -> hd_error ds <> Some (zb 48)).

Lemma nat_digits_spec fuel : forall n acc,
  0 <= n < 2 ^ Z.of_nat (S fuel) -> exists ds, nat_digits (S fuel) n acc = ds ++ acc /\ digits_of n ds.
Proof.
  induction fuel as [|fuel IH]; intros n acc Hn; cbn [nat_digits];
    destruct (digit_char (n mod 10) ltac:(apply Z.mod_pos_bound; lia)) as [Hd Hv].
  - assert (n = 0 \/ n = 1) as Hc by (change (2 ^ Z.of_nat 1) with 2 in Hn; lia).
    rewrite (proj2 (Z.ltb_lt _ _)) by lia. exists [zb (48 + n mod 10)].
    split; [done|]. destruct Hc as [->| ->]; (split_and!; [by repeat constructor|done|intros a; cbn; f_equal; lia|done|by vm_compute]).
  - destruct (Z.ltb_spec n 10) as [Hlt|Hge].
    + exists [zb (48 + n mod 10)]. split; [done|]. split_and!; [by repeat constructor|done| | |].
      * intros a. cbn [parse_digits length]. rewrite Hd, Hv. f_equal. rewrite Z.mod_small by lia. lia.
      * intros ->. done.
      * intros Hne E. injection E as E. apply (f_equal bz) in E. rewrite bz_zb_small in E by (Z.div_mod_to_equations; lia).
        change (bz (zb 48)) with 48 in E. rewrite Z.mod_small in E by lia. lia.
    + rewrite Nat2Z.inj_succ, Z.pow_succ_r in Hn by lia.
      destruct (IH (n / 10) (zb (48 + n mod 10) :: acc)) as (ds & E & Hds & Hne & Hp & _ & Hh).
      { Z.div_mod_to_equations. lia. }
      exists (ds ++ [zb (48 + n mod 10)]). cbn [nat_digits] in E. rewrite E. split; [by rewrite <- app_assoc|]. split_and!.
      * apply Forall_app. split; [done|by repeat constructor].
      * by destruct ds.
      * intros a. rewrite parse_digits_app by done. rewrite Hp. cbn [mbind option_bind parse_digits]. rewrite Hd, Hv.
        rewrite length_app, Nat2Z.inj_add, Z.pow_add_r by lia. f_equal. cbn [length].
        change (10 ^ Z.of_nat 1) with 10. pose proof (Z.div_mod n 10). lia.
      * lia.
      * intros _. destruct ds as [|b ds]; [done|]. apply Hh. Z.div_mod_to_equations. lia.
Qed.

Lemma Itoa_digits n : 0 <= n -> exists ds, Itoa n = ds /\ digits_of n ds.
Proof.
  intros Hn. unfold Itoa. rewrite (proj2 (Z.ltb_ge _ _)) by lia.
  destruct (nat_digits_spec (Z.to_nat (Z.log2 n)) n []) as (ds & E & Hd).
  { rewrite Nat2Z.inj_succ, Z2Nat.id by apply Z.log2_nonneg. split; [done|].
    destruct (Z.eq_dec n 0) as [->|]; [done|]. apply Z.log2_spec. lia. }
  rewrite app_nil_r in E. by exists ds.
Qed.

Lemma Itoa_negative n : n < 0 -> Itoa n = zb 45 :: Itoa (- n).
Proof. intros Hn. unfold Itoa. by rewrite (proj2 (Z.ltb_lt n 0)), (proj2 (Z.ltb_ge (- n) 0)) by lia. Qed.

Lemma digits_head n ds : digits_of n ds -> exists b s, ds = b :: s /\ is_digit b = true /\ b <> zb 45 /\ b <> zb 43.
Proof.
  intros (Hd & Hne & _). destruct ds as [|b s]; [done|]. apply Forall_cons in Hd as [Hb _]. exists b, s.
  split_and!; [done|done|intros ->; vm_compute in Hb; discriminate Hb..].
Qed.

Lemma Atoi_Itoa n : int64_range n -> Atoi (Itoa n) = Some n.
Proof.
  intros Hr. destruct (Z.ltb_spec n 0) as [Hn|Hn].
  - rewrite Itoa_negative by done. destruct (Itoa_digits (- n) ltac:(lia)) as (ds & -> & Hd).
    destruct (digits_head _ _ Hd) as (b & s & -> & _). destruct Hd as (_ & _ & Hp & _).
    unfold Atoi. rewrite bool_decide_true by done. rewrite Hp. cbn [mbind option_bind].
    rewrite decide_True; [f_equal; lia|]. by replace (-1 * (0 * _ + - n)) with n by lia.
  - destruct (Itoa_digits n Hn) as (ds & -> & Hd). destruct (digits_head _ _ Hd) as (b & s & -> & _ & H1 & H2).
    destruct Hd as (_ & _ & Hp & _). unfold Atoi. rewrite !bool_decide_false by done. rewrite Hp. cbn [mbind option_bind].
    rewrite decide_True; [f_equal; lia|]. by replace (1 * (0 * _ + n)) with n by lia.
Qed.

Lemma span_whole f s : Forall (fun b => f b = true) s -> span f s = (s, []).
Proof. induction 1 as [|b s Hb Hs IH]; [done|]. cbn [span]. by rewrite Hb, IH. Qed.

Lemma json_integer_digits n ds : digits_of n ds -> json_integer ds = Some (ds, []).
Proof.
  intros (Hd & Hne & _ & H0 & H1). destruct ds as [|b s]; [done|]. cbn [json_integer].
  destruct (bool_decide_reflect (b = zb 48)) as [->|Hb].
  - destruct (Z.eq_dec n 0) as [E|E]; [injection (H0 E) as ->; done|]. by destruct (H1 E).
  - unfold json_digits. by rewrite span_whole.
Qed.

Lemma json_number_Itoa n : json_number (Itoa n) = Some (Itoa n, []).
Proof.
  destruct (Z.ltb_spec n 0) as [Hn|Hn].
  - rewrite Itoa_negative by done. destruct (Itoa_digits (- n) ltac:(lia)) as (ds & -> & Hd).
    unfold json_number, json_sign. rewrite bool_decide_true by done. rewrite (json_integer_digits _ _ Hd). cbn. by rewrite app_nil_r.
  - destruct (Itoa_digits n Hn) as (ds & -> & Hd). pose proof (json_integer_digits _ _ Hd) as Hi.
    destruct (digits_head _ _ Hd) as (b & s & -> & _ & Hm & _).
    unfold json_number, json_sign. rewrite bool_decide_false by done. rewrite Hi. cbn. by rewrite app_nil_r.
Qed.
