(* ===== verification/GoParseUrl.v ===== *)
(** * Parsing and printing URLs

    [url.Parse], [URL.String], [Hostname] and [Port] of Go 1.26. The texts of the
    errors are not kept: the sources look at none. *)
From S2P Require Import Prelude GoText GoEncoding GoUnicode GoUrl GoNet.

(** [netip.ParseAddr] accepts an address that is not IPv4. *)
Definition ipv6_literal (s : bytes) : bool := match ParseAddr s with Some (Addr6 _ _) => true | _ => false end.

(** ** Percent escapes *)

Inductive encoding := encodeHost | encodeZone | encodeUserPassword | encodePath | encodeFragment.

(** [url.shouldEscape] for the encodings above. *)
Definition shouldEscape (c : byte) (mode : encoding) : bool :=
  if is_alnum c || in_set &"-_.~" c then false
  else
    match mode with
    | encodeHost | encodeZone => negb (in_set (zb 34 :: &"!$&'()*+,;=:[]<>") c)
    | encodePath => negb (in_set &"$&+,/:;=@" c)
    | encodeUserPassword => negb (in_set &"$&+,;=" c)
    | encodeFragment => negb (in_set &"$&+,/:;=?@!()*" c)
    end.

Definition host_mode (mode : encoding) : bool := match mode with encodeHost | encodeZone => true | _ => false end.

Fixpoint unescape (s : bytes) (mode : encoding) : option bytes :=
  match s with
  | [] => Some []
  | b :: rest =>
    if bool_decide (b = zb 37) then
      match rest with
      | x :: y :: rest' =>
        h ← hex_val x; l ← hex_val y;
        let percent := bool_decide (x = zb 50) && bool_decide (y = zb 53) in
        let v := zb (16 * h + l) in
        let refused :=
          match mode with
          | encodeHost => (h <? 8) && negb percent
          | encodeZone => negb percent && negb (bool_decide (v = zb 32)) && shouldEscape v encodeHost
          | _ => false
          end in
        if refused then None else t ← unescape rest' mode; Some (v :: t)
      | _ => None
      end
    else if host_mode mode && (bz b <? 0x80) && shouldEscape b mode then None
    else t ← unescape rest mode; Some (b :: t)
  end.

Fixpoint escape (s : bytes) (mode : encoding) : bytes :=
  match s with
  | [] => []
  | b :: rest =>
    if shouldEscape b mode then zb 37 :: upper_hex (bz b / 16) :: upper_hex (bz b mod 16) :: escape rest mode
    else b :: escape rest mode
  end.

(** ** Searching *)

(** [strings.Index] for a non-empty pattern. *)
Fixpoint index (s p : bytes) : option nat :=
  if has_prefix s p then Some 0%nat
  else match s with [] => None | _ :: rest => S <$> index rest p end.

(** ** The parts of a URL *)

(** [url.validOptionalPort]. *)
Definition validOptionalPort (port : bytes) : bool :=
  match port with
  | [] => true
  | b :: digits => bool_decide (b = zb 58) && forallb is_digit digits
  end.

(** [url.splitHostPort]: [Hostname] and [Port] are its two results. *)
Definition splitHostPort (hostPort : bytes) : bytes * bytes :=
  let '(host, port) :=
    match last_index_byte hostPort (zb 58) with
    | Some colon =>
      if validOptionalPort (drop colon hostPort) then (take colon hostPort, drop (S colon) hostPort)
      else (hostPort, [])
    | None => (hostPort, [])
    end in
  if has_prefix host &"[" && has_suffix host &"]" then (take (length host - 2) (drop 1 host), port)
  else (host, port).

(** The scan of [url.getScheme] behind its first [n] bytes. *)
Fixpoint scheme_end (n : nat) (s : bytes) : option (option nat) :=
  match s with
  | [] => Some None
  | b :: rest =>
    if is_lower b || is_upper b then scheme_end (S n) rest
    else if is_digit b || in_set &"+-." b then match n with O => Some None | _ => scheme_end (S n) rest end
    else if bool_decide (b = zb 58) then match n with O => None | _ => Some (Some n) end
    else Some None
  end.

(** [url.getScheme]: the scheme and the rest; [None] for a missing scheme. *)
Definition getScheme (raw : bytes) : option (bytes * bytes) :=
  match scheme_end 0 raw with
  | None => None
  | Some None => Some ([], raw)
  | Some (Some n) => Some (take n raw, drop (S n) raw)
  end.

(** The host of a bracketed literal, from the text between the brackets. *)
Definition parse_literal (hostname : bytes) : option bytes :=
  unescaped ←
    (match index hostname &"%25" with
     | Some zone =>
       host ← unescape (take zone hostname) encodeHost; tail ← unescape (drop zone hostname) encodeZone;
       Some (host ++ tail)
     | None => unescape hostname encodeHost
     end);
  if ipv6_literal unescaped then Some (&"[" ++ unescaped ++ &"]") else None.

(** [url.parseHost]: an IP literal stands at the start; another host has one colon at
    most, before its port. *)
Definition parseHost (host : bytes) : option bytes :=
  match last_index_byte host (zb 91) with
  | Some (S _) => None
  | Some O =>
    close ← last_index_byte host (zb 93);
    let colonPort := drop (S close) host in
    if negb (validOptionalPort colonPort) then None
    else port ← unescape colonPort encodeHost;
         literal ← parse_literal (take (close - 1) (drop 1 host)); Some (literal ++ port)
  | None =>
    match index_byte host (zb 58) with
    | Some i => if validOptionalPort (drop i host) then unescape host encodeHost else None
    | None => unescape host encodeHost
    end
  end.

(** [url.validUserinfo]. *)
Definition validUserinfo (s : bytes) : bool :=
  forallb (fun b => is_alnum b || in_set &"-._:~!$&'()*+,;=%@" b) s.

(** [url.parseAuthority]: whether there is a user, and the host. *)
Definition parseAuthority (authority : bytes) : option (bool * bytes) :=
  match last_index_byte authority (zb 64) with
  | None => host ← parseHost authority; Some (false, host)
  | Some i =>
    host ← parseHost (drop (S i) authority);
    let userinfo := take i authority in
    if negb (validUserinfo userinfo) then None
    else
      let '(username, password) := cut_byte userinfo (zb 58) in
      _ ← unescape username encodeUserPassword; _ ← unescape password encodeUserPassword; Some (true, host)
  end.

(** The query of the text after the scheme: the rest, [ForceQuery] and [RawQuery]. *)
Definition split_query (rest : bytes) : bytes * bool * bytes :=
  if has_suffix rest &"?" && Nat.eqb (length (List.filter (fun b => bool_decide (b = zb 63)) rest)) 1
  then (take (length rest - 1) rest, true, [])
  else let '(rest, query) := cut_byte rest (zb 63) in (rest, false, query).

(** The authority of a text that starts with two slashes, and the path after it. *)
Definition split_authority (rest : bytes) : bytes * bytes :=
  let authority := drop 2 rest in
  match index_byte authority (zb 47) with
  | Some i => (take i authority, drop i authority)
  | None => (authority, [])
  end.

Definition make_url (scheme opaque : bytes) (user : bool) (host path : bytes) (force : bool) (query : bytes) : url :=
  let '(hostname, port) := splitHostPort host in
  mkUrl scheme opaque user host hostname port path force query [].

Section Parse.
Context {U : Unicode}.

(** [url.parse] of a text without fragment. *)
Definition parse (raw : bytes) : option url :=
  if existsb (fun b => (bz b <? 0x20) || (bz b =? 0x7F)) raw then None
  else if bool_decide (raw = &"*") then Some (make_url [] [] false [] raw false [])
  else
    '(scheme, rest) ← getScheme raw;
    let scheme := ToLower scheme in
    let '(rest, force, query) := split_query rest in
    if negb (has_prefix rest &"/") && negb (bool_decide (scheme = [])) then
      Some (make_url scheme rest false [] [] force query)
    else if negb (has_prefix rest &"/") && bool_decide (zb 58 ∈ (cut_byte rest (zb 47)).1) then None
    else
      '(user, host, path) ←
        (if (negb (bool_decide (scheme = [])) || negb (has_prefix rest &"///")) && has_prefix rest &"//" then
           let '(authority, path) := split_authority rest in
           '(user, host) ← parseAuthority authority; Some (user, host, path)
         else Some (false, [], rest));
      path ← unescape path encodePath;
      Some (make_url scheme [] user host path force query).

(** [url.Parse]. *)
Definition Parse (raw : bytes) : option url :=
  let '(u, frag) := cut_byte raw (zb 35) in
  url ← parse u; fragment ← unescape frag encodeFragment; Some (set_fragment url fragment).
End Parse.

(** [URL.String] of a URL without user, opaque part, query and fragment, with a
    scheme and a host, and with an empty [RawPath]. *)
Definition hierarchical_String (u : url) : bytes :=
  let path := if bool_decide (u_path u = &"*") then &"*" else escape (u_path u) encodePath in
  u_scheme u ++ &"://" ++ escape (u_host u) encodeHost
    ++ (if negb (bool_decide (path = [])) && negb (has_prefix path &"/") then &"/" else []) ++ path.

(** ** Examples *)

Section Examples.
#[local] Instance no_letters : Unicode := {| lower_letter r := r; upper_letter r := r |}.

Definition host_port (raw : bytes) : option (bytes * bytes * bytes) :=
  u ← Parse raw; Some (u_scheme u, u_hostname u, u_port u).

Example parse_forms :
  host_port &"HTTPS://collector.example:4318/v1/traces" = Some (&"https", &"collector.example", &"4318")
  /\ host_port &"http://[fe80::1%25en0]:80" = Some (&"http", &"fe80::1%en0", &"80")
  /\ host_port &"http://[::ffff:10.0.0.1]/x" = Some (&"http", &"::ffff:10.0.0.1", &"")
  /\ host_port &"http://[1.2.3.4]/" = None /\ host_port &"http://a:80:80/" = None /\ host_port &"http://a:b/" = None
  /\ host_port &"http://a[::1]/" = None /\ host_port &"1http://a" = None /\ host_port &":a" = None
  /\ (u_user <$> Parse &"https://u:p@h/") = Some true /\ (u_opaque <$> Parse &"mailto:a") = Some &"a"
  /\ (u_forceQuery <$> Parse &"https://h/?") = Some true /\ (u_fragment <$> Parse &"https://h/#f%20g") = Some &"f g"
  /\ (hierarchical_String <$> Parse &"https://h:1/a%20b") = Some &"https://h:1/a%20b".
Proof. vm_compute. repeat split. Qed.
End Examples.

(** ** Facts

    What is known of a URL that [Parse] accepts: its scheme, and that the path of a
    URL with a host is empty or absolute. *)

Section Facts.
Context {U : Unicode}.

Lemma cut_byte_prefix p s c : c ∉ p -> (cut_byte (p ++ s) c).1 = p ++ (cut_byte s c).1.
Proof.
  intros Hc. unfold cut_byte. induction p as [|b p IH]; [done|].
  assert (b <> c) as Hb by set_solver. cbn [app index_byte]. rewrite bool_decide_false by done.
  assert (c ∉ p) as Hp by set_solver. specialize (IH Hp).
  destruct (index_byte (p ++ s) c), (index_byte s c); cbn [fst] in *; simpl; congruence.
Qed.

(** The shape of a URL that parses: a fragment, and a text without one. *)
Lemma Parse_inv raw u :
  Parse raw = Some u ->
  exists v f, parse (cut_byte raw (zb 35)).1 = Some v /\ u = set_fragment v f.
Proof.
  unfold Parse. destruct (cut_byte raw (zb 35)) as [a f]. cbn [fst].
  destruct (parse a) as [v|]; [|done]. cbn [mbind option_bind].
  destruct (unescape f encodeFragment) as [fragment|]; [|done]. intros [= <-]. eauto.
Qed.

Lemma make_url_fields scheme opaque user host path force query :
  let u := make_url scheme opaque user host path force query in
  u_scheme u = scheme /\ u_opaque u = opaque /\ u_host u = host /\ u_path u = path.
Proof. unfold make_url. by destruct (splitHostPort host). Qed.

Lemma parse_inv raw u :
  parse raw = Some u ->
  raw = &"*" \/ exists scheme rest, getScheme raw = Some (scheme, rest) /\ u_scheme u = ToLower scheme
    /\ (u_host u = [] \/ u_path u = [] \/ has_prefix (u_path u) &"/" = true).
Proof.
  unfold parse. destruct (existsb _ raw); [done|]. destruct (decide (raw = &"*")) as [->|Hstar]; [by left|].
  rewrite bool_decide_false by done. destruct (getScheme raw) as [[scheme rest]|] eqn:Es; [|done].
  cbn [mbind option_bind]. destruct (split_query rest) as [[rest' force] query].
  destruct (_ && _) eqn:Eo; [intros [= <-]; right; eexists _, _; split; [done|]|].
  { pose proof (make_url_fields (ToLower scheme) rest' false [] [] force query) as (-> & _ & -> & ->). auto. }
  destruct (_ && bool_decide (zb 58 ∈ _)); [done|].
  destruct ((negb (bool_decide (ToLower scheme = [])) || negb (has_prefix rest' &"///")) && has_prefix rest' &"//") eqn:Ea.
  - unfold split_authority. set (authority := drop 2 rest').
    destruct (index_byte authority (zb 47)) as [i|] eqn:Ei.
    + apply index_byte_split in Ei as (Ei & _ & _).
      destruct (parseAuthority (take i authority)) as [[user host]|]; [|done]. cbn [mbind option_bind].
      assert (drop i authority = zb 47 :: drop (S i) authority) as ->.
      { rewrite Ei at 1. rewrite drop_app_length'; [done|]. rewrite length_take. apply (f_equal length) in Ei.
        rewrite length_app in Ei. simpl in Ei. rewrite length_take, length_drop in Ei. lia. }
      cbn [unescape]. rewrite bool_decide_false by done. cbn [host_mode andb].
      destruct (unescape (drop (S i) authority) encodePath) as [p|]; [|done]. cbn [mbind option_bind].
      intros [= <-]. right. eexists _, _. split; [done|].
      pose proof (make_url_fields (ToLower scheme) [] user host (zb 47 :: p) force query) as (-> & _ & _ & ->). split; [done|].
      right; right. apply (has_prefix_app &"/" p).
    + destruct (parseAuthority authority) as [[user host]|]; [|done]. cbn [mbind option_bind unescape].
      intros [= <-]. right. eexists _, _. split; [done|].
      pose proof (make_url_fields (ToLower scheme) [] user host [] force query) as (-> & _ & _ & ->). auto.
  - cbn [mbind option_bind]. destruct (unescape rest' encodePath) as [p|]; [|done]. cbn [mbind option_bind].
    intros [= <-]. right. eexists _, _. split; [done|].
    pose proof (make_url_fields (ToLower scheme) [] false [] p force query) as (-> & _ & -> & _). auto.
Qed.

Lemma parse_star u : parse &"*" = Some u -> u_host u = [].
Proof. by intros [= <-]. Qed.

(** The path of a URL with a host is empty or starts with a slash. *)
Lemma Parse_path raw u :
  Parse raw = Some u -> u_host u <> [] -> u_path u = [] \/ has_prefix (u_path u) &"/" = true.
Proof.
  intros (v & f & Hv & ->)%Parse_inv Hh. cbn [u_host u_path set_fragment] in *.
  apply parse_inv in Hv as Hc. destruct Hc as [E|(scheme & rest & _ & _ & H)]; [|naive_solver].
  rewrite E in Hv. by apply parse_star in Hv.
Qed.

(** A text that starts with "https://" has that scheme. *)
Lemma Parse_https raw u : Parse (&"https://" ++ raw) = Some u -> u_scheme u = &"https".
Proof.
  intros (v & f & Hv & ->)%Parse_inv. cbn [u_scheme set_fragment].
  rewrite cut_byte_prefix in Hv by (by apply (bool_decide_eq_true_1 _); vm_compute).
  apply parse_inv in Hv as [E|(scheme & rest & Hg & -> & _)]; [done|].
  assert (getScheme (&"https://" ++ (cut_byte raw (zb 35)).1) = Some (&"https", &"//" ++ (cut_byte raw (zb 35)).1)) as Hs
    by reflexivity.
  rewrite Hs in Hg. injection Hg as <- <-.
  rewrite ToLower_ascii by (apply (bool_decide_eq_true_1 _); vm_compute; reflexivity). vm_compute. reflexivity.
Qed.
End Facts.
