(* ===== verification/Errors.v ===== *)
(** * Errors

    Go error values as the item, cursor, idempotency, auth and persistence code
    builds and inspects them: the package sentinels, the two structured error
    types, [errors.Join], [fmt.Errorf] with one [%w], and errors of foreign
    packages. [Is] is [errors.Is] against a sentinel and [Error_text] is the
    [Error] method. *)
From S2P Require Import Prelude.

Inductive sentinel :=
  (* internal/item/errors.go *)
  | ErrInvalidInput | ErrNotFound | ErrConflict | ErrStoreUnavailable | ErrIDGeneration
  (* internal/item/cursor.go *)
  | ErrInvalidCursor | ErrCursorUnavailable | ErrCursorState
  (* internal/item/idempotency.go *)
  | ErrIdempotencyConflict | ErrIdempotencyInProgress
  | ErrIdempotencyUnavailable | ErrIdempotencyState
  (* pkg/auth/auth.go *)
  | ErrMissingCredentials | ErrDuplicateCredentials | ErrUnsupportedScheme
  | ErrCredentialsTooLong | ErrInvalidCredentials | ErrNilContext | ErrNilRequest
  | ErrInvalidDigest | ErrInvalidPrincipal
  (* internal/item/httpapi/handler.go *)
  | ErrTrailingJSON | ErrInvalidPagination
  (* net/http *)
  | ErrServerClosed
  (* context, io, os *)
  | Canceled | DeadlineExceeded | ErrUnexpectedEOF | ErrInvalid
  (* github.com/jackc/pgx *)
  | ErrNoRows.

#[global] Instance sentinel_eq_dec : EqDecision sentinel.
Proof. solve_decision. Defined.

(** Sentinels built with [fmt.Errorf("%w: ...", ErrInvalidCredentials)]. *)
Definition sentinel_parent (s : sentinel) : option sentinel :=
  match s with
  | ErrMissingCredentials | ErrDuplicateCredentials | ErrUnsupportedScheme
  | ErrCredentialsTooLong => Some ErrInvalidCredentials
  | _ => None
  end.

Definition sentinel_text (s : sentinel) : bytes :=
  match s with
  | ErrInvalidInput => &"item: invalid input"
  | ErrNotFound => &"item: not found"
  | ErrConflict => &"item: conflict"
  | ErrStoreUnavailable => &"item: store unavailable"
  | ErrIDGeneration => &"item: generate id"
  | ErrInvalidCursor => &"item: invalid cursor"
  | ErrCursorUnavailable => &"item: cursor store unavailable"
  | ErrCursorState => &"item: invalid cursor state"
  | ErrIdempotencyConflict => &"item: idempotency key conflict"
  | ErrIdempotencyInProgress => &"item: idempotency request in progress"
  | ErrIdempotencyUnavailable => &"item: idempotency store unavailable"
  | ErrIdempotencyState => &"item: invalid idempotency state"
  | ErrMissingCredentials => &"auth: invalid credentials: missing credentials"
  | ErrDuplicateCredentials => &"auth: invalid credentials: duplicate credentials"
  | ErrUnsupportedScheme => &"auth: invalid credentials: unsupported scheme"
  | ErrCredentialsTooLong => &"auth: invalid credentials: credentials too long"
  | ErrInvalidCredentials => &"auth: invalid credentials"
  | ErrNilContext => &"auth: context must not be nil"
  | ErrNilRequest => &"auth: request must not be nil"
  | ErrInvalidDigest => &"auth: invalid SHA-256 digest"
  | ErrInvalidPrincipal => &"auth: invalid principal"
  | ErrTrailingJSON => &"trailing JSON value"
  | ErrInvalidPagination => &"invalid pagination"
  | ErrServerClosed => &"http: Server closed"
  | Canceled => &"context canceled"
  | DeadlineExceeded => &"context deadline exceeded"
  | ErrUnexpectedEOF => &"unexpected EOF"
  | ErrInvalid => &"invalid argument"
  | ErrNoRows => &"no rows in result set"
  end.

#[local] Set Warnings "-register-all".

(** [Wrapf pre e post] is [fmt.Errorf] whose only [%w] stands between the
    formatted texts [pre] and [post]; [PgError] is a [*pgconn.PgError], with its
    SQLSTATE and its text; [Opaque] is an error without structure. *)
Inductive error :=
  | Sentinel (s : sentinel)
  | ValidationError (field reason : bytes)
  | CursorError (reason : bytes)
  | Joined (es : list error)
  | Wrapf (pre : bytes) (e : error) (post : bytes)
  | PgError (code text : bytes)
  | Opaque (text : bytes).

(** [errors.Is(e, target)] for a sentinel target. *)
Fixpoint Is (e : error) (target : sentinel) : bool :=
  match e with
  | Sentinel s =>
    bool_decide (s = target)
    || match sentinel_parent s with Some p => bool_decide (p = target) | None => false end
  | ValidationError _ _ => bool_decide (ErrInvalidInput = target)
  | CursorError _ => bool_decide (ErrInvalidCursor = target)
  | Joined es => existsb (fun e => Is e target) es
  | Wrapf _ e _ => Is e target
  | PgError _ _ | Opaque _ => false
  end.

Definition validation_text (field reason : bytes) : bytes :=
  let base := sentinel_text ErrInvalidInput in
  match field, reason with
  | [], _ => base ++ &": " ++ reason
  | _, [] => base ++ &": " ++ field ++ &" is invalid"
  | _, _ => base ++ &": " ++ field ++ &" " ++ reason
  end.

Definition cursor_text (reason : bytes) : bytes :=
  match reason with
  | [] => sentinel_text ErrInvalidCursor
  | _ => sentinel_text ErrInvalidCursor ++ &": " ++ reason
  end.

(** [e.Error()]. *)
Fixpoint Error_text (e : error) : bytes :=
  match e with
  | Sentinel s => sentinel_text s
  | ValidationError field reason => validation_text field reason
  | CursorError reason => cursor_text reason
  | Joined es =>
    (fix go es :=
       match es with
       | [] => []
       | [e] => Error_text e
       | e :: es' => Error_text e ++ [zb 10] ++ go es'
       end) es
  | Wrapf pre e post => pre ++ Error_text e ++ post
  | PgError _ text | Opaque text => text
  end.

(** The code of the first [*pgconn.PgError] that [errors.As] finds. *)
Fixpoint pg_code (e : error) : option bytes :=
  match e with
  | PgError code _ => Some code
  | Joined es =>
    (fix go es := match es with
                  | [] => None
                  | e :: es => match pg_code e with Some code => Some code | None => go es end
                  end) es
  | Wrapf _ e _ => pg_code e
  | Sentinel _ | ValidationError _ _ | CursorError _ | Opaque _ => None
  end.

(** [fmt.Errorf] without a wrapped error, as its format and its arguments. *)
Definition errorf (format : bytes) (args : list bytes) : error :=
  Opaque (format ++ concat ((fun arg => zb 0 :: arg) <$> args)).

(** ** Results *)

Inductive result (A : Type) := Ok (a : A) | Err (e : error).
Arguments Ok {A} _.
Arguments Err {A} _.

Definition is_ok {A} (r : result A) : bool := match r with Ok _ => true | Err _ => false end.

Definition rbind {A B} (r : result A) (k : A -> result B) : result B :=
  match r with Ok a => k a | Err e => Err e end.

Lemma rbind_Ok {A B} (r : result A) (k : A -> result B) b :
  rbind r k = Ok b -> exists a, r = Ok a /\ k a = Ok b.
Proof. destruct r; [eauto|done]. Qed.

Lemma rbind_Err {A B} (r : result A) (k : A -> result B) e :
  rbind r k = Err e -> r = Err e \/ exists a, r = Ok a /\ k a = Err e.
Proof. destruct r; [eauto|]. intros [= ->]. by left. Qed.

(** Take apart the success of a chain of [rbind]. *)
Ltac rbind_ok :=
  repeat match goal with
  | H : rbind _ _ = Ok _ |- _ => apply rbind_Ok in H as (? & ? & H)
  end.

(** The error tree induction principle, reaching under [Joined]. *)
Lemma error_tree_ind (P : error -> Prop) :
  (forall s, P (Sentinel s)) -> (forall f r, P (ValidationError f r)) ->
  (forall r, P (CursorError r)) -> (forall es, Forall P es -> P (Joined es)) ->
  (forall pre e post, P e -> P (Wrapf pre e post)) -> (forall c t, P (PgError c t)) ->
  (forall t, P (Opaque t)) -> forall e, P e.
Proof.
  intros HS HV HC HJ HW HP HO. fix IH 1.
  intros [s|f r|r|es|pre e post|c t|t];
    [apply HS|apply HV|apply HC| |apply HW, IH|apply HP|apply HO].
  apply HJ. induction es as [|e es IHes]; constructor; [apply IH|apply IHes].
Qed.

Lemma Is_join es t : Is (Joined es) t = existsb (fun e => Is e t) es.
Proof. done. Qed.
