(* ===== verification/World.v ===== *)
(** * Effects

    Sequential code runs in [M S]: it reads and updates a store of type [S],
    observes the outside world and may fail, the store keeping what was done
    before the failure. The outside world (clocks, the cancellation of a context,
    random identifiers) is a function of a tick, and every observation takes the
    next tick, so that two observations may differ. *)
From S2P Require Import Prelude Errors.

Record world (S : Type) := World { w_tick : nat; w_store : S }.
Arguments World {S} _ _.
Arguments w_tick {S} _.
Arguments w_store {S} _.

Definition M (S A : Type) : Type := world S -> result A * world S.

Definition ret {S A} (a : A) : M S A := fun w => (Ok a, w).
Definition fail {S A} (e : error) : M S A := fun w => (Err e, w).
Definition bind {S A B} (m : M S A) (k : A -> M S B) : M S B :=
  fun w => match m w with
           | (Ok a, w') => k a w'
           | (Err e, w') => (Err e, w')
           end.
(** Run [m] on a part of a larger store. *)
Definition zoom {S T A} (get : T -> S) (put : S -> T -> T) (m : M S A) : M T A :=
  fun w => let '(r, w') := m (World (w_tick w) (get (w_store w))) in
           (r, World (w_tick w') (put (w_store w') (w_store w))).
(** Run [m] and hand its outcome, failure included, to the continuation. *)
Definition attempt {S A} (m : M S A) : M S (result A) :=
  fun w => let '(r, w') := m w in (Ok r, w').
Definition of_result {S A} (r : result A) : M S A := fun w => (r, w).
Definition load {S} : M S S := fun w => (Ok (w_store w), w).
Definition save {S} (s : S) : M S unit := fun w => (Ok tt, World (w_tick w) s).
(** One observation of the outside world. *)
Definition observe {S A} (f : nat -> A) : M S A :=
  fun w => (Ok (f (w_tick w)), World (Datatypes.S (w_tick w)) (w_store w)).

Declare Scope m_scope.
Delimit Scope m_scope with m.
Notation "x <-- m ;; k" := (bind m (fun x => k))
  (at level 100, m at next level, right associativity) : m_scope.
Notation "m ;;; k" := (bind m (fun _ => k))
  (at level 100, right associativity) : m_scope.
Open Scope m_scope.

(** ** Contexts *)

(** The values that the application attaches with [context.WithValue], and the span
    context of a tracer: whether it is valid, and its two identifiers as text. *)
Inductive ctx_value :=
  | ScopeValue (scope : bytes)
  | PrincipalValue (subject : bytes) (scopes : option (list bytes))
  | SpanValue (valid : bool) (trace_id span_id : bytes).

(** A context: [ctx_err c t] is what [c.Err()] returns at tick [t]; the values are
    listed newest first. *)
Record context := Context {
  ctx_err : nat -> option error;
  ctx_values : list ctx_value;
}.

(** [context.WithValue]. *)
Definition with_value (c : context) (v : ctx_value) : context :=
  Context (ctx_err c) (v :: ctx_values c).

(** A context that is never done. *)
Definition live (c : context) : Prop := forall t, ctx_err c t = None.

Definition background : context := Context (fun _ => None) [].

(** The [contextError] helper that the service and each adapter define. *)
Definition contextError {S} (ctx : option context) : M S unit :=
  match ctx with
  | None => fail (ValidationError &"context" &"must not be nil")
  | Some c =>
    e <-- observe (ctx_err c);;
    match e with None => ret tt | Some e => fail e end
  end.

(** ** Lemmas *)

Lemma contextError_live {S} c (w : world S) :
  live c -> contextError (Some c) w = (Ok tt, World (Datatypes.S (w_tick w)) (w_store w)).
Proof. intros H. unfold contextError, bind, observe. by rewrite H. Qed.

Lemma live_with_value c v : live c -> live (with_value c v).
Proof. done. Qed.

Lemma live_background : live background.
Proof. done. Qed.

#[export] Hint Resolve live_with_value live_background : go.

(** Unfold the plumbing of the monad around a call that is made next. *)
Ltac m_unfold :=
  unfold bind, ret, fail, attempt, of_result, load, save, observe; cbn beta iota zeta.

(** Step over the context checks of a live context. *)
Ltac m_live :=
  repeat (rewrite contextError_live by eauto with go; cbn [w_tick w_store]).

(** Checking the outcome of a run by evaluation. *)
Definition outcome_is {S A} `{EqDecision A} (a : A) (x : result A * world S) : bool :=
  match fst x with Ok b => bool_decide (b = a) | Err _ => false end.

Lemma outcome_is_spec {S A} `{EqDecision A} (a : A) (x : result A * world S) :
  outcome_is a x = true -> x = (Ok a, snd x).
Proof.
  unfold outcome_is. destruct x as [[b|e] w]; simpl; [|done].
  intros ->%bool_decide_eq_true. done.
Qed.
