(* ===== verification/Trace.v ===== *)
(** * Traces

    Programs that talk to the outside run over the trace of their calls: each call is
    recorded with its answer, and the answer is a function of the calls before it and
    of the call, an oracle about which nothing is assumed. [emits] is the logic to
    reason about what a program adds to its trace. *)
From S2P Require Import Prelude Errors World.

Section Calls.
Context {C : Type} {answer : C -> Type}.

Record event := Event { ev_call : C; ev_answer : answer ev_call }.

(** One call of the outside. *)
Definition call (oracle : list event -> forall c, answer c) (c : C) : M (list event) (answer c) := fun w =>
  let a := oracle (w_store w) c in (Ok a, World (w_tick w) (w_store w ++ [Event c a])).
End Calls.
Arguments event {C} answer.

(** ** Calls that fail, and cleanups *)

Section Plumbing.
Context {S : Type}.

(** A call that may fail, with what the failure becomes. *)
Definition checked {A} (m : M S (result A)) (wrap : error -> error) : M S A :=
  r <-- m;; match r with Ok a => ret a | Err e => fail (wrap e) end.
Definition plainly {A} (m : M S (result A)) : M S A := checked m (fun e => e).
(** [_ = call()]. *)
Definition ignoring {A} (m : M S A) : M S unit := m ;;; ret tt.
(** [defer cleanup()]: also when the body fails. *)
Definition deferred {A} (m : M S A) (cleanup : M S unit) : M S A :=
  r <-- attempt m;; attempt cleanup ;;; of_result r.
End Plumbing.

(** ** What a program adds to its trace *)

Section Logic.
Context {E : Type}.
Implicit Types (t evs : list E).

(** [emits t m Q]: run after the events [t], [m] adds events such that [Q] holds of
    its outcome and of all of them. *)
Definition emits {A} (t : list E) (m : M (list E) A) (Q : result A -> list E -> Prop) : Prop :=
  forall w, exists evs, w_store (snd (m w)) = w_store w ++ evs /\ Q (fst (m w)) (t ++ evs).

(** Every event that [m] adds satisfies [P]. *)
Definition adds {A} (P : E -> Prop) (m : M (list E) A) : Prop := emits [] m (fun _ evs => Forall P evs).

Section Emits.
Context {A B : Type}.
Implicit Types (m : M (list E) A) (k : A -> M (list E) B).

Lemma emits_weaken t m (Q R : result A -> list E -> Prop) :
  emits t m Q -> (forall r evs, Q r evs -> R r evs) -> emits t m R.
Proof. intros Hm H w. destruct (Hm w) as (evs & ? & ?). eauto. Qed.

Lemma emits_bind t m k Q :
  emits t m (fun r evs => match r with Ok a => emits evs (k a) Q | Err e => Q (Err e) evs end) ->
  emits t (bind m k) Q.
Proof.
  intros Hm w. unfold bind. destruct (Hm w) as (evs & Hs & Hq).
  destruct (m w) as [[a|e] w']; cbn [fst snd] in *; [|eauto].
  destruct (Hq w') as (evs' & Hs' & Hr). exists (evs ++ evs'). by rewrite Hs', Hs, !app_assoc in *.
Qed.

Lemma emits_return t m r (Q : result A -> list E -> Prop) : (forall w, m w = (r, w)) -> Q r t -> emits t m Q.
Proof. intros Hm Hq w. exists []. by rewrite Hm, !app_nil_r. Qed.

Lemma emits_and t m (Q R : result A -> list E -> Prop) :
  emits t m Q -> emits t m R -> emits t m (fun r evs => Q r evs /\ R r evs).
Proof.
  intros Hq Hr w. destruct (Hq w) as (evs & Hs & Hq'), (Hr w) as (evs' & Hs' & Hr').
  exists evs. rewrite Hs in Hs'. by apply app_inv_head in Hs' as <-.
Qed.

(** What is said of a run on its own, after other events. *)
Lemma emits_after t m Q R : emits [] m Q -> (forall r new, Q r new -> R r (t ++ new)) -> emits t m R.
Proof. intros Hm H w. destruct (Hm w) as (evs & Hs & Hq). exists evs. split; [done|]. by apply H. Qed.

(** The events before the run, and those that a run adds. *)
Lemma emits_adds P t m : adds P m -> emits t m (fun _ evs => exists new, evs = t ++ new /\ Forall P new).
Proof. intros H w. destruct (H w) as (evs & Hs & Hp). exists evs. eauto. Qed.

Lemma emits_attempt t m (Q : result (result A) -> list E -> Prop) :
  emits t m (fun r evs => Q (Ok r) evs) -> emits t (attempt m) Q.
Proof.
  intros Hm w. destruct (Hm w) as (evs & Hs & Hq). exists evs. unfold attempt. by destruct (m w) as [r w'].
Qed.

Lemma adds_bind P m k : adds P m -> (forall a, adds P (k a)) -> adds P (bind m k).
Proof.
  intros Hm Hk. apply emits_bind. eapply emits_weaken; [exact Hm|]. intros [a|e] evs He; [|done].
  intros w. destruct (Hk a w) as (evs' & Hs & He'). exists evs'. split; [done|]. by apply Forall_app_2.
Qed.

Lemma adds_attempt P m : adds P m -> adds P (attempt m).
Proof. intros Hm. apply emits_attempt. exact Hm. Qed.

Lemma adds_ret P (a : A) : adds P (ret a).
Proof. by eapply emits_return. Qed.
Lemma adds_fail P e : adds P (fail e : M (list E) A).
Proof. by eapply emits_return. Qed.
Lemma adds_of_result P (r : result A) : adds P (of_result r).
Proof. by eapply emits_return. Qed.
End Emits.

Lemma adds_deferred {A} P (m : M (list E) A) c : adds P m -> adds P c -> adds P (deferred m c).
Proof.
  intros. apply adds_bind; [by apply adds_attempt|]. intros r.
  apply adds_bind; [by apply adds_attempt|]. intros _. apply adds_of_result.
Qed.

End Logic.

Section CallLogic.
Context {C : Type} {answer : C -> Type} (oracle : list (event answer) -> forall c, answer c).

Lemma emits_call t c (Q : result (answer c) -> list (event answer) -> Prop) :
  (forall a, Q (Ok a) (t ++ [Event c a])) -> emits t (call oracle c) Q.
Proof. intros H w. eexists. split; [done|]. apply H. Qed.

Lemma adds_call (P : event answer -> Prop) c : (forall a, P (Event c a)) -> adds P (call oracle c).
Proof. intros H. apply emits_call. intros a. by repeat constructor. Qed.

End CallLogic.

(** One call, whatever the answer. *)
Ltac emit_call := match goal with |- emits _ (call ?o ?c) _ => apply (emits_call o _ c) end.

(** Run the plumbing symbolically: one goal for every way to return. *)
Ltac emit :=
  repeat first
    [ apply emits_bind | apply emits_attempt
    | emit_call; intros ?
    | eapply emits_return; [intros ?; reflexivity|]
    | progress unfold checked, plainly, ignoring, deferred
    | progress case_match ].

Create HintDb trace discriminated.

(** Go through the plumbing; what is left is about components. *)
Ltac adds :=
  repeat first
    [ solve [auto with trace nocore]
    | apply adds_bind; [|intros ?]
    | apply adds_ret | apply adds_fail | apply adds_of_result
    | apply adds_attempt | apply adds_deferred
    | match goal with |- adds _ (call ?o ?c) => apply (adds_call o _ c); intros ?; done end
    | progress unfold checked, plainly, ignoring
    | progress case_match ].

