(* ===== verification/Item.v ===== *)
(** * The item model (internal/item/model.go)

    The [Item] entity, the client-controlled fields of a create, the list
    parameters and pages, and the two validators. *)
From S2P Require Import Prelude GoText GoTime Errors.

(** ** UUIDs *)

(** [uuid.UUID] is a 16-byte array. *)
Abbreviation uuid := (array 16).
Definition uuid_nil : uuid := zero_array 16.

Definition uuid_byte (u : uuid) (i : nat) : Z := bz (nth i (arr_bytes u) (zb 0)).

(** [id.Version()] and [id.Variant()] of google/uuid, for the RFC 4122 variant. *)
Definition uuid_version (u : uuid) : Z := Z.shiftr (uuid_byte u 6) 4.
Definition uuid_is_rfc4122 (u : uuid) : bool := Z.land (uuid_byte u 8) 0xc0 =? 0x80.

(** ** Constants and data *)

Definition DefaultPageSize : Z := 20.
Definition MaxPageSize : Z := 100.
Definition MinNameLength : Z := 1.
Definition MaxNameLength : Z := 120.
Definition MaxDescriptionLength : Z := 2000.

Record Item := mkItem {
  ID : uuid;
  Name : bytes;
  Description : bytes;
  CreatedAt : time;
}.
#[global] Instance Item_eq_dec : EqDecision Item.
Proof. solve_decision. Defined.

Record CreateInput := mkCreateInput { in_name : bytes; in_description : bytes }.
#[global] Instance CreateInput_eq_dec : EqDecision CreateInput.
Proof. solve_decision. Defined.

Record ListParams := mkListParams { lp_limit : Z; lp_offset : Z }.

Record Page := mkPage {
  pg_items : list Item;
  pg_limit : Z;
  pg_offset : Z;
  pg_has_more : bool;
  pg_next_cursor : bytes;
}.

(** ** Validation *)

Definition ValidateCreateInput (input : CreateInput) : result CreateInput :=
  let name := TrimSpace (in_name input) in
  let description := TrimSpace (in_description input) in
  if negb (ValidString name) then
    Err (ValidationError &"name" &"must be valid UTF-8")
  else
    let nameLength := RuneCountInString name in
    if nameLength <? MinNameLength then Err (ValidationError &"name" &"is required")
    else if MaxNameLength <? nameLength then
      Err (ValidationError &"name" &"must contain at most 120 Unicode characters")
    else if negb (ValidString description) then
      Err (ValidationError &"description" &"must be valid UTF-8")
    else if MaxDescriptionLength <? RuneCountInString description then
      Err (ValidationError &"description" &"must contain at most 2000 Unicode characters")
    else Ok (mkCreateInput name description).

Definition NormalizeListParams (params : ListParams) : result ListParams :=
  let limit := if lp_limit params =? 0 then DefaultPageSize else lp_limit params in
  if limit <? 0 then Err (ValidationError &"limit" &"must be zero or positive")
  else if MaxPageSize <? limit then Err (ValidationError &"limit" &"must be at most 100")
  else if lp_offset params <? 0 then Err (ValidationError &"offset" &"must be zero or positive")
  else Ok (mkListParams limit (lp_offset params)).

(** What a stored name and description look like. *)
Definition canonical_input (c : CreateInput) : Prop :=
  TrimSpace (in_name c) = in_name c
  /\ TrimSpace (in_description c) = in_description c
  /\ ValidString (in_name c) = true
  /\ ValidString (in_description c) = true
  /\ MinNameLength <= RuneCountInString (in_name c) <= MaxNameLength
  /\ RuneCountInString (in_description c) <= MaxDescriptionLength.

(** ** Lemmas *)

Lemma ValidateCreateInput_Ok input c :
  ValidateCreateInput input = Ok c ->
  c = mkCreateInput (TrimSpace (in_name input)) (TrimSpace (in_description input))
  /\ canonical_input c.
Proof.
  unfold ValidateCreateInput. repeat (case_match; simplify_eq); intros [= <-]; bool_simpl.
  split; [done|]. unfold canonical_input; simpl. rewrite !TrimSpace_idemp. auto with lia.
Qed.

Lemma ValidateCreateInput_canonical c :
  canonical_input c -> ValidateCreateInput c = Ok c.
Proof.
  destruct c as [n d]. intros (Hn & Hd & Vn & Vd & Ln & Ld); simpl in *.
  unfold ValidateCreateInput; simpl. rewrite Hn, Hd, Vn, Vd. simpl.
  by rewrite !(proj2 (Z.ltb_ge _ _)) by lia.
Qed.

Lemma ValidateCreateInput_err_is input e :
  ValidateCreateInput input = Err e -> Is e ErrInvalidInput = true.
Proof.
  unfold ValidateCreateInput. repeat (case_match; simplify_eq); intros [= <-]; done.
Qed.

Lemma NormalizeListParams_Ok p q :
  NormalizeListParams p = Ok q ->
  1 <= lp_limit q <= MaxPageSize /\ 0 <= lp_offset q /\ lp_offset q = lp_offset p
  /\ (lp_limit p = 0 -> lp_limit q = DefaultPageSize)
  /\ (lp_limit p <> 0 -> lp_limit q = lp_limit p).
Proof.
  unfold NormalizeListParams, DefaultPageSize, MaxPageSize.
  repeat (case_match; simplify_eq); intros [= <-]; bool_simpl; simpl; lia.
Qed.

Lemma NormalizeListParams_ok l o :
  0 < l <= MaxPageSize -> 0 <= o ->
  NormalizeListParams (mkListParams l o) = Ok (mkListParams l o).
Proof.
  intros Hl Ho. unfold NormalizeListParams. cbn [lp_limit lp_offset].
  rewrite (proj2 (Z.eqb_neq _ _)) by lia.
  by rewrite !(proj2 (Z.ltb_ge _ _)) by lia.
Qed.

(** ** Properties *)

(** Creating an item stores exactly the trimmed name and description, and it
    is accepted if and only if the trimmed name is valid UTF-8 of 1 to 120
    characters and the trimmed description valid UTF-8 of at most 2000. *)
Theorem ValidateCreateInput_spec input c :
  ValidateCreateInput input = Ok c <->
  c = mkCreateInput (TrimSpace (in_name input)) (TrimSpace (in_description input))
  /\ canonical_input c.
Proof.
  split; [apply ValidateCreateInput_Ok|].
  intros [-> H]. apply ValidateCreateInput_canonical in H.
  unfold ValidateCreateInput in *. simpl in *. by rewrite !TrimSpace_idemp in H.
Qed.
