(* ===== verification/Idempotency.v ===== *)
(** * Idempotency keys and fingerprints (internal/item/idempotency.go)

    The pure part of idempotent creation: the key alphabet, the request
    fingerprint, the caller scope carried by the context, and the opaque storage
    key derived from scope and key. *)
From S2P Require Import Prelude GoText GoEncoding GoJson GoTime Sha256 Errors World Item.

Definition MaxIdempotencyKeyBytes : Z := 255.
Definition IdempotencyRecordRetention : Z := 24 * Hour.
Definition MaxIdempotencyEntries : Z := 10000.
Definition defaultIdempotencyScope : bytes := &"items:create".

(** The HTTP token alphabet. *)
Definition token_char (b : byte) : bool :=
  is_lower b || is_upper b || is_digit b || in_set &"!#$%&'*+-.^_`|~" b.

Definition ValidateIdempotencyKey (key : bytes) : result unit :=
  if bool_decide (key = []) || (MaxIdempotencyKeyBytes <? Z.of_nat (length key)) then
    Err (ValidationError &"idempotency_key" &"must contain 1-255 ASCII token bytes")
  else if forallb token_char key then Ok tt
  else Err (ValidationError &"idempotency_key" &"must be an HTTP token").

(** ** Scopes *)

Definition WithIdempotencyScope (ctx : option context) (scope : bytes) : option context :=
  match ctx with
  | None => None
  | Some c =>
    let scope :=
      if bool_decide (scope = []) || (512 <? Z.of_nat (length scope))
         || negb (ValidString scope) || has_rune is_control scope
      then defaultIdempotencyScope else scope in
    Some (with_value c (ScopeValue scope))
  end.

Fixpoint lookup_scope (vs : list ctx_value) : option bytes :=
  match vs with
  | [] => None
  | ScopeValue s :: _ => Some s
  | _ :: vs' => lookup_scope vs'
  end.

Definition IdempotencyScopeFromContext (ctx : option context) : bytes :=
  match ctx with
  | None => defaultIdempotencyScope
  | Some c =>
    match lookup_scope (ctx_values c) with
    | Some ((_ :: _) as scope) => scope
    | _ => defaultIdempotencyScope
    end
  end.

(** ** Digests *)

Section Digests.
Context {H : Hash256}.

Definition fingerprint_payload (c : CreateInput) : bytes :=
  json_object2 &"name" (in_name c) &"description" (in_description c).

Definition FingerprintCreateInput (input : CreateInput) : result bytes :=
  rbind (ValidateCreateInput input) (fun canonical =>
    Ok (hex_encode (arr_bytes (Sum256 (fingerprint_payload canonical))))).

Definition storage_payload (scope key : bytes) : bytes :=
  &"go-clean-architecture/idempotency/v1:" ++ json_object2 &"scope" scope &"key" key.

Definition storageIdempotencyKey (ctx : option context) (key : bytes) : bytes :=
  &"v1_" ++ hex_encode (arr_bytes (Sum256 (storage_payload (IdempotencyScopeFromContext ctx) key))).

(** Two different messages with the same digest. *)
Definition collision : Prop := exists m1 m2, m1 <> m2 /\ Sum256 m1 = Sum256 m2.

(** ** Lemmas *)

Lemma Sum256_inj m1 m2 : Sum256 m1 = Sum256 m2 -> m1 = m2 \/ collision.
Proof. intros E. destruct (decide (m1 = m2)); [by left|]. right. by exists m1, m2. Qed.

Lemma digest_hex_inj m1 m2 :
  hex_encode (arr_bytes (Sum256 m1)) = hex_encode (arr_bytes (Sum256 m2)) ->
  m1 = m2 \/ collision.
Proof. intros E%hex_encode_inj%arr_eq. by apply Sum256_inj. Qed.

Lemma fingerprint_payload_inj a b :
  canonical_input a -> canonical_input b -> fingerprint_payload a = fingerprint_payload b -> a = b.
Proof.
  destruct a, b. unfold canonical_input, fingerprint_payload. simpl.
  intros (_ & _ & ? & ? & _) (_ & _ & ? & ? & _) E.
  by apply json_object2_inj in E as [-> ->].
Qed.

(** The validated input has a fingerprint of 64 characters. *)
Lemma Fingerprint_Ok input c :
  ValidateCreateInput input = Ok c ->
  FingerprintCreateInput input = Ok (hex_encode (arr_bytes (Sum256 (fingerprint_payload c)))).
Proof. unfold FingerprintCreateInput. by intros ->. Qed.

Lemma Fingerprint_canonical input c :
  ValidateCreateInput input = Ok c -> FingerprintCreateInput c = FingerprintCreateInput input.
Proof.
  intros E. unfold FingerprintCreateInput. rewrite E.
  apply ValidateCreateInput_Ok in E as [_ E]. by rewrite (ValidateCreateInput_canonical c E).
Qed.

Lemma ValidateIdempotencyKey_Ok key :
  ValidateIdempotencyKey key = Ok tt <->
  1 <= Z.of_nat (length key) <= MaxIdempotencyKeyBytes /\ forallb token_char key = true.
Proof.
  unfold ValidateIdempotencyKey. destruct key as [|b key].
  - simpl. split; [done|]. intros [? _]. lia.
  - rewrite bool_decide_false by done. cbn [orb].
    destruct (MaxIdempotencyKeyBytes <? Z.of_nat (length (b :: key))) eqn:E; bool_simpl;
      [split; [done|lia]|].
    destruct (forallb token_char (b :: key)); split; try done; [|by intros [_ ?]].
    intros _. simpl length in *. split; [lia|done].
Qed.

Lemma ValidateIdempotencyKey_err key e :
  ValidateIdempotencyKey key = Err e -> Is e ErrInvalidInput = true.
Proof. unfold ValidateIdempotencyKey. repeat case_match; by intros [= <-]. Qed.

Lemma token_char_ascii b : token_char b = true -> bz b < 0x80.
Proof.
  intros Hb. apply Z.ltb_lt.
  assert (implb (token_char b) (bz b <? 0x80) = true) as Hi; [|by rewrite Hb in Hi].
  by apply (byte_forall (fun b => implb (token_char b) (bz b <? 0x80))).
Qed.

Lemma ValidString_ascii s : Forall (fun b => bz b < 0x80) s -> ValidString s = true.
Proof.
  unfold ValidString. induction 1 as [|b s Hb Hs IH]; [done|].
  rewrite runes_cons_ascii by done. cbn [forallb]. rewrite IH, andb_true_r.
  unfold rune_ok, RuneError. cbn [fst snd]. by destruct (Z.eqb_spec (bz b) 0xFFFD); [lia|].
Qed.

Lemma token_valid_string key : forallb token_char key = true -> ValidString key = true.
Proof.
  intros Hk. apply ValidString_ascii, Forall_forall. intros b Hb.
  apply token_char_ascii. rewrite forallb_forall in Hk. by apply Hk, list_elem_of_In.
Qed.

(** A context whose scopes were all attached by [WithIdempotencyScope]. *)
Definition scopes_valid (ctx : option context) : Prop :=
  match ctx with
  | None => True
  | Some c => forall s, ScopeValue s ∈ ctx_values c -> ValidString s = true
  end.

Lemma lookup_scope_elem vs s : lookup_scope vs = Some s -> ScopeValue s ∈ vs.
Proof.
  induction vs as [|[s'|p q|v t i] vs IH]; simpl; [done|intros [= <-]; constructor|..];
    intros E; constructor; auto.
Qed.

Lemma scope_valid ctx : scopes_valid ctx -> ValidString (IdempotencyScopeFromContext ctx) = true.
Proof.
  destruct ctx as [c|]; [|done]. simpl. intros Hv.
  destruct (lookup_scope (ctx_values c)) as [[|b s]|] eqn:E; [done| |done].
  apply (Hv (b :: s)). by apply lookup_scope_elem.
Qed.

Lemma scopes_valid_background : scopes_valid (Some background).
Proof. by intros s Hs%elem_of_nil. Qed.

Lemma scopes_valid_with ctx scope :
  scopes_valid ctx -> scopes_valid (WithIdempotencyScope ctx scope).
Proof.
  destruct ctx as [c|]; [|done]. cbn [WithIdempotencyScope scopes_valid with_value ctx_values].
  intros Hv s [E|Hs]%elem_of_cons; [|by apply Hv]. injection E as ->.
  case_match; bool_simpl; [done|]. by destruct (ValidString scope).
Qed.

Lemma storage_payload_inj s1 k1 s2 k2 :
  ValidString s1 = true -> ValidString s2 = true ->
  forallb token_char k1 = true -> forallb token_char k2 = true ->
  storage_payload s1 k1 = storage_payload s2 k2 -> s1 = s2 /\ k1 = k2.
Proof.
  intros V1 V2 K1%token_valid_string K2%token_valid_string E.
  apply app_inv_head in E. by apply json_object2_inj in E.
Qed.

(** The storage key is itself an acceptable key of 67 bytes. *)
Lemma storageIdempotencyKey_length ctx key : length (storageIdempotencyKey ctx key) = 67%nat.
Proof. unfold storageIdempotencyKey. rewrite length_app, hex_encode_length, arr_length. done. Qed.

Lemma hex_digit_token z : 0 <= z < 16 -> token_char (hex_digit z) = true.
Proof. by apply (range_forall 0 16 (fun z => token_char (hex_digit z))). Qed.

Lemma hex_encode_token l : forallb token_char (hex_encode l) = true.
Proof.
  induction l as [|b l IH]; [done|]. pose proof (bz_range b). simpl.
  rewrite !hex_digit_token, IH; [done|by apply Z.mod_pos_bound|].
  split; [by apply Z.div_pos; lia|apply Z.div_lt_upper_bound; lia].
Qed.

Lemma storageIdempotencyKey_valid ctx key :
  ValidateIdempotencyKey (storageIdempotencyKey ctx key) = Ok tt.
Proof.
  apply ValidateIdempotencyKey_Ok. rewrite storageIdempotencyKey_length. split; [done|].
  unfold storageIdempotencyKey. by rewrite forallb_app, hex_encode_token.
Qed.

(** ** Properties *)

(** An idempotency key is accepted exactly when it is an HTTP token of 1 to
    255 bytes. *)
Theorem ValidateIdempotencyKey_spec key :
  ValidateIdempotencyKey key = Ok tt <->
  1 <= Z.of_nat (length key) <= MaxIdempotencyKeyBytes /\ forallb token_char key = true.
Proof. apply ValidateIdempotencyKey_Ok. Qed.

(** C36: two accepted create requests have the same fingerprint when they
    canonicalise to the same fields, and, short of a collision of the digest, only
    then: edge padding replays, a changed field conflicts. *)
Theorem Fingerprint_identifies_request a b ca cb :
  ValidateCreateInput a = Ok ca -> ValidateCreateInput b = Ok cb ->
  (ca = cb -> FingerprintCreateInput a = FingerprintCreateInput b)
  /\ (FingerprintCreateInput a = FingerprintCreateInput b -> ca = cb \/ collision).
Proof.
  intros Ha Hb. rewrite (Fingerprint_Ok a ca Ha), (Fingerprint_Ok b cb Hb).
  split; [by intros ->|]. intros [= E]. apply digest_hex_inj in E as [E|?]; [|by right].
  left. apply ValidateCreateInput_Ok in Ha as [_ Ha], Hb as [_ Hb].
  by apply fingerprint_payload_inj.
Qed.

(** Two callers share a storage key only if they sent the same key under the
    same scope (short of a digest collision), whatever delimiters the scope
    contains. *)
Theorem storageIdempotencyKey_separates ctx1 ctx2 k1 k2 :
  scopes_valid ctx1 -> scopes_valid ctx2 ->
  ValidateIdempotencyKey k1 = Ok tt -> ValidateIdempotencyKey k2 = Ok tt ->
  storageIdempotencyKey ctx1 k1 = storageIdempotencyKey ctx2 k2 ->
  (IdempotencyScopeFromContext ctx1 = IdempotencyScopeFromContext ctx2 /\ k1 = k2) \/ collision.
Proof.
  intros V1%scope_valid V2%scope_valid [_ K1]%ValidateIdempotencyKey_Ok
    [_ K2]%ValidateIdempotencyKey_Ok E.
  apply app_inv_head, digest_hex_inj in E as [E|?]; [|by right].
  left. by apply storage_payload_inj in E.
Qed.

End Digests.

(** ** Witnesses *)

Example Fingerprint_identifies_request_witness :
  @FingerprintCreateInput sha256_hash (mkCreateInput &" tea " &"green")
  = @FingerprintCreateInput sha256_hash (mkCreateInput &"tea" &"green ").
Proof.
  apply (@Fingerprint_identifies_request sha256_hash _ _
    (mkCreateInput &"tea" &"green") (mkCreateInput &"tea" &"green")); reflexivity.
Defined.

Example storageIdempotencyKey_separates_witness :
  let ctx := WithIdempotencyScope (Some background) &"items:create:a" in
  (IdempotencyScopeFromContext ctx = IdempotencyScopeFromContext ctx /\ &"k1" = &"k1")
  \/ @collision sha256_hash.
Proof.
  apply (@storageIdempotencyKey_separates sha256_hash); try reflexivity;
    apply scopes_valid_with, scopes_valid_background.
Defined.
