(* ===== verification/Config.v ===== *)
(** * Configuration (config/config.go)

    The settings of the application, read from an environment [lookup] and validated.
    A formatted error is kept as its format and its arguments. *)
From S2P Require Import Prelude GoText GoEncoding GoTime GoFloat GoUnicode GoUrl GoParseUrl Errors.

Definition defaultAppEnv : bytes := &"development".
Definition defaultHTTPPort : bytes := &"8080".
Definition defaultLogLevel : bytes := &"info".
Definition defaultDatabaseURL : bytes := &"postgres://localhost:5432/app?sslmode=disable".
Definition defaultMetricsEnabled : bool := false.
Definition defaultOTELServiceName : bytes := &"github.com/AJackTi/go-clean-architecture".
Definition defaultOTELTracesSampler : bytes := &"parentbased_traceidratio".
(** The constant [0.1]. *)
Definition defaultOTELTracesSamplerArg : float64 := fdiv (of_int 1) (of_int 10).
Definition defaultAuthEnabled : bool := false.
Definition defaultRateLimitEnabled : bool := false.
Definition defaultRateLimitRPS : float64 := of_int 10.
Definition defaultRateLimitBurst : Z := 20.
Definition defaultRateLimitMaxClients : Z := 10000.
Definition defaultRateLimitIdleTTL : Z := 10 * Minute.
Definition defaultCursorSigningKey : bytes := &"".
Definition developmentCursorKey : bytes := &"000102030405060708090a0b0c0d0e0f101112131415161718191a1b1c1d1e1f".
Definition maxOTELServiceNameBytes : Z := 128.
Definition maxOTELSamplerBytes : Z := 64.
Definition maxOTLPEndpointBytes : Z := 2048.
Definition maxAuthDigestBytes : Z := 32 * 2.
Definition maxRateLimitRPS : float64 := of_int 100000.
Definition maxRateLimitBurst : Z := 100000.
Definition maxRateLimitMaxClients : Z := 1000000.
Definition maxRateLimitIdleTTL : Z := 24 * Hour.
Definition maxCursorSigningKeyBytes : Z := 32.

Record Config := mkConfig {
  AppEnv : bytes;
  HTTPPort : bytes;
  LogLevel : bytes;
  DatabaseURL : bytes;
  MetricsEnabled : bool;
  OTELServiceName : bytes;
  OTELExporterOTLPEndpoint : bytes;
  OTELExporterOTLPInsecure : bool;
  OTELTracesSampler : bytes;
  OTELTracesSamplerArg : float64;
  AuthEnabled : bool;
  AuthBearerTokenSHA256 : bytes;
  RateLimitEnabled : bool;
  RateLimitRequestsPerSecond : float64;
  RateLimitBurst : Z;
  RateLimitMaxClients : Z;
  RateLimitIdleTTL : Z;
  CursorSigningKey : bytes;
}.

(** Two abbreviations: [len(s)], and [fmt.Errorf] with no argument. *)
Definition len (s : bytes) : Z := Z.of_nat (length s).
Definition failure {A} (text : bytes) : result A := Err (errorf text []).

Definition is_production (env : bytes) : bool := bool_decide (env = &"production").

(** ** Checks *)

Definition validateText (name value : bytes) : result unit :=
  if negb (ValidString value) || has_rune is_control value
  then Err (errorf &"config: %s contains invalid control or UTF-8 data" [name])
  else Ok tt.

(** [for _, setting := range settings] over (name, value) pairs. *)
Fixpoint validate_texts (settings : list (bytes * bytes)) : result unit :=
  match settings with
  | [] => Ok tt
  | (name, value) :: rest => rbind (validateText name value) (fun _ => validate_texts rest)
  end.

Definition CursorSigningKeyBytes (c : Config) : result bytes :=
  let value := TrimSpace (CursorSigningKey c) in
  if bool_decide (value = []) then Ok []
  else
    match hex_decode value with
    | Some decoded =>
      if negb (len decoded =? maxCursorSigningKeyBytes) then failure &"config: invalid CURSOR_SIGNING_KEY"
      else Ok decoded
    | None => failure &"config: invalid CURSOR_SIGNING_KEY"
    end.

(** [x] is outside [0, 1]. *)
Definition bad_ratio (x : float64) : bool := IsNaN x || IsInf x || flt x f_zero || flt (of_int 1) x.

(** A decimal port from 1 to 65535. *)
Definition port_number (text : bytes) : bool :=
  match Atoi text with Some port => negb ((port <? 1) || (65535 <? port)) | None => false end.

Section Validation.
Context {U : Unicode}.

(** The parts of an endpoint that disqualify it. *)
Definition bad_endpoint (u : url) : bool :=
  bool_decide (u_host u = []) || bool_decide (u_hostname u = []) || u_user u || u_forceQuery u
  || negb (bool_decide (u_rawQuery u = [])) || negb (bool_decide (u_fragment u = []))
  || negb (bool_decide (u_opaque u = [])).

Definition bad_port (u : url) : bool := negb (bool_decide (u_port u = [])) && negb (port_number (u_port u)).

Definition validateOTLPEndpoint (raw : bytes) (insecure : bool) : result unit :=
  let raw := TrimSpace raw in
  if bool_decide (raw = []) then Ok tt
  else if has_rune is_space raw then failure &"config: OTEL_EXPORTER_OTLP_ENDPOINT must not contain whitespace"
  else
    let hasScheme := contains raw &"://" in
    match Parse (if hasScheme then raw else &"https://" ++ raw) with
    | None => failure &"config: invalid OTEL_EXPORTER_OTLP_ENDPOINT"
    | Some endpoint =>
      let scheme := ToLower (u_scheme endpoint) in
      let http := bool_decide (scheme = &"http") in
      if negb http && negb (bool_decide (scheme = &"https"))
      then failure &"config: OTEL_EXPORTER_OTLP_ENDPOINT scheme must be http or https"
      else if bad_endpoint endpoint then failure &"config: invalid OTEL_EXPORTER_OTLP_ENDPOINT"
      else if bad_port endpoint then failure &"config: invalid OTEL_EXPORTER_OTLP_ENDPOINT port"
      else if hasScheme && negb (Bool.eqb http insecure)
      then failure &"config: OTEL_EXPORTER_OTLP_ENDPOINT scheme and OTEL_EXPORTER_OTLP_INSECURE disagree"
      else Ok tt
    end.

Definition endpointUsesHTTP (raw : bytes) : bool := has_prefix (ToLower (TrimSpace raw)) &"http://".

(** ** [Config.Validate], a group of checks at a time *)

Definition text_settings (c : Config) : list (bytes * bytes) :=
  [(&"APP_ENV", AppEnv c); (&"HTTP_PORT", HTTPPort c); (&"LOG_LEVEL", LogLevel c); (&"DATABASE_URL", DatabaseURL c);
   (&"OTEL_SERVICE_NAME", OTELServiceName c); (&"OTEL_EXPORTER_OTLP_ENDPOINT", OTELExporterOTLPEndpoint c);
   (&"OTEL_TRACES_SAMPLER", OTELTracesSampler c); (&"AUTH_BEARER_TOKEN_SHA256", AuthBearerTokenSHA256 c);
   (&"CURSOR_SIGNING_KEY", CursorSigningKey c)].

Definition validate_lengths (c : Config) : result unit :=
  if maxOTELServiceNameBytes <? len (OTELServiceName c)
  then Err (errorf &"config: OTEL_SERVICE_NAME must be at most %d bytes" [Itoa maxOTELServiceNameBytes])
  else if maxOTELSamplerBytes <? len (OTELTracesSampler c)
  then Err (errorf &"config: OTEL_TRACES_SAMPLER must be at most %d bytes" [Itoa maxOTELSamplerBytes])
  else if maxOTLPEndpointBytes <? len (OTELExporterOTLPEndpoint c)
  then Err (errorf &"config: OTEL_EXPORTER_OTLP_ENDPOINT must be at most %d bytes" [Itoa maxOTLPEndpointBytes])
  else Ok tt.

Definition validate_digest (c : Config) : result unit :=
  if bool_decide (AuthBearerTokenSHA256 c = []) then Ok tt
  else if negb (len (AuthBearerTokenSHA256 c) =? maxAuthDigestBytes)
  then Err (errorf &"config: AUTH_BEARER_TOKEN_SHA256 must be a %d-character SHA-256 hex digest" [Itoa maxAuthDigestBytes])
  else
    match hex_decode (AuthBearerTokenSHA256 c) with
    | None => failure &"config: AUTH_BEARER_TOKEN_SHA256 must be hexadecimal"
    | Some _ => Ok tt
    end.

Definition validate_cursor_key (c : Config) : result unit :=
  let cursorSigningKey := TrimSpace (CursorSigningKey c) in
  if negb (bool_decide (cursorSigningKey = [])) then
    if negb (len cursorSigningKey =? maxCursorSigningKeyBytes * 2)
    then Err (errorf &"config: CURSOR_SIGNING_KEY must be a %d-character SHA-256 hex key" [Itoa (maxCursorSigningKeyBytes * 2)])
    else
      match hex_decode cursorSigningKey with
      | None => failure &"config: CURSOR_SIGNING_KEY must be hexadecimal"
      | Some _ =>
        if is_production (TrimSpace (AppEnv c)) && equal_fold cursorSigningKey developmentCursorKey
        then failure &"config: CURSOR_SIGNING_KEY must not use the development placeholder in production"
        else Ok tt
      end
  else if is_production (TrimSpace (AppEnv c))
  then failure &"config: CURSOR_SIGNING_KEY must be set in production"
  else Ok tt.

Definition validate_required (c : Config) : result unit :=
  if bool_decide (TrimSpace (DatabaseURL c) = []) then failure &"config: DATABASE_URL must not be empty"
  else if negb (port_number (TrimSpace (HTTPPort c)))
  then Err (errorf &"config: HTTP_PORT must be an integer between 1 and 65535 (got %q)" [HTTPPort c])
  else if bool_decide (TrimSpace (AppEnv c) = []) then failure &"config: APP_ENV must not be empty"
  else if bool_decide (TrimSpace (LogLevel c) = []) then failure &"config: LOG_LEVEL must not be empty"
  else Ok tt.

Definition validate_tracing (c : Config) : result unit :=
  let sampler := TrimSpace (OTELTracesSampler c) in
  if negb (bool_decide (sampler = [])) && negb (bool_decide (sampler = defaultOTELTracesSampler))
  then Err (errorf &"config: OTEL_TRACES_SAMPLER must be %q" [defaultOTELTracesSampler])
  else if bad_ratio (OTELTracesSamplerArg c) then failure &"config: OTEL_TRACES_SAMPLER_ARG must be between 0 and 1"
  else
    rbind (validateOTLPEndpoint (OTELExporterOTLPEndpoint c) (OTELExporterOTLPInsecure c)) (fun _ =>
      if is_production (TrimSpace (AppEnv c)) then
        if OTELExporterOTLPInsecure c then failure &"config: OTEL_EXPORTER_OTLP_INSECURE must be false in production"
        else if endpointUsesHTTP (OTELExporterOTLPEndpoint c)
        then failure &"config: OTEL_EXPORTER_OTLP_ENDPOINT must use HTTPS in production"
        else Ok tt
      else Ok tt).

Definition validate_limits (c : Config) : result unit :=
  let rps := RateLimitRequestsPerSecond c in
  if RateLimitEnabled c then
    if IsNaN rps || IsInf rps || fle rps f_zero || flt maxRateLimitRPS rps
    then Err (errorf &"config: RATE_LIMIT_REQUESTS_PER_SECOND must be greater than 0 and at most %g" [&"100000"])
    else if (RateLimitBurst c <? 1) || (maxRateLimitBurst <? RateLimitBurst c)
    then Err (errorf &"config: RATE_LIMIT_BURST must be between 1 and %d" [Itoa maxRateLimitBurst])
    else if (RateLimitMaxClients c <? 1) || (maxRateLimitMaxClients <? RateLimitMaxClients c)
    then Err (errorf &"config: RATE_LIMIT_MAX_CLIENTS must be between 1 and %d" [Itoa maxRateLimitMaxClients])
    else if (RateLimitIdleTTL c <? Second) || (maxRateLimitIdleTTL <? RateLimitIdleTTL c)
    then Err (errorf &"config: RATE_LIMIT_IDLE_TTL must be between 1s and %s" [&"24h0m0s"])
    else Ok tt
  else
    if IsNaN rps || IsInf rps || flt rps f_zero || flt maxRateLimitRPS rps
    then failure &"config: RATE_LIMIT_REQUESTS_PER_SECOND is outside its allowed range"
    else if (RateLimitBurst c <? 0) || (maxRateLimitBurst <? RateLimitBurst c)
    then failure &"config: RATE_LIMIT_BURST is outside its allowed range"
    else if (RateLimitMaxClients c <? 0) || (maxRateLimitMaxClients <? RateLimitMaxClients c)
    then failure &"config: RATE_LIMIT_MAX_CLIENTS is outside its allowed range"
    else if (RateLimitIdleTTL c <? 0) || (maxRateLimitIdleTTL <? RateLimitIdleTTL c)
    then failure &"config: RATE_LIMIT_IDLE_TTL is outside its allowed range"
    else Ok tt.

Definition Validate (c : Config) : result unit :=
  rbind (validate_texts (text_settings c)) (fun _ =>
  rbind (validate_lengths c) (fun _ =>
  rbind (validate_digest c) (fun _ =>
  rbind (validate_cursor_key c) (fun _ =>
  rbind (validate_required c) (fun _ =>
  rbind (validate_tracing c) (fun _ =>
    if AuthEnabled c && bool_decide (AuthBearerTokenSHA256 c = [])
    then failure &"config: AUTH_BEARER_TOKEN_SHA256 must be set when AUTH_ENABLED is true"
    else validate_limits c)))))).

(** ** Loading *)

Definition environment : Type := bytes -> option bytes.

Definition valueOrDefault (lookup : environment) (key fallback : bytes) : bytes := default fallback (lookup key).

(** The body the four typed readers share: a parser of the trimmed text, and the kind of
    value the error names. *)
Definition parsed_or_default {A} (parse : bytes -> option A) (kind : bytes)
    (lookup : environment) (key : bytes) (fallback : A) : result A :=
  match lookup key with
  | None => Ok fallback
  | Some value =>
    rbind (validateText key value) (fun _ =>
      match parse (TrimSpace value) with
      | Some parsed => Ok parsed
      | None => Err (errorf (&"config: %s must be " ++ kind) [key])
      end)
  end.

Definition boolValueOrDefault := parsed_or_default ParseBool &"a boolean".
Definition floatValueOrDefault := parsed_or_default ParseFloat &"a number".
Definition intValueOrDefault := parsed_or_default Atoi &"an integer".
Definition durationValueOrDefault := parsed_or_default ParseDuration &"a duration".

(** The settings whose text is checked first, those that are set. *)
Definition checked_keys : list bytes :=
  [&"APP_ENV"; &"HTTP_PORT"; &"LOG_LEVEL"; &"DATABASE_URL"; &"OTEL_SERVICE_NAME"; &"OTEL_EXPORTER_OTLP_ENDPOINT";
   &"OTEL_TRACES_SAMPLER"; &"AUTH_BEARER_TOKEN_SHA256"; &"RATE_LIMIT_IDLE_TTL"; &"CURSOR_SIGNING_KEY"].

Fixpoint set_settings (lookup : environment) (keys : list bytes) : list (bytes * bytes) :=
  match keys with
  | [] => []
  | key :: rest =>
    match lookup key with
    | Some value => (key, value) :: set_settings lookup rest
    | None => set_settings lookup rest
    end
  end.

(** The settings as [load] reads them, before it checks them. *)
Definition read_settings (lookup : environment) : result Config :=
  rbind (validate_texts (set_settings lookup checked_keys)) (fun _ =>
  rbind (boolValueOrDefault lookup &"METRICS_ENABLED" defaultMetricsEnabled) (fun metricsEnabled =>
  rbind (boolValueOrDefault lookup &"OTEL_EXPORTER_OTLP_INSECURE" false) (fun otelInsecure =>
  rbind (floatValueOrDefault lookup &"OTEL_TRACES_SAMPLER_ARG" defaultOTELTracesSamplerArg) (fun otelSamplerArg =>
  rbind (boolValueOrDefault lookup &"AUTH_ENABLED" defaultAuthEnabled) (fun authEnabled =>
  rbind (boolValueOrDefault lookup &"RATE_LIMIT_ENABLED" defaultRateLimitEnabled) (fun rateLimitEnabled =>
  rbind (floatValueOrDefault lookup &"RATE_LIMIT_REQUESTS_PER_SECOND" defaultRateLimitRPS) (fun rateLimitRPS =>
  rbind (intValueOrDefault lookup &"RATE_LIMIT_BURST" defaultRateLimitBurst) (fun rateLimitBurst =>
  rbind (intValueOrDefault lookup &"RATE_LIMIT_MAX_CLIENTS" defaultRateLimitMaxClients) (fun rateLimitMaxClients =>
  rbind (durationValueOrDefault lookup &"RATE_LIMIT_IDLE_TTL" defaultRateLimitIdleTTL) (fun rateLimitIdleTTL =>
    let text key fallback := TrimSpace (valueOrDefault lookup key fallback) in
    Ok (mkConfig
      (text &"APP_ENV" defaultAppEnv) (text &"HTTP_PORT" defaultHTTPPort) (text &"LOG_LEVEL" defaultLogLevel)
      (text &"DATABASE_URL" defaultDatabaseURL) metricsEnabled (text &"OTEL_SERVICE_NAME" defaultOTELServiceName)
      (text &"OTEL_EXPORTER_OTLP_ENDPOINT" &"") otelInsecure (text &"OTEL_TRACES_SAMPLER" defaultOTELTracesSampler)
      otelSamplerArg authEnabled (ToLower (text &"AUTH_BEARER_TOKEN_SHA256" &"")) rateLimitEnabled rateLimitRPS
      rateLimitBurst rateLimitMaxClients rateLimitIdleTTL
      (ToLower (text &"CURSOR_SIGNING_KEY" defaultCursorSigningKey)))
  )))))))))).

Definition is_set (lookup : environment) (key : bytes) : bool :=
  match lookup key with Some _ => true | None => false end.

Definition load (lookup : environment) : result Config :=
  rbind (read_settings lookup) (fun cfg =>
    let production := is_production (AppEnv cfg) in
    if production && negb (is_set lookup &"DATABASE_URL")
    then failure &"config: DATABASE_URL must be explicitly set in production"
    else if production && negb (is_set lookup &"CURSOR_SIGNING_KEY")
    then failure &"config: CURSOR_SIGNING_KEY must be explicitly set in production"
    else if production && bool_decide (CursorSigningKey cfg = developmentCursorKey)
    then failure &"config: CURSOR_SIGNING_KEY must not use the development placeholder in production"
    else if is_set lookup &"CURSOR_SIGNING_KEY" && bool_decide (CursorSigningKey cfg = [])
    then failure &"config: CURSOR_SIGNING_KEY must not be empty"
    else if is_set lookup &"OTEL_SERVICE_NAME" && bool_decide (OTELServiceName cfg = [])
    then failure &"config: OTEL_SERVICE_NAME must not be empty"
    else if is_set lookup &"OTEL_TRACES_SAMPLER" && bool_decide (OTELTracesSampler cfg = [])
    then failure &"config: OTEL_TRACES_SAMPLER must not be empty"
    else rbind (Validate cfg) (fun _ => Ok cfg)).

(** [Load] and [NewConfig] read the environment of the process. *)
Definition Load (LookupEnv : environment) : result Config := load LookupEnv.
Definition NewConfig (LookupEnv : environment) : result Config := Load LookupEnv.
End Validation.
