(* ===== verification/ConfigFacts.v ===== *)
(** * Configuration: facts

    What an accepted configuration guarantees, what the production guards exclude,
    and what an error may tell. *)
From S2P Require Import Prelude GoText GoEncoding GoTime GoFloat GoUnicode GoUrl GoNet GoParseUrl Errors Config.

(** ** Texts *)

Definition clean (value : bytes) : Prop := ValidString value = true /\ has_rune is_control value = false.

Lemma validateText_Ok name value : validateText name value = Ok tt <-> clean value.
Proof.
  unfold validateText, clean. destruct (ValidString value), (has_rune is_control value); simpl; split; try done;
    intros [??]; done.
Qed.

Lemma validate_texts_Ok settings :
  validate_texts settings = Ok tt -> Forall (fun kv => clean kv.2) settings.
Proof.
  induction settings as [|[name value] rest IH]; [by constructor|]. cbn [validate_texts].
  intros H. rbind_ok. destruct x. constructor; [by eapply validateText_Ok|by apply IH].
Qed.

(** ** Hexadecimal keys *)

(** Decoding forgets the case of a text and nothing else. *)
Lemma hex_decode_lower s d : hex_decode s = Some d -> lower_byte <$> s = hex_encode d.
Proof.
  assert (forall b h, hex_val b = Some h -> 0 <= h < 16 /\ lower_byte b = hex_digit h) as Hv.
  { intros b h Hh.
    set (ok := fun b => match hex_val b with
      | Some h => (0 <=? h) && (h <? 16) && bool_decide (lower_byte b = hex_digit h) | None => true end).
    assert (ok b = true) as Hb by (apply byte_forall; vm_compute; reflexivity).
    unfold ok in Hb. rewrite Hh in Hb. bool_simpl. split; [lia|done]. }
  revert d. induction s as [s IH] using (induction_ltof1 _ (@length byte)).
  destruct s as [|x [|y s]]; cbn [hex_decode]; intros d; [by intros [= <-]|done|].
  destruct (hex_val x) as [h|] eqn:Ex; [|done]. destruct (hex_val y) as [l|] eqn:Ey; [|done]. cbn [mbind option_bind].
  destruct (hex_decode s) as [r|] eqn:Er; [|done]. intros [= <-].
  apply Hv in Ex as [Hh Ex]. apply Hv in Ey as [Hl Ey].
  cbn [hex_encode]. rewrite !fmap_cons, Ex, Ey. rewrite (IH s) with (d := r) by (done || unfold ltof; simpl; lia).
  rewrite bz_zb_small by lia.
  replace ((16 * h + l) / 16) with h by (apply Z.div_unique with l; lia).
  by replace ((16 * h + l) mod 16) with l by (apply Z.mod_unique with h; lia).
Qed.

Lemma hex_decode_ascii s d : hex_decode s = Some d -> ascii s.
Proof.
  intros Hd%hex_decode_lower. apply Forall_forall. intros b Hb.
  assert (bz (lower_byte b) < 0x80) as Hl.
  { apply (list_elem_of_fmap_2 lower_byte) in Hb. rewrite Hd in Hb.
    pose proof (hex_encode_chars d) as Hc. rewrite Forall_forall in Hc. apply Hc in Hb as (z & Hz & ->).
    unfold hex_digit. case_match; rewrite bz_zb_small; bool_simpl; lia. }
  revert Hl. clear. revert b. apply (Forall_bytes_forall (fun b => bz (lower_byte b) < 0x80 -> bz b < 0x80)).
  vm_compute. reflexivity.
Qed.

(** The bytes of the published development key: 0 to 31. *)
Definition development_key_bytes : bytes := zb <$> seqZ 0 32.

(** The case-insensitive comparison is a comparison of the keys. *)
Lemma development_key_folds key d :
  hex_decode key = Some d -> equal_fold key developmentCursorKey = bool_decide (d = development_key_bytes).
Proof.
  intros Hd. unfold equal_fold. apply bool_decide_ext.
  assert (hex_decode developmentCursorKey = Some development_key_bytes) as Hdev by by vm_compute.
  rewrite (fold_ascii key), (fold_ascii developmentCursorKey) by (by eapply hex_decode_ascii).
  rewrite (hex_decode_lower _ _ Hd), (hex_decode_lower _ _ Hdev). split; [|by intros ->].
  intros E%(inj (fmap bz)). by apply hex_encode_inj in E.
Qed.

(** ** Accepted configurations *)

(** A key of 32 bytes in hexadecimal. *)
Definition hex_key (text : bytes) (key : bytes) : Prop := hex_decode text = Some key /\ length key = 32%nat.

Definition production (c : Config) : Prop := TrimSpace (AppEnv c) = &"production".

Section Facts.
Context {U : Unicode}.

(** What [Validate] establishes. *)
Record valid_config (c : Config) : Prop := {
  vc_texts : Forall (fun kv => clean kv.2) (text_settings c);
  vc_name : len (OTELServiceName c) <= maxOTELServiceNameBytes;
  vc_endpoint_len : len (OTELExporterOTLPEndpoint c) <= maxOTLPEndpointBytes;
  vc_digest : AuthBearerTokenSHA256 c = [] \/ exists d, hex_key (AuthBearerTokenSHA256 c) d;
  vc_auth : AuthEnabled c = true -> AuthBearerTokenSHA256 c <> [];
  vc_key : (TrimSpace (CursorSigningKey c) = [] /\ ~ production c)
    \/ exists d, hex_key (TrimSpace (CursorSigningKey c)) d /\ (production c -> d <> development_key_bytes);
  vc_database : TrimSpace (DatabaseURL c) <> [];
  vc_port : port_number (TrimSpace (HTTPPort c)) = true;
  vc_ratio : bad_ratio (OTELTracesSamplerArg c) = false;
  vc_endpoint : validateOTLPEndpoint (OTELExporterOTLPEndpoint c) (OTELExporterOTLPInsecure c) = Ok tt;
  vc_secure : production c -> OTELExporterOTLPInsecure c = false;
  vc_limits : validate_limits c = Ok tt;
}.

Lemma validate_digest_Ok c :
  validate_digest c = Ok tt -> AuthBearerTokenSHA256 c = [] \/ exists d, hex_key (AuthBearerTokenSHA256 c) d.
Proof.
  unfold validate_digest. case_match eqn:E0; bool_simpl; [by left|]. case_match eqn:El; [done|].
  destruct (hex_decode _) as [d|] eqn:Ed; [|done]. intros _. right. exists d. split; [done|].
  apply hex_decode_length in Ed. bool_simpl. unfold len, maxAuthDigestBytes in El. lia.
Qed.

Lemma validate_cursor_key_Ok c :
  validate_cursor_key c = Ok tt ->
  (TrimSpace (CursorSigningKey c) = [] /\ ~ production c)
  \/ exists d, hex_key (TrimSpace (CursorSigningKey c)) d /\ (production c -> d <> development_key_bytes).
Proof.
  unfold validate_cursor_key, is_production, production. set (k := TrimSpace (CursorSigningKey c)).
  destruct (decide (k = [])) as [Ek|Ek].
  { rewrite Ek. simpl. case_match eqn:Ep; [done|]. bool_simpl. auto. }
  rewrite bool_decide_false by done. cbn [negb]. case_match eqn:El; [done|].
  destruct (hex_decode k) as [d|] eqn:Ed; [|done]. rewrite (development_key_folds _ _ Ed).
  case_match eqn:Ep; [done|]. intros _. right. exists d. split.
  - split; [done|]. apply hex_decode_length in Ed. bool_simpl. unfold len, maxCursorSigningKeyBytes in El. lia.
  - intros Hp ->. by rewrite Hp, !bool_decide_true in Ep.
Qed.

Lemma validate_lengths_Ok c :
  validate_lengths c = Ok tt ->
  len (OTELServiceName c) <= maxOTELServiceNameBytes /\ len (OTELExporterOTLPEndpoint c) <= maxOTLPEndpointBytes.
Proof.
  unfold validate_lengths. destruct (Z.ltb_spec maxOTELServiceNameBytes (len (OTELServiceName c))); [done|].
  destruct (_ <? len (OTELTracesSampler c)); [done|].
  by destruct (Z.ltb_spec maxOTLPEndpointBytes (len (OTELExporterOTLPEndpoint c))).
Qed.

Lemma validate_required_Ok c :
  validate_required c = Ok tt ->
  TrimSpace (DatabaseURL c) <> [] /\ port_number (TrimSpace (HTTPPort c)) = true.
Proof.
  unfold validate_required. destruct (decide (TrimSpace (DatabaseURL c) = [])); [by rewrite bool_decide_true|].
  rewrite bool_decide_false by done. by destruct (port_number _).
Qed.

Lemma validate_tracing_Ok c :
  validate_tracing c = Ok tt ->
  bad_ratio (OTELTracesSamplerArg c) = false
  /\ validateOTLPEndpoint (OTELExporterOTLPEndpoint c) (OTELExporterOTLPInsecure c) = Ok tt
  /\ (production c -> OTELExporterOTLPInsecure c = false).
Proof.
  unfold validate_tracing. case_match; [done|]. destruct (bad_ratio _); [done|].
  intros ([] & He & Hp)%rbind_Ok. split_and!; [done|done|]. unfold production. intros E.
  unfold is_production in Hp. rewrite E, bool_decide_true in Hp by done. by destruct (OTELExporterOTLPInsecure c).
Qed.

Lemma accepted_valid c : Validate c = Ok tt -> valid_config c.
Proof.
  unfold Validate. intros H. rbind_ok.
  repeat match goal with x : unit |- _ => destruct x end.
  destruct (AuthEnabled c && bool_decide (AuthBearerTokenSHA256 c = [])) eqn:Ea; [done|].
  match goal with H : validate_lengths c = _ |- _ => apply validate_lengths_Ok in H as [??] end.
  match goal with H : validate_required c = _ |- _ => apply validate_required_Ok in H as [??] end.
  match goal with H : validate_tracing c = _ |- _ => apply validate_tracing_Ok in H as (? & ? & ?) end.
  constructor; try done.
  - by apply validate_texts_Ok.
  - by apply validate_digest_Ok.
  - intros Hauth E. by rewrite Hauth, E in Ea.
  - by apply validate_cursor_key_Ok.
Qed.

(** The bytes of the signing key: none, or 32. *)
Lemma CursorSigningKeyBytes_valid c :
  valid_config c ->
  (CursorSigningKeyBytes c = Ok [] /\ ~ production c)
  \/ exists d, CursorSigningKeyBytes c = Ok d /\ length d = 32%nat /\ (production c -> d <> development_key_bytes).
Proof.
  intros [[E Hp]|(d & [Hd Hl] & Hp)]%vc_key; unfold CursorSigningKeyBytes.
  - rewrite E. by left.
  - right. exists d. rewrite bool_decide_false by (intros E; rewrite E in Hd; by injection Hd as <-).
    rewrite Hd. unfold len. by rewrite Hl.
Qed.

(** ** Loading *)

(** The last step of [load]: what it returns was accepted, and the settings that
    production must make explicit were set. *)
Lemma load_Ok lookup cfg :
  load lookup = Ok cfg ->
  read_settings lookup = Ok cfg /\ valid_config cfg
  /\ (AppEnv cfg = &"production" ->
        is_set lookup &"DATABASE_URL" = true /\ is_set lookup &"CURSOR_SIGNING_KEY" = true).
Proof.
  unfold load. intros (c & Hr & H)%rbind_Ok. revert H. unfold is_production.
  do 6 (case_match; [done|]). intros ([] & Hv & [= <-])%rbind_Ok.
  split_and!; [done|by apply accepted_valid|]. intros Hp. rewrite bool_decide_true in * by done.
  by destruct (is_set lookup &"DATABASE_URL"), (is_set lookup &"CURSOR_SIGNING_KEY").
Qed.

(** The settings are trimmed. *)
Lemma read_settings_trimmed lookup cfg :
  read_settings lookup = Ok cfg ->
  AppEnv cfg = TrimSpace (valueOrDefault lookup &"APP_ENV" defaultAppEnv)
  /\ HTTPPort cfg = TrimSpace (valueOrDefault lookup &"HTTP_PORT" defaultHTTPPort)
  /\ DatabaseURL cfg = TrimSpace (valueOrDefault lookup &"DATABASE_URL" defaultDatabaseURL).
Proof. unfold read_settings. intros H. rbind_ok. injection H as <-. done. Qed.

Lemma load_production lookup cfg : load lookup = Ok cfg -> production cfg <-> AppEnv cfg = &"production".
Proof.
  intros (Hr & _ & _)%load_Ok. apply read_settings_trimmed in Hr as (Ha & _). unfold production.
  by rewrite Ha, TrimSpace_idemp.
Qed.

(** ** Errors *)

(** The settings that are checked as texts or parsed. *)
Definition setting_names : list bytes :=
  checked_keys ++ [&"METRICS_ENABLED"; &"OTEL_EXPORTER_OTLP_INSECURE"; &"OTEL_TRACES_SAMPLER_ARG"; &"AUTH_ENABLED";
    &"RATE_LIMIT_ENABLED"; &"RATE_LIMIT_REQUESTS_PER_SECOND"; &"RATE_LIMIT_BURST"; &"RATE_LIMIT_MAX_CLIENTS"].

(** The messages that name a setting. *)
Definition named_formats : list bytes :=
  [&"config: %s contains invalid control or UTF-8 data"; &"config: %s must be a boolean"; &"config: %s must be a number";
   &"config: %s must be an integer"; &"config: %s must be a duration"].

(** The other messages, with their arguments. *)
Definition fixed_messages : list error :=
  [errorf &"config: OTEL_SERVICE_NAME must be at most %d bytes" [&"128"];
   errorf &"config: OTEL_TRACES_SAMPLER must be at most %d bytes" [&"64"];
   errorf &"config: OTEL_EXPORTER_OTLP_ENDPOINT must be at most %d bytes" [&"2048"];
   errorf &"config: AUTH_BEARER_TOKEN_SHA256 must be a %d-character SHA-256 hex digest" [&"64"];
   errorf &"config: AUTH_BEARER_TOKEN_SHA256 must be hexadecimal" [];
   errorf &"config: CURSOR_SIGNING_KEY must be a %d-character SHA-256 hex key" [&"64"];
   errorf &"config: CURSOR_SIGNING_KEY must be hexadecimal" [];
   errorf &"config: CURSOR_SIGNING_KEY must not use the development placeholder in production" [];
   errorf &"config: CURSOR_SIGNING_KEY must be set in production" [];
   errorf &"config: DATABASE_URL must not be empty" [];
   errorf &"config: APP_ENV must not be empty" [];
   errorf &"config: LOG_LEVEL must not be empty" [];
   errorf &"config: OTEL_TRACES_SAMPLER must be %q" [&"parentbased_traceidratio"];
   errorf &"config: OTEL_TRACES_SAMPLER_ARG must be between 0 and 1" [];
   errorf &"config: OTEL_EXPORTER_OTLP_ENDPOINT must not contain whitespace" [];
   errorf &"config: invalid OTEL_EXPORTER_OTLP_ENDPOINT" [];
   errorf &"config: OTEL_EXPORTER_OTLP_ENDPOINT scheme must be http or https" [];
   errorf &"config: invalid OTEL_EXPORTER_OTLP_ENDPOINT port" [];
   errorf &"config: OTEL_EXPORTER_OTLP_ENDPOINT scheme and OTEL_EXPORTER_OTLP_INSECURE disagree" [];
   errorf &"config: OTEL_EXPORTER_OTLP_INSECURE must be false in production" [];
   errorf &"config: OTEL_EXPORTER_OTLP_ENDPOINT must use HTTPS in production" [];
   errorf &"config: AUTH_BEARER_TOKEN_SHA256 must be set when AUTH_ENABLED is true" [];
   errorf &"config: RATE_LIMIT_REQUESTS_PER_SECOND must be greater than 0 and at most %g" [&"100000"];
   errorf &"config: RATE_LIMIT_BURST must be between 1 and %d" [&"100000"];
   errorf &"config: RATE_LIMIT_MAX_CLIENTS must be between 1 and %d" [&"1000000"];
   errorf &"config: RATE_LIMIT_IDLE_TTL must be between 1s and %s" [&"24h0m0s"];
   errorf &"config: RATE_LIMIT_REQUESTS_PER_SECOND is outside its allowed range" [];
   errorf &"config: RATE_LIMIT_BURST is outside its allowed range" [];
   errorf &"config: RATE_LIMIT_MAX_CLIENTS is outside its allowed range" [];
   errorf &"config: RATE_LIMIT_IDLE_TTL is outside its allowed range" [];
   errorf &"config: DATABASE_URL must be explicitly set in production" [];
   errorf &"config: CURSOR_SIGNING_KEY must be explicitly set in production" [];
   errorf &"config: CURSOR_SIGNING_KEY must not be empty" [];
   errorf &"config: OTEL_SERVICE_NAME must not be empty" [];
   errorf &"config: OTEL_TRACES_SAMPLER must not be empty" []].

(** What an error may disclose: names of settings, fixed texts, and the port. *)
Definition discreet (port : bytes) (e : error) : Prop :=
  (exists format name, format ∈ named_formats /\ name ∈ setting_names /\ e = errorf format [name])
  \/ e ∈ fixed_messages
  \/ e = errorf &"config: HTTP_PORT must be an integer between 1 and 65535 (got %q)" [port].

(** Membership in a list of literals. *)
Ltac member := repeat first [apply list_elem_of_here | apply list_elem_of_further].
Ltac fixed_message := intros [= <-]; right; left; unfold fixed_messages; solve [member].

Lemma validateText_discreet port name value e :
  name ∈ setting_names -> validateText name value = Err e -> discreet port e.
Proof.
  unfold validateText. intros Hn. case_match; [|done]. intros [= <-]. left. eexists _, name. split_and!; [|done|done].
  unfold named_formats. member.
Qed.

Lemma validate_texts_discreet port settings e :
  Forall (fun kv => kv.1 ∈ setting_names) settings -> validate_texts settings = Err e -> discreet port e.
Proof.
  induction 1 as [|[name value] rest Hn Hr IH]; [done|]. cbn [validate_texts].
  intros [H|([] & _ & H)]%rbind_Err; [by eapply validateText_discreet|by apply IH].
Qed.

Lemma parsed_or_default_discreet {A} port (parse : bytes -> option A) kind lookup key fallback e :
  key ∈ setting_names -> (&"config: %s must be " ++ kind) ∈ named_formats ->
  parsed_or_default parse kind lookup key fallback = Err e -> discreet port e.
Proof.
  unfold parsed_or_default. intros Hk Hf. destruct (lookup key); [|done].
  intros [H|([] & _ & H)]%rbind_Err; [by eapply validateText_discreet|].
  case_match; [done|]. injection H as <-. left. by eexists _, key.
Qed.

Lemma set_settings_names lookup keys :
  Forall (fun key => key ∈ setting_names) keys -> Forall (fun kv => kv.1 ∈ setting_names) (set_settings lookup keys).
Proof. induction 1 as [|key rest Hk Hr IH]; [constructor|]. cbn [set_settings]. case_match; [by constructor|done]. Qed.

Lemma read_settings_discreet port lookup e : read_settings lookup = Err e -> discreet port e.
Proof.
  assert (forall key, bool_decide (key ∈ setting_names) = true -> key ∈ setting_names) as Hk
    by (intros key; apply bool_decide_eq_true_1).
  unfold read_settings. intros [H|(? & _ & H)]%rbind_Err.
  { eapply validate_texts_discreet; [|done]. apply set_settings_names, Forall_forall.
    intros key Hin. unfold setting_names. apply elem_of_app. by left. }
  repeat (apply rbind_Err in H as [H|(? & _ & H)];
    [eapply parsed_or_default_discreet in H; [exact H|by apply Hk; vm_compute|by apply (bool_decide_eq_true_1 _); vm_compute]|]).
  done.
Qed.

Lemma validateOTLPEndpoint_discreet port raw insecure e : validateOTLPEndpoint raw insecure = Err e -> discreet port e.
Proof. unfold validateOTLPEndpoint, failure. repeat case_match; try done; fixed_message. Qed.

Lemma Validate_discreet c e : Validate c = Err e -> discreet (HTTPPort c) e.
Proof.
  unfold Validate. intros [H|([] & _ & H)]%rbind_Err.
  { eapply validate_texts_discreet; [|done]. unfold text_settings. repeat constructor;
      by apply (bool_decide_eq_true_1 _); vm_compute. }
  apply rbind_Err in H as [H|([] & _ & H)].
  { revert H. unfold validate_lengths. repeat case_match; try done; fixed_message. }
  apply rbind_Err in H as [H|([] & _ & H)].
  { revert H. unfold validate_digest, failure. repeat case_match; try done; fixed_message. }
  apply rbind_Err in H as [H|([] & _ & H)].
  { revert H. unfold validate_cursor_key, failure. repeat case_match; try done; fixed_message. }
  apply rbind_Err in H as [H|([] & _ & H)].
  { revert H. unfold validate_required, failure.
    repeat case_match; try done; try fixed_message. intros [= <-]. by right; right. }
  apply rbind_Err in H as [H|([] & _ & H)].
  - revert H. unfold validate_tracing, failure.
    destruct (_ && _); [fixed_message|]. destruct (bad_ratio _); [fixed_message|].
    intros [H|([] & _ & H)]%rbind_Err; [by eapply validateOTLPEndpoint_discreet|]. revert H.
    repeat case_match; try done; fixed_message.
  - revert H. unfold validate_limits, failure. repeat case_match; try done; fixed_message.
Qed.

(** C28: Every error of [load] is one of a fixed list of messages, which say no more than
    the name of a setting and a fixed text or limit; the only value of the environment
    that one of them quotes is the port. No error discloses the database URL, the
    bearer digest or the signing key. *)
Theorem Config_errors_discreet lookup e :
  load lookup = Err e -> discreet (TrimSpace (valueOrDefault lookup &"HTTP_PORT" defaultHTTPPort)) e.
Proof.
  unfold load. intros [H|(cfg & Hr & H)]%rbind_Err; [by eapply read_settings_discreet|].
  apply read_settings_trimmed in Hr as (_ & <- & _). revert H. unfold failure.
  do 6 (case_match; [fixed_message|]). intros [Hv|([] & _ & Hv)]%rbind_Err; [by apply Validate_discreet|done].
Qed.

(** C20: A configuration loaded for production is fit for it: the database URL and the
    signing key were set explicitly, the URL is not blank, the key decodes to 32 bytes
    that are not those of the published development key, in whatever case it was
    written, and the exporter is not marked insecure. *)
Theorem Production_guards lookup cfg :
  load lookup = Ok cfg -> AppEnv cfg = &"production" ->
  lookup &"DATABASE_URL" <> None /\ TrimSpace (DatabaseURL cfg) <> []
  /\ lookup &"CURSOR_SIGNING_KEY" <> None
  /\ (exists key, CursorSigningKeyBytes cfg = Ok key /\ length key = 32%nat /\ key <> development_key_bytes)
  /\ OTELExporterOTLPInsecure cfg = false.
Proof.
  intros Hl Hp. pose proof (proj2 (load_production _ _ Hl) Hp) as Hprod.
  apply load_Ok in Hl as (_ & Hv & Hs). apply Hs in Hp as [Hd Hk]. unfold is_set in Hd, Hk.
  split_and!.
  - by destruct (lookup &"DATABASE_URL").
  - by apply vc_database.
  - by destruct (lookup &"CURSOR_SIGNING_KEY").
  - destruct (CursorSigningKeyBytes_valid cfg Hv) as [[_ Hn]|(d & ? & ? & ?)]; [done|eauto].
  - by apply vc_secure.
Qed.

End Facts.
