(* ===== verification/Telemetry.v ===== *)
(** * Tracing (pkg/telemetry/telemetry.go)

    The configuration of the tracing provider and its life cycle. The OpenTelemetry
    SDK is a record of operations over a store [S]; its resources, exporters and
    tracer providers are handles. [float_text] is how [%v] prints a float. *)
From S2P Require Import Prelude GoText GoFloat GoUnicode GoUrl GoParseUrl Errors World.

Definition DefaultServiceName : bytes := &"unknown_service".
Definition defaultTracePath : bytes := &"/v1/traces".
Definition maxServiceNameBytes : Z := 128.
Definition maxEnvironmentBytes : Z := 128.
Definition maxEndpointBytes : Z := 2048.

(** This package's own [ErrNilContext]. *)
Definition ErrNilContext : error := Opaque &"telemetry: context must not be nil".

Record Config := mkConfig {
  Endpoint : bytes;
  Insecure : bool;
  ServiceName : bytes;
  Environment : bytes;
  SampleRatio : float64;
}.

Record normalizedConfig := mkNormalized {
  serviceName : bytes;
  environment : bytes;
  sampleRatio : float64;
  endpointURL : bytes;
}.

Definition failure {A} (text : bytes) : result A := Err (errorf text []).
Definition too_long (s : bytes) (limit : Z) : bool := limit <? Z.of_nat (length s).

Definition validateText (label value : bytes) : result unit :=
  if negb (ValidString value) || has_rune is_control value
  then Err (errorf &"telemetry: %s contains invalid control or UTF-8 data" [label])
  else Ok tt.

Section Normalize.
Context {U : Unicode} (float_text : float64 -> bytes).

(** The URL of an endpoint, its scheme settled. *)
Definition parse_endpoint (raw : bytes) (insecure : bool) : result url :=
  if contains raw &"://" then
    match Parse raw with
    | None => failure &"telemetry: invalid OTLP endpoint"
    | Some endpoint =>
      let scheme := ToLower (u_scheme endpoint) in
      let http := bool_decide (scheme = &"http") in
      if negb http && negb (bool_decide (scheme = &"https"))
      then Err (errorf &"telemetry: OTLP endpoint scheme must be http or https (got %q)" [u_scheme endpoint])
      else if negb (Bool.eqb http insecure) then failure &"telemetry: endpoint scheme and insecure flag disagree"
      else Ok (set_scheme endpoint scheme)
    end
  else
    match Parse (&"https://" ++ raw) with
    | None => failure &"telemetry: invalid OTLP endpoint"
    | Some endpoint => Ok (if insecure then set_scheme endpoint &"http" else endpoint)
    end.

Definition bad_endpoint (u : url) : bool :=
  bool_decide (u_host u = []) || bool_decide (u_hostname u = []) || u_user u || u_forceQuery u
  || negb (bool_decide (u_rawQuery u = [])) || negb (bool_decide (u_fragment u = []))
  || negb (bool_decide (u_opaque u = [])).

Definition bad_port (port : bytes) : bool :=
  match Atoi port with Some n => (n <? 1) || (65535 <? n) | None => true end.

Definition normalizeEndpoint (raw : bytes) (insecure : bool) : result bytes :=
  let raw := TrimSpace raw in
  if too_long raw maxEndpointBytes
  then Err (errorf &"telemetry: OTLP endpoint must be at most %d bytes" [Itoa maxEndpointBytes])
  else if bool_decide (raw = []) then Ok []
  else if has_rune is_space raw then failure &"telemetry: OTLP endpoint must not contain whitespace"
  else
    rbind (parse_endpoint raw insecure) (fun endpoint =>
      if bad_endpoint endpoint then failure &"telemetry: invalid OTLP endpoint"
      else if negb (bool_decide (u_port endpoint = [])) && bad_port (u_port endpoint)
      then Err (errorf &"telemetry: invalid OTLP endpoint port %q" [u_port endpoint])
      else
        let endpoint :=
          if bool_decide (u_path endpoint = []) || bool_decide (u_path endpoint = &"/")
          then set_path endpoint defaultTracePath else endpoint in
        if negb (has_prefix (u_path endpoint) &"/") then failure &"telemetry: invalid OTLP endpoint path"
        else Ok (hierarchical_String endpoint)).

Definition normalizeConfig (cfg : Config) : result normalizedConfig :=
  let serviceName := TrimSpace (ServiceName cfg) in
  let serviceName := if bool_decide (serviceName = []) then DefaultServiceName else serviceName in
  rbind (validateText &"service name" serviceName) (fun _ =>
    if too_long serviceName maxServiceNameBytes
    then Err (errorf &"telemetry: service name must be at most %d bytes" [Itoa maxServiceNameBytes])
    else
      let environment := TrimSpace (Environment cfg) in
      rbind (validateText &"environment" environment) (fun _ =>
        if too_long environment maxEnvironmentBytes
        then Err (errorf &"telemetry: environment must be at most %d bytes" [Itoa maxEnvironmentBytes])
        else
          let ratio := SampleRatio cfg in
          if IsNaN ratio || IsInf ratio || flt ratio f_zero || flt (of_int 1) ratio
          then Err (errorf &"telemetry: sample ratio must be between 0 and 1 (got %v)" [float_text (SampleRatio cfg)])
          else
            rbind (normalizeEndpoint (Endpoint cfg) (Insecure cfg)) (fun endpointURL =>
              Ok (mkNormalized serviceName environment ratio endpointURL)))).

Definition Validate (c : Config) : result unit := rbind (normalizeConfig c) (fun _ => Ok tt).
End Normalize.

(** ** The provider *)

(** [sdk_resource] is [resource.New] with the attributes; [sdk_provider] is
    [NewTracerProvider] with the resource, the ratio of the parent-based sampler and
    the batched exporter, if any. *)
Record SDK (S : Type) := mkSDK {
  sdk_resource : list (bytes * bytes) -> M S Z;
  sdk_provider : Z -> float64 -> option Z -> M S Z;
  sdk_flush : Z -> option context -> M S unit;
  sdk_shutdown : Z -> option context -> M S unit;
}.
Arguments sdk_resource {S} _ _.
Arguments sdk_provider {S} _ _ _ _.
Arguments sdk_flush {S} _ _ _.
Arguments sdk_shutdown {S} _ _ _.

(** [tp_shutdown] is the once and the error it keeps: [None] before the first call. *)
Record Provider := mkProvider {
  tp_provider : option Z;
  tp_resource : option Z;
  tp_exporterEnabled : bool;
  tp_shutdown : option (result unit);
}.

Section Provider.
Context {U : Unicode} (float_text : float64 -> bytes) {S : Type} (sdk : SDK S).

(** [exporterFactory]: a nil exporter is [None]. *)
Definition exporterFactory : Type := option context -> bytes -> M S (option Z).

(** A failing call, its error wrapped. *)
Definition wrapping {A} (pre : bytes) (m : M S A) : M S A :=
  outcome <-- attempt m;;
  match outcome with Ok a => ret a | Err err => fail (Wrapf pre err []) end.

Definition newProvider (ctx : option context) (cfg : Config) (makeExporter : option exporterFactory) : M S Provider :=
  match ctx with
  | None => fail ErrNilContext
  | Some _ =>
    normalized <-- of_result (normalizeConfig float_text cfg);;
    let attrs := [(&"service.name", serviceName normalized)]
      ++ (if bool_decide (environment normalized = []) then []
          else [(&"deployment.environment.name", environment normalized)]) in
    res <-- wrapping &"telemetry: build resource: " (sdk_resource sdk attrs);;
    let enabled := negb (bool_decide (endpointURL normalized = [])) in
    batcher <--
      (if enabled then
         match makeExporter with
         | None => fail (Opaque &"telemetry: exporter factory must not be nil")
         | Some make =>
           exporter <-- wrapping &"telemetry: create OTLP/HTTP exporter: " (make ctx (endpointURL normalized));;
           match exporter with
           | None => fail (Opaque &"telemetry: exporter factory returned a nil exporter")
           | Some e => ret (Some e)
           end
         end
       else ret None);;
    provider <-- sdk_provider sdk res (sampleRatio normalized) batcher;;
    ret (mkProvider (Some provider) (Some res) enabled None)
  end.

(** [otlp] is [otlptracehttp.New] with an endpoint URL. *)
Definition newOTLPHTTPExporter (otlp : bytes -> M S (option Z)) : exporterFactory := fun _ url => otlp url.

Definition New (otlp : bytes -> M S (option Z)) (ctx : option context) (cfg : Config) : M S Provider :=
  newProvider ctx cfg (Some (newOTLPHTTPExporter otlp)).
Definition NewProvider := New.

(** A tracer comes from the provider; [None] is a no-op tracer. *)
Definition Tracer (p : option Provider) (name : bytes) : option (Z * bytes) :=
  provider ← (p ← p; tp_provider p); Some (provider, name).

Definition TracerProvider (p : option Provider) : option Z := p ← p; tp_provider p.
Definition Resource (p : option Provider) : option Z := p ← p; tp_resource p.
Definition ExporterEnabled (p : option Provider) : bool :=
  match p with Some p => tp_exporterEnabled p | None => false end.

Definition ForceFlush (p : option Provider) (ctx : option context) : M S unit :=
  match ctx with
  | None => fail ErrNilContext
  | Some _ =>
    match (p ← p; tp_provider p) with
    | None => ret tt
    | Some provider => sdk_flush sdk provider ctx
    end
  end.

Definition set_shutdown (p : Provider) (r : result unit) : Provider :=
  mkProvider (tp_provider p) (tp_resource p) (tp_exporterEnabled p) (Some r).

(** The provider after the call and what the call returns. *)
Definition Shutdown (p : option Provider) (ctx : option context) : M S (option Provider * result unit) :=
  match p with
  | None => ret (p, Ok tt)
  | Some q =>
    match tp_provider q, ctx with
    | None, _ => ret (p, Ok tt)
    | Some _, None => ret (p, Err ErrNilContext)
    | Some provider, Some _ =>
      match tp_shutdown q with
      | Some kept => ret (p, kept)
      | None =>
        outcome <-- attempt (sdk_shutdown sdk provider ctx);;
        ret (Some (set_shutdown q outcome), outcome)
      end
    end
  end.
End Provider.
