(* ===== verification/TelemetryFacts.v ===== *)
(** * Tracing: facts

    The exporter URL and the insecure flag, agreement with the checks of the
    application's configuration, and the life cycle of a provider. *)
From S2P Require Import Prelude GoText GoFloat GoUnicode GoUrl GoNet GoParseUrl Errors World.
From S2P Require Config ConfigFacts.
From S2P Require Import Telemetry.

(** ** Trimming *)

Lemma trimmed_runes s : exists j k, runes (TrimSpace s) = take j (drop k (runes s)).
Proof. rewrite runes_TrimSpace. apply trim_both_sub. Qed.

Lemma has_rune_trim f s : has_rune f s = false -> has_rune f (TrimSpace s) = false.
Proof.
  destruct (trimmed_runes s) as (j & k & E). unfold has_rune. rewrite E. intros H.
  apply not_true_is_false. rewrite existsb_exists. intros (x & Hx & Hf).
  assert (existsb (fun rc => f rc.1) (runes s) = true) as Ht; [|by rewrite H in Ht].
  apply existsb_exists. exists x. split; [|done]. apply list_elem_of_In. apply list_elem_of_In in Hx.
  eapply (subseteq_drop k), (subseteq_take j), Hx.
Qed.

Lemma length_TrimSpace s : (length (TrimSpace s) <= length s)%nat.
Proof.
  unfold TrimSpace. destruct (trim_both_sub space_rune (runes s)) as (j & k & ->).
  rewrite <- (unrunes_runes s) at 2. rewrite <- (take_drop k (runes s)) at 2. rewrite unrunes_app, length_app.
  rewrite <- (take_drop j (drop k (runes s))) at 2. rewrite unrunes_app, length_app. lia.
Qed.

Lemma clean_trim s : ConfigFacts.clean s -> ConfigFacts.clean (TrimSpace s).
Proof. intros [Hv Hc]. split; [by apply ValidString_trim|by apply has_rune_trim]. Qed.

Section Facts.
Context {U : Unicode} (float_text : float64 -> bytes).

(** ** The exporter URL *)

Definition scheme_prefix (insecure : bool) : bytes := if insecure then &"http://" else &"https://".

Lemma parse_endpoint_scheme raw insecure u :
  parse_endpoint raw insecure = Ok u -> u_scheme u = if insecure then &"http" else &"https".
Proof.
  unfold parse_endpoint. destruct (contains raw &"://").
  - destruct (Parse raw) as [v|]; [|done]. case_match eqn:Es; [done|].
    destruct (Bool.eqb _ insecure) eqn:Ei; [|done]. intros [= <-]. cbn [u_scheme set_scheme].
    apply eqb_prop in Ei as <-. case_bool_decide; [done|]. cbn [negb andb] in Es. by bool_simpl.
  - destruct (Parse (&"https://" ++ raw)) as [v|] eqn:Ev; [|done]. intros [= <-].
    destruct insecure; [done|]. by eapply Parse_https.
Qed.

Lemma hierarchical_String_prefix u : exists rest, hierarchical_String u = u_scheme u ++ &"://" ++ rest.
Proof. unfold hierarchical_String. eauto. Qed.

Lemma set_path_scheme (b : bool) u p : u_scheme (if b then set_path u p else u) = u_scheme u.
Proof. by destruct b. Qed.

Lemma normalizeEndpoint_scheme raw insecure url :
  normalizeEndpoint raw insecure = Ok url -> url = [] \/ has_prefix url (scheme_prefix insecure) = true.
Proof.
  unfold normalizeEndpoint. case_match; [done|]. case_match; [intros [= <-]; by left|]. case_match; [done|].
  intros (u & Hu & Hr)%rbind_Ok. right. apply parse_endpoint_scheme in Hu. revert Hr.
  destruct (bad_endpoint u); [done|]. destruct (_ && bad_port _); [done|].
  destruct (has_prefix _ &"/"); [|done]. intros [= <-].
  match goal with |- context [hierarchical_String ?v] => destruct (hierarchical_String_prefix v) as [rest ->] end.
  rewrite set_path_scheme, Hu, app_assoc. destruct insecure; [exact (has_prefix_app &"http://" rest)|exact (has_prefix_app &"https://" rest)].
Qed.

(** ** Agreement with the application's configuration *)

Lemma set_scheme_parts (b : bool) u scheme :
  let v := if b then set_scheme u scheme else u in
  bad_endpoint v = Config.bad_endpoint u /\ u_port v = u_port u /\ u_path v = u_path u /\ u_host v = u_host u.
Proof. by destruct b. Qed.

Lemma good_port u :
  Config.bad_port u = false -> negb (bool_decide (u_port u = [])) && bad_port (u_port u) = false.
Proof.
  unfold Config.bad_port, Config.port_number, bad_port. case_bool_decide; [done|]. cbn [negb andb].
  intros Hp. apply negb_false_iff in Hp. destruct (Atoi (u_port u)); [|done]. by apply negb_true_iff in Hp.
Qed.

Lemma default_path raw u (b : bool) (v : url) :
  Parse raw = Some u -> Config.bad_endpoint u = false -> u_path v = u_path u ->
  has_prefix (u_path (if bool_decide (u_path v = []) || bool_decide (u_path v = &"/")
                      then set_path v defaultTracePath else v)) &"/" = true.
Proof.
  intros Hp Hb Hv. assert (u_host u <> []) as Hh.
  { intros E. unfold Config.bad_endpoint in Hb. by rewrite bool_decide_true in Hb. }
  destruct (_ || _) eqn:E; [by vm_compute|]. rewrite Hv. bool_simpl.
  destruct (Parse_path _ _ Hp Hh) as [H'|H']; [congruence|done].
Qed.

(** An endpoint that [config] accepts has a URL here: the two packages make the same
    checks on it. *)
Lemma accepted_endpoint raw insecure :
  Config.validateOTLPEndpoint raw insecure = Ok tt -> Config.len raw <= Config.maxOTLPEndpointBytes ->
  exists url, normalizeEndpoint raw insecure = Ok url.
Proof.
  unfold Config.validateOTLPEndpoint, normalizeEndpoint, Config.failure, failure, too_long. intros Hv Hl.
  pose proof (length_TrimSpace raw).
  rewrite (proj2 (Z.ltb_ge _ _)) by (unfold Config.len, Config.maxOTLPEndpointBytes, maxEndpointBytes in *; lia).
  revert Hv. cbv zeta. set (r := TrimSpace raw). destruct (bool_decide (r = [])); [eauto|].
  destruct (has_rune is_space r); [done|]. unfold parse_endpoint, failure.
  set (text := if contains r &"://" then r else _). destruct (Parse text) as [u|] eqn:Eu; [|done].
  destruct (negb _ && negb _) eqn:Es; [done|].
  destruct (Config.bad_endpoint u) eqn:Eb; [done|]. destruct (Config.bad_port u) eqn:Ep; [done|].
  destruct (_ && negb (Bool.eqb _ insecure)) eqn:Ei; [done|]. intros _.
  assert (exists b scheme, (if contains r &"://" then
      match Parse r with
      | None => Err (errorf &"telemetry: invalid OTLP endpoint" [])
      | Some endpoint =>
        if negb (bool_decide (ToLower (u_scheme endpoint) = &"http")) && negb (bool_decide (ToLower (u_scheme endpoint) = &"https"))
        then Err (errorf &"telemetry: OTLP endpoint scheme must be http or https (got %q)" [u_scheme endpoint])
        else if negb (Bool.eqb (bool_decide (ToLower (u_scheme endpoint) = &"http")) insecure)
             then Err (errorf &"telemetry: endpoint scheme and insecure flag disagree" [])
             else Ok (set_scheme endpoint (ToLower (u_scheme endpoint)))
      end
    else match Parse (&"https://" ++ r) with
         | None => Err (errorf &"telemetry: invalid OTLP endpoint" [])
         | Some endpoint => Ok (if insecure then set_scheme endpoint &"http" else endpoint)
         end) = Ok (if b : bool then set_scheme u scheme else u)) as (b & scheme & ->).
  { subst text. destruct (contains r &"://"); rewrite Eu.
    - cbn [andb] in Ei. rewrite Es, Ei. by exists true, (ToLower (u_scheme u)).
    - by exists insecure, &"http". }
  cbn [rbind]. destruct (set_scheme_parts b u scheme) as (-> & Hport & Hpath & _). rewrite Eb, Hport, good_port by done.
  rewrite (default_path text u b) by done. eauto.
Qed.

(** ** Configurations *)

Lemma validateText_clean label value : ConfigFacts.clean value -> validateText label value = Ok tt.
Proof. intros [Hv Hc]. unfold validateText. by rewrite Hv, Hc. Qed.

(** What is needed for a configuration to be accepted. *)
Lemma normalizeConfig_accepts c url :
  ConfigFacts.clean (ServiceName c) -> Z.of_nat (length (ServiceName c)) <= maxServiceNameBytes ->
  ConfigFacts.clean (Environment c) -> Z.of_nat (length (TrimSpace (Environment c))) <= maxEnvironmentBytes ->
  Config.bad_ratio (SampleRatio c) = false -> normalizeEndpoint (Endpoint c) (Insecure c) = Ok url ->
  exists name, normalizeConfig float_text c = Ok (mkNormalized name (TrimSpace (Environment c)) (SampleRatio c) url).
Proof.
  intros Hs Hsl He Hel Hr Hu. unfold normalizeConfig, too_long.
  set (name := if bool_decide (TrimSpace (ServiceName c) = []) then DefaultServiceName else TrimSpace (ServiceName c)).
  assert (ConfigFacts.clean name /\ Z.of_nat (length name) <= maxServiceNameBytes) as [Hn Hnl].
  { unfold name. case_bool_decide; [by vm_compute|]. split; [by apply clean_trim|].
    pose proof (length_TrimSpace (ServiceName c)). lia. }
  rewrite validateText_clean by done. cbn [rbind]. rewrite (proj2 (Z.ltb_ge _ _)) by done.
  rewrite validateText_clean by (by apply clean_trim). cbn [rbind]. rewrite (proj2 (Z.ltb_ge _ _)) by done.
  unfold Config.bad_ratio in Hr. rewrite Hr, Hu. cbn [rbind]. eauto.
Qed.

(** An environment that is too long is refused, whatever the rest. *)
Lemma long_environment_refused c :
  maxEnvironmentBytes < Z.of_nat (length (TrimSpace (Environment c))) -> is_ok (normalizeConfig float_text c) = false.
Proof.
  intros Hl. unfold normalizeConfig. destruct (validateText &"service name" _); [|done]. cbn [rbind].
  destruct (too_long _ maxServiceNameBytes); [done|]. destruct (validateText &"environment" _); [|done]. cbn [rbind].
  unfold too_long. by rewrite (proj2 (Z.ltb_lt _ _) Hl).
Qed.
End Facts.

(** ** Shutting down *)

Section Lifecycle.
Context {S : Type} (sdk : SDK S).

(** A sequence of calls on one provider: their results. *)
Fixpoint shutdown_all (p : option Provider) (ctxs : list (option context)) : M S (list (result unit)) :=
  match ctxs with
  | [] => ret []
  | ctx :: rest =>
    call <-- Shutdown sdk p ctx;;
    results <-- shutdown_all call.1 rest;;
    ret (call.2 :: results)
  end.

Lemma shutdown_all_kept q provider kept ctxs w :
  tp_provider q = Some provider -> tp_shutdown q = Some kept -> Forall is_Some ctxs ->
  shutdown_all (Some q) ctxs w = (Ok (replicate (length ctxs) kept), w).
Proof.
  intros Hp Hk. induction 1 as [|ctx rest [c ->] Hr IH]; [done|].
  cbn [shutdown_all length replicate]. unfold bind at 1, Shutdown. rewrite Hp, Hk. unfold ret at 1. cbn [fst snd].
  unfold bind. by rewrite IH.
Qed.

(** However often a provider is shut down, the SDK shuts down once, with the context
    of the first call, and every call returns what that one returned; a call without a
    context is refused and shuts nothing down. *)
Theorem Shutdown_once q provider c ctxs w :
  tp_provider q = Some provider -> tp_shutdown q = None -> Forall is_Some ctxs ->
  Shutdown sdk (Some q) None w = (Ok (Some q, Err ErrNilContext), w)
  /\ shutdown_all (Some q) (Some c :: ctxs) w
    = (Ok (replicate (Datatypes.S (length ctxs)) (sdk_shutdown sdk provider (Some c) w).1),
       (sdk_shutdown sdk provider (Some c) w).2).
Proof.
  intros Hp Hn Hc. split; [unfold Shutdown; by rewrite Hp|].
  cbn [shutdown_all]. unfold bind at 1, Shutdown. rewrite Hp, Hn. unfold attempt, bind at 1.
  destruct (sdk_shutdown sdk provider (Some c) w) as [r w']. cbn [fst snd]. unfold ret at 1.
  unfold bind. by rewrite (shutdown_all_kept (set_shutdown q r) provider r).
Qed.
End Lifecycle.

(** A provider whose SDK counts its shutdowns in the store, the first of which fails. *)
Definition counting_sdk : SDK nat :=
  mkSDK nat (fun _ => ret 0) (fun _ _ _ => ret 0) (fun _ _ => ret tt)
    (fun _ _ => n <-- World.load;; save (Datatypes.S n);;; of_result (match n with O => Err (Opaque &"down") | _ => Ok tt end)).

Lemma Shutdown_once_witness :
  shutdown_all counting_sdk (Some (mkProvider (Some 7) None false None)) [Some background; Some background; Some background] (World 0 0%nat)
  = (Ok [Err (Opaque &"down"); Err (Opaque &"down"); Err (Opaque &"down")], World 0 1%nat).
Proof.
  destruct (Shutdown_once counting_sdk (mkProvider (Some 7) None false None) 7 background [Some background; Some background]
    (World 0 0%nat)) as [_ ->]; [reflexivity|reflexivity|repeat constructor; eauto|]. vm_compute. reflexivity.
Defined.
