(* ===== verification/Metrics.v ===== *)
(** * HTTP metrics (pkg/metrics/metrics.go)

    The labels of the series and what is recorded under them. The collectors are
    Prometheus': recording is an event that names the collector, the labels and the
    value. *)
From S2P Require Import Prelude GoText GoUnicode GoFloat World.

Definition UnknownRoute : bytes := &"unmatched".
Definition maxRouteBytes : Z := 128.

Definition supportedMethods : list bytes :=
  [&"CONNECT"; &"DELETE"; &"GET"; &"HEAD"; &"OPTIONS"; &"PATCH"; &"POST"; &"PUT"; &"TRACE"].

(** ** Labels *)

Definition validPlaceholder (value : bytes) : bool :=
  if bool_decide (value = []) then false else forallb (fun b => is_alnum b || in_set &"_-" b) value.

Definition validLiteral (value : bytes) : bool :=
  forallb (fun b => is_alnum b || in_set &"._~-" b) value && negb (bool_decide (value = [])).

Definition isHexDigit (character : Z) : bool :=
  ((97 <=? character) && (character <=? 102)) || ((65 <=? character) && (character <=? 70))
  || ((48 <=? character) && (character <=? 57)).

Definition hyphen_at (value : bytes) (i : nat) : bool := bool_decide (value !! i = Some (zb 45)).

(** All digits, or the shape of a UUID. *)
Definition looksLikeRawSegment (value : bytes) : bool :=
  if forallb is_digit value then true
  else if negb (Nat.eqb (length value) 36) || negb (hyphen_at value 8) || negb (hyphen_at value 13)
          || negb (hyphen_at value 18) || negb (hyphen_at value 23) then false
  else forallb (fun rc => (rc.1 =? 45) || isHexDigit rc.1) (runes value).

(** One segment of a route in its canonical form; [None] for a raw one. *)
Definition normalize_segment (segment : bytes) : option bytes :=
  if bool_decide (segment = []) then None
  else if bool_decide (segment = &".") || bool_decide (segment = &"..") then None
  else if has_prefix segment &":" || has_prefix segment &"*" then
    if negb (validPlaceholder (drop 1 segment)) then None else Some segment
  else if has_prefix segment &"{" && has_suffix segment &"}" then
    let name := take (length segment - 2) (drop 1 segment) in
    if negb (validPlaceholder name) then None else Some (&":" ++ name)
  else if negb (validLiteral segment) || looksLikeRawSegment segment then None
  else Some segment.

Definition NormalizeRoute (route : bytes) : bytes :=
  let route := TrimSpace route in
  if bool_decide (route = []) || bool_decide (route = UnknownRoute) then UnknownRoute
  else if (maxRouteBytes <? Z.of_nat (length route)) || negb (ValidString route) || negb (has_prefix route &"/")
  then UnknownRoute
  else if existsb (in_set [zb 63; zb 35; zb 13; zb 10; zb 9]) route || contains route &"//" then UnknownRoute
  else if bool_decide (route = &"/") then route
  else
    let route := if has_suffix route &"/" then trim_right_byte (zb 47) route else route in
    match mapM normalize_segment (split_byte (zb 47) (drop 1 route)) with
    | Some segments => &"/" ++ join_bytes &"/" segments
    | None => UnknownRoute
    end.

Section Methods.
Context {U : Unicode}.

Definition normalizeMethod (method : bytes) : bytes :=
  let method := ToUpper (TrimSpace method) in
  if bool_decide (method ∈ supportedMethods) then method else &"OTHER".
End Methods.

(** The class and the code. *)
Definition normalizeStatus (statusCode : Z) : bytes * bytes :=
  if (statusCode <? 100) || (599 <? statusCode) then (&"unknown", &"unknown")
  else (Itoa (Z.quot statusCode 100) ++ &"xx", Itoa statusCode).

(** ** Recording *)

Inductive metric_event :=
  | RequestsInc (labels : list bytes)
  | DurationObserve (labels : list bytes) (seconds : float64)
  | InFlightInc (labels : list bytes)
  | InFlightDec (labels : list bytes).

(** Which of the fields of a [Metrics] are set: all of them in one made by [New]. *)
Record Metrics := mkMetrics { mx_registry : bool; mx_requests : bool; mx_durations : bool; mx_inFlight : bool }.
Definition New : Metrics := mkMetrics true true true true.

(** [Registry] gives one, and [Handler] exposes it; otherwise it answers 404. *)
Definition Registry (m : option Metrics) : bool := match m with Some m => mx_registry m | None => false end.
Definition Handler (m : option Metrics) : option unit := if Registry m then Some tt else None.

Section Recording.
Context {U : Unicode}.

(** The function that [Track] returns: the series to decrement, if any, and whether its
    once is done. *)
Record completion := mkCompletion { cp_labels : option (list bytes); cp_done : bool }.

Definition record (e : metric_event) : M (list metric_event) unit :=
  events <-- load;; save (events ++ [e]).

Definition Track (m : option Metrics) (method route : bytes) : M (list metric_event) completion :=
  match m with
  | None => ret (mkCompletion None false)
  | Some m =>
    if negb (mx_inFlight m) then ret (mkCompletion None false)
    else
      let labels := [normalizeMethod method; NormalizeRoute route] in
      record (InFlightInc labels);;;
      ret (mkCompletion (Some labels) false)
  end.

(** A call of that function. *)
Definition complete (c : completion) : M (list metric_event) completion :=
  match cp_labels c with
  | None => ret c
  | Some labels =>
    if cp_done c then ret c
    else record (InFlightDec labels);;; ret (mkCompletion (Some labels) true)
  end.

Definition Observe (m : option Metrics) (method route : bytes) (statusCode duration : Z) : M (list metric_event) unit :=
  match m with
  | None => ret tt
  | Some m =>
    if negb (mx_requests m) || negb (mx_durations m) then ret tt
    else
      let '(statusClass, status) := normalizeStatus statusCode in
      let duration := if duration <? 0 then 0 else duration in
      let labels := [normalizeMethod method; NormalizeRoute route; statusClass; status] in
      record (RequestsInc labels);;;
      record (DurationObserve labels (Seconds duration))
  end.
End Recording.

(** ** Examples *)

Example routes :
  NormalizeRoute &"/api/v1/items/:id" = &"/api/v1/items/:id" /\ NormalizeRoute &"/api/v1/items/{id}/" = &"/api/v1/items/:id"
  /\ NormalizeRoute &"/api/v1/items/42" = UnknownRoute /\ NormalizeRoute &"/a?b" = UnknownRoute /\ NormalizeRoute &" / " = &"/"
  /\ NormalizeRoute &"/items/123e4567-e89b-42d3-a456-426614174000" = UnknownRoute /\ NormalizeRoute &"//" = UnknownRoute
  /\ NormalizeRoute &"/files/*path" = &"/files/*path" /\ NormalizeRoute &"/a/../b" = UnknownRoute /\ NormalizeRoute &"" = UnknownRoute.
Proof. vm_compute. repeat split. Qed.
