(* ===== verification/MetricsFacts.v ===== *)
(** * HTTP metrics: facts

    The vocabulary of the labels is bounded, canonical routes are fixed, and the
    in-flight series balance. *)
From S2P Require Import Prelude GoText GoUnicode GoUrl GoFloat Errors World Trace Idempotency Metrics.

Definition slash : byte := zb 47.

(** ** Segments *)

(** The characters of a canonical route between its slashes. *)
Definition route_char (b : byte) : bool := is_alnum b || in_set &"._~-:*" b.

(** A number, or a text with the hyphens and the digits of a UUID. *)
Definition raw_segment (s : bytes) : Prop :=
  Forall (fun b => b ∈ &"0123456789") s
  \/ length s = 36%nat /\ Forall (fun i => s !! i = Some (zb 45)) [8; 13; 18; 23]%nat
     /\ Forall (fun b => b ∈ &"0123456789abcdefABCDEF-") s.

(** A placeholder, whose name comes after its mark; or a literal. *)
Definition canonical_segment (s : bytes) : Prop :=
  (exists mark name, mark ∈ &":*" /\ s = mark :: name /\ name <> [] /\ Forall (fun b => is_alnum b = true \/ b ∈ &"_-") name)
  \/ (s <> [] /\ Forall (fun b => is_alnum b = true \/ b ∈ &"._~-") s /\ ~ raw_segment s /\ s <> &"." /\ s <> &"..").

(** The same, as the code tells them. *)
Definition code_segment (s : bytes) : Prop :=
  (exists mark name, (mark = zb 58 \/ mark = zb 42) /\ s = mark :: name /\ validPlaceholder name = true)
  \/ (validLiteral s = true /\ looksLikeRawSegment s = false /\ s <> &"." /\ s <> &"..").

Lemma in_set_elem set b : in_set set b = true <-> b ∈ set.
Proof. unfold in_set. apply bool_decide_eq_true. Qed.

Lemma forallb_Forall_iff {A} (f : A -> bool) (P : A -> Prop) l :
  (forall a, f a = true <-> P a) -> forallb f l = true <-> Forall P l.
Proof.
  intros H. induction l as [|a l IH]; cbn [forallb]; [by split|]. by rewrite andb_true_iff, Forall_cons, H, IH.
Qed.

Lemma alnum_or_elem set s :
  forallb (fun b => is_alnum b || in_set set b) s = true <-> Forall (fun b => is_alnum b = true \/ b ∈ set) s.
Proof. apply forallb_Forall_iff. intros b. by rewrite orb_true_iff, in_set_elem. Qed.

Lemma digits_elem s : forallb is_digit s = true <-> Forall (fun b => b ∈ &"0123456789") s.
Proof.
  apply forallb_Forall_iff. intros b. rewrite <- in_set_elem. revert b.
  apply (Forall_bytes_forall (fun b => is_digit b = true <-> in_set &"0123456789" b = true)). vm_compute. reflexivity.
Qed.

Lemma hexes_elem s :
  Forall (fun b => is_alnum b = true \/ b ∈ &"._~-") s ->
  forallb (fun rc : Z * bytes => (rc.1 =? 45) || isHexDigit rc.1) (runes s) = true <-> Forall (fun b => b ∈ &"0123456789abcdefABCDEF-") s.
Proof.
  intros Hs. rewrite runes_ascii.
  - set (f := fun rc : Z * bytes => (rc.1 =? 45) || isHexDigit rc.1).
    assert (forallb f ((fun b => (bz b, [b])) <$> s) = forallb (fun b => f (bz b, [b])) s) as ->
      by (clear; induction s as [|b s IH]; [done|]; cbn [fmap list_fmap forallb]; by rewrite IH).
    apply forallb_Forall_iff. intros b. subst f. cbn [fst]. rewrite <- in_set_elem. revert b.
    apply (Forall_bytes_forall (fun b => (bz b =? 45) || isHexDigit (bz b) = true <-> in_set &"0123456789abcdefABCDEF-" b = true)).
    vm_compute. reflexivity.
  - eapply Forall_impl; [exact Hs|]. intros b Hb.
    assert (is_alnum b || in_set &"._~-" b = true) as Hb' by (apply orb_true_iff; by rewrite in_set_elem). clear Hb. revert b Hb'.
    apply (Forall_bytes_forall (fun b => is_alnum b || in_set &"._~-" b = true -> bz b < 0x80)). vm_compute. reflexivity.
Qed.

(** The code looks for what a raw segment is. *)
Lemma raw_segment_code s :
  Forall (fun b => is_alnum b = true \/ b ∈ &"._~-") s -> looksLikeRawSegment s = true <-> raw_segment s.
Proof.
  intros Hs. unfold looksLikeRawSegment, raw_segment. rewrite <- digits_elem, <- hexes_elem by done.
  destruct (forallb is_digit s); [split; [by left|done]|]. rewrite !Forall_cons, Forall_nil. unfold hyphen_at.
  destruct (Nat.eqb_spec (length s) 36); cbn [negb orb]; [|split; [done|by intros [|[? _]]]].
  do 4 (case_bool_decide; cbn [negb orb]; [|split; [done|by intros [|(_ & (? & ? & ? & ? & _) & _)]]]).
  split; [intros ?; right; by split_and!|by intros [|(_ & _ & ?)]].
Qed.

Lemma canonical_segment_code s : canonical_segment s <-> code_segment s.
Proof.
  unfold canonical_segment, code_segment, validPlaceholder, validLiteral. split.
  - intros [(mark & name & Hm & -> & Hn & Hc)|(Hn & Hc & Hr & Hd)].
    + left. exists mark, name. rewrite bool_decide_false by done. split; [set_solver|]. split; [done|]. by apply alnum_or_elem.
    + right. rewrite bool_decide_false by done. split_and!; try apply Hd.
      * rewrite andb_true_r. by apply alnum_or_elem.
      * apply not_true_is_false. by rewrite raw_segment_code.
  - intros [(mark & name & Hm & -> & Hn)|(Hl & Hr & Hd)].
    + left. exists mark, name. case_bool_decide; [done|]. split; [|split_and!; [done..|by apply alnum_or_elem]].
      destruct Hm as [-> | ->]; [by left|by right; left].
    + right. apply andb_true_iff in Hl as [Hc%alnum_or_elem Hn]. split_and!; try apply Hd; [by bool_simpl|done|].
      intros Hraw%raw_segment_code; [congruence|done].
Qed.

Lemma route_char_facts b :
  route_char b = true -> bz b < 0x80 /\ is_space (bz b) = false /\ b <> slash
    /\ in_set [zb 63; zb 35; zb 13; zb 10; zb 9] b = false.
Proof.
  revert b. apply (Forall_bytes_forall (fun b => route_char b = true -> bz b < 0x80 /\ is_space (bz b) = false /\ b <> slash
    /\ in_set [zb 63; zb 35; zb 13; zb 10; zb 9] b = false)). vm_compute. reflexivity.
Qed.

Lemma forallb_weaken {A} (f g : A -> bool) l :
  (forall a, f a = true -> g a = true) -> forallb f l = true -> forallb g l = true.
Proof. rewrite !forallb_forall. eauto. Qed.

Lemma placeholder_chars name : validPlaceholder name = true -> name <> [] /\ forallb route_char name = true.
Proof.
  unfold validPlaceholder. case_bool_decide; [done|]. intros Hf. split; [done|]. revert Hf. apply forallb_weaken.
  apply (Forall_bytes_forall (fun b => is_alnum b || in_set &"_-" b = true -> route_char b = true)). vm_compute. reflexivity.
Qed.

Lemma literal_chars s : validLiteral s = true -> s <> [] /\ forallb route_char s = true.
Proof.
  unfold validLiteral. intros Hs. bool_simpl. split; [done|].
  match goal with H : forallb _ s = true |- _ => revert H end. apply forallb_weaken.
  apply (Forall_bytes_forall (fun b => is_alnum b || in_set &"._~-" b = true -> route_char b = true)). vm_compute. reflexivity.
Qed.

Lemma canonical_chars s : canonical_segment s -> s <> [] /\ forallb route_char s = true.
Proof.
  rewrite canonical_segment_code. intros [(mark & name & Hm & -> & [_ Hn]%placeholder_chars)|(Hl & _)]; [|by apply literal_chars].
  split; [done|]. cbn [forallb]. rewrite Hn, andb_true_r. by destruct Hm as [->| ->].
Qed.

Lemma has_prefix_one m b s : has_prefix (b :: s) [m] = bool_decide (m = b).
Proof. cbn [has_prefix]. destruct s; apply andb_true_r. Qed.

(** A literal starts with none of the marks. *)
Lemma literal_head s : validLiteral s = true -> has_prefix s &":" || has_prefix s &"*" = false /\ has_prefix s &"{" = false.
Proof.
  destruct s as [|b s]; [done|]. unfold validLiteral. cbn [forallb]. intros Hs.
  apply andb_true_iff in Hs as [[Hb _]%andb_true_iff _]. revert Hb.
  change (&":") with [zb 58]. change (&"*") with [zb 42]. change (&"{") with [zb 123]. rewrite !has_prefix_one. clear.
  revert b. apply (Forall_bytes_forall (fun b => is_alnum b || in_set &"._~-" b = true ->
    bool_decide (zb 58 = b) || bool_decide (zb 42 = b) = false /\ bool_decide (zb 123 = b) = false)).
  vm_compute. reflexivity.
Qed.

Lemma normalize_segment_canonical s t : normalize_segment s = Some t -> canonical_segment t /\ (length t <= length s)%nat.
Proof.
  rewrite canonical_segment_code.
  destruct s as [|b s]; [done|]. unfold normalize_segment. rewrite bool_decide_false by done.
  destruct (_ || bool_decide (b :: s = &"..")) eqn:Ed; [done|].
  change (&":") with [zb 58]. change (&"*") with [zb 42]. change (&"{") with [zb 123]. rewrite !has_prefix_one.
  change (drop 1 (b :: s)) with s. change (length (b :: s) - 2)%nat with (length s - 1)%nat.
  destruct (bool_decide (zb 58 = b) || bool_decide (zb 42 = b)) eqn:Em.
  { destruct (validPlaceholder s) eqn:Ev; [|done]. intros [= <-]. split; [|done]. left. exists b, s.
    split_and!; [|done|done]. apply orb_true_iff in Em as [E|E]; bool_simpl; auto. }
  destruct (bool_decide (zb 123 = b) && _) eqn:Eb.
  { destruct (validPlaceholder (take _ _)) eqn:Ev; [|done]. intros [= <-].
    split; [left; exists (zb 58); eexists; split_and!; [by left|reflexivity|exact Ev]|].
    change (length (zb 58 :: take (length s - 1) s) <= S (length s))%nat. simpl. rewrite length_take. lia. }
  destruct (validLiteral (b :: s)) eqn:El; [|done]. destruct (looksLikeRawSegment (b :: s)) eqn:Er; [done|]. cbn [negb orb].
  intros [= <-]. split; [|done]. right. bool_simpl. done.
Qed.

(** A canonical segment is kept. *)
Lemma canonical_segment_fixed s : canonical_segment s -> normalize_segment s = Some s.
Proof.
  intros Hc. pose proof (canonical_chars s Hc) as [Hne _]. unfold normalize_segment. rewrite bool_decide_false by done.
  apply canonical_segment_code in Hc. destruct Hc as [(mark & name & Hm & -> & Hn)|(Hl & Hr & H1 & H2)].
  - rewrite !bool_decide_false by (destruct Hm as [->| ->]; done). cbn [orb].
    change (&":") with [zb 58]. change (&"*") with [zb 42]. rewrite !has_prefix_one.
    change (drop 1 (mark :: name)) with name. rewrite Hn. by destruct Hm as [->| ->].
  - rewrite !bool_decide_false by done. destruct (literal_head s Hl) as [-> ->]. by rewrite Hl, Hr.
Qed.

(** ** Splitting and joining at slashes *)

(** The text of a path with the given segments. *)
Definition slashed (segments : list bytes) : bytes := concat ((fun s => slash :: s) <$> segments).

Lemma slashed_join s segments : slashed (s :: segments) = slash :: join_bytes &"/" (s :: segments).
Proof.
  revert s. induction segments as [|t rest IH]; intros s; [by cbn; rewrite app_nil_r|].
  change (slashed (s :: t :: rest)) with ((slash :: s) ++ slashed (t :: rest)). by rewrite IH.
Qed.

Lemma split_slashed s segments :
  Forall (fun s => slash ∉ s) (s :: segments) -> split_byte slash (join_bytes &"/" (s :: segments)) = s :: segments.
Proof.
  revert s. induction segments as [|t rest IH]; intros s [Hs Hr]%Forall_cons; [by apply split_byte_none|].
  change (join_bytes &"/" (s :: t :: rest)) with (s ++ slash :: join_bytes &"/" (t :: rest)).
  by rewrite split_byte_app, IH.
Qed.

Lemma split_join_length s : length (join_bytes &"/" (split_byte slash s)) = length s /\ split_byte slash s <> [].
Proof.
  induction s as [|b s [IHl IHn]]; [done|]. cbn [split_byte]. destruct (split_byte slash s) as [|t rest]; [done|].
  case_bool_decide.
  - split; [|done]. change (join_bytes &"/" ([] :: t :: rest)) with (slash :: join_bytes &"/" (t :: rest)).
    cbn [length]. by rewrite IHl.
  - split; [|done]. destruct rest; cbn [join_bytes] in *; simpl in *; by rewrite <- IHl.
Qed.

(** Segments that shrink make a path that shrinks. *)
Lemma join_shrinks old new :
  Forall2 (fun s t => (length t <= length s)%nat) old new ->
  (length (join_bytes &"/" new) <= length (join_bytes &"/" old))%nat.
Proof.
  induction 1 as [|s t old new Hl Hr IH]; [done|]. destruct Hr as [|s' t' old new Hl' Hr]; [done|].
  change (join_bytes &"/" (t :: t' :: new)) with (t ++ &"/" ++ join_bytes &"/" (t' :: new)).
  change (join_bytes &"/" (s :: s' :: old)) with (s ++ &"/" ++ join_bytes &"/" (s' :: old)).
  rewrite !length_app. lia.
Qed.

(** No two slashes meet when no segment is empty. *)
Lemma contains_double b s : contains (b :: s) &"//" = (bool_decide (slash = b) && has_prefix s &"/") || contains s &"//".
Proof. reflexivity. Qed.

Lemma contains_segment s t : slash ∉ s -> contains (s ++ t) &"//" = contains t &"//".
Proof.
  induction s as [|b s IH]; [done|]. intros Hn. cbn [app]. rewrite contains_double, bool_decide_false by set_solver.
  apply IH. set_solver.
Qed.

Lemma slashed_single segments :
  Forall (fun s => s <> [] /\ slash ∉ s) segments -> contains (slashed segments) &"//" = false.
Proof.
  induction 1 as [|s rest [Hne Hn] Hr IH]; [done|]. change (slashed (s :: rest)) with (slash :: s ++ slashed rest).
  rewrite contains_double, contains_segment, IH, orb_false_r by done. destruct s as [|b s]; [done|].
  change (&"/") with [slash]. cbn [app]. rewrite has_prefix_one, bool_decide_true by done.
  apply bool_decide_eq_false. set_solver.
Qed.

(** ** Canonical routes *)

(** What [NormalizeRoute] gives: the unknown route, the root, or canonical segments. *)
Definition canonical_route (n : bytes) : Prop :=
  n = UnknownRoute \/ n = &"/"
  \/ exists s segments, n = &"/" ++ join_bytes &"/" (s :: segments) /\ Forall canonical_segment (s :: segments)
       /\ Z.of_nat (length n) <= maxRouteBytes.

Lemma normalized_segments segments normal :
  mapM normalize_segment segments = Some normal ->
  Forall canonical_segment normal /\ Forall2 (fun s t => (length t <= length s)%nat) segments normal.
Proof.
  intros Hm%mapM_Some_1. split.
  - apply Forall_forall. intros t Ht. apply list_elem_of_lookup in Ht as [i Hi].
    destruct (Forall2_lookup_r _ _ _ _ _ Hm Hi) as (s & _ & Hs). by apply normalize_segment_canonical in Hs as [? _].
  - eapply Forall2_impl; [exact Hm|]. intros s t Hs. by apply normalize_segment_canonical in Hs as [_ ?].
Qed.

Lemma trim_right_length c s : (length (trim_right_byte c s) <= length s)%nat.
Proof.
  unfold trim_right_byte. rewrite length_rev. destruct (drop_while_drop (fun b => bool_decide (b = c)) (rev s)) as [k ->].
  rewrite length_drop, length_rev. lia.
Qed.

Lemma NormalizeRoute_shape route : canonical_route (NormalizeRoute route).
Proof.
  unfold NormalizeRoute. destruct (_ || _); [by left|]. destruct (maxRouteBytes <? _) eqn:El; [by left|]. cbn [orb].
  destruct (_ || _); [by left|]. destruct (_ || _); [by left|].
  destruct (bool_decide (TrimSpace route = &"/")) eqn:Er; [bool_simpl; right; by left|].
  change (zb 47) with slash. set (r := if has_suffix _ _ then _ else _).
  assert (length r <= length (TrimSpace route))%nat as Hr by (unfold r; destruct (has_suffix _ _); [apply trim_right_length|done]).
  destruct (mapM _ _) as [normal|] eqn:Em; [|by left].
  destruct (split_join_length (drop 1 r)) as [Hl Hne]. apply normalized_segments in Em as [Hc Hs].
  destruct normal as [|s segments]; [by apply Forall2_nil_inv_r in Hs|].
  right; right. exists s, segments. split_and!; [done|done|]. apply join_shrinks in Hs. rewrite Hl, length_drop in Hs.
  bool_simpl. change (Z.of_nat (S (length (join_bytes &"/" (s :: segments)))) <= maxRouteBytes).
  unfold maxRouteBytes in *. lia.
Qed.

(** A canonical path is ASCII, without spaces and without what a URL adds to a path. *)
Lemma slashed_chars segments :
  Forall canonical_segment segments -> forallb (fun b => route_char b || bool_decide (b = slash)) (slashed segments) = true.
Proof.
  induction 1 as [|s rest [_ Hs]%canonical_chars Hr IH]; [done|].
  change (slashed (s :: rest)) with ((slash :: s) ++ slashed rest). rewrite forallb_app, IH, andb_true_r. cbn [forallb].
  apply andb_true_iff. split; [done|]. revert Hs. apply forallb_weaken. by intros b ->.
Qed.

Lemma slashed_plain segments :
  Forall canonical_segment segments ->
  ascii (slashed segments) /\ Forall (fun b => is_space (bz b) = false) (slashed segments)
  /\ existsb (in_set [zb 63; zb 35; zb 13; zb 10; zb 9]) (slashed segments) = false.
Proof.
  intros Hc%slashed_chars. rewrite forallb_forall in Hc.
  assert (forall b, b ∈ slashed segments -> bz b < 0x80 /\ is_space (bz b) = false
    /\ in_set [zb 63; zb 35; zb 13; zb 10; zb 9] b = false) as Hb.
  { intros b Hin%list_elem_of_In%Hc. revert b Hin. apply (Forall_bytes_forall (fun b => route_char b || bool_decide (b = slash) = true ->
      bz b < 0x80 /\ is_space (bz b) = false /\ in_set [zb 63; zb 35; zb 13; zb 10; zb 9] b = false)). vm_compute. reflexivity. }
  split_and!; [apply Forall_forall; apply Hb|apply Forall_forall; apply Hb|].
  apply not_true_is_false. rewrite existsb_exists. intros (b & Hin%list_elem_of_In & He). by rewrite (proj2 (proj2 (Hb b Hin))) in He.
Qed.

Lemma slashed_trimmed segments : Forall canonical_segment segments -> TrimSpace (slashed segments) = slashed segments.
Proof.
  intros (Ha & Hs & _)%slashed_plain. apply TrimSpace_tight; [done|by destruct Hs|].
  apply Forall_rev in Hs. by destruct Hs.
Qed.

(** A canonical path does not end with a slash. *)
Lemma slashed_suffix s segments :
  Forall canonical_segment (s :: segments) -> has_suffix (slashed (s :: segments)) &"/" = false.
Proof.
  intros Hc. apply not_true_is_false. unfold has_suffix. intros Hp%has_prefix_inv.
  assert (forall s segments, Forall canonical_segment (s :: segments) ->
    exists p b, slashed (s :: segments) = p ++ [b] /\ b <> slash) as Hlast.
  { clear. intros s segments. revert s. induction segments as [|t rest IH]; intros s Hc.
    - apply Forall_cons in Hc as [[Hne Hch]%canonical_chars _]. destruct s as [|b s _] using rev_ind; [done|].
      exists (slash :: s), b. split; [cbn; by rewrite app_nil_r|]. rewrite forallb_app in Hch.
      apply andb_true_iff in Hch as [_ Hch]. cbn in Hch. rewrite andb_true_r in Hch. by apply route_char_facts.
    - apply Forall_cons in Hc as [_ Hc]. destruct (IH t Hc) as (p & b & E & Hb).
      exists ((slash :: s) ++ p), b. split; [|done]. change (slashed (s :: t :: rest)) with ((slash :: s) ++ slashed (t :: rest)).
      by rewrite E, app_assoc. }
  destruct (Hlast s segments Hc) as (p & b & E & Hb). rewrite E, rev_app_distr in Hp. by injection Hp.
Qed.

Lemma NormalizeRoute_fixed n : canonical_route n -> NormalizeRoute n = n.
Proof.
  intros [->|[->|(s & segments & -> & Hc & Hl)]]; [by vm_compute..|].
  change (&"/" ++ join_bytes &"/" (s :: segments)) with (slash :: join_bytes &"/" (s :: segments)) in *.
  rewrite <- slashed_join in *. unfold NormalizeRoute. rewrite slashed_trimmed by done.
  destruct (slashed_plain _ Hc) as (Ha & _ & He).
  assert (Forall (fun s => s <> [] /\ slash ∉ s) (s :: segments)) as Hs.
  { eapply Forall_impl; [exact Hc|]. intros t [Hne Hch]%canonical_chars. split; [done|]. intros Hin.
    rewrite forallb_forall in Hch. apply list_elem_of_In, Hch, route_char_facts in Hin. naive_solver. }
  rewrite (ValidString_ascii _ Ha), He, slashed_single by done.
  rewrite (proj2 (Z.ltb_ge _ _)) by done. rewrite slashed_suffix by done. rewrite slashed_join.
  rewrite bool_decide_false, bool_decide_false by done. cbn [orb negb].
  change (has_prefix (slash :: join_bytes &"/" (s :: segments)) &"/")
    with (has_prefix ([slash] ++ join_bytes &"/" (s :: segments)) [slash]). rewrite has_prefix_app. cbn [negb].
  rewrite bool_decide_false.
  2: { intros [= E]. apply Forall_cons in Hs as [[Hne _] _]. destruct s as [|b s]; [done|]. by destruct segments. }
  change (drop 1 (slash :: join_bytes &"/" (s :: segments))) with (join_bytes &"/" (s :: segments)).
  change (zb 47) with slash. rewrite split_slashed by (eapply Forall_impl; [exact Hs|]; by intros ? [_ ?]).
  assert (mapM normalize_segment (s :: segments) = Some (s :: segments)) as ->; [|done].
  apply mapM_Some. clear -Hc. induction Hc; constructor; [by apply canonical_segment_fixed|done].
Qed.

(** ** Recording *)

Definition method_labels : list bytes := &"OTHER" :: supportedMethods.
Definition status_labels : list (bytes * bytes) :=
  (&"unknown", &"unknown") :: ((fun n => (Itoa (n / 100) ++ &"xx", Itoa n)) <$> seqZ 100 500).

(** The labels of an event come from the vocabulary. *)
Definition bounded_event (e : metric_event) : Prop :=
  match e with
  | RequestsInc [m; r; c; s] | DurationObserve [m; r; c; s] _ =>
    m ∈ method_labels /\ canonical_route r /\ (c, s) ∈ status_labels
  | InFlightInc [m; r] | InFlightDec [m; r] => m ∈ method_labels /\ canonical_route r
  | _ => False
  end.

Lemma normalizeStatus_labels code : normalizeStatus code ∈ status_labels.
Proof.
  unfold normalizeStatus, status_labels. destruct (_ || _) eqn:E; [by left|]. right. bool_simpl.
  apply list_elem_of_fmap. exists code. rewrite Z.quot_div_nonneg by lia. split; [done|]. apply elem_of_seqZ. lia.
Qed.

Section Recording.
Context {U : Unicode}.

Lemma normalizeMethod_labels method : normalizeMethod method ∈ method_labels.
Proof. unfold normalizeMethod. case_bool_decide; [by right|by left]. Qed.

Lemma record_adds (P : metric_event -> Prop) e : P e -> Trace.adds P (record e).
Proof. intros H w. exists [e]. split; [done|]. by repeat constructor. Qed.

(** What a completion may still record. *)
Definition completion_ok (c : completion) : Prop :=
  forall labels, cp_labels c = Some labels -> bounded_event (InFlightDec labels).

Lemma complete_adds c : completion_ok c -> Trace.adds bounded_event (complete c).
Proof.
  intros Hc. unfold complete. destruct (cp_labels c) as [labels|] eqn:E; [|apply Trace.adds_ret].
  destruct (cp_done c); [apply Trace.adds_ret|]. apply Trace.adds_bind; [|intros; apply Trace.adds_ret].
  by apply record_adds, Hc.
Qed.

Lemma Track_adds m method route : Trace.adds bounded_event (Track m method route).
Proof.
  unfold Track. destruct m as [m|]; [|apply Trace.adds_ret]. destruct (mx_inFlight m); [|apply Trace.adds_ret]. cbn [negb].
  apply Trace.adds_bind; [|intros; apply Trace.adds_ret]. apply record_adds.
  split; [apply normalizeMethod_labels|apply NormalizeRoute_shape].
Qed.

Lemma Observe_adds m method route code duration : Trace.adds bounded_event (Observe m method route code duration).
Proof.
  unfold Observe. destruct m as [m|]; [|apply Trace.adds_ret]. destruct (_ || _); [apply Trace.adds_ret|].
  pose proof (normalizeStatus_labels code) as Hs. destruct (normalizeStatus code) as [class status].
  apply Trace.adds_bind; [|intros _]; apply record_adds;
    (split_and!; [apply normalizeMethod_labels|apply NormalizeRoute_shape|done]).
Qed.

(** [n] calls of the completion of a request. *)
Fixpoint complete_times (n : nat) (c : completion) : M (list metric_event) completion :=
  match n with O => ret c | S n => c <-- complete c;; complete_times n c end.

Lemma complete_times_done n c w : cp_done c = true -> complete_times n c w = (Ok c, w).
Proof.
  intros Hd. induction n as [|n IH]; [done|]. cbn [complete_times]. unfold bind, complete. rewrite Hd.
  destruct (cp_labels c); apply IH.
Qed.

Lemma complete_times_first n labels w :
  complete_times (S n) (mkCompletion (Some labels) false) w
  = (Ok (mkCompletion (Some labels) true), World (w_tick w) (w_store w ++ [InFlightDec labels])).
Proof.
  by apply (complete_times_done n (mkCompletion (Some labels) true) (World (w_tick w) (w_store w ++ [InFlightDec labels]))).
Qed.

(** C33: Routes have one canonical form: [NormalizeRoute] yields the unknown route, the
    root, or a path of at most 128 bytes whose segments are placeholders or literals
    that are neither numbers, identifiers nor dots, and it keeps every such route. *)
Theorem NormalizeRoute_canonical route :
  canonical_route (NormalizeRoute route) /\ (canonical_route route <-> NormalizeRoute route = route).
Proof.
  split; [apply NormalizeRoute_shape|]. split; [apply NormalizeRoute_fixed|].
  intros <-. apply NormalizeRoute_shape.
Qed.

(** C32: The series are bounded and balanced: whatever the method, route, status and
    duration of a request, every event that is recorded for it has its labels in a
    fixed vocabulary of ten methods, 501 statuses and canonical routes, and the
    in-flight series is incremented once and decremented once however often the
    completion is called. *)
Theorem Request_series method route final_route code duration n w :
  let run := (c <-- Track (Some New) method route;; Observe (Some New) method final_route code duration;;;
              complete_times (S n) c)%m in
  exists labels observed, w_store (snd (run w)) = w_store w ++ [InFlightInc labels] ++ observed ++ [InFlightDec labels]
    /\ Forall bounded_event ([InFlightInc labels] ++ observed ++ [InFlightDec labels])
    /\ Forall (fun e => match e with InFlightInc _ | InFlightDec _ => False | _ => True end) observed.
Proof.
  cbv zeta. unfold Track, New. cbn [mx_inFlight negb]. set (labels := [normalizeMethod method; NormalizeRoute route]).
  assert (bounded_event (InFlightInc labels) /\ bounded_event (InFlightDec labels)) as [Hi Hd].
  { split; (split; [apply normalizeMethod_labels|apply NormalizeRoute_shape]). }
  unfold Observe. cbn [mx_requests mx_durations negb orb].
  pose proof (normalizeStatus_labels code) as Hs. destruct (normalizeStatus code) as [class status].
  set (ls := [normalizeMethod method; NormalizeRoute final_route; class; status]).
  exists labels, [RequestsInc ls; DurationObserve ls (Seconds (if duration <? 0 then 0 else duration))].
  split_and!.
  - unfold record. unfold bind, load, save, ret. cbn [w_store w_tick fst snd].
    rewrite complete_times_first. cbn [w_store w_tick snd]. by rewrite <- !app_assoc.
  - assert (normalizeMethod method ∈ method_labels /\ canonical_route (NormalizeRoute final_route) /\ (class, status) ∈ status_labels)
      as Hl by (split_and!; [apply normalizeMethod_labels|apply NormalizeRoute_shape|done]).
    do 4 (apply Forall_cons; split; [done|]). constructor.
  - by repeat constructor.
Qed.
End Recording.
