(* ===== verification/Cursor.v ===== *)
(** * Signed cursors (internal/item/cursor.go)

    Cursor positions, the signed codec and its options. The codec hashes through
    [Hash256]; [time.Now] is the oracle [sysnow]. *)
From S2P Require Import Prelude GoText GoEncoding GoTime Sha256 Errors World Item.

(** ** Constants *)

Definition DefaultCursorTTL : Z := 24 * Hour.
Definition MaxCursorTTL : Z := 30 * 24 * Hour.
Definition MinCursorSigningKeyBytes : Z := 32.
Definition MaxCursorBytes : Z := 512.
Definition cursorVersion : byte := zb 1.
Definition cursorPrefix : bytes := &"v1_".
Definition cursorMACBytes : nat := 32.
Definition cursorTimeBytes : nat := 15.
Definition cursorPayloadBytes : nat := 1 + cursorTimeBytes + cursorTimeBytes + 16.
Definition cursorWireBytes : nat := cursorPayloadBytes + cursorMACBytes.
Definition cursorPurpose : bytes := &"item-list-cursor/v1".

Definition invalidCursor (reason : bytes) : error := CursorError reason.

(** ** Positions *)

Record CursorPosition := mkPosition { cp_created_at : time; cp_id : uuid }.
#[global] Instance CursorPosition_eq_dec : EqDecision CursorPosition.
Proof. solve_decision. Defined.

(** [CursorPosition.Validate]. *)
Definition Validate (position : CursorPosition) : result unit :=
  if bool_decide (cp_id position = uuid_nil) then Err (invalidCursor &"position id is required")
  else if IsZero (cp_created_at position) then Err (invalidCursor &"position time is required")
  else
    let canonical := Round0 (to_utc (cp_created_at position)) in
    let seconds := Unix canonical in
    let nanos := t_nsec canonical in
    if negb (Equal (to_utc (from_unix seconds nanos)) canonical)
    then Err (invalidCursor &"position time is out of range")
    else Ok tt.

Definition CursorPositionForItem (value : Item) : result CursorPosition :=
  let position := mkPosition (CreatedAt value) (ID value) in
  match Validate position with
  | Err err => Err (Joined [Sentinel ErrCursorState; err])
  | Ok _ => Ok position
  end.

Record CursorListParams := mkCursorListParams {
  clp_limit : Z;
  clp_after : option CursorPosition;
}.

Record CursorRequest := mkCursorRequest { cr_limit : Z; cr_cursor : bytes }.

Record CursorPage := mkCursorPage {
  cpg_items : list Item;
  cpg_limit : Z;
  cpg_has_more : bool;
  cpg_next_cursor : bytes;
}.

(** ** The codec *)

Section Codec.
Context {H : Hash256} (sysnow : nat -> time).

(** [None] in [cc_clock] is a nil clock. *)
Record SignedCursorCodec := mkCodec {
  cc_key : array 32;
  cc_ttl : Z;
  cc_clock : option (nat -> time);
  cc_purpose : bytes;
}.

(** [CursorCodecOption]: a nil option is skipped by the constructor. *)
Definition CursorCodecOption : Type := SignedCursorCodec -> SignedCursorCodec.

Definition WithCursorTTL (ttl : Z) : CursorCodecOption := fun codec =>
  mkCodec (cc_key codec) ttl (cc_clock codec) (cc_purpose codec).

Definition WithCursorClock (clock : option (nat -> time)) : CursorCodecOption := fun codec =>
  match clock with
  | None => mkCodec (cc_key codec) (cc_ttl codec) (Some sysnow) (cc_purpose codec)
  | Some _ => mkCodec (cc_key codec) (cc_ttl codec) clock (cc_purpose codec)
  end.

Definition WithCursorPurpose (purpose : bytes) : CursorCodecOption := fun codec =>
  mkCodec (cc_key codec) (cc_ttl codec) (cc_clock codec) purpose.

Definition invalid_codec (text : bytes) : error := Wrapf [] (Sentinel ErrInvalidCursor) text.

Definition validateCursorCodecConfig (codec : option SignedCursorCodec) : result unit :=
  match codec with
  | None => Err (invalid_codec &": nil codec")
  | Some codec =>
    if (cc_ttl codec <? 0) || (MaxCursorTTL <? cc_ttl codec) then
      Err (invalid_codec &": cursor TTL must be zero or at most 720h0m0s")
    else
      match cc_clock codec with
      | None => Err (invalid_codec &": nil cursor clock")
      | Some _ =>
        if bool_decide (cc_purpose codec = []) || (128 <? Z.of_nat (length (cc_purpose codec)))
           || negb (ValidString (cc_purpose codec)) || has_rune is_control (cc_purpose codec)
        then Err (invalid_codec &": invalid cursor purpose")
        else Ok tt
      end
  end.

Definition NewSignedCursorCodec (secret : bytes) (options : list (option CursorCodecOption))
  : result SignedCursorCodec :=
  if Z.of_nat (length secret) <? MinCursorSigningKeyBytes then
    Err (invalid_codec &": signing key must contain at least 32 bytes")
  else
    let codec := mkCodec (zero_array 32) DefaultCursorTTL (Some sysnow) cursorPurpose in
    let codec :=
      fold_left (fun codec option =>
        match option with None => codec | Some f => f codec end) options codec in
    match validateCursorCodecConfig (Some codec) with
    | Err err => Err err
    | Ok _ => Ok (mkCodec (Sum256 secret) (cc_ttl codec) (cc_clock codec) (cc_purpose codec))
    end.

Definition NewCursorCodec := NewSignedCursorCodec.

Definition currentTime {S} (codec : SignedCursorCodec) : M S time :=
  let clock := match cc_clock codec with None => sysnow | Some clock => clock end in
  t <-- observe clock;;
  ret (Round0 (to_utc t)).

Definition mac (codec : SignedCursorCodec) (payload : bytes) : bytes :=
  hmac (arr_bytes (cc_key codec)) (cc_purpose codec ++ [zb 0] ++ payload).

(** [putTime] returns the field it writes. *)
Definition putTime (value : time) : result bytes :=
  match MarshalBinary (Round0 (to_utc value)) with
  | None => Err (Opaque &"Time.MarshalBinary: unexpected zone offset")
  | Some encoded =>
    if negb (Nat.eqb (length encoded) cursorTimeBytes)
    then Err (Opaque &"unexpected cursor time encoding size")
    else Ok encoded
  end.

Definition readTime (source : bytes) : option time :=
  if negb (Nat.eqb (length source) cursorTimeBytes) then None
  else
    value ← UnmarshalBinary source;
    let canonical := Round0 (to_utc value) in
    match MarshalBinary canonical with
    | None => None
    | Some canonicalWire =>
      if negb (Nat.eqb (length canonicalWire) cursorTimeBytes)
         || negb (bool_decide (canonicalWire = source))
      then None else Some canonical
    end.

Definition readOptionalTime (source : bytes) : option time :=
  if negb (Nat.eqb (length source) cursorTimeBytes) then None
  else if bool_decide (source = replicate cursorTimeBytes (zb 0)) then Some zero_time
  else readTime source.

(** The fixed-width payload: version, position time, expiry or zeros, identifier. *)
Definition cursor_payload (created expires : bytes) (id : uuid) : bytes :=
  [cursorVersion] ++ created ++ expires ++ arr_bytes id.

Definition cursor_token (codec : SignedCursorCodec) (payload : bytes) : bytes :=
  cursorPrefix ++ b64_encode (payload ++ mac codec payload).

Definition unavailable (text : bytes) : error :=
  Joined [Sentinel ErrCursorUnavailable; Opaque text].

(** The expiry field: zeros when the codec does not expire its tokens. *)
Definition expiry_field (codec : SignedCursorCodec) (position : CursorPosition) (now : time)
  : result bytes :=
  if 0 <? cc_ttl codec then
    let expires := Add now (cc_ttl codec) in
    if negb (After expires now) then Err (unavailable &"cursor expiry overflow")
    else if negb (After expires (cp_created_at position)) then
      Err (Joined [Sentinel ErrCursorState; Opaque &"cursor expiry precedes position"])
    else match putTime expires with
         | Err err => Err (Joined [Sentinel ErrCursorUnavailable; err])
         | Ok field => Ok field
         end
  else Ok (replicate cursorTimeBytes (zb 0)).

Definition Encode {S} (codec : option SignedCursorCodec) (position : CursorPosition) : M S bytes :=
  match codec with
  | None => fail (Sentinel ErrCursorUnavailable)
  | Some codec =>
    of_result (Validate position);;;
    now <-- currentTime codec;;
    if IsZero now then fail (unavailable &"cursor clock returned zero time")
    else
      match putTime (cp_created_at position) with
      | Err err => fail (Joined [Sentinel ErrCursorState; err])
      | Ok created =>
        expires <-- of_result (expiry_field codec position now);;
        let token := cursor_token codec (cursor_payload created expires (cp_id position)) in
        if MaxCursorBytes <? Z.of_nat (length token)
        then fail (unavailable &"encoded cursor exceeds size bound")
        else ret token
      end
  end.

(** The checks of [Decode] that need no clock: the authenticated position and
    the expiry it carries (the zero time for none). *)
Definition open_token (codec : SignedCursorCodec) (token : bytes) : result (CursorPosition * time) :=
  if bool_decide (token = []) || (MaxCursorBytes <? Z.of_nat (length token))
     || negb (has_prefix token cursorPrefix)
  then Err (invalidCursor &"malformed token")
  else
    let encoded := drop (length cursorPrefix) token in
    if bool_decide (encoded = []) then Err (invalidCursor &"malformed token")
    else
      match b64_decode encoded with
      | None => Err (invalidCursor &"malformed token")
      | Some wire =>
        if negb (Nat.eqb (length wire) cursorWireBytes)
        then Err (invalidCursor &"malformed token")
        else if negb (bool_decide (b64_encode wire = encoded))
        then Err (invalidCursor &"non-canonical token")
        else
          let payload := take cursorPayloadBytes wire in
          let providedMAC := drop cursorPayloadBytes wire in
          if negb (bool_decide (providedMAC = mac codec payload))
          then Err (invalidCursor &"authentication failed")
          else if negb (bool_decide (nth 0 payload (zb 0) = cursorVersion))
          then Err (invalidCursor &"unsupported version")
          else
            match readTime (take cursorTimeBytes (drop 1 payload)) with
            | None => Err (invalidCursor &"invalid position time")
            | Some createdAt =>
              match readOptionalTime (take cursorTimeBytes (drop (1 + cursorTimeBytes) payload)) with
              | None => Err (invalidCursor &"invalid expiry time")
              | Some expiresAt =>
                let id := array_of 16 (drop (1 + 2 * cursorTimeBytes) payload) in
                let position := mkPosition createdAt id in
                match Validate position with
                | Err err => Err err
                | Ok _ => Ok (position, expiresAt)
                end
              end
            end
      end.

Definition Decode {S} (codec : option SignedCursorCodec) (token : bytes) : M S CursorPosition :=
  match codec with
  | None => fail (Sentinel ErrCursorUnavailable)
  | Some codec =>
    opened <-- of_result (open_token codec token);;
    let '(position, expiresAt) := opened in
    if negb (IsZero expiresAt) then
      now <-- currentTime codec;;
      if IsZero now then fail (unavailable &"cursor clock returned zero time")
      else if negb (Before now expiresAt) then fail (invalidCursor &"expired token")
      else ret position
    else ret position
  end.
End Codec.

(** ** Times on the wire *)

(** The 15 bytes of a UTC time. *)
Definition time_wire (t : time) : bytes :=
  zb 1 :: be_bytes 8 (t_sec t) ++ be_bytes 4 (t_nsec t) ++ be_bytes 2 (-1).

Lemma time_wire_length t : length (time_wire t) = 15%nat.
Proof. unfold time_wire. cbn [length]. by rewrite !length_app, !be_bytes_length. Qed.

Lemma MarshalBinary_wire t : t_loc t = UTC -> MarshalBinary t = Some (time_wire t).
Proof. apply MarshalBinary_utc. Qed.

Lemma putTime_wire t : putTime t = Ok (time_wire (to_utc t)).
Proof.
  unfold putTime. rewrite MarshalBinary_wire by done. rewrite time_wire_length. done.
Qed.

Lemma readTime_wire t : canonical_time t -> readTime (time_wire t) = Some t.
Proof.
  intros Hc. pose proof Hc as (_ & _ & Hl). unfold readTime.
  rewrite time_wire_length. cbn [Nat.eqb negb cursorTimeBytes].
  rewrite (Unmarshal_Marshal t _ Hc (MarshalBinary_wire t Hl)). cbn [mbind option_bind].
  unfold Round0. rewrite (to_utc_id t Hc). destruct Hc as (_ & Hm & _).
  assert (strip_mono t = t) as -> by (destruct t; simpl in *; by subst).
  rewrite MarshalBinary_wire by done. rewrite time_wire_length, bool_decide_true by done. done.
Qed.

(** A field that [readTime] accepts is the encoding of the time it returns. *)
Lemma readTime_inv source t :
  readTime source = Some t -> source = time_wire t /\ t_mono t = None /\ t_loc t = UTC.
Proof.
  unfold readTime. case_match; [done|].
  destruct (UnmarshalBinary source) as [v|]; [|done]. cbn [mbind option_bind].
  rewrite MarshalBinary_wire by done. case_match; [done|]. bool_simpl.
  intros [= <-]. done.
Qed.

Lemma readTime_range source t :
  readTime source = Some t -> int64_range (t_sec t) /\ 0 <= t_nsec t < 2 ^ 30.
Proof.
  intros Hr. pose proof (readTime_inv _ _ Hr) as (-> & _). revert Hr.
  unfold readTime. case_match; [done|].
  destruct (UnmarshalBinary (time_wire t)) as [v|] eqn:E; [|done]. cbn [mbind option_bind].
  pose proof (Unmarshal_nsec _ _ E) as Hn.
  rewrite MarshalBinary_wire by done. case_match; [done|].
  intros Ht. injection Ht as <-. cbn [t_sec t_nsec Round0 to_utc strip_mono] in *.
  unfold time_wire in E. cbn [t_sec t_nsec Round0 to_utc strip_mono] in E.
  rewrite Unmarshal_fields_small in E by done. split; [|done].
  apply Some_inj, (f_equal t_sec) in E. cbn [t_sec] in E. rewrite <- E. apply signed64_range.
Qed.

Lemma time_wire_not_zero t : time_wire t <> replicate 15 (zb 0).
Proof. discriminate. Qed.

Lemma readOptionalTime_wire t : canonical_time t -> readOptionalTime (time_wire t) = Some t.
Proof.
  intros Hc. unfold readOptionalTime. rewrite time_wire_length. cbn [Nat.eqb negb cursorTimeBytes].
  rewrite bool_decide_false by apply time_wire_not_zero. by apply readTime_wire.
Qed.

Lemma readOptionalTime_zero : readOptionalTime (replicate 15 (zb 0)) = Some zero_time.
Proof. reflexivity. Qed.

Lemma readOptionalTime_inv source t :
  readOptionalTime source = Some t ->
  (source = replicate 15 (zb 0) /\ t = zero_time) \/ (source = time_wire t /\ t_mono t = None /\ t_loc t = UTC).
Proof.
  unfold readOptionalTime. case_match; [done|]. case_match; bool_simpl.
  - intros [= <-]. by left.
  - intros E%readTime_inv. by right.
Qed.

(** ** Positions: lemmas *)

Lemma Round0_to_utc t : Round0 (to_utc t) = to_utc t.
Proof. done. Qed.

(** On a time whose nanosecond field is normal the range check never fires. *)
Lemma Validate_range_check t :
  int64_range (t_sec t) -> 0 <= t_nsec t < 2 ^ 30 ->
  Equal (to_utc (from_unix (Unix (to_utc t)) (t_nsec (to_utc t)))) (to_utc t)
  = (t_nsec t <? Second).
Proof.
  intros Hs Hn. change (t_nsec (to_utc t)) with (t_nsec t). unfold from_unix. rewrite (proj2 (Z.ltb_ge (t_nsec t) 0)) by lia. cbn [orb].
  destruct (Second <=? t_nsec t) eqn:E; bool_simpl;
    [rewrite (proj2 (Z.ltb_ge (t_nsec t) Second)) by lia
    |rewrite (proj2 (Z.ltb_lt (t_nsec t) Second)) by lia].
  - replace (Z.quot (t_nsec t) Second) with 1.
    2: { rewrite Z.quot_div_nonneg by (unfold Second in *; lia).
         unfold Second in *. apply (Z.div_unique _ _ _ (t_nsec t - 1000000000)); lia. }
    cbv zeta. rewrite (proj2 (Z.ltb_ge (t_nsec t - 1 * Second) 0)) by (unfold Second in *; lia).
    unfold Equal, both_mono, to_utc. cbn [t_mono t_sec t_nsec].
    rewrite (proj2 (Z.eqb_neq (t_nsec t - 1 * Second) (t_nsec t))) by (unfold Second; lia).
    by rewrite andb_false_r.
  - unfold Equal, both_mono, to_utc. cbn [t_mono t_sec t_nsec].
    rewrite Unix_roundtrip by done. by rewrite !Z.eqb_refl.
Qed.

Lemma Validate_Ok p :
  time_wf (cp_created_at p) ->
  Validate p = Ok tt <-> cp_id p <> uuid_nil /\ IsZero (cp_created_at p) = false.
Proof.
  intros [Hs Hn]. unfold Validate. rewrite Round0_to_utc. cbv zeta.
  rewrite Validate_range_check by (unfold Second in *; done || lia).
  rewrite (proj2 (Z.ltb_lt _ _)) by lia. cbn [negb].
  destruct (bool_decide (cp_id p = uuid_nil)) eqn:E; bool_simpl; [split; [done|by intros []]|].
  by destruct (IsZero (cp_created_at p)); split; try done; intros [].
Qed.

Lemma Validate_err p e : Validate p = Err e -> Is e ErrInvalidCursor = true.
Proof. unfold Validate. repeat case_match; by intros [= <-]. Qed.

(** An accepted position has a normal nanosecond field. *)
Lemma Validate_nsec p :
  int64_range (t_sec (cp_created_at p)) -> 0 <= t_nsec (cp_created_at p) < 2 ^ 30 ->
  Validate p = Ok tt -> t_nsec (cp_created_at p) < Second.
Proof.
  intros Hs Hn. unfold Validate. rewrite Round0_to_utc. cbv zeta.
  rewrite Validate_range_check by done. repeat case_match; try done. by bool_simpl.
Qed.
