(* ===== verification/CursorFacts.v ===== *)
(** * Facts about signed cursors

    The round trip of [Encode] and [Decode], the integrity and uniqueness of the
    accepted tokens, expiry, separation of purposes and the closed set of decoding
    errors. *)
From S2P Require Import Prelude GoText GoEncoding GoTime Sha256 Errors World Item Idempotency Cursor.

(** ** The layout of a token *)

Section Layout.
Context {H : Hash256} (sysnow : nat -> time).
Implicit Types (codec : SignedCursorCodec).

Lemma cursor_payload_length created expires id :
  length created = 15%nat -> length expires = 15%nat ->
  length (cursor_payload created expires id) = cursorPayloadBytes.
Proof.
  intros Hc He. unfold cursor_payload. rewrite !length_app, Hc, He, arr_length. done.
Qed.

Lemma cursor_payload_fields created expires id :
  length created = 15%nat -> length expires = 15%nat ->
  let payload := cursor_payload created expires id in
  nth 0 payload (zb 0) = cursorVersion
  /\ take cursorTimeBytes (drop 1 payload) = created
  /\ take cursorTimeBytes (drop (1 + cursorTimeBytes) payload) = expires
  /\ drop (1 + 2 * cursorTimeBytes) payload = arr_bytes id.
Proof.
  intros Hc He. unfold cursor_payload. cbn zeta. split; [done|].
  change (drop 1 ([cursorVersion] ++ ?x)) with x. cbn [app].
  change (drop (1 + cursorTimeBytes) (cursorVersion :: ?x)) with (drop cursorTimeBytes x).
  change (drop (1 + 2 * cursorTimeBytes) (cursorVersion :: ?x)) with (drop (2 * cursorTimeBytes) x).
  change (drop 1 (cursorVersion :: ?x)) with x.
  rewrite take_app_length' by (by rewrite Hc).
  rewrite drop_app_length' by (by rewrite Hc).
  rewrite take_app_length' by (by rewrite He).
  rewrite app_assoc, drop_app_length' by (by rewrite length_app, Hc, He).
  done.
Qed.

(** Cutting a payload into its fields. *)
Lemma cursor_payload_split payload :
  length payload = cursorPayloadBytes ->
  nth 0 payload (zb 0) = cursorVersion ->
  payload = cursor_payload (take cursorTimeBytes (drop 1 payload))
              (take cursorTimeBytes (drop (1 + cursorTimeBytes) payload))
              (array_of 16 (drop (1 + 2 * cursorTimeBytes) payload)).
Proof.
  intros Hl Hv. unfold cursor_payload.
  rewrite arr_bytes_array_of by (by rewrite length_drop, Hl).
  destruct payload as [|v rest]; [done|]. cbn [nth] in Hv. subst v. cbn [app].
  change (drop 1 (cursorVersion :: rest)) with rest.
  change (drop (1 + cursorTimeBytes) (cursorVersion :: rest)) with (drop cursorTimeBytes rest).
  change (drop (1 + 2 * cursorTimeBytes) (cursorVersion :: rest)) with (drop (cursorTimeBytes + cursorTimeBytes) rest).
  rewrite <- drop_drop, !take_drop. done.
Qed.

Lemma cursor_token_length codec payload :
  length payload = cursorPayloadBytes -> length (cursor_token codec payload) = 109%nat.
Proof.
  intros Hl. unfold cursor_token, mac.
  rewrite length_app, b64_encode_length, length_app, Hl, hmac_length. done.
Qed.

(** Opening a token made from well-formed fields. *)
Lemma open_token_fields codec created expires p e :
  length expires = 15%nat -> created = time_wire (cp_created_at p) ->
  canonical_time (cp_created_at p) ->
  readOptionalTime expires = Some e -> Validate p = Ok tt ->
  open_token codec (cursor_token codec (cursor_payload created expires (cp_id p))) = Ok (p, e).
Proof.
  intros He -> Hc Hr Hv.
  pose proof (time_wire_length (cp_created_at p)) as Hw.
  pose proof (cursor_payload_length _ _ (cp_id p) Hw He) as Hl.
  destruct (cursor_payload_fields _ _ (cp_id p) Hw He) as (F0 & F1 & F2 & F3).
  set (payload := cursor_payload _ _ _) in *.
  unfold open_token. rewrite cursor_token_length by done.
  unfold cursor_token. rewrite bool_decide_false by done.
  rewrite has_prefix_app. cbn [orb negb Z.of_nat]. rewrite drop_app_length.
  rewrite b64_decode_encode.
  rewrite bool_decide_false.
  2: { intros E. apply (f_equal length) in E. rewrite b64_encode_length, length_app, Hl in E.
       unfold mac in E. by rewrite hmac_length in E. }
  rewrite length_app, Hl. unfold mac at 1. rewrite hmac_length.
  change (negb (Nat.eqb (cursorPayloadBytes + 32) cursorWireBytes)) with false. cbv iota.
  rewrite bool_decide_true by done.
  rewrite take_app_length', drop_app_length' by done.
  rewrite bool_decide_true by done. rewrite F0, bool_decide_true by done. cbn [negb].
  rewrite F1, (readTime_wire _ Hc), F2, Hr, F3, array_of_arr_bytes.
  destruct p as [created id]. cbn [cp_created_at cp_id] in *. by rewrite Hv.
Qed.

(** What an opened token must look like. *)
Lemma open_token_inv codec token p e :
  open_token codec token = Ok (p, e) ->
  exists expires,
    token = cursor_token codec (cursor_payload (time_wire (cp_created_at p)) expires (cp_id p))
    /\ length expires = 15%nat
    /\ readOptionalTime expires = Some e
    /\ canonical_time (cp_created_at p)
    /\ Validate p = Ok tt.
Proof.
  unfold open_token. case_match eqn:E1; [done|]. case_match eqn:E2; [done|].
  destruct (b64_decode _) as [wire|] eqn:Eb; [|done].
  destruct (negb (Nat.eqb (length wire) cursorWireBytes)) eqn:El; [done|].
  destruct (negb (bool_decide (b64_encode wire = _))) eqn:Ec; [done|].
  destruct (negb (bool_decide (drop cursorPayloadBytes wire = _))) eqn:Em; [done|].
  destruct (negb (bool_decide (nth 0 _ _ = _))) eqn:Ev; [done|].
  destruct (readTime _) as [created|] eqn:Et; [|done].
  destruct (readOptionalTime _) as [expires|] eqn:Ee; [|done].
  destruct (Validate _) as [[]|] eqn:EV; [|done]. intros [= <- <-].
  bool_simpl. apply Nat.eqb_eq in El.
  assert (length (take cursorPayloadBytes wire) = cursorPayloadBytes) as Hl.
  { rewrite length_take, El. done. }
  pose proof (cursor_payload_split _ Hl Ev) as Hp.
  assert (canonical_time created) as Hcan.
  { pose proof (readTime_range _ _ Et) as [Hs Hn]. apply readTime_inv in Et as (_ & Hm & Hloc).
    split; [|done]. split; [done|]. eapply Validate_nsec in EV; [|done..]. simpl in EV. lia. }
  apply readTime_inv in Et as (Ht & _).
  exists (take cursorTimeBytes (drop (1 + cursorTimeBytes) (take cursorPayloadBytes wire))).
  split_and!; try done.
  - rewrite Ht in Hp. cbn [cp_created_at cp_id].
    transitivity (cursor_token codec (take cursorPayloadBytes wire)); [|by f_equal].
    unfold cursor_token. rewrite <- Em, take_drop, Ec.
    by apply has_prefix_inv.
  - by rewrite length_take, length_drop, Hl.
Qed.

(** Every way in which opening a token fails. *)
Definition open_errors : list error :=
  invalidCursor <$>
    [&"malformed token"; &"non-canonical token"; &"authentication failed";
     &"unsupported version"; &"invalid position time"; &"invalid expiry time";
     &"position id is required"; &"position time is required"; &"position time is out of range"].

Lemma open_token_err codec token e : open_token codec token = Err e -> e ∈ open_errors.
Proof.
  unfold open_token, Validate. repeat (case_match; simplify_eq); intros [= <-];
    unfold open_errors; rewrite ?fmap_cons; set_solver.
Qed.

(** ** Encoding and decoding *)

Definition codec_clock codec : nat -> time :=
  match cc_clock codec with None => sysnow | Some clock => clock end.

Definition now_at codec (tick : nat) : time := to_utc (codec_clock codec tick).

(** The clock reads a time between the years 1 and 10^11. *)
Definition clock_sane codec : Prop :=
  forall tick, time_wf (codec_clock codec tick)
    /\ 0 <= t_sec (codec_clock codec tick) < 2 ^ 62
    /\ IsZero (codec_clock codec tick) = false.

Definition ttl_ok codec : Prop := 0 <= cc_ttl codec <= MaxCursorTTL.

(** The expiry field of a token issued at [now]. *)
Definition expiry_bytes codec (now : time) : bytes :=
  if 0 <? cc_ttl codec then time_wire (Add now (cc_ttl codec)) else replicate 15 (zb 0).

Definition issued_token codec (p : CursorPosition) (now : time) : bytes :=
  cursor_token codec (cursor_payload (time_wire (cp_created_at p)) (expiry_bytes codec now) (cp_id p)).

Lemma currentTime_run {S} codec (w : world S) :
  currentTime sysnow codec w
  = (Ok (now_at codec (w_tick w)), World (Datatypes.S (w_tick w)) (w_store w)).
Proof. reflexivity. Qed.

Lemma now_at_facts codec tick :
  clock_sane codec -> canonical_time (now_at codec tick)
  /\ 0 < instant (now_at codec tick) /\ 0 <= t_sec (now_at codec tick) < 2 ^ 62
  /\ IsZero (now_at codec tick) = false.
Proof.
  intros Hs. destruct (Hs tick) as ([Hr Hn] & Hb & Hz). unfold now_at.
  split; [done|]. split; [|done]. unfold IsZero, instant in *. cbn [to_utc t_sec t_nsec].
  unfold Second in *. destruct (Z.eqb_spec (t_sec (codec_clock codec tick)) 0); [|lia].
  destruct (Z.eqb_spec (t_nsec (codec_clock codec tick)) 0); [done|lia].
Qed.

Lemma expires_facts codec tick :
  clock_sane codec -> ttl_ok codec ->
  let now := now_at codec tick in
  canonical_time (Add now (cc_ttl codec))
  /\ instant (Add now (cc_ttl codec)) = instant now + cc_ttl codec.
Proof.
  intros Hs Ht. destruct (now_at_facts codec tick Hs) as (Hc & _ & Hb & _).
  unfold ttl_ok, MaxCursorTTL, Hour, Minute, Second in Ht.
  apply Add_canonical; [done|lia|lia].
Qed.

Lemma Encode_run {S} codec p (w : world S) :
  clock_sane codec -> ttl_ok codec ->
  canonical_time (cp_created_at p) -> Validate p = Ok tt ->
  let now := now_at codec (w_tick w) in
  Encode sysnow (Some codec) p w
  = (if (0 <? cc_ttl codec) && (instant now + cc_ttl codec <=? instant (cp_created_at p))
     then Err (Joined [Sentinel ErrCursorState; Opaque &"cursor expiry precedes position"])
     else Ok (issued_token codec p now),
     World (Datatypes.S (w_tick w)) (w_store w)).
Proof.
  intros Hs Ht Hc Hv now. unfold Encode. m_unfold. rewrite Hv, currentTime_run. fold now.
  destruct (now_at_facts codec (w_tick w) Hs) as (Hnc & _ & _ & Hz). fold now in Hnc, Hz.
  rewrite Hz, putTime_wire, (to_utc_id _ Hc). unfold expiry_field, issued_token, expiry_bytes.
  destruct (expires_facts codec (w_tick w) Hs Ht) as [Hec Hei]. fold now in Hec, Hei.
  assert (forall expires, length expires = 15%nat ->
    (MaxCursorBytes <? Z.of_nat (length (cursor_token codec
       (cursor_payload (time_wire (cp_created_at p)) expires (cp_id p))))) = false) as Hsize.
  { intros expires He. rewrite cursor_token_length; [done|].
    apply cursor_payload_length; [apply time_wire_length|done]. }
  destruct (0 <? cc_ttl codec) eqn:Et; cbn [andb].
  2: { by rewrite Hsize. }
  bool_simpl. rewrite !After_instant, Hei by done.
  rewrite (proj2 (Z.ltb_lt (instant now) _)) by lia. cbn [negb].
  rewrite Z.leb_antisym. destruct (instant (cp_created_at p) <? instant now + cc_ttl codec); [|done].
  cbn [negb]. rewrite putTime_wire, (to_utc_id _ Hec).
  by rewrite Hsize by apply time_wire_length.
Qed.

Lemma readOptionalTime_expiry codec tick :
  clock_sane codec -> ttl_ok codec ->
  readOptionalTime (expiry_bytes codec (now_at codec tick))
  = Some (if 0 <? cc_ttl codec then Add (now_at codec tick) (cc_ttl codec) else zero_time).
Proof.
  intros Hs Ht. unfold expiry_bytes. destruct (0 <? cc_ttl codec); [|done].
  apply readOptionalTime_wire. by apply expires_facts.
Qed.

Lemma Decode_issued {S} codec p issued (w : world S) :
  clock_sane codec -> ttl_ok codec ->
  canonical_time (cp_created_at p) -> Validate p = Ok tt ->
  fst (Decode sysnow (Some codec) (issued_token codec p (now_at codec issued)) w)
  = (if (0 <? cc_ttl codec)
        && (instant (now_at codec issued) + cc_ttl codec <=? instant (now_at codec (w_tick w)))
     then Err (invalidCursor &"expired token") else Ok p).
Proof.
  intros Hs Ht Hc Hv. unfold Decode. m_unfold.
  assert (length (expiry_bytes codec (now_at codec issued)) = 15%nat) as Hl.
  { unfold expiry_bytes. destruct (0 <? cc_ttl codec); [apply time_wire_length|done]. }
  unfold issued_token. rewrite (open_token_fields codec _ _ p _ Hl eq_refl Hc
    (readOptionalTime_expiry codec issued Hs Ht) Hv).
  destruct (expires_facts codec issued Hs Ht) as [Hec Hei].
  destruct (now_at_facts codec issued Hs) as (_ & Hpos & _).
  destruct (now_at_facts codec (w_tick w) Hs) as (Hnc & _ & _ & Hnz).
  destruct (0 <? cc_ttl codec) eqn:Et; [|done]. cbn [andb]. bool_simpl.
  set (e := Add (now_at codec issued) (cc_ttl codec)) in *.
  assert (IsZero e = false) as ->.
  { unfold IsZero, instant in *. unfold Second in *.
    destruct (Z.eqb_spec (t_sec e) 0) as [E|]; [|done].
    destruct (Z.eqb_spec (t_nsec e) 0) as [E'|]; [|done]. rewrite E, E' in Hei. lia. }
  cbn [negb]. rewrite currentTime_run, Hnz, Before_instant, Hei by done.
  rewrite Z.leb_antisym. by destruct (instant (now_at codec (w_tick w)) <? _).
Qed.

Lemma issued_token_length codec p now : length (issued_token codec p now) = 109%nat.
Proof.
  apply cursor_token_length, cursor_payload_length; [apply time_wire_length|].
  unfold expiry_bytes. case_match; [apply time_wire_length|done].
Qed.

(** Decoding does not touch the store. *)
Lemma Decode_store {S} codec token (w : world S) :
  w_store (snd (Decode sysnow (Some codec) token w)) = w_store w.
Proof.
  unfold Decode. m_unfold. destruct (open_token codec token) as [[p e]|]; [|done].
  destruct (IsZero e); [done|]. cbn [negb]. rewrite currentTime_run.
  destruct (IsZero _); [done|]. by destruct (Before _ e).
Qed.

(** Only the UTC wall clock reading of a position matters to [Encode]. *)
Definition canonical_position (p : CursorPosition) : CursorPosition :=
  mkPosition (to_utc (cp_created_at p)) (cp_id p).

Lemma Validate_canonical p : Validate (canonical_position p) = Validate p.
Proof. reflexivity. Qed.

Lemma Encode_canonical {S} codec p (w : world S) :
  Encode sysnow (Some codec) (canonical_position p) w = Encode sysnow (Some codec) p w.
Proof.
  unfold Encode. rewrite Validate_canonical. m_unfold. destruct (Validate p); [|done].
  rewrite currentTime_run. destruct (IsZero _); [done|].
  change (putTime (cp_created_at (canonical_position p))) with (putTime (cp_created_at p)).
  destruct (putTime (cp_created_at p)); [|done].
  assert (expiry_field codec (canonical_position p) (now_at codec (w_tick w))
          = expiry_field codec p (now_at codec (w_tick w))) as ->; [|done].
  unfold expiry_field. set (e := Add _ _).
  assert (t_mono e = None) as He.
  { by apply Add_no_mono. }
  unfold After, Before. by rewrite !both_mono_r.
Qed.

(** What the constructor guarantees. *)
Definition purpose_ok (purpose : bytes) : Prop :=
  purpose <> [] /\ Z.of_nat (length purpose) <= 128 /\ ValidString purpose = true
  /\ has_rune is_control purpose = false.

Lemma validate_codec_Ok codec :
  validateCursorCodecConfig (Some codec) = Ok tt <->
  ttl_ok codec /\ is_Some (cc_clock codec) /\ purpose_ok (cc_purpose codec).
Proof.
  unfold validateCursorCodecConfig, ttl_ok, purpose_ok.
  destruct ((cc_ttl codec <? 0) || _) eqn:Et; bool_simpl; [split; [done|]; intros ([? ?] & _); lia|].
  destruct (cc_clock codec); [|split; [done|]; by intros (_ & [? ?] & _)].
  destruct (_ || _) eqn:Ep; bool_simpl.
  - split; [done|]. intros (_ & _ & Hp & Hl & Hv & Hc). rewrite Hv, Hc, bool_decide_false in Ep by done.
    by rewrite (proj2 (Z.ltb_ge _ _) Hl) in Ep.
  - split; [intros _|done]. unfold is_Some. split_and!; eauto.
Qed.

Lemma New_Ok secret options codec :
  NewSignedCursorCodec sysnow secret options = Ok codec ->
  MinCursorSigningKeyBytes <= Z.of_nat (length secret)
  /\ cc_key codec = Sum256 secret
  /\ ttl_ok codec /\ is_Some (cc_clock codec) /\ purpose_ok (cc_purpose codec).
Proof.
  unfold NewSignedCursorCodec. case_match eqn:E; [done|]. bool_simpl. cbv zeta.
  set (c := fold_left _ _ _). destruct (validateCursorCodecConfig (Some c)) as [[]|] eqn:Ev; [|done].
  intros [= <-]. apply validate_codec_Ok in Ev. done.
Qed.

(** An HMAC collision under one key is a collision of the digest. *)
Lemma hmac_inj key m1 m2 : hmac key m1 = hmac key m2 -> m1 = m2 \/ collision.
Proof.
  unfold hmac. intros E%arr_eq.
  destruct (Sum256_inj _ _ E) as [E1|?]; [|by right].
  apply app_inv_head, arr_eq in E1.
  destruct (Sum256_inj _ _ E1) as [E2|?]; [|by right].
  left. by apply app_inv_head in E2.
Qed.

(** ** Properties *)

(** C23: a codec built by the constructor round-trips every valid position. While
    the position is not after the end of the token's life, [Encode] issues a token
    of exactly 109 bytes, and every later [Decode] returns the position in its
    canonical form (UTC, no monotonic reading) until the moment the token expires,
    and the expiry error from then on; with a zero TTL it never expires. *)
Theorem Cursor_roundtrip {S} secret options codec p (w : world S) :
  NewSignedCursorCodec sysnow secret options = Ok codec ->
  clock_sane codec -> time_wf (cp_created_at p) -> Validate p = Ok tt ->
  (cc_ttl codec = 0 \/ instant (to_utc (cp_created_at p)) < instant (now_at codec (w_tick w)) + cc_ttl codec) ->
  exists token,
    fst (Encode sysnow (Some codec) p w) = Ok token
    /\ length token = 109%nat
    /\ forall w' : world S,
         fst (Decode sysnow (Some codec) token w')
         = (if (0 <? cc_ttl codec)
               && (instant (now_at codec (w_tick w)) + cc_ttl codec <=? instant (now_at codec (w_tick w')))
            then Err (invalidCursor &"expired token")
            else Ok (canonical_position p)).
Proof.
  intros (_ & _ & Ht & _)%New_Ok Hs Hw Hv Hexp.
  rewrite <- Validate_canonical in Hv. pose proof (to_utc_canonical _ Hw) as Hc.
  exists (issued_token codec (canonical_position p) (now_at codec (w_tick w))). split_and!.
  - rewrite <- Encode_canonical, Encode_run by done. cbn [canonical_position cp_created_at].
    destruct ((_ <? _) && _) eqn:E; [|done]. bool_simpl. lia.
  - apply issued_token_length.
  - intros w'. by apply Decode_issued.
Qed.

(** C12: every token that [Decode] accepts is, byte for byte, the one canonical
    rendering of authenticated fields: version, position time, expiry field,
    identifier and their HMAC. The position is valid and canonical, and the expiry
    is either absent or still ahead of the codec's clock. *)
Theorem Decode_authentic {S} codec token p (w w' : world S) :
  clock_sane codec -> Decode sysnow (Some codec) token w = (Ok p, w') ->
  exists expires e,
    token = cursor_token codec (cursor_payload (time_wire (cp_created_at p)) expires (cp_id p))
    /\ length token = 109%nat
    /\ canonical_time (cp_created_at p) /\ Validate p = Ok tt
    /\ readOptionalTime expires = Some e
    /\ (IsZero e = true \/ Before (now_at codec (w_tick w)) e = true).
Proof.
  intros Hs. unfold Decode. m_unfold.
  destruct (open_token codec token) as [[q e]|] eqn:Eo; [|done].
  intros Hd. assert (q = p /\ (IsZero e = true \/ Before (now_at codec (w_tick w)) e = true)) as [-> He].
  { revert Hd. destruct (IsZero e); cbn [negb]; [intros ?; split; [congruence|by left]|].
    rewrite currentTime_run. destruct (IsZero _); [done|].
    destruct (Before _ e); [|done]. cbn. intros ?. split; [congruence|by right]. }
  apply open_token_inv in Eo as (expires & -> & Hl & Hr & Hc & Hv).
  exists expires, e. split_and!; try done.
  by apply cursor_token_length, cursor_payload_length; [apply time_wire_length|].
Qed.

(** Everything [Decode] can fail with: nothing in it depends on the token. *)
Definition decode_errors : list error :=
  [invalidCursor &"expired token"; Sentinel ErrCursorUnavailable;
   unavailable &"cursor clock returned zero time"] ++ open_errors.

(** Decoding fails only with errors of a fixed finite set, so no error ever
    carries a byte of the token or of the secret; each unwraps either to
    [ErrInvalidCursor] or, for a nil codec or a broken clock, to
    [ErrCursorUnavailable], and never to both. *)
Theorem Decode_errors_closed {S} (maybe : option SignedCursorCodec) token e (w w' : world S) :
  Decode sysnow maybe token w = (Err e, w') ->
  e ∈ decode_errors /\ xorb (Is e ErrInvalidCursor) (Is e ErrCursorUnavailable) = true.
Proof.
  intros Hd. assert (e ∈ decode_errors) as He.
  { revert Hd. unfold Decode. destruct maybe as [codec|]; m_unfold.
    2: { intros [= <-]. unfold decode_errors. cbn [app]. rewrite !elem_of_cons. auto. }
    destruct (open_token codec token) as [[q t]|e'] eqn:Eo.
    - destruct (IsZero t); [done|]. cbn [negb]. rewrite currentTime_run.
      destruct (IsZero _); [|destruct (Before _ _); [done|]]; intros [= <- <-];
        unfold decode_errors; cbn [app]; rewrite !elem_of_cons; auto.
    - intros [= <- <-]. apply open_token_err in Eo. apply elem_of_app. by right. }
  split; [done|]. unfold decode_errors, open_errors in He. cbn [fmap list_fmap app] in He.
  repeat (apply elem_of_cons in He as [->|He]; [reflexivity|]). by apply elem_of_nil in He.
Qed.

(** Purposes separate tokens. A token that both a codec and one with the same
    key and another purpose accept exhibits a collision of the digest. *)
Theorem Decode_purpose_separation {S} c1 c2 token p q (w1 w1' w2 w2' : world S) :
  cc_key c1 = cc_key c2 -> cc_purpose c1 <> cc_purpose c2 ->
  Decode sysnow (Some c1) token w1 = (Ok p, w1') ->
  Decode sysnow (Some c2) token w2 = (Ok q, w2') ->
  collision.
Proof.
  assert (forall c r (w w' : world S), Decode sysnow (Some c) token w = (Ok r, w') ->
    exists payload, length payload = cursorPayloadBytes /\ token = cursor_token c payload) as Hinv.
  { intros c r w w'. unfold Decode. m_unfold. destruct (open_token c token) as [[r' e]|] eqn:Eo; [|done].
    intros _. apply open_token_inv in Eo as (expires & -> & Hl & _). eexists. split; [|done].
    by apply cursor_payload_length; [apply time_wire_length|]. }
  intros Hk Hp (m1 & L1 & E1)%Hinv (m2 & L2 & E2)%Hinv. rewrite E1 in E2.
  apply app_inv_head, (f_equal b64_decode) in E2. rewrite !b64_decode_encode in E2.
  injection E2 as E2. apply app_inj_1 in E2 as [-> Em]; [|by rewrite L1].
  unfold mac in Em. rewrite Hk in Em.
  destruct (hmac_inj _ _ _ Em) as [E|?]; [|done].
  by apply app_inv_tail in E.
Qed.

(** The range check of a position never rejects a time for its date: on any
    time with a normal nanosecond field, however far from 1970, [Validate] looks
    only at the identifier and at the zero time. *)
Theorem Validate_never_out_of_range p :
  time_wf (cp_created_at p) ->
  Validate p = (if bool_decide (cp_id p = uuid_nil) then Err (invalidCursor &"position id is required")
                else if IsZero (cp_created_at p) then Err (invalidCursor &"position time is required")
                else Ok tt).
Proof.
  intros [Hs Hn]. unfold Validate. rewrite Round0_to_utc. cbv zeta.
  rewrite Validate_range_check by (unfold Second in *; done || lia).
  by rewrite (proj2 (Z.ltb_lt _ _)) by lia.
Qed.
End Layout.

(** ** Witnesses *)

Section Witnesses.
Definition wit_clock (tick : nat) : time := Time (63800000000 + Z.of_nat tick) 5 (Some 7) (Zone 3600).
Definition wit_position : CursorPosition :=
  mkPosition (Time 63799999999 250 (Some 9) (Zone (-7200))) (array_of 16 (replicate 16 (zb 0xAB))).
Definition wit_secret : bytes := replicate 32 (zb 0x5A).
Definition wit_codec (H : Hash256) (purpose : bytes) : SignedCursorCodec :=
  mkCodec (Sum256 wit_secret) DefaultCursorTTL (Some (fun _ => wit_clock 0)) purpose.
(** A digest with collisions. *)
Definition flat_hash : Hash256 := fun _ => array_of 32 (replicate 32 (zb 1)).
Definition wit_token (H : Hash256) : bytes :=
  issued_token (wit_codec H cursorPurpose) (canonical_position wit_position) (to_utc (wit_clock 0)).
Definition wit_options : list (option CursorCodecOption) :=
  [None; Some (WithCursorClock wit_clock (Some (fun _ => wit_clock 0)))].

Lemma wit_codec_sane H purpose : clock_sane wit_clock (wit_codec H purpose).
Proof. intros tick. by repeat split. Qed.
End Witnesses.

Example Cursor_roundtrip_witness :
  exists token,
    fst (@Encode sha256_hash wit_clock unit (Some (wit_codec sha256_hash cursorPurpose)) wit_position (World 0 tt))
    = Ok token
    /\ length token = 109%nat
    /\ fst (@Decode sha256_hash wit_clock unit (Some (wit_codec sha256_hash cursorPurpose)) token (World 1 tt))
       = Ok (canonical_position wit_position).
Proof.
  destruct (@Cursor_roundtrip sha256_hash wit_clock unit wit_secret wit_options
    (wit_codec sha256_hash cursorPurpose) wit_position (World 0 tt)) as (token & E & L & D).
  - reflexivity.
  - apply wit_codec_sane.
  - by repeat split.
  - reflexivity.
  - right. reflexivity.
  - exists token. split; [exact E|]. split; [exact L|]. rewrite (D (World 1 tt)). reflexivity.
Defined.

Example Decode_authentic_witness :
  exists w' expires e,
    @Decode sha256_hash wit_clock unit (Some (wit_codec sha256_hash cursorPurpose)) (wit_token sha256_hash)
      (World 0 tt) = (Ok (canonical_position wit_position), w')
    /\ readOptionalTime expires = Some e.
Proof.
  assert (Hd : @Decode sha256_hash wit_clock unit (Some (wit_codec sha256_hash cursorPurpose))
    (wit_token sha256_hash) (World 0 tt) = (Ok (canonical_position wit_position), World 1 tt)) by by vm_compute.
  destruct (@Decode_authentic sha256_hash wit_clock unit _ _ _ _ _ (wit_codec_sane _ _) Hd)
    as (expires & e & _ & _ & _ & _ & Hr & _).
  exists (World 1 tt), expires, e. split; [exact Hd|exact Hr].
Defined.

Example Decode_errors_closed_witness :
  xorb (Is (invalidCursor &"malformed token") ErrInvalidCursor)
       (Is (invalidCursor &"malformed token") ErrCursorUnavailable) = true.
Proof.
  apply (@Decode_errors_closed sha256_hash wit_clock unit
    (Some (wit_codec sha256_hash cursorPurpose)) &"v2_AAAA" _ (World 0 tt) (World 0 tt)).
  reflexivity.
Defined.

Example Decode_purpose_separation_witness : @collision flat_hash.
Proof.
  apply (@Decode_purpose_separation flat_hash wit_clock unit
    (wit_codec flat_hash cursorPurpose) (wit_codec flat_hash &"other/v1") (wit_token flat_hash)
    (canonical_position wit_position) (canonical_position wit_position)
    (World 0 tt) (World 1 tt) (World 0 tt) (World 1 tt)).
  - reflexivity.
  - discriminate.
  - by vm_compute.
  - by vm_compute.
Defined.

Example Validate_never_out_of_range_witness :
  Validate (mkPosition (Time (2 ^ 63 - 1) 999999999 None UTC) (cp_id wit_position)) = Ok tt.
Proof. rewrite Validate_never_out_of_range; [reflexivity|by repeat split]. Defined.
