(* ===== verification/Order.v ===== *)
(** * The order of items

    Collections are listed newest first: by creation time descending, then by
    identifier descending. This file has [sort.Slice], the comparisons of the
    memory store and the strict total order behind them. Go's sort is not stable
    and iterates over maps in any order; [sort_unique] is why the result of a
    listing is determined all the same. *)
From S2P Require Import Prelude GoText GoEncoding GoTime Errors Item Cursor.

(** ** sort.Slice *)

Section Sort.
Context {A : Type} (less : A -> A -> bool).
Implicit Types (x y z : A) (l : list A).

Fixpoint sort_insert x l : list A :=
  match l with
  | [] => [x]
  | y :: l' => if less x y then x :: l else y :: sort_insert x l'
  end.

Definition sort_slice l : list A := foldr sort_insert [] l.

(** [less] is a strict total order on the elements of [l]. *)
Record strict_total_on l : Prop := {
  sto_asym x y : x ∈ l -> y ∈ l -> less x y = true -> less y x = false;
  sto_trans x y z : x ∈ l -> y ∈ l -> z ∈ l -> less x y = true -> less y z = true -> less x z = true;
  sto_total x y : x ∈ l -> y ∈ l -> x <> y -> less x y = false -> less y x = true;
}.

Abbreviation sorted := (StronglySorted (fun x y => less x y = true)).

Lemma sort_insert_perm x l : sort_insert x l ≡ₚ x :: l.
Proof.
  induction l as [|y l IH]; simpl; [done|]. destruct (less x y); [done|].
  rewrite IH. by constructor.
Qed.

Lemma sort_slice_perm l : sort_slice l ≡ₚ l.
Proof. induction l as [|x l IH]; simpl; [done|]. rewrite sort_insert_perm. by constructor. Qed.

Lemma strict_total_on_sub l l' : l ⊆ l' -> strict_total_on l' -> strict_total_on l.
Proof. intros Hs [Ha Ht Hc]. split; eauto. Qed.

Lemma sort_insert_sorted x l :
  strict_total_on (x :: l) -> x ∉ l -> sorted l -> sorted (sort_insert x l).
Proof.
  induction l as [|y l IH]; intros Ht Hx Hs; simpl; [by repeat constructor|].
  apply not_elem_of_cons in Hx as [Hxy Hx]. inversion_clear Hs as [|?? Hs' Hy].
  destruct (less x y) eqn:E.
  - constructor; [by constructor|]. constructor; [done|].
    rewrite Forall_forall in Hy |- *. intros z Hz.
    apply (sto_trans _ Ht x y z); set_solver.
  - constructor; [apply IH; [|done..]; eapply strict_total_on_sub, Ht; set_solver|].
    rewrite sort_insert_perm. constructor; [|done].
    apply (sto_total _ Ht x y); set_solver.
Qed.

Lemma sort_slice_sorted l : strict_total_on l -> NoDup l -> sorted (sort_slice l).
Proof.
  induction l as [|x l IH]; intros Ht Hn; simpl; [constructor|].
  apply NoDup_cons in Hn as [Hx Hn]. apply sort_insert_sorted.
  - eapply strict_total_on_sub, Ht. intros z. by rewrite !elem_of_cons, sort_slice_perm.
  - by rewrite sort_slice_perm.
  - apply IH; [|done]. eapply strict_total_on_sub, Ht. set_solver.
Qed.

(** Any two sorted arrangements of the same elements coincide. *)
Lemma sort_unique l1 l2 : strict_total_on l1 -> sorted l1 -> sorted l2 -> l1 ≡ₚ l2 -> l1 = l2.
Proof.
  intros Ht H1 H2 Hp. eapply StronglySorted_unique_strong; [|done..].
  intros x y Hx Hy Rx Ry. simpl in *. rewrite <- Hp in Hy.
  by rewrite (sto_asym _ Ht x y Hx Hy Rx) in Ry.
Qed.

Lemma sort_slice_unique l l' :
  strict_total_on l -> NoDup l -> sorted l' -> l' ≡ₚ l -> l' = sort_slice l.
Proof.
  intros Ht Hn Hs Hp. symmetry. apply sort_unique.
  - eapply strict_total_on_sub, Ht. intros z. by rewrite sort_slice_perm.
  - by apply sort_slice_sorted.
  - done.
  - by rewrite sort_slice_perm.
Qed.

Lemma sort_slice_permuted l l' :
  strict_total_on l -> NoDup l -> l' ≡ₚ l -> sort_slice l' = sort_slice l.
Proof.
  intros Ht Hn Hp. apply sort_slice_unique; [done|done| |].
  - apply sort_slice_sorted; [|by rewrite Hp]. eapply strict_total_on_sub, Ht.
    intros z. by rewrite Hp.
  - by rewrite sort_slice_perm.
Qed.
End Sort.


Lemma sort_insert_ext {A} (f g : A -> A -> bool) x l :
  (forall y, y ∈ l -> f x y = g x y) -> sort_insert f x l = sort_insert g x l.
Proof.
  induction l as [|y l IH]; intros H; simpl; [done|].
  rewrite H by constructor. rewrite IH; [done|]. set_solver.
Qed.

Lemma sort_slice_ext {A} (f g : A -> A -> bool) l :
  (forall x y, x ∈ l -> y ∈ l -> f x y = g x y) -> sort_slice f l = sort_slice g l.
Proof.
  induction l as [|x l IH]; intros H; simpl; [done|].
  rewrite IH by set_solver. apply sort_insert_ext. intros y. rewrite sort_slice_perm. set_solver.
Qed.

(** ** Comparisons *)

(** [uuid.UUID.String]. *)
Definition uuid_string (u : uuid) : bytes :=
  let b := arr_bytes u in
  hex_encode (take 4 b) ++ &"-" ++ hex_encode (take 2 (drop 4 b)) ++ &"-"
    ++ hex_encode (take 2 (drop 6 b)) ++ &"-" ++ hex_encode (take 2 (drop 8 b)) ++ &"-"
    ++ hex_encode (drop 10 b).

(** The comparison of [Store.ListAfter]. *)
Definition newer (left right : Item) : bool :=
  if Equal (CreatedAt left) (CreatedAt right)
  then bytes_gtb (arr_bytes (ID left)) (arr_bytes (ID right))
  else After (CreatedAt left) (CreatedAt right).

(** The comparison of [Store.List], on the text of the identifiers. *)
Definition newer_text (left right : Item) : bool :=
  if Equal (CreatedAt left) (CreatedAt right)
  then bytes_gtb (uuid_string (ID left)) (uuid_string (ID right))
  else After (CreatedAt left) (CreatedAt right).

(** The boundary test of [Store.ListAfter]: strictly after the position in the
    descending order. *)
Definition beyond (after : CursorPosition) (value : Item) : bool :=
  Before (CreatedAt value) (cp_created_at after)
  || (Equal (CreatedAt value) (cp_created_at after)
      && bytes_ltb (arr_bytes (ID value)) (arr_bytes (cp_id after))).

Definition item_position (i : Item) : CursorPosition := mkPosition (CreatedAt i) (ID i).

(** The items of a map, newest first. *)
Definition newest (items : gmap uuid Item) : list Item :=
  sort_slice newer (map_to_list items).*2.

(** What a store may hold: canonical times, keyed by identifier. *)
Definition items_ok (items : gmap uuid Item) : Prop :=
  map_Forall (fun k i => ID i = k /\ canonical_time (CreatedAt i)) items.

(** ** The text of an identifier is ordered like its bytes *)

Lemma bytes_compare_app x x' y y' :
  length x = length x' ->
  bytes_compare (x ++ y) (x' ++ y') =
  match bytes_compare x x' with Eq => bytes_compare y y' | c => c end.
Proof.
  revert x'. induction x as [|a x IH]; intros [|b x']; try done; simpl.
  intros [= Hl]. destruct (bz a ?= bz b); auto.
Qed.

Lemma bz_hex_digit x : 0 <= x < 16 -> bz (hex_digit x) = if x <? 10 then 48 + x else 87 + x.
Proof. intros Hx. unfold hex_digit. rewrite bz_zb_small; [done|]. case_match; lia. Qed.

Lemma hex_digit_compare x y :
  0 <= x < 16 -> 0 <= y < 16 -> (bz (hex_digit x) ?= bz (hex_digit y)) = (x ?= y).
Proof.
  intros Hx Hy. rewrite !bz_hex_digit by done.
  destruct (Z.ltb_spec x 10), (Z.ltb_spec y 10), (Z.compare_spec x y);
    apply Z.compare_eq_iff || apply Z.compare_lt_iff || apply Z.compare_gt_iff; lia.
Qed.

Lemma hex_encode_compare a b : bytes_compare (hex_encode a) (hex_encode b) = bytes_compare a b.
Proof.
  revert b. induction a as [|x a IH]; intros [|y b]; try done. simpl.
  pose proof (bz_range x). pose proof (bz_range y).
  rewrite !hex_digit_compare by (split; [apply Z.div_pos|apply Z.div_lt_upper_bound]; lia)
                         || rewrite !hex_digit_compare by (apply Z.mod_pos_bound; lia).
  rewrite !hex_digit_compare by (apply Z.mod_pos_bound; lia).
  rewrite IH. clear IH. revert H H0. generalize (bz x), (bz y). intros u v Hu Hv.
  destruct (Z.compare_spec (u / 16) (v / 16)) as [E|E|E];
    destruct (Z.compare_spec (u mod 16) (v mod 16)) as [F|F|F];
    destruct (Z.compare_spec u v) as [G|G|G]; try done; div_mod_lia.
Qed.

Lemma bytes_compare_split n a b :
  length a = length b ->
  bytes_compare a b =
  match bytes_compare (take n a) (take n b) with
  | Eq => bytes_compare (drop n a) (drop n b)
  | c => c
  end.
Proof.
  intros Hl. rewrite <- (take_drop n a) at 1. rewrite <- (take_drop n b) at 1.
  apply bytes_compare_app. rewrite !length_take. lia.
Qed.

Lemma hex_group_compare x y r r' :
  length x = length y ->
  bytes_compare (hex_encode x ++ &"-" ++ r) (hex_encode y ++ &"-" ++ r') =
  match bytes_compare x y with Eq => bytes_compare r r' | c => c end.
Proof.
  intros Hl. rewrite bytes_compare_app by (rewrite !hex_encode_length; lia).
  by rewrite hex_encode_compare.
Qed.

Lemma uuid_string_compare u v :
  bytes_compare (uuid_string u) (uuid_string v) = bytes_compare (arr_bytes u) (arr_bytes v).
Proof.
  unfold uuid_string. pose proof (arr_length u) as Hu. pose proof (arr_length v) as Hv.
  generalize dependent (arr_bytes v). generalize dependent (arr_bytes u). intros a Ha b Hb.
  rewrite !hex_group_compare by (rewrite !length_take, ?length_drop; lia).
  rewrite hex_encode_compare.
  rewrite (bytes_compare_split 4 a b), (bytes_compare_split 2 (drop 4 a)),
    (bytes_compare_split 2 (drop 2 (drop 4 a))), (bytes_compare_split 2 (drop 2 (drop 2 (drop 4 a))))
    by (rewrite ?length_drop; lia).
  by rewrite !drop_drop.
Qed.

(** So [List] and [ListAfter] sort alike. *)
Lemma newer_text_newer a b : newer_text a b = newer a b.
Proof. unfold newer_text, newer, bytes_gtb. by rewrite uuid_string_compare. Qed.

(** ** The order is total on canonical items *)

Definition canonical_item (i : Item) : Prop := canonical_time (CreatedAt i).

Lemma newer_beyond a b :
  canonical_item a -> canonical_item b -> newer a b = beyond (item_position a) b.
Proof.
  intros Ha Hb. unfold newer, beyond, item_position. cbn [cp_created_at cp_id].
  rewrite bytes_gtb_ltb, !Equal_instant, After_instant, Before_instant by done.
  rewrite (Z.eqb_sym (instant (CreatedAt b))).
  destruct (Z.eqb_spec (instant (CreatedAt a)) (instant (CreatedAt b))) as [E|E].
  - by rewrite E, Z.ltb_irrefl.
  - by rewrite orb_false_r.
Qed.

(** [beyond] in terms of instants and identifiers. *)
Lemma beyond_spec p i :
  canonical_time (cp_created_at p) -> canonical_item i ->
  beyond p i = true <->
  instant (CreatedAt i) < instant (cp_created_at p)
  \/ (instant (CreatedAt i) = instant (cp_created_at p)
      /\ bytes_ltb (arr_bytes (ID i)) (arr_bytes (cp_id p)) = true).
Proof.
  intros Hp Hi. unfold beyond. rewrite Equal_instant, Before_instant by done.
  by rewrite orb_true_iff, andb_true_iff, Z.ltb_lt, Z.eqb_eq.
Qed.

Lemma newer_spec a b :
  canonical_item a -> canonical_item b ->
  newer a b = true <->
  instant (CreatedAt b) < instant (CreatedAt a)
  \/ (instant (CreatedAt b) = instant (CreatedAt a)
      /\ bytes_ltb (arr_bytes (ID b)) (arr_bytes (ID a)) = true).
Proof. intros Ha Hb. rewrite newer_beyond by done. by rewrite beyond_spec. Qed.

(** Passing a position, and then an item that was passed. *)
Lemma beyond_trans p i j :
  canonical_time (cp_created_at p) -> canonical_item i -> canonical_item j ->
  beyond p i = true -> newer i j = true -> beyond p j = true.
Proof.
  intros Hp Hi Hj. rewrite newer_spec, !beyond_spec by done.
  intros [?|[? L1]] [?|[? L2]]; [left; lia..|].
  right. split; [lia|]. by eapply bytes_ltb_trans.
Qed.

Lemma newer_asym a b :
  canonical_item a -> canonical_item b -> newer a b = true -> newer b a = false.
Proof.
  intros Ha Hb Hn. apply not_true_iff_false. revert Hn. rewrite !newer_spec by done.
  intros [?|[? L1]] [?|[? L2]]; [lia..|]. apply bytes_ltb_asym in L1. congruence.
Qed.

Lemma newer_total a b :
  canonical_item a -> canonical_item b -> ID a <> ID b -> newer a b = false -> newer b a = true.
Proof.
  intros Ha Hb Hne Hn. apply not_true_iff_false in Hn. rewrite newer_spec in Hn by done.
  rewrite newer_spec by done. destruct (Z.lt_trichotomy (instant (CreatedAt a)) (instant (CreatedAt b)))
    as [?|[?|?]]; [by left| |naive_solver].
  right. split; [done|]. apply bytes_ltb_total; [by intros ?%arr_eq|].
  apply not_true_iff_false. naive_solver.
Qed.

Lemma newer_trans a b c :
  canonical_item a -> canonical_item b -> canonical_item c ->
  newer a b = true -> newer b c = true -> newer a c = true.
Proof.
  intros Ha Hb Hc Hab Hbc. rewrite newer_beyond in Hab by done. rewrite newer_beyond by done.
  by apply (beyond_trans _ b c).
Qed.

Lemma newer_strict_total l :
  Forall canonical_item l -> NoDup (ID <$> l) -> strict_total_on newer l.
Proof.
  intros Hc Hn. rewrite Forall_forall in Hc. split.
  - intros. by apply newer_asym; auto.
  - intros x y z Hx Hy Hz. apply newer_trans; auto.
  - intros x y Hx Hy Hne. apply newer_total; auto. intros E. apply Hne.
    apply list_elem_of_lookup in Hx as [i Hi], Hy as [j Hj].
    assert (i = j) as ->; [|congruence].
    eapply (NoDup_lookup (ID <$> l)); [done|rewrite list_lookup_fmap, Hi; done|].
    rewrite list_lookup_fmap, Hj. simpl. congruence.
Qed.

(** ** Listings of a map *)

Lemma map_items_elem (m : gmap uuid Item) i :
  items_ok m -> i ∈ (map_to_list m).*2 <-> m !! ID i = Some i.
Proof.
  intros Hm. rewrite list_elem_of_fmap. split.
  - intros ([k i'] & -> & Hk%elem_of_map_to_list). simpl in *.
    by destruct (Hm k i' Hk) as [-> _].
  - intros Hi. exists (ID i, i). by rewrite elem_of_map_to_list.
Qed.

Lemma map_items_ids (m : gmap uuid Item) :
  items_ok m -> ID <$> (map_to_list m).*2 = (map_to_list m).*1.
Proof.
  intros Hm. rewrite <- list_fmap_compose. apply list_fmap_ext.
  intros j [k i] Hl. simpl. apply list_elem_of_lookup_2, elem_of_map_to_list in Hl.
  by destruct (Hm k i Hl).
Qed.

Lemma map_items_NoDup (m : gmap uuid Item) : items_ok m -> NoDup (ID <$> (map_to_list m).*2).
Proof. intros Hm. rewrite map_items_ids by done. apply NoDup_fst_map_to_list. Qed.

Lemma map_items_canonical (m : gmap uuid Item) : items_ok m -> Forall canonical_item (map_to_list m).*2.
Proof.
  intros Hm. apply Forall_forall. intros i Hi. apply map_items_elem in Hi; [|done].
  by destruct (Hm _ _ Hi).
Qed.

#[export] Hint Resolve map_items_NoDup map_items_canonical : go.

(** However the map is iterated, sorting gives the same list. *)
Lemma sort_any_order (m : gmap uuid Item) values :
  items_ok m -> values ≡ₚ (map_to_list m).*2 -> sort_slice newer values = newest m.
Proof.
  intros Hm Hp. apply sort_slice_permuted; [|by eapply NoDup_fmap_1; eauto with go|done].
  apply newer_strict_total; eauto with go.
Qed.

Lemma newest_sorted m :
  items_ok m -> StronglySorted (fun a b => newer a b = true) (newest m).
Proof.
  intros Hm. apply sort_slice_sorted; [apply newer_strict_total|eapply NoDup_fmap_1]; eauto with go.
Qed.

Lemma newest_perm m : newest m ≡ₚ (map_to_list m).*2.
Proof. apply sort_slice_perm. Qed.

Lemma newest_elem m i : items_ok m -> i ∈ newest m <-> m !! ID i = Some i.
Proof. intros Hm. rewrite newest_perm. by apply map_items_elem. Qed.

Lemma newest_NoDup m : items_ok m -> NoDup (newest m).
Proof. intros Hm. rewrite newest_perm. eapply NoDup_fmap_1. eauto with go. Qed.

Lemma newest_length m : length (newest m) = size m.
Proof. by rewrite newest_perm, length_fmap, length_map_to_list. Qed.

Lemma newest_canonical m i : items_ok m -> i ∈ newest m -> canonical_item i.
Proof. intros Hm Hi. apply newest_elem in Hi; [|done]. by destruct (Hm _ _ Hi). Qed.

(** ** Cutting a listing at a position *)

Abbreviation newest_first := (StronglySorted (fun a b => newer a b = true)).

Lemma StronglySorted_bfilter {A} (R : A -> A -> Prop) f (l : list A) :
  StronglySorted R l -> StronglySorted R (List.filter f l).
Proof.
  induction 1 as [|x l Hs IH Hx]; simpl; [constructor|].
  destruct (f x); [|done]. constructor; [done|].
  rewrite Forall_forall in *. intros y Hy. apply Hx.
  by apply list_elem_of_In, filter_In in Hy as [?%list_elem_of_In _].
Qed.

Lemma elem_of_bfilter {A} f (x : A) l : x ∈ List.filter f l <-> x ∈ l /\ f x = true.
Proof. by rewrite !list_elem_of_In, filter_In. Qed.

Lemma filter_all {A} f (l : list A) : (forall x, x ∈ l -> f x = true) -> List.filter f l = l.
Proof.
  induction l as [|x l IH]; intros Hl; simpl; [done|].
  rewrite (Hl x) by constructor. f_equal. apply IH. set_solver.
Qed.

Lemma filter_none {A} f (l : list A) : (forall x, x ∈ l -> f x = false) -> List.filter f l = [].
Proof.
  induction l as [|x l IH]; intros Hl; simpl; [done|].
  rewrite (Hl x) by constructor. apply IH. set_solver.
Qed.

Lemma filter_filter {A} f g (l : list A) :
  List.filter f (List.filter g l) = List.filter (fun x => g x && f x) l.
Proof.
  induction l as [|x l IH]; simpl; [done|]. destruct (g x); simpl; [destruct (f x)|]; congruence.
Qed.

Lemma filter_swap {A} f g (l : list A) :
  List.filter f (List.filter g l) = List.filter g (List.filter f l).
Proof. rewrite !filter_filter. apply filter_ext. intros x. apply andb_comm. Qed.

Lemma filter_imp {A} f g (l : list A) :
  (forall x, x ∈ l -> f x = true -> g x = true) -> List.filter f (List.filter g l) = List.filter f l.
Proof.
  intros Hfg. rewrite filter_filter. apply filter_ext_in. intros x Hx%list_elem_of_In.
  destruct (f x) eqn:E; [by rewrite (Hfg x Hx E)|]. apply andb_false_r.
Qed.

Lemma filter_length_lt {A} f g (l : list A) x :
  (forall y, y ∈ l -> f y = true -> g y = true) -> x ∈ l -> g x = true -> f x = false ->
  (length (List.filter f l) < length (List.filter g l))%nat.
Proof.
  intros Hfg Hx Hg Hf. rewrite <- (filter_imp f g l Hfg).
  assert (Hgx : x ∈ List.filter g l) by by apply elem_of_bfilter.
  clear Hfg Hx. induction (List.filter g l) as [|y l' IH]; [by apply elem_of_nil in Hgx|].
  simpl. apply elem_of_cons in Hgx as [<-|Hgx].
  - rewrite Hf. pose proof (filter_length_le f l'). lia.
  - destruct (f y); simpl; specialize (IH Hgx); lia.
Qed.

Lemma elem_of_take_weaken {A} (x : A) n l : x ∈ take n l -> x ∈ l.
Proof. intros Hx. rewrite <- (take_drop n l). apply elem_of_app. by left. Qed.

Lemma elem_of_drop_weaken {A} (x : A) n l : x ∈ drop n l -> x ∈ l.
Proof. intros Hx. rewrite <- (take_drop n l). apply elem_of_app. by right. Qed.

(** In a listing, what comes after an item is what its position precedes. *)
Lemma filter_beyond_last rows front i rest :
  newest_first rows -> Forall canonical_item rows -> rows = front ++ i :: rest ->
  List.filter (beyond (item_position i)) rows = rest.
Proof.
  intros Hs Hc ->. apply StronglySorted_app in Hs as (Hfr & _ & Hs).
  inversion_clear Hs as [|?? _ Hr]. rewrite Forall_app, Forall_cons in Hc.
  destruct Hc as (Hcf & Hci & Hcr). rewrite Forall_forall in *.
  assert (beyond (item_position i) i = false) as Hii.
  { rewrite <- newer_beyond by done. destruct (newer i i) eqn:E; [|done].
    by rewrite (newer_asym i i) in E. }
  rewrite List.filter_app. cbn [List.filter]. rewrite Hii, filter_none.
  - apply filter_all. intros x Hx. rewrite <- newer_beyond; auto.
  - intros x Hx. rewrite <- newer_beyond by auto. apply newer_asym; auto.
    apply Hfr; [done|]. constructor.
Qed.

(** Restricting the listing of a map to a submap. *)
Lemma newest_submap m0 m :
  items_ok m -> m0 ⊆ m ->
  List.filter (fun i => bool_decide (m0 !! ID i = Some i)) (newest m) = newest m0.
Proof.
  intros Hm Hsub.
  assert (items_ok m0) as Hm0.
  { intros k i Hk. apply Hm. by eapply lookup_weaken. }
  set (f := fun i => bool_decide _).
  assert (newest_first (List.filter f (newest m))) as Hs by (by apply StronglySorted_bfilter, newest_sorted).
  apply sort_slice_unique; [apply newer_strict_total; eauto with go|eapply NoDup_fmap_1; eauto with go|done|].
  apply NoDup_Permutation.
  - apply NoDup_ListNoDup, List.NoDup_filter, NoDup_ListNoDup.
    by apply newest_NoDup.
  - eapply NoDup_fmap_1; eauto with go.
  - intros i. rewrite elem_of_bfilter, newest_elem, map_items_elem by done. unfold f.
    rewrite bool_decide_eq_true. split; [by intros []|]. intros Hi. split; [|done].
    by eapply lookup_weaken.
Qed.
