(* ===== verification/Store.v ===== *)
(** * The persistence and codec seams

    [item.Store] with its optional capabilities, [item.CursorCodec], and what the
    service relies on: [StoreSpec] promises that a store behaves like a map from
    identifiers to items listed newest first, [IdempotentSpec] that its idempotent
    create keeps one record per key, [RecordsSpec] what every operation does to the
    records, [CodecSpec] that a codec round-trips positions. The service is verified against these classes; the memory store and
    the signed codec implement them. *)
From S2P Require Import Prelude GoText GoEncoding GoTime Sha256 Errors World Item Idempotency Cursor CursorFacts Order.

(** ** Operations *)

(** [item.Store]. The two last fields are the results of the type assertions to
    [item.CursorStore] and [item.IdempotentCreateStore]. *)
Record StoreOps (S : Type) := mkStoreOps {
  st_create : option context -> Item -> M S Item;
  st_get : option context -> uuid -> M S Item;
  st_list : option context -> ListParams -> M S (list Item);
  st_list_after : option (option context -> CursorListParams -> M S (list Item));
  st_create_idempotent : option (option context -> Item -> bytes -> bytes -> M S (Item * bool));
}.
Arguments mkStoreOps {S} _ _ _ _ _.
Arguments st_create {S} _ _ _.
Arguments st_get {S} _ _ _.
Arguments st_list {S} _ _ _.
Arguments st_list_after {S} _.
Arguments st_create_idempotent {S} _.

(** [item.CursorCodec]. *)
Record CodecOps (S : Type) := mkCodecOps {
  co_encode : CursorPosition -> M S bytes;
  co_decode : bytes -> M S CursorPosition;
}.
Arguments mkCodecOps {S} _ _.
Arguments co_encode {S} _ _.
Arguments co_decode {S} _ _.

(** ** Specifications *)

(** The rows that follow a position, or all of them. *)
Definition rows_after (after : option CursorPosition) (items : list Item) : list Item :=
  match after with
  | None => items
  | Some p => List.filter (beyond p) items
  end.

(** A position that a store accepts: a real identifier and a canonical time. *)
Definition position_ok (p : CursorPosition) : Prop :=
  canonical_time (cp_created_at p) /\ Validate p = Ok tt.

Definition after_ok (after : option CursorPosition) : Prop :=
  match after with None => True | Some p => position_ok p end.

(** Items that agree on everything but the time of creation. *)
Definition same_but_time (i j : Item) : Prop := ID j = ID i /\ Name j = Name i /\ Description j = Description i.

(** A store may be unable to hold some items, keeps times to a precision of its own
    ([st_keep] is the item as stored), and continues after the positions that it can
    tell apart ([st_seekable]), those of its items among them. *)
Class StoreSpec {S : Type} (ops : StoreOps S) := {
  st_inv : S -> Prop;
  st_view : S -> gmap uuid Item;
  st_storable : Item -> Prop;
  st_keep : Item -> Item;
  st_seekable : CursorPosition -> Prop;
  st_items_ok s : st_inv s -> items_ok (st_view s);
  st_keep_ok i : st_storable i -> canonical_item i -> same_but_time i (st_keep i) /\ canonical_item (st_keep i);
  st_seek_item s i : st_inv s -> st_view s !! ID i = Some i -> st_seekable (item_position i);
  st_create_new ctx i w :
    live ctx -> st_inv (w_store w) -> canonical_item i -> st_storable i ->
    st_view (w_store w) !! ID i = None ->
    exists w', st_create ops (Some ctx) i w = (Ok (st_keep i), w')
      /\ st_inv (w_store w') /\ st_view (w_store w') = <[ID i := st_keep i]> (st_view (w_store w));
  st_create_duplicate ctx i w :
    live ctx -> st_inv (w_store w) -> st_storable i -> is_Some (st_view (w_store w) !! ID i) ->
    exists e w', st_create ops (Some ctx) i w = (Err e, w') /\ Is e ErrConflict = true
      /\ st_inv (w_store w') /\ st_view (w_store w') = st_view (w_store w);
  st_get_spec ctx id w :
    live ctx -> st_inv (w_store w) -> id <> uuid_nil ->
    exists r w', st_get ops (Some ctx) id w = (r, w')
      /\ st_inv (w_store w') /\ st_view (w_store w') = st_view (w_store w)
      /\ match st_view (w_store w) !! id with
         | Some i => r = Ok i
         | None => exists e, r = Err e /\ Is e ErrNotFound = true
         end;
  st_list_spec ctx limit offset w :
    live ctx -> st_inv (w_store w) -> 0 <= limit <= MaxPageSize + 1 -> 0 <= offset ->
    exists w', st_list ops (Some ctx) (mkListParams limit offset) w
        = (Ok (take (Z.to_nat limit) (drop (Z.to_nat offset) (newest (st_view (w_store w))))), w')
      /\ st_inv (w_store w') /\ st_view (w_store w') = st_view (w_store w);
  st_after_spec list_after ctx limit after w :
    st_list_after ops = Some list_after ->
    live ctx -> st_inv (w_store w) -> 0 <= limit <= MaxPageSize + 1 -> after_ok after ->
    (forall p, after = Some p -> st_seekable p) ->
    exists w', list_after (Some ctx) (mkCursorListParams limit after) w
        = (Ok (take (Z.to_nat limit) (rows_after after (newest (st_view (w_store w))))), w')
      /\ st_inv (w_store w') /\ st_view (w_store w') = st_view (w_store w);
}.

(** The argument formats of an idempotent create: an acceptable key and the
    hexadecimal text of a digest. *)
Definition fingerprint_ok (fp : bytes) : Prop := exists digest : array 32, fp = hex_encode (arr_bytes digest).

(** [st_record s key] is the record of [key]: the fingerprint of its request and the
    item it created. The laws speak of a period shorter than the retention of a
    record, so that records do not expire. [st_free] is a state in which a new key
    can be taken, [st_calm] one in which no other request holds the key. *)
Class IdempotentSpec {S : Type} (ops : StoreOps S) `{!StoreSpec ops} := {
  st_idem : option context -> Item -> bytes -> bytes -> M S (Item * bool);
  st_idem_capable : st_create_idempotent ops = Some st_idem;
  st_record : S -> bytes -> option (bytes * uuid);
  st_free : S -> Prop;
  st_calm : S -> Prop;
  st_idem_fresh ctx i key fp w :
    live ctx -> st_inv (w_store w) -> canonical_item i -> st_storable i -> ID i <> uuid_nil ->
    ValidateIdempotencyKey key = Ok tt -> fingerprint_ok fp -> st_free (w_store w) ->
    st_view (w_store w) !! ID i = None -> st_record (w_store w) key = None ->
    exists w', st_idem (Some ctx) i key fp w = (Ok (st_keep i, false), w')
      /\ st_inv (w_store w') /\ st_view (w_store w') = <[ID i := st_keep i]> (st_view (w_store w))
      /\ st_record (w_store w') key = Some (fp, ID i) /\ st_calm (w_store w');
  st_idem_taken ctx i key fp w :
    live ctx -> st_inv (w_store w) -> st_storable i -> ID i <> uuid_nil ->
    ValidateIdempotencyKey key = Ok tt -> fingerprint_ok fp -> st_free (w_store w) ->
    is_Some (st_view (w_store w) !! ID i) -> st_record (w_store w) key = None ->
    exists e w', st_idem (Some ctx) i key fp w = (Err e, w') /\ Is e ErrConflict = true
      /\ st_inv (w_store w') /\ st_view (w_store w') = st_view (w_store w)
      /\ st_record (w_store w') key = None;
  st_idem_known ctx i key fp fp' id w :
    live ctx -> st_inv (w_store w) -> st_calm (w_store w) -> ID i <> uuid_nil ->
    ValidateIdempotencyKey key = Ok tt -> fingerprint_ok fp ->
    st_record (w_store w) key = Some (fp', id) ->
    exists r w', st_idem (Some ctx) i key fp w = (r, w')
      /\ st_inv (w_store w') /\ st_view (w_store w') = st_view (w_store w)
      /\ if decide (fp = fp') then
           match st_view (w_store w) !! id with
           | Some j => r = Ok (j, true)
           | None => r = Err (Sentinel ErrIdempotencyState)
           end
         else r = Err (Sentinel ErrIdempotencyConflict);
}.

(** Two states with the same records and the same room for more. *)
Definition unmoved {S X : Type} (keys : S -> X) (room : nat -> S -> Prop) (s s' : S) : Prop :=
  keys s' = keys s /\ forall n, room n s -> room n s'.

(** All the records of a store, by the digest of their key, and what each operation
    does to them. [rs_room n] is a state in which no other request is under way and [n]
    more keys can be taken, one after the other. *)
Class RecordsSpec {H : Hash256} {S : Type} (ops : StoreOps S) `{!StoreSpec ops, !IdempotentSpec ops} := {
  rs_keys : S -> gmap bytes (bytes * uuid);
  rs_room : nat -> S -> Prop;
  rs_room_less n s : rs_room (Datatypes.S n) s -> rs_room n s;
  rs_room_free n s : rs_room (Datatypes.S n) s -> st_free s;
  rs_room_calm n s : rs_room n s -> st_calm s;
  rs_record s key :
    st_record s key = (fun p => (hex_encode (fst p), snd p)) <$> rs_keys s !! arr_bytes (Sum256 key);
  rs_create ctx i w r w' :
    live ctx -> st_inv (w_store w) -> st_storable i ->
    st_create ops (Some ctx) i w = (r, w') -> unmoved rs_keys rs_room (w_store w) (w_store w');
  rs_get ctx id w r w' :
    live ctx -> st_inv (w_store w) -> id <> uuid_nil ->
    st_get ops (Some ctx) id w = (r, w') -> unmoved rs_keys rs_room (w_store w) (w_store w');
  rs_list ctx limit offset w r w' :
    live ctx -> st_inv (w_store w) -> 0 <= limit <= MaxPageSize + 1 -> 0 <= offset ->
    st_list ops (Some ctx) (mkListParams limit offset) w = (r, w') ->
    unmoved rs_keys rs_room (w_store w) (w_store w');
  rs_after list_after ctx limit after w r w' :
    st_list_after ops = Some list_after ->
    live ctx -> st_inv (w_store w) -> 0 <= limit <= MaxPageSize + 1 -> after_ok after ->
    (forall p, after = Some p -> st_seekable p) ->
    list_after (Some ctx) (mkCursorListParams limit after) w = (r, w') ->
    unmoved rs_keys rs_room (w_store w) (w_store w');
  rs_idem_fresh ctx i key (digest : array 32) n w r w' :
    live ctx -> st_inv (w_store w) -> canonical_item i -> st_storable i -> ID i <> uuid_nil ->
    ValidateIdempotencyKey key = Ok tt -> rs_room (Datatypes.S n) (w_store w) ->
    st_view (w_store w) !! ID i = None -> st_record (w_store w) key = None ->
    st_idem (Some ctx) i key (hex_encode (arr_bytes digest)) w = (r, w') ->
    rs_keys (w_store w') = <[arr_bytes (Sum256 key) := (arr_bytes digest, ID i)]> (rs_keys (w_store w))
    /\ rs_room n (w_store w');
  rs_idem_other ctx i key (digest : array 32) w r w' :
    live ctx -> st_inv (w_store w) -> st_storable i -> ID i <> uuid_nil ->
    ValidateIdempotencyKey key = Ok tt -> rs_room 1 (w_store w) ->
    is_Some (st_view (w_store w) !! ID i) \/ is_Some (st_record (w_store w) key) ->
    st_idem (Some ctx) i key (hex_encode (arr_bytes digest)) w = (r, w') ->
    unmoved rs_keys rs_room (w_store w) (w_store w');
}.

(** A codec that round-trips the positions satisfying [cs_ok]: its tokens are
    non-empty and short enough to be sent back, and it keeps no state. *)
Class CodecSpec {S : Type} (codec : CodecOps S) := {
  cs_ok : CursorPosition -> Prop;
  cs_decodes_to : bytes -> CursorPosition -> Prop;
  cs_encode p w :
    position_ok p -> cs_ok p ->
    exists token w', co_encode codec p w = (Ok token, w') /\ w_store w' = w_store w
      /\ 0 < Z.of_nat (length token) <= MaxCursorBytes /\ cs_decodes_to token p;
  cs_decode token p w :
    cs_decodes_to token p ->
    exists w', co_decode codec token w = (Ok p, w') /\ w_store w' = w_store w;
}.

(** ** The signed codec *)

Section Signed.
Context {H : Hash256} (sysnow : nat -> time) {S : Type}.

(** The two methods of a [*SignedCursorCodec]. *)
Definition signed_codec (codec : option SignedCursorCodec) : CodecOps S :=
  mkCodecOps (Encode sysnow codec) (Decode sysnow codec).
End Signed.

Section SignedSpec.
Context {H : Hash256} (sysnow : nat -> time) {S : Type} (codec : SignedCursorCodec).
Context (Hclock : clock_sane sysnow codec) (Httl : ttl_ok codec).

(** No two readings of the clock are a token's lifetime apart. *)
Context (Hfresh : forall t t', cc_ttl codec = 0 \/
  instant (now_at sysnow codec t') < instant (now_at sysnow codec t) + cc_ttl codec).

(** The signed codec keeps the promise of [CodecSpec] during the lifetime of a
    token, for positions that are not in the future. *)
#[export, refine] Instance signed_codec_spec : CodecSpec (signed_codec sysnow (S := S) (Some codec)) := {|
  cs_ok p := forall t, cc_ttl codec = 0 \/
    instant (cp_created_at p) < instant (now_at sysnow codec t) + cc_ttl codec;
  cs_decodes_to token p := position_ok p /\ exists t, token = issued_token codec p (now_at sysnow codec t);
|}.
Proof.
  - intros p w [Hc Hv] Hok. exists (issued_token codec p (now_at sysnow codec (w_tick w))).
    eexists. cbn [signed_codec co_encode]. rewrite Encode_run by done. split.
    { destruct ((0 <? cc_ttl codec) && _) eqn:E; [|done]. bool_simpl.
      destruct (Hok (w_tick w)); lia. }
    split; [done|]. rewrite issued_token_length. split; [done|]. split; [done|by eexists].
  - intros token p w [[Hc Hv] [t ->]]. cbn [signed_codec co_decode].
    pose proof (Decode_issued sysnow codec p t w Hclock Httl Hc Hv) as E.
    pose proof (Decode_store sysnow codec (issued_token codec p (now_at sysnow codec t)) w) as Es.
    destruct (Decode _ _ _ w) as [r w']. exists w'. cbn [fst snd] in *. split; [|done]. subst r.
    destruct ((0 <? cc_ttl codec) && _) eqn:E; [|done]. bool_simpl.
    destruct (Hfresh t (w_tick w)); lia.
Defined.
End SignedSpec.
