(* ===== verification/Memory.v ===== *)
(** * The in-memory store (internal/item/memory)

    The state behind a [*Store] and its operations. A nil map and an empty one are
    the same [gmap]; the state of a nil receiver is [None]. Iterating over a Go map
    takes the entries in an unspecified order, which the oracle [range_items]
    chooses anew at every iteration. *)
From S2P Require Import Prelude GoText GoEncoding GoTime Sha256 Errors World Item Idempotency Cursor Order Store.

Record idempotencyEntry := mkEntry {
  ie_fingerprint : array 32;
  ie_itemID : uuid;
  ie_expiresAt : time;
}.

Record MemoryStore := mkMemory {
  ms_items : gmap uuid Item;
  ms_idempotency : gmap (array 32) idempotencyEntry;
  ms_inflight : gset (array 32);
  ms_maxEntries : Z;
  ms_clock : option (nat -> time);
}.

Definition set_items (st : MemoryStore) (items : gmap uuid Item) : MemoryStore :=
  mkMemory items (ms_idempotency st) (ms_inflight st) (ms_maxEntries st) (ms_clock st).
Definition set_idempotency (st : MemoryStore) (m : gmap (array 32) idempotencyEntry) : MemoryStore :=
  mkMemory (ms_items st) m (ms_inflight st) (ms_maxEntries st) (ms_clock st).
Definition set_inflight (st : MemoryStore) (s : gset (array 32)) : MemoryStore :=
  mkMemory (ms_items st) (ms_idempotency st) s (ms_maxEntries st) (ms_clock st).

(** [Option], [WithClock], [NewStore] and [New]. *)
Definition MemoryOption : Type := MemoryStore -> MemoryStore.
Definition WithClock (clock : option (nat -> time)) : MemoryOption := fun st =>
  mkMemory (ms_items st) (ms_idempotency st) (ms_inflight st) (ms_maxEntries st) clock.
Definition NewStore (options : list (option MemoryOption)) : MemoryStore :=
  fold_left (fun st o => match o with None => st | Some f => f st end) options
    (mkMemory ∅ ∅ ∅ MaxIdempotencyEntries None).
Definition New : MemoryStore := NewStore [].

Section Memory.
Context {H : Hash256} (sysnow : nat -> time).
Context (range_items : nat -> gmap uuid Item -> list Item).

Abbreviation state := (option MemoryStore).

(** Run [k] on the state of a non-nil receiver, or fail with [e]. *)
Definition with_store {A} (e : sentinel) (k : MemoryStore -> M state A) : M state A :=
  s <-- load;;
  match s with None => fail (Sentinel e) | Some st => k st end.

(** ** Items *)

Definition Create (ctx : option context) (value : Item) : M state Item :=
  contextError ctx;;;
  with_store ErrStoreUnavailable (fun st =>
    contextError ctx;;;
    match ms_items st !! ID value with
    | Some _ => fail (Wrapf [] (Sentinel ErrConflict) (&": id " ++ uuid_string (ID value)))
    | None =>
      save (Some (set_items st (<[ID value := value]> (ms_items st))));;;
      ret value
    end).

Definition Get (ctx : option context) (id : uuid) : M state Item :=
  contextError ctx;;;
  with_store ErrStoreUnavailable (fun st =>
    if bool_decide (id = uuid_nil) then fail (ValidationError &"id" &"must not be nil")
    else
      contextError ctx;;;
      match ms_items st !! id with
      | None => fail (Wrapf [] (Sentinel ErrNotFound) (&": id " ++ uuid_string id))
      | Some value => ret value
      end).

(** The rows of a page: at most [limit] of [values] from index [start]. *)
Definition page_rows (values : list Item) (start limit : Z) : list Item :=
  if (limit =? 0) || (Z.of_nat (length values) <=? start) then []
  else
    let remaining := Z.of_nat (length values) - start in
    let count := if remaining <? limit then remaining else limit in
    take (Z.to_nat count) (drop (Z.to_nat start) values).

Definition List (ctx : option context) (params : ListParams) : M state (list Item) :=
  contextError ctx;;;
  with_store ErrStoreUnavailable (fun st =>
    if (lp_limit params <? 0) || (MaxPageSize + 1 <? lp_limit params)
    then fail (ValidationError &"limit" &"is outside the supported range")
    else if lp_offset params <? 0
    then fail (ValidationError &"offset" &"must be zero or positive")
    else
      values <-- observe (fun tick => range_items tick (ms_items st));;
      contextError ctx;;;
      ret (page_rows (sort_slice newer_text values) (lp_offset params) (lp_limit params))).

(** The index of the first row beyond a position, or the number of rows. *)
Fixpoint first_beyond (after : CursorPosition) (values : list Item) (index : Z) : Z :=
  match values with
  | [] => index
  | value :: rest => if beyond after value then index else first_beyond after rest (index + 1)
  end.

Definition ListAfter (ctx : option context) (params : CursorListParams) : M state (list Item) :=
  contextError ctx;;;
  with_store ErrCursorUnavailable (fun st =>
    if (clp_limit params <? 0) || (MaxPageSize + 1 <? clp_limit params)
    then fail (ValidationError &"limit" &"is outside the supported range")
    else
      of_result (match clp_after params with
                 | None => Ok tt
                 | Some after => match Validate after with
                                 | Err err => Err (Joined [Sentinel ErrCursorState; err])
                                 | Ok _ => Ok tt
                                 end
                 end);;;
      values <-- observe (fun tick => range_items tick (ms_items st));;
      contextError ctx;;;
      let values := sort_slice newer values in
      let start := match clp_after params with
                   | None => 0
                   | Some after => first_beyond after values 0
                   end in
      ret (page_rows values start (clp_limit params))).

(** ** Idempotent creates *)

Definition decodeDigest (value : bytes) : option (array 32) :=
  if negb (Nat.eqb (length value) 64) then None
  else
    match hex_decode value with
    | None => None
    | Some d => if negb (Nat.eqb (length d) 32) then None else Some (array_of 32 d)
    end.

Definition validateRequest (key fingerprint : bytes) (value : Item) : result unit :=
  rbind (ValidateIdempotencyKey key) (fun _ =>
    if bool_decide (ID value = uuid_nil) then Err (Sentinel ErrIdempotencyState)
    else match decodeDigest fingerprint with
         | None => Err (Sentinel ErrIdempotencyState)
         | Some _ => Ok tt
         end).

(** [Store.now], on the clock of the store. *)
Definition now (clock : option (nat -> time)) : M state time :=
  match clock with
  | None => t <-- observe sysnow;; ret (to_utc t)
  | Some clock =>
    value <-- observe clock;;
    if IsZero value then t <-- observe sysnow;; ret (to_utc t) else ret (to_utc value)
  end.

Definition maxIdempotencyEntries (st : MemoryStore) : Z :=
  if 0 <? ms_maxEntries st then ms_maxEntries st else MaxIdempotencyEntries.

Definition cleanupIdempotencyLocked (now : time) (st : MemoryStore) : MemoryStore :=
  set_idempotency st (filter (fun p => Before now (ie_expiresAt (snd p)) = true) (ms_idempotency st)).

Definition getItem (ctx : option context) (id : uuid) : M state Item :=
  contextError ctx;;;
  contextError ctx;;;
  s <-- load;;
  match s ≫= fun st => ms_items st !! id with
  | None => fail (Sentinel ErrNotFound)
  | Some value => ret value
  end.

Definition modify (f : MemoryStore -> MemoryStore) : M state unit :=
  s <-- load;; save (f <$> s).

Definition clearInFlight (keyHash : array 32) : M state unit :=
  modify (fun st => set_inflight st (ms_inflight st ∖ {[keyHash]})).

(** The first critical section of [CreateIdempotent]: an earlier item to replay, or
    a reservation for this key. *)
Definition reserve (ctx : option context) (keyHash requestHash : array 32) (now : time)
  : M state (option Item) :=
  modify (cleanupIdempotencyLocked now);;;
  with_store ErrIdempotencyUnavailable (fun st =>
    match ms_idempotency st !! keyHash with
    | Some existing =>
      if negb (bool_decide (ie_fingerprint existing = requestHash))
      then fail (Sentinel ErrIdempotencyConflict)
      else
        found <-- attempt (getItem ctx (ie_itemID existing));;
        match found with
        | Ok value => ret (Some value)
        | Err err => if Is err Canceled || Is err DeadlineExceeded then fail err
                     else fail (Sentinel ErrIdempotencyState)
        end
    | None =>
      if bool_decide (keyHash ∈ ms_inflight st) then fail (Sentinel ErrIdempotencyInProgress)
      else if maxIdempotencyEntries st <=? Z.of_nat (size (ms_idempotency st)) + Z.of_nat (size (ms_inflight st))
      then fail (Sentinel ErrIdempotencyUnavailable)
      else
        save (Some (set_inflight st (ms_inflight st ∪ {[keyHash]})));;;
        ret None
    end).

(** The last critical section: the reservation becomes a replay record. *)
Definition record_created (keyHash requestHash : array 32) (id : uuid) : M state unit :=
  with_store ErrIdempotencyUnavailable (fun st =>
    t <-- now (ms_clock st);;
    let st := set_inflight st (ms_inflight st ∖ {[keyHash]}) in
    save (Some (set_idempotency st
      (<[keyHash := mkEntry requestHash id (Add t IdempotencyRecordRetention)]> (ms_idempotency st))))).

Definition CreateIdempotent (ctx : option context) (value : Item) (key fingerprint : bytes)
  : M state (Item * bool) :=
  contextError ctx;;;
  of_result (validateRequest key fingerprint value);;;
  with_store ErrIdempotencyUnavailable (fun st =>
    let keyHash := Sum256 key in
    let requestHash := default (zero_array 32) (decodeDigest fingerprint) in
    t <-- now (ms_clock st);;
    found <-- reserve ctx keyHash requestHash t;;
    match found with
    | Some existing => ret (existing, true)
    | None =>
      outcome <-- attempt (Create ctx value);;
      match outcome with
      | Err err => clearInFlight keyHash;;; fail err
      | Ok created =>
        if bool_decide (ID created = uuid_nil)
        then clearInFlight keyHash;;; fail (Sentinel ErrIdempotencyState)
        else
          record_created keyHash requestHash (ID created);;;
          contextError ctx;;;
          ret (created, false)
      end
    end).

(** The methods of [*Store] behind the service's interfaces. *)
Definition memory_ops : StoreOps state :=
  mkStoreOps Create Get List (Some ListAfter) (Some CreateIdempotent).
End Memory.
