(* ===== verification/MemoryFacts.v ===== *)
(** * The in-memory store keeps the promises of a store

    Listings are the requested window of the items newest first, however Go
    iterates over the map; identifiers are unique; idempotent creates keep one
    record per key. *)
From S2P Require Import Prelude GoText GoEncoding GoTime Sha256 Errors World Item Idempotency Cursor CursorFacts Order Store Memory.

(** ** Windows of a list *)

Lemma page_rows_window values start limit :
  0 <= start -> 0 <= limit ->
  page_rows values start limit = take (Z.to_nat limit) (drop (Z.to_nat start) values).
Proof.
  intros Hs Hl. unfold page_rows. destruct (Z.eqb_spec limit 0) as [->|Hz]; [done|].
  destruct (Z.leb_spec (Z.of_nat (length values)) start); cbn [orb].
  - rewrite drop_ge by lia. by rewrite take_nil.
  - destruct (Z.ltb_spec (Z.of_nat (length values) - start) limit); [|done].
    rewrite !take_ge; [done|rewrite length_drop; lia..].
Qed.

Lemma first_beyond_range after values k :
  k <= first_beyond after values k <= k + Z.of_nat (length values).
Proof.
  revert k. induction values as [|v values IH]; intros k; simpl; [lia|].
  destruct (beyond after v); [lia|]. specialize (IH (k + 1)). lia.
Qed.

Lemma first_beyond_shift after values k :
  first_beyond after values k = k + first_beyond after values 0.
Proof.
  revert k. induction values as [|v values IH]; intros k; simpl; [lia|].
  destruct (beyond after v); [lia|]. rewrite (IH (k + 1)), (IH (0 + 1)). lia.
Qed.

(** In a sorted listing the rows from the first one beyond a position are exactly
    the rows beyond it. *)
Lemma first_beyond_filter after values :
  canonical_time (cp_created_at after) -> Forall canonical_item values -> newest_first values ->
  drop (Z.to_nat (first_beyond after values 0)) values = List.filter (beyond after) values.
Proof.
  intros Ha Hc Hs. induction Hs as [|v values Hs IH Hv]; [done|].
  apply Forall_cons in Hc as [Cv Cr]. simpl. destruct (beyond after v) eqn:E.
  - simpl. rewrite filter_all; [done|]. intros x Hx. rewrite Forall_forall in Hv, Cr.
    apply (beyond_trans after v x); auto.
  - rewrite first_beyond_shift. pose proof (first_beyond_range after values 0).
    rewrite Z2Nat.inj_add by lia. simpl. by apply IH.
Qed.

Section Facts.
Context {H : Hash256} (sysnow : nat -> time).
Context (range_items : nat -> gmap uuid Item -> list Item).
Context (range_perm : forall tick m, range_items tick m ≡ₚ (map_to_list m).*2).

Abbreviation state := (option MemoryStore).
Abbreviation ops := (memory_ops sysnow range_items).

(** ** Items *)

Lemma memory_Create_run ctx i (w : world state) st :
  live ctx -> w_store w = Some st ->
  Create (Some ctx) i w =
  match ms_items st !! ID i with
  | Some _ => (Err (Wrapf [] (Sentinel ErrConflict) (&": id " ++ uuid_string (ID i))),
               World (2 + w_tick w) (Some st))
  | None => (Ok i, World (2 + w_tick w) (Some (set_items st (<[ID i := i]> (ms_items st)))))
  end.
Proof.
  intros Hl E. unfold Create, with_store. unfold bind at 1. rewrite contextError_live by done.
  m_unfold. rewrite E; cbn [w_store w_tick]. rewrite contextError_live by done. cbn [w_tick].
  by destruct (ms_items st !! ID i).
Qed.

Lemma memory_Get_run ctx id (w : world state) st :
  live ctx -> w_store w = Some st -> id <> uuid_nil ->
  Get (Some ctx) id w =
  (match ms_items st !! id with
   | Some i => Ok i
   | None => Err (Wrapf [] (Sentinel ErrNotFound) (&": id " ++ uuid_string id))
   end, World (2 + w_tick w) (Some st)).
Proof.
  intros Hl E Hid. unfold Get, with_store. unfold bind at 1. rewrite contextError_live by done.
  m_unfold. rewrite E; cbn [w_store w_tick]; rewrite bool_decide_false by done. rewrite contextError_live by done.
  by destruct (ms_items st !! id).
Qed.

Lemma memory_List_run ctx limit offset (w : world state) st :
  live ctx -> w_store w = Some st -> items_ok (ms_items st) ->
  0 <= limit <= MaxPageSize + 1 -> 0 <= offset ->
  List range_items (Some ctx) (mkListParams limit offset) w =
  (Ok (take (Z.to_nat limit) (drop (Z.to_nat offset) (newest (ms_items st)))),
   World (3 + w_tick w) (Some st)).
Proof.
  intros Hl E Hm Hlim Hoff. unfold List, with_store. unfold bind at 1. rewrite contextError_live by done.
  m_unfold. rewrite E; cbn [w_store w_tick]. cbn [lp_limit lp_offset]. rewrite !(proj2 (Z.ltb_ge _ _)) by lia. cbn [orb].
  rewrite contextError_live by done. cbn [w_tick w_store].
  rewrite (sort_slice_ext newer_text newer) by (intros; apply newer_text_newer).
  rewrite (sort_any_order (ms_items st)) by (done || apply range_perm). by rewrite page_rows_window by lia.
Qed.

Lemma ListAfter_run ctx limit after (w : world state) st :
  live ctx -> w_store w = Some st -> items_ok (ms_items st) ->
  0 <= limit <= MaxPageSize + 1 -> after_ok after ->
  ListAfter range_items (Some ctx) (mkCursorListParams limit after) w =
  (Ok (take (Z.to_nat limit) (rows_after after (newest (ms_items st)))),
   World (3 + w_tick w) (Some st)).
Proof.
  intros Hl E Hm Hlim Ha. unfold ListAfter, with_store. unfold bind at 1. rewrite contextError_live by done.
  m_unfold. rewrite E; cbn [w_store w_tick]. cbn [clp_limit clp_after]. rewrite !(proj2 (Z.ltb_ge _ _)) by lia. cbn [orb].
  assert (match after with
          | None => Ok tt
          | Some a => match Validate a with
                      | Err err => Err (Joined [Sentinel ErrCursorState; err])
                      | Ok _ => Ok tt
                      end
          end = Ok tt) as ->.
  { destruct after as [p|]; [|done]. destruct Ha as [_ Hv]. by rewrite Hv. }
  rewrite contextError_live by done. cbn [w_tick w_store]. rewrite (sort_any_order (ms_items st)) by (done || apply range_perm).
  destruct after as [p|]; simpl; [|by rewrite page_rows_window by lia].
  pose proof (first_beyond_range p (newest (ms_items st)) 0).
  rewrite page_rows_window by lia. rewrite first_beyond_filter; [done|apply Ha| |by apply newest_sorted].
  apply Forall_forall. intros i Hi. by eapply newest_canonical.
Qed.

(** Both listings of the memory store, on every branch. An out-of-range limit or
    offset and an invalid position are refused; otherwise the offset listing is
    exactly the window [offset, offset + limit) of the items newest first and the
    keyset listing the first [limit] items strictly beyond the position. Neither
    depends on the order in which Go iterates over the map, and both use the same
    order although one compares the text of identifiers and the other their bytes. *)
Theorem Memory_listings ctx limit offset after (w : world state) st :
  live ctx -> w_store w = Some st -> items_ok (ms_items st) ->
  (forall p, after = Some p -> canonical_time (cp_created_at p)) ->
  let out_of_range := (limit <? 0) || (MaxPageSize + 1 <? limit) in
  fst (List range_items (Some ctx) (mkListParams limit offset) w) =
    (if out_of_range then Err (ValidationError &"limit" &"is outside the supported range")
     else if offset <? 0 then Err (ValidationError &"offset" &"must be zero or positive")
     else Ok (take (Z.to_nat limit) (drop (Z.to_nat offset) (newest (ms_items st)))))
  /\ fst (ListAfter range_items (Some ctx) (mkCursorListParams limit after) w) =
    (if out_of_range then Err (ValidationError &"limit" &"is outside the supported range")
     else match after ≫= fun p => match Validate p with Ok _ => None | Err e => Some e end with
          | Some e => Err (Joined [Sentinel ErrCursorState; e])
          | None => Ok (take (Z.to_nat limit) (rows_after after (newest (ms_items st))))
          end).
Proof.
  intros Hl E Hm Ha out_of_range. destruct out_of_range eqn:Eo.
  { split; [unfold List|unfold ListAfter]; unfold with_store, bind at 1; rewrite contextError_live by done;
      m_unfold; rewrite E; cbn [w_store lp_limit clp_limit]; fold out_of_range; by rewrite Eo. }
  pose proof Eo as Hr. unfold out_of_range in Hr. apply orb_false_iff in Hr as [?%Z.ltb_ge ?%Z.ltb_ge].
  split.
  - destruct (offset <? 0) eqn:Eoff.
    + unfold List, with_store. unfold bind at 1. rewrite contextError_live by done.
      m_unfold. rewrite E. cbn [w_store lp_limit lp_offset]. fold out_of_range. by rewrite Eo, Eoff.
    + apply Z.ltb_ge in Eoff. by rewrite (memory_List_run _ _ _ _ st).
  - destruct (after ≫= _) as [e|] eqn:Ee.
    + destruct after as [p|]; [|done]. cbn [mbind option_bind] in Ee.
      destruct (Validate p) eqn:Ev; [done|]. injection Ee as ->.
      unfold ListAfter, with_store. unfold bind at 1. rewrite contextError_live by done.
      m_unfold. rewrite E. cbn [w_store clp_limit clp_after]. fold out_of_range. by rewrite Eo, Ev.
    + rewrite (ListAfter_run _ _ _ _ st); try done.
      destruct after as [p|]; [|done]. split; [by apply Ha|].
      cbn [mbind option_bind] in Ee. by destruct (Validate p) as [[]|].
Qed.

(** ** Idempotent creates *)

Lemma decodeDigest_encode (d : array 32) : decodeDigest (hex_encode (arr_bytes d)) = Some d.
Proof.
  unfold decodeDigest. rewrite hex_encode_length, arr_length, hex_decode_encode, arr_length. simpl.
  by rewrite array_of_arr_bytes.
Qed.

Lemma decodeDigest_Some fp d : decodeDigest fp = Some d -> length fp = 64%nat.
Proof. unfold decodeDigest. case_match eqn:E; [done|]. bool_simpl. by apply Nat.eqb_eq in E. Qed.

Lemma validateRequest_ok key (d : array 32) i :
  ValidateIdempotencyKey key = Ok tt -> ID i <> uuid_nil ->
  validateRequest key (hex_encode (arr_bytes d)) i = Ok tt.
Proof.
  intros Hk Hi. unfold validateRequest. rewrite Hk. cbn [rbind].
  by rewrite bool_decide_false, decodeDigest_encode by done.
Qed.

(** The clock of the store, and a run of it shorter than the retention. *)
Context (clock : option (nat -> time)).
Definition store_clock : nat -> time := match clock with None => sysnow | Some c => c end.
Context (Hclock : forall t, time_wf (store_clock t) /\ 0 <= t_sec (store_clock t) < 2 ^ 62
  /\ IsZero (store_clock t) = false).
Context (Hwindow : forall t t',
  instant (to_utc (store_clock t')) < instant (to_utc (store_clock t)) + IdempotencyRecordRetention).

Definition entry_fresh (e : idempotencyEntry) : Prop :=
  forall t, Before (to_utc (store_clock t)) (ie_expiresAt e) = true.

Record memory_inv (st : MemoryStore) : Prop := {
  mi_items : items_ok (ms_items st);
  mi_clock : ms_clock st = clock;
  mi_fresh : map_Forall (fun _ e => entry_fresh e) (ms_idempotency st);
}.

Lemma now_run (w : world state) :
  now sysnow clock w = (Ok (to_utc (store_clock (w_tick w))), World (S (w_tick w)) (w_store w)).
Proof.
  destruct (Hclock (w_tick w)) as (_ & _ & Hz). unfold now, store_clock in *.
  destruct clock as [c|]; m_unfold; [by rewrite Hz|done].
Qed.

Lemma new_entry_fresh fp id t :
  entry_fresh (mkEntry fp id (Add (to_utc (store_clock t)) IdempotencyRecordRetention)).
Proof.
  intros t'. cbn [ie_expiresAt]. destruct (Hclock t) as (Hw & Hb & _), (Hclock t') as (Hw' & _).
  destruct (Add_canonical (to_utc (store_clock t)) IdempotencyRecordRetention) as [Hc Hi];
    [by apply to_utc_canonical|done|cbn [to_utc t_sec]; lia|].
  rewrite Before_instant, Hi by (done || by apply to_utc_canonical). apply Z.ltb_lt, Hwindow.
Qed.

Lemma cleanup_fresh st t :
  memory_inv st -> cleanupIdempotencyLocked (to_utc (store_clock t)) st = st.
Proof.
  intros Hi. unfold cleanupIdempotencyLocked, set_idempotency.
  rewrite map_filter_id; [by destruct st|]. intros k e Hk. exact (mi_fresh st Hi k e Hk t).
Qed.

Lemma new_record_inv st kh fp id t :
  memory_inv st ->
  memory_inv (set_idempotency st
    (<[kh := mkEntry fp id (Add (to_utc (store_clock t)) IdempotencyRecordRetention)]> (ms_idempotency st))).
Proof.
  intros []. split; [done|done|]. cbn [set_idempotency ms_idempotency].
  apply map_Forall_insert_2; [apply new_entry_fresh|done].
Qed.

Lemma inflight_inv st s : memory_inv st -> memory_inv (set_inflight st s).
Proof. by intros []; split. Qed.

Lemma insert_item_inv st i :
  memory_inv st -> canonical_item i -> memory_inv (set_items st (<[ID i := i]> (ms_items st))).
Proof.
  intros [] Hc. split; [|done|done]. cbn [set_items ms_items]. by apply map_Forall_insert_2.
Qed.

(** What the first critical section finds for a key. *)
Definition has_room (st : MemoryStore) : Prop :=
  Z.of_nat (size (ms_idempotency st)) + Z.of_nat (size (ms_inflight st)) < maxIdempotencyEntries st.

Lemma reserve_free ctx kh rh t (w : world state) st :
  memory_inv st -> w_store w = Some st -> ms_idempotency st !! kh = None ->
  kh ∉ ms_inflight st -> has_room st ->
  reserve ctx kh rh (to_utc (store_clock t)) w
  = (Ok None, World (w_tick w) (Some (set_inflight st (ms_inflight st ∪ {[kh]})))).
Proof.
  intros Hi E Hk Hf Hr. unfold reserve, modify, with_store. m_unfold. rewrite E.
  cbn [fmap option_fmap option_map w_store w_tick]. rewrite cleanup_fresh by done. rewrite Hk.
  rewrite bool_decide_false by done. unfold has_room in Hr. by rewrite (proj2 (Z.leb_gt _ _)).
Qed.

Lemma reserve_known ctx kh rh t (w : world state) st e :
  live ctx -> memory_inv st -> w_store w = Some st -> ms_idempotency st !! kh = Some e ->
  exists r w', reserve (Some ctx) kh rh (to_utc (store_clock t)) w = (r, w') /\ w_store w' = Some st
    /\ if decide (ie_fingerprint e = rh) then
         match ms_items st !! ie_itemID e with
         | Some j => r = Ok (Some j)
         | None => r = Err (Sentinel ErrIdempotencyState)
         end
       else r = Err (Sentinel ErrIdempotencyConflict).
Proof.
  intros Hl Hi E Hk. unfold reserve, modify, with_store. m_unfold. rewrite E.
  cbn [fmap option_fmap option_map w_store w_tick]. rewrite cleanup_fresh by done. rewrite Hk.
  destruct (decide (ie_fingerprint e = rh)) as [Ef|Ef].
  - rewrite bool_decide_true by done. cbn [negb]. unfold getItem. m_unfold.
    rewrite contextError_live by done. rewrite contextError_live by done. cbn [w_store mbind option_bind].
    destruct (ms_items st !! ie_itemID e); cbn; by do 2 eexists.
  - rewrite bool_decide_false by done. by do 2 eexists.
Qed.

Lemma record_created_run kh rh id (w : world state) st :
  memory_inv st -> w_store w = Some st ->
  exists t w', record_created sysnow kh rh id w = (Ok tt, w')
    /\ w_store w' = Some (set_idempotency (set_inflight st (ms_inflight st ∖ {[kh]}))
         (<[kh := mkEntry rh id (Add (to_utc (store_clock t)) IdempotencyRecordRetention)]> (ms_idempotency st))).
Proof.
  intros Hi E. unfold record_created, with_store. unfold bind at 1, load at 1. rewrite E.
  rewrite (mi_clock _ Hi). unfold bind. rewrite now_run. by do 2 eexists.
Qed.

(** A create under a key without a record. *)
Lemma CreateIdempotent_fresh ctx i key (d : array 32) (w : world state) st :
  live ctx -> memory_inv st -> w_store w = Some st ->
  ValidateIdempotencyKey key = Ok tt -> ID i <> uuid_nil -> canonical_item i ->
  ms_idempotency st !! Sum256 key = None -> Sum256 key ∉ ms_inflight st -> has_room st ->
  ms_items st !! ID i = None ->
  exists w' st' t,
    CreateIdempotent sysnow (Some ctx) i key (hex_encode (arr_bytes d)) w = (Ok (i, false), w')
    /\ w_store w' = Some st' /\ memory_inv st'
    /\ ms_items st' = <[ID i := i]> (ms_items st)
    /\ ms_inflight st' = ms_inflight st
    /\ ms_idempotency st' = <[Sum256 key := mkEntry d (ID i)
           (Add (to_utc (store_clock t)) IdempotencyRecordRetention)]> (ms_idempotency st)
    /\ maxIdempotencyEntries st' = maxIdempotencyEntries st.
Proof.
  intros Hl Hi E Hk Hid Hc Hkey Hf Hr Hnone. unfold CreateIdempotent, with_store.
  unfold bind at 1. rewrite contextError_live by done.
  unfold bind at 1, of_result. rewrite validateRequest_ok by done.
  unfold bind at 1, load. cbn [w_store]. rewrite E.
  unfold bind at 1. rewrite (mi_clock _ Hi), now_run. rewrite decodeDigest_encode. change (default (zero_array 32) (Some d)) with d. cbn [w_tick w_store].
  unfold bind at 1. rewrite (reserve_free _ _ _ _ _ st) by done. cbn [w_tick].
  unfold bind at 1, attempt at 1.
  set (st1 := set_inflight st (ms_inflight st ∪ {[Sum256 key]})).
  rewrite (memory_Create_run _ _ _ st1) by done. change (ms_items st1) with (ms_items st). rewrite Hnone.
  rewrite bool_decide_false by done. set (st2 := set_items st1 _).
  assert (memory_inv st1) as Hi1 by by apply inflight_inv.
  assert (memory_inv st2) as Hi2 by by apply (insert_item_inv st1).
  unfold bind at 1. set (w2 := World _ (Some st2)).
  destruct (record_created_run (Sum256 key) d (ID i) w2 st2)
    as (t & w3 & -> & E3); [done|done|].
  unfold bind. rewrite contextError_live by done. eexists _, _, t. split; [done|]. cbn [w_store].
  split; [exact E3|]. split; [exact (new_record_inv _ (Sum256 key) d (ID i) t (inflight_inv st2 _ Hi2))|]. split; [done|]. split_and!; [|done|done].
  cbn. set_solver.
Qed.

(** A create whose identifier is taken leaves the store as it was. *)
Lemma CreateIdempotent_taken ctx i key (d : array 32) (w : world state) st :
  live ctx -> memory_inv st -> w_store w = Some st ->
  ValidateIdempotencyKey key = Ok tt -> ID i <> uuid_nil ->
  ms_idempotency st !! Sum256 key = None -> Sum256 key ∉ ms_inflight st -> has_room st ->
  is_Some (ms_items st !! ID i) ->
  exists w', CreateIdempotent sysnow (Some ctx) i key (hex_encode (arr_bytes d)) w
      = (Err (Wrapf [] (Sentinel ErrConflict) (&": id " ++ uuid_string (ID i))), w')
    /\ w_store w' = Some st.
Proof.
  intros Hl Hi E Hk Hid Hkey Hf Hr [j Hj]. unfold CreateIdempotent, with_store.
  unfold bind at 1. rewrite contextError_live by done.
  unfold bind at 1, of_result. rewrite validateRequest_ok by done.
  unfold bind at 1, load. cbn [w_store]. rewrite E.
  unfold bind at 1. rewrite (mi_clock _ Hi), now_run. rewrite decodeDigest_encode. change (default (zero_array 32) (Some d)) with d. cbn [w_tick w_store].
  unfold bind at 1. rewrite (reserve_free _ _ _ _ _ st) by done. cbn [w_tick].
  unfold bind at 1, attempt at 1.
  set (st1 := set_inflight st (ms_inflight st ∪ {[Sum256 key]})).
  rewrite (memory_Create_run _ _ _ st1) by done. change (ms_items st1) with (ms_items st). rewrite Hj.
  unfold clearInFlight, modify. m_unfold. eexists. split; [done|].
  cbn [w_store fmap option_fmap option_map]. f_equal.
  assert (ms_inflight st1 ∖ {[Sum256 key]} = ms_inflight st) as ->; [|by destruct st].
  unfold st1. cbn [set_inflight ms_inflight]. set_solver.
Qed.

(** A create under a key with a record. *)
Lemma CreateIdempotent_known ctx i key d (w : world state) st e :
  live ctx -> memory_inv st -> w_store w = Some st ->
  ValidateIdempotencyKey key = Ok tt -> ID i <> uuid_nil -> ms_idempotency st !! Sum256 key = Some e ->
  exists r w', CreateIdempotent sysnow (Some ctx) i key (hex_encode (arr_bytes d)) w = (r, w')
    /\ w_store w' = Some st
    /\ if decide (ie_fingerprint e = d) then
         match ms_items st !! ie_itemID e with
         | Some j => r = Ok (j, true)
         | None => r = Err (Sentinel ErrIdempotencyState)
         end
       else r = Err (Sentinel ErrIdempotencyConflict).
Proof.
  intros Hl Hi E Hk Hid Hkey. unfold CreateIdempotent, with_store.
  unfold bind at 1. rewrite contextError_live by done.
  unfold bind at 1, of_result. rewrite validateRequest_ok by done.
  unfold bind at 1, load. cbn [w_store]. rewrite E.
  unfold bind at 1. rewrite (mi_clock _ Hi), now_run. rewrite decodeDigest_encode. change (default (zero_array 32) (Some d)) with d. cbn [w_tick w_store].
  unfold bind. set (w1 := World (S (S (w_tick w))) _).
  destruct (reserve_known ctx (Sum256 key) d (S (w_tick w)) w1 st e) as (r & w' & -> & Es & Hr);
    [done..|].
  destruct (decide _); [destruct (ms_items st !! ie_itemID e)|]; subst r; by do 2 eexists.
Qed.

(** ** The promises of the interfaces *)

Definition state_inv (s : state) : Prop := match s with None => False | Some st => memory_inv st end.
Definition state_view (s : state) : gmap uuid Item := match s with None => ∅ | Some st => ms_items st end.

#[refine] Instance memory_store_spec : StoreSpec ops := {|
  st_inv := state_inv;
  st_view := state_view;
  st_storable _ := True;
  st_keep i := i;
  st_seekable _ := True;
|}.
Proof.
  - intros [st|] Hi; [apply Hi|done].
  - done.
  - done.
  - intros ctx i [tick [st|]] Hl Hi Hc _ Hn; [|done]. cbn in *. rewrite (memory_Create_run _ _ _ st) by done.
    rewrite Hn. eexists. split; [done|]. split; [by apply insert_item_inv|done].
  - intros ctx i [tick [st|]] Hl Hi _ [j Hn]; [|done]. cbn in *. rewrite (memory_Create_run _ _ _ st) by done.
    rewrite Hn. by do 2 eexists.
  - intros ctx id [tick [st|]] Hl Hi Hid; [|done]. cbn in *. rewrite (memory_Get_run _ _ _ st) by done.
    do 2 eexists. split; [done|]. split; [done|]. split; [done|].
    destruct (ms_items st !! id); [done|by eexists].
  - intros ctx limit offset [tick [st|]] Hl Hi Hlim Hoff; [|done]. cbn in *.
    rewrite (memory_List_run _ _ _ _ st) by (done || apply Hi). by eexists.
  - intros list_after ctx limit after [tick [st|]] [= <-] Hl Hi Hlim Ha _; [|done]. cbn in *.
    rewrite (ListAfter_run _ _ _ _ st) by (done || apply Hi). by eexists.
Defined.

#[refine] Instance memory_idempotent_spec : IdempotentSpec ops := {|
  st_idem := CreateIdempotent sysnow;
  st_record s key :=
    st ← s; e ← ms_idempotency st !! Sum256 key;
    Some (hex_encode (arr_bytes (ie_fingerprint e)), ie_itemID e);
  st_free s := match s with None => False | Some st => ms_inflight st = ∅ /\ has_room st end;
  st_calm _ := True;
|}.
Proof.
  - done.
  - intros ctx i key fp [tick [st|]] Hl Hi Hc _ Hid Hk [d ->] Hfree Hn Hr; [|done]. cbn in *.
    destruct Hfree as [Hfl Hroom].
    destruct (CreateIdempotent_fresh ctx i key d (World tick (Some st)) st)
      as (w' & st' & t & E & Es & Hi' & V & _ & R & _); try done.
    { destruct (ms_idempotency st !! Sum256 key); [done|done]. }
    { by rewrite Hfl. }
    exists w'. rewrite Es. cbn. split_and!; [done|done|done| |done]. by rewrite R, lookup_insert_eq.
  - intros ctx i key fp [tick [st|]] Hl Hi _ Hid Hk [d ->] Hfree Hn Hr; [|done]. cbn in *.
    destruct Hfree as [Hfl Hroom].
    destruct (CreateIdempotent_taken ctx i key d (World tick (Some st)) st) as (w' & E & Es); try done.
    { destruct (ms_idempotency st !! Sum256 key); [done|done]. }
    { by rewrite Hfl. }
    do 2 eexists. rewrite Es. by split_and!.
  - intros ctx i key fp fp' id [tick [st|]] Hl Hi _ Hid Hk [d ->] Hr; [|done]. cbn in *.
    destruct (ms_idempotency st !! Sum256 key) as [e|] eqn:Ee; [|done]. cbn in Hr. injection Hr as <- <-.
    destruct (CreateIdempotent_known ctx i key d (World tick (Some st)) st e) as (r & w' & E & Es & Hc); try done.
    exists r, w'. rewrite Es. cbn. split_and!; [done|done|done|].
    destruct (decide (ie_fingerprint e = d)) as [Ed|Ed], (decide (hex_encode _ = _)) as [Eh|Eh]; try done.
    + by rewrite Ed in Eh.
    + exfalso. apply Ed. by apply eq_sym, hex_encode_inj, arr_eq in Eh.
Defined.

(** ** The records *)

Definition memory_keys (s : state) : gmap bytes (bytes * uuid) :=
  match s with
  | None => ∅
  | Some st => kmap arr_bytes ((fun e => (arr_bytes (ie_fingerprint e), ie_itemID e)) <$> ms_idempotency st)
  end.
Definition memory_room (n : nat) (s : state) : Prop :=
  match s with
  | None => False
  | Some st => ms_inflight st = ∅ /\ Z.of_nat (size (ms_idempotency st)) + Z.of_nat n <= maxIdempotencyEntries st
  end.

#[global] Instance arr_bytes_inj n : Inj (=) (=) (@arr_bytes n).
Proof. intros a b. apply arr_eq. Qed.

Lemma memory_keys_lookup st kh :
  memory_keys (Some st) !! arr_bytes kh = (fun e => (arr_bytes (ie_fingerprint e), ie_itemID e)) <$> ms_idempotency st !! kh.
Proof. unfold memory_keys. by rewrite (lookup_kmap arr_bytes), lookup_fmap. Qed.

Lemma has_room_1 st n : memory_room (S n) (Some st) -> has_room st.
Proof. intros [Hf Hs]. unfold has_room. rewrite Hf, size_empty. lia. Qed.

Lemma memory_record s key :
  st_record s key = (fun p => (hex_encode (fst p), snd p)) <$> memory_keys s !! arr_bytes (Sum256 key).
Proof. destruct s as [st|]; [|done]. rewrite memory_keys_lookup. cbn. by destruct (ms_idempotency st !! Sum256 key). Qed.

#[refine] Instance memory_records_spec : RecordsSpec ops := {|
  rs_keys := memory_keys;
  rs_room := memory_room;
|}.
Proof.
  - intros n [st|]; [|done]. intros [Hf Hs]. split; [done|]. lia.
  - intros n [st|]; [|done]. intros Hr. split; [apply Hr|by eapply has_room_1].
  - done.
  - apply memory_record.
  - intros ctx i [tick [st|]] r w' Hl Hi _; [|done]. cbn in *. rewrite (memory_Create_run _ _ _ st) by done.
    by destruct (ms_items st !! ID i); intros [= _ <-].
  - intros ctx id [tick [st|]] r w' Hl Hi Hid; [|done]. cbn in *. rewrite (memory_Get_run _ _ _ st) by done. by intros [= _ <-].
  - intros ctx limit offset [tick [st|]] r w' Hl Hi Hlim Hoff; [|done]. cbn in *.
    rewrite (memory_List_run _ _ _ _ st) by (done || apply Hi). by intros [= _ <-].
  - intros list_after ctx limit after [tick [st|]] r w' [= <-] Hl Hi Hlim Ha _; [|done]. cbn in *.
    rewrite (ListAfter_run _ _ _ _ st) by (done || apply Hi). by intros [= _ <-].
  - intros ctx i key d n [tick [st|]] r w' Hl Hi Hc _ Hid Hk Hroom Hn Hr E; [|done].
    assert (ms_idempotency st !! Sum256 key = None) as Hnone by (cbn in Hr; by destruct (ms_idempotency st !! Sum256 key)).
    pose proof (has_room_1 st n Hroom) as Hhas. destruct Hroom as [Hf Hs].
    destruct (CreateIdempotent_fresh ctx i key d (World tick (Some st)) st)
      as (w1 & st' & t & E1 & Es & Hi' & V & F & R & Hmax); try done; [by rewrite Hf|].
    cbn [st_idem memory_idempotent_spec] in E. rewrite E1 in E. injection E as _ <-. rewrite Es. cbn [w_store].
    unfold memory_keys, memory_room. rewrite R, F, Hf, Hmax, fmap_insert, (kmap_insert arr_bytes), (map_size_insert_None _ _ _ Hnone).
    split; [done|]. split; [done|]. lia.
  - intros ctx i key d [tick [st|]] r w' Hl Hi _ Hid Hk Hroom Ho E; [|done].
    pose proof (has_room_1 st 0 Hroom) as Hhas. destruct Hroom as [Hf Hs]. cbn [st_idem memory_idempotent_spec] in E.
    assert (w_store w' = Some st) as ->; [|done].
    destruct (ms_idempotency st !! Sum256 key) as [e|] eqn:Ee.
    + destruct (CreateIdempotent_known ctx i key d (World tick (Some st)) st e) as (r1 & w1 & E1 & Es & _); try done. congruence.
    + destruct Ho as [Ho|[? Ho]]; [|cbn in Ho; by rewrite Ee in Ho].
      destruct (CreateIdempotent_taken ctx i key d (World tick (Some st)) st) as (w1 & E1 & Es); try done; [by rewrite Hf|]. congruence.
Defined.
End Facts.
