(* ===== verification/MemoryConcurrent.v ===== *)
(** * Concurrent idempotent creates on the memory store

    [Store.CreateIdempotent] holds no lock across its item write: it reserves the key
    in a first critical section, writes the item under the item mutex, and turns the
    reservation into a replay record in a last one. Any number of calls may
    interleave at these boundaries, with clock readings taken before the locks were
    waited for, cancelled contexts, failing writes and unrelated item creates. The
    invariants: a key has at most one owner, the size bound counts owners, and
    between two items created under one key its record has been retired. *)
From S2P Require Import Prelude GoText GoTime Sha256 Errors World Item Idempotency Cursor Order Store Memory.

Section Concurrent.
Context {H : Hash256} (sysnow : nat -> time).

(** Where a call stands: before its first critical section (with the clock reading
    it took), after reserving its key, after writing its item, after a failed
    write, or finished. *)
Inductive call :=
  | Arrived (ctx : option context) (value : Item) (keyHash requestHash : array 32) (now : time)
  | Reserved (ctx : option context) (value : Item) (keyHash requestHash : array 32)
  | Written (keyHash requestHash : array 32) (id : uuid)
  | Abandoning (keyHash : array 32)
  | Finished.

(** What happened to the records, newest first: an item was recorded under a key, a
    recorded item was replayed to a request, expired records were swept. *)
Inductive event :=
  | Fresh (keyHash : array 32) (e : idempotencyEntry)
  | Replayed (keyHash requestHash : array 32) (e : idempotencyEntry)
  | Swept (now : time).

Record system := mkSystem {
  sy_store : MemoryStore;
  sy_calls : gmap nat call;
  sy_log : list event;
}.

Abbreviation at_tick k st := (World k (Some st)).

(** One critical section of one call; [k] is the moment at which it runs. *)
Inductive step : system -> system -> Prop :=
  | step_arrive st calls log i c v kh rh now :
      calls !! i = None ->
      step (mkSystem st calls log) (mkSystem st (<[i := Arrived c v kh rh now]> calls) log)
  | step_reserve st st' calls log i c v kh rh now k k' :
      calls !! i = Some (Arrived c v kh rh now) ->
      reserve c kh rh now (at_tick k st) = (Ok None, at_tick k' st') ->
      step (mkSystem st calls log)
        (mkSystem st' (<[i := Reserved c v kh rh]> calls) (Swept now :: log))
  | step_replay st st' calls log i c v kh rh now k k' it e :
      calls !! i = Some (Arrived c v kh rh now) ->
      reserve c kh rh now (at_tick k st) = (Ok (Some it), at_tick k' st') ->
      ms_idempotency st' !! kh = Some e ->
      step (mkSystem st calls log)
        (mkSystem st' (<[i := Finished]> calls) (Replayed kh rh e :: Swept now :: log))
  | step_refuse st st' calls log i c v kh rh now k k' err :
      calls !! i = Some (Arrived c v kh rh now) ->
      reserve c kh rh now (at_tick k st) = (Err err, at_tick k' st') ->
      step (mkSystem st calls log) (mkSystem st' (<[i := Finished]> calls) (Swept now :: log))
  | step_write st st' calls log i c v kh rh k k' created :
      calls !! i = Some (Reserved c v kh rh) ->
      Create c v (at_tick k st) = (Ok created, at_tick k' st') ->
      step (mkSystem st calls log)
        (mkSystem st' (<[i := if bool_decide (ID created = uuid_nil) then Abandoning kh
                              else Written kh rh (ID created)]> calls) log)
  | step_write_fails st st' calls log i c v kh rh k k' err :
      calls !! i = Some (Reserved c v kh rh) ->
      Create c v (at_tick k st) = (Err err, at_tick k' st') ->
      step (mkSystem st calls log) (mkSystem st' (<[i := Abandoning kh]> calls) log)
  | step_abandon st st' calls log i kh k k' :
      calls !! i = Some (Abandoning kh) ->
      clearInFlight kh (at_tick k st) = (Ok tt, at_tick k' st') ->
      step (mkSystem st calls log) (mkSystem st' (<[i := Finished]> calls) log)
  | step_record st st' calls log i kh rh id k k' e :
      calls !! i = Some (Written kh rh id) ->
      record_created sysnow kh rh id (at_tick k st) = (Ok tt, at_tick k' st') ->
      ms_idempotency st' !! kh = Some e ->
      step (mkSystem st calls log) (mkSystem st' (<[i := Finished]> calls) (Fresh kh e :: log))
  | step_create st st' calls log c v k k' r :
      Create c v (at_tick k st) = (r, at_tick k' st') ->
      step (mkSystem st calls log) (mkSystem st' calls log).

(** A store as [NewStore] returns it, and no calls yet. *)
Definition initial (s : system) : Prop :=
  ms_idempotency (sy_store s) = ∅ /\ ms_inflight (sy_store s) = ∅
  /\ sy_calls s = ∅ /\ sy_log s = [].

Definition reachable (s : system) : Prop := exists s0, initial s0 /\ rtc step s0 s.

(** ** The invariant *)

(** The key a call owns. *)
Definition owned (c : call) : option (array 32) :=
  match c with
  | Reserved _ _ kh _ | Written kh _ _ | Abandoning kh => Some kh
  | Arrived _ _ _ _ _ | Finished => None
  end.

Definition owns (calls : gmap nat call) (i : nat) (kh : array 32) : Prop :=
  exists c, calls !! i = Some c /\ owned c = Some kh.

(** The record of a key as the log tells it: the last item created under it, until a
    sweep whose clock reading is not before the expiry. *)
Fixpoint log_record (kh : array 32) (log : list event) : option idempotencyEntry :=
  match log with
  | [] => None
  | Fresh kh' e :: rest => if decide (kh = kh') then Some e else log_record kh rest
  | Replayed _ _ _ :: rest => log_record kh rest
  | Swept now :: rest =>
    e ← log_record kh rest;
    if Before now (ie_expiresAt e) then Some e else None
  end.

(** An item is recorded under a key only when no record of the key is left, and a
    replay returns the recorded item to a request with the recorded fingerprint. *)
Fixpoint log_ok (log : list event) : Prop :=
  match log with
  | [] => True
  | Fresh kh e :: rest => log_record kh rest = None /\ log_ok rest
  | Replayed kh rh e :: rest =>
    log_record kh rest = Some e /\ ie_fingerprint e = rh /\ log_ok rest
  | Swept _ :: rest => log_ok rest
  end.

(** Every key in flight has exactly one owner. *)
Record owners_inv (calls : gmap nat call) (inflight : gset (array 32)) : Prop := {
  oi_unique i j kh : owns calls i kh -> owns calls j kh -> i = j;
  oi_inflight kh : kh ∈ inflight <-> exists i, owns calls i kh;
}.

Record system_inv (s : system) : Prop := {
  si_owners : owners_inv (sy_calls s) (ms_inflight (sy_store s));
  si_disjoint kh : kh ∈ ms_inflight (sy_store s) -> ms_idempotency (sy_store s) !! kh = None;
  si_bound : Z.of_nat (size (ms_idempotency (sy_store s))) + Z.of_nat (size (ms_inflight (sy_store s)))
             <= maxIdempotencyEntries (sy_store s);
  si_log kh : ms_idempotency (sy_store s) !! kh = log_record kh (sy_log s);
  si_log_ok : log_ok (sy_log s);
}.

(** ** What the critical sections do to the records *)

Definition swept (now : time) (st : MemoryStore) : MemoryStore := cleanupIdempotencyLocked now st.

Lemma swept_lookup now st kh :
  ms_idempotency (swept now st) !! kh =
  (e ← ms_idempotency st !! kh; if Before now (ie_expiresAt e) then Some e else None).
Proof.
  unfold swept, cleanupIdempotencyLocked. cbn [set_idempotency ms_idempotency].
  rewrite map_lookup_filter. destruct (ms_idempotency st !! kh) as [e|]; [|done].
  cbn [mbind option_bind]. destruct (Before now (ie_expiresAt e)) eqn:E.
  - by rewrite option_guard_True.
  - by rewrite option_guard_False by (simpl; by rewrite E).
Qed.

Lemma swept_size now st : (size (ms_idempotency (swept now st)) <= size (ms_idempotency st))%nat.
Proof. apply map_subseteq_size, map_filter_subseteq. Qed.

Lemma getItem_store c id (w : world (option MemoryStore)) :
  w_store (snd (getItem c id w)) = w_store w.
Proof.
  unfold getItem, contextError. destruct c as [c|]; m_unfold; [|done].
  destruct (ctx_err c _); [done|]. destruct (ctx_err c _); [done|]. cbn [w_store].
  by destruct (_ ≫= _).
Qed.

Lemma reserve_cases c kh rh now k st r w' :
  reserve c kh rh now (at_tick k st) = (r, w') ->
  (w_store w' = Some (swept now st)
   /\ match r with
      | Ok None => False
      | Ok (Some _) => exists e, ms_idempotency (swept now st) !! kh = Some e /\ ie_fingerprint e = rh
      | Err _ => True
      end)
  \/ (r = Ok None /\ ms_idempotency (swept now st) !! kh = None /\ kh ∉ ms_inflight st
      /\ Z.of_nat (size (ms_idempotency (swept now st))) + Z.of_nat (size (ms_inflight st))
         < maxIdempotencyEntries st
      /\ w_store w' = Some (set_inflight (swept now st) (ms_inflight st ∪ {[kh]}))).
Proof.
  unfold reserve, modify, with_store. m_unfold. cbn [w_store w_tick fmap option_fmap option_map].
  fold (swept now st). destruct (ms_idempotency (swept now st) !! kh) as [e|] eqn:Ee.
  - destruct (bool_decide (ie_fingerprint e = rh)) eqn:Ef; cbn [negb]; [|intros [= <- <-]; by left].
    bool_simpl. pose proof (getItem_store c (ie_itemID e) (at_tick k (swept now st))) as Hs.
    destruct (getItem c (ie_itemID e) (at_tick k (swept now st))) as [[it|err] w1]; cbn [snd w_store] in Hs.
    + intros [= <- <-]. left. split; [done|]. by exists e.
    + destruct (_ || _); intros [= <- <-]; by left.
  - destruct (bool_decide _) eqn:Ei; [intros [= <- <-]; by left|]. bool_simpl.
    destruct ((_ <=? _)) eqn:El; [intros [= <- <-]; by left|]. bool_simpl.
    intros [= <- <-]. right. by split_and!.
Qed.

(** An item write leaves the records alone. *)
Lemma Create_records c v k st r w' :
  Create c v (at_tick k st) = (r, w') ->
  exists items, w_store w' = Some (set_items st items) /\ (forall i, r = Ok i -> i = v).
Proof.
  unfold Create, with_store, contextError. destruct c as [c|]; m_unfold.
  2: { intros [= <- <-]. exists (ms_items st). by destruct st. }
  cbn [w_tick w_store].
  destruct (ctx_err c k); [intros [= <- <-]; exists (ms_items st); by destruct st|]. cbn [w_store].
  destruct (ctx_err c _); [intros [= <- <-]; exists (ms_items st); by destruct st|]. cbn [w_store].
  destruct (ms_items st !! ID v); intros [= <- <-];
    [exists (ms_items st); by destruct st|]. eexists. split; [done|]. by intros i [= ->].
Qed.

(** ** Owners *)

Definition owned_at (calls : gmap nat call) (i : nat) : option (array 32) := calls !! i ≫= owned.

Lemma owns_at calls i kh : owns calls i kh <-> owned_at calls i = Some kh.
Proof.
  unfold owns, owned_at. destruct (calls !! i) as [c|]; simpl; [|by split; [intros (? & ? & ?)|]].
  split; [by intros (? & [= <-] & ?)|by eexists].
Qed.

Lemma owned_at_insert calls i c j :
  owned_at (<[i := c]> calls) j = if decide (j = i) then owned c else owned_at calls j.
Proof.
  unfold owned_at. destruct (decide (j = i)) as [->|Hne]; [by rewrite lookup_insert_eq|].
  by rewrite lookup_insert_ne.
Qed.

(** The call advances without gaining or losing a key. *)
Lemma owners_same calls fl i c :
  owners_inv calls fl -> owned c = owned_at calls i -> owners_inv (<[i := c]> calls) fl.
Proof.
  intros [Hu Hf] E.
  assert (forall j, owned_at (<[i := c]> calls) j = owned_at calls j) as Hsame.
  { intros j. rewrite owned_at_insert. by destruct (decide (j = i)) as [->|]. }
  split.
  - intros i1 i2 kh. rewrite !owns_at, !Hsame, <- !owns_at. apply Hu.
  - intros kh. rewrite Hf. split; intros [j Hj]; exists j; by rewrite owns_at, ?Hsame in *;
      rewrite ?owns_at, ?Hsame.
Qed.

Lemma owners_gain calls fl i c kh :
  owners_inv calls fl -> owned_at calls i = None -> owned c = Some kh -> kh ∉ fl ->
  owners_inv (<[i := c]> calls) (fl ∪ {[kh]}).
Proof.
  intros [Hu Hf] En Eg Hn.
  assert (forall j kh', owns (<[i := c]> calls) j kh' <-> (j = i /\ kh' = kh) \/ owns calls j kh') as Ho.
  { intros j kh'. rewrite !owns_at, owned_at_insert. destruct (decide (j = i)) as [->|]; [|naive_solver].
    rewrite Eg, En. naive_solver. }
  split.
  - intros i1 i2 kh'. rewrite !Ho. intros [[-> ->]|O1] [[-> E2]|O2]; try done.
    + destruct Hn. apply Hf. by exists i2.
    + subst. destruct Hn. apply Hf. by exists i1.
    + by eapply Hu.
  - intros kh'. rewrite elem_of_union, elem_of_singleton, Hf. split.
    + intros [[j Hj]| ->]; [exists j|exists i]; rewrite Ho; [by right|by left].
    + intros [j Hj%Ho]. destruct Hj as [[_ ->]|Hj]; [by right|left; by exists j].
Qed.

Lemma owners_lose calls fl i c kh :
  owners_inv calls fl -> owned_at calls i = Some kh -> owned c = None ->
  owners_inv (<[i := c]> calls) (fl ∖ {[kh]}).
Proof.
  intros [Hu Hf] Ei Ec.
  assert (forall j kh', owns (<[i := c]> calls) j kh' <-> j <> i /\ owns calls j kh') as Ho.
  { intros j kh'. rewrite !owns_at, owned_at_insert. destruct (decide (j = i)) as [->|]; naive_solver. }
  split.
  - intros i1 i2 kh' [_ O1]%Ho [_ O2]%Ho. by eapply Hu.
  - intros kh'. rewrite elem_of_difference, elem_of_singleton, Hf. split.
    + intros [[j Hj] Hne]. exists j. rewrite Ho. split; [|done]. intros ->.
      rewrite owns_at, Ei in Hj. congruence.
    + intros [j [Hne Hj]%Ho]. split; [by exists j|]. intros ->. apply Hne.
      eapply Hu; [exact Hj|by apply owns_at].
Qed.

(** ** Preservation *)

Lemma swept_inv calls log st now :
  system_inv (mkSystem st calls log) -> system_inv (mkSystem (swept now st) calls (Swept now :: log)).
Proof.
  intros [Ho Hd Hb Hl Hk]. cbn [sy_store sy_calls sy_log] in *. split; cbn [sy_store sy_calls sy_log].
  - exact Ho.
  - intros kh Hkh. rewrite swept_lookup, Hd by exact Hkh. done.
  - pose proof (swept_size now st). change (ms_inflight (swept now st)) with (ms_inflight st).
    change (maxIdempotencyEntries (swept now st)) with (maxIdempotencyEntries st). lia.
  - intros kh. rewrite swept_lookup, Hl. done.
  - exact Hk.
Qed.

Lemma items_inv calls log st items :
  system_inv (mkSystem st calls log) -> system_inv (mkSystem (set_items st items) calls log).
Proof. by intros []; split. Qed.

(** A call that neither gains nor loses a key. *)
Lemma advance_inv calls log st i c :
  system_inv (mkSystem st calls log) -> owned c = owned_at calls i ->
  system_inv (mkSystem st (<[i := c]> calls) log).
Proof. intros [Ho] E. split; try done. cbn in *. by apply owners_same. Qed.

Lemma replay_log_inv calls log st kh rh e :
  system_inv (mkSystem st calls log) -> ms_idempotency st !! kh = Some e -> ie_fingerprint e = rh ->
  system_inv (mkSystem st calls (Replayed kh rh e :: log)).
Proof.
  intros [Ho Hd Hb Hl Hk] He Hf. split; try done. cbn in *. split_and!; [|done|done]. by rewrite <- Hl.
Qed.

Lemma reserve_inv calls log st i c kh :
  system_inv (mkSystem st calls log) -> owned_at calls i = None -> owned c = Some kh ->
  ms_idempotency st !! kh = None -> kh ∉ ms_inflight st ->
  Z.of_nat (size (ms_idempotency st)) + Z.of_nat (size (ms_inflight st)) < maxIdempotencyEntries st ->
  system_inv (mkSystem (set_inflight st (ms_inflight st ∪ {[kh]})) (<[i := c]> calls) log).
Proof.
  intros [Ho Hd Hb Hl Hk] Ei Ec Hn Hf Hlt. split; try done; cbn in *.
  - by apply owners_gain.
  - intros kh' [?| ->%elem_of_singleton]%elem_of_union; [by apply Hd|done].
  - rewrite size_union by set_solver. rewrite size_singleton.
    change (maxIdempotencyEntries (set_inflight st _)) with (maxIdempotencyEntries st). lia.
Qed.

Lemma size_difference_elem (fl : gset (array 32)) kh :
  kh ∈ fl -> (S (size (fl ∖ {[kh]})) = size fl)%nat.
Proof.
  intros Hkh. rewrite size_difference by set_solver. rewrite size_singleton.
  assert (size fl <> 0%nat); [|lia]. intros E%size_empty_inv. set_solver.
Qed.

Lemma release_inv calls log st i c kh :
  system_inv (mkSystem st calls log) -> owned_at calls i = Some kh -> owned c = None ->
  system_inv (mkSystem (set_inflight st (ms_inflight st ∖ {[kh]})) (<[i := c]> calls) log).
Proof.
  intros [Ho Hd Hb Hl Hk] Ei Ec. split; try done; cbn in *.
  - by apply owners_lose.
  - intros kh' [? _]%elem_of_difference. by apply Hd.
  - assert (kh ∈ ms_inflight st) as Hin by (apply (oi_inflight _ _ Ho); exists i; by apply owns_at).
    pose proof (size_difference_elem _ _ Hin).
    change (maxIdempotencyEntries (set_inflight st _)) with (maxIdempotencyEntries st). lia.
Qed.

Lemma record_inv calls log st i c kh e :
  system_inv (mkSystem st calls log) -> owned_at calls i = Some kh -> owned c = None ->
  system_inv (mkSystem
    (set_idempotency (set_inflight st (ms_inflight st ∖ {[kh]})) (<[kh := e]> (ms_idempotency st)))
    (<[i := c]> calls) (Fresh kh e :: log)).
Proof.
  intros [Ho Hd Hb Hl Hk] Ei Ec. cbn in *.
  assert (kh ∈ ms_inflight st) as Hin by (apply (oi_inflight _ _ Ho); exists i; by apply owns_at).
  split; cbn.
  - by apply owners_lose.
  - intros kh' [Hk' Hne]%elem_of_difference. rewrite lookup_insert_ne by set_solver. by apply Hd.
  - pose proof (size_difference_elem _ _ Hin).
    rewrite map_size_insert_None by (by apply Hd).
    change (maxIdempotencyEntries _) with (maxIdempotencyEntries st). lia.
  - intros kh'. destruct (decide (kh' = kh)) as [->|]; [by rewrite lookup_insert_eq|].
    by rewrite lookup_insert_ne.
  - split; [|done]. rewrite <- Hl. by apply Hd.
Qed.

Lemma record_created_cases kh rh id k st r w' :
  record_created sysnow kh rh id (at_tick k st) = (r, w') ->
  exists e, w_store w' = Some (set_idempotency (set_inflight st (ms_inflight st ∖ {[kh]}))
              (<[kh := e]> (ms_idempotency st)))
    /\ ie_fingerprint e = rh /\ ie_itemID e = id.
Proof.
  unfold record_created, with_store, now. m_unfold. cbn [w_store].
  destruct (ms_clock st) as [clock|]; cbn; [destruct (IsZero _)|]; intros [= <- <-]; by eexists.
Qed.

Lemma owned_at_lookup calls i c : calls !! i = Some c -> owned_at calls i = owned c.
Proof. unfold owned_at. by intros ->. Qed.

Lemma step_inv s s' : step s s' -> system_inv s -> system_inv s'.
Proof.
  intros Hstep Hi. destruct Hstep as
    [st calls log i c v kh rh now E|st st' calls log i c v kh rh now k k' E R
    |st st' calls log i c v kh rh now k k' it e E R Ee|st st' calls log i c v kh rh now k k' err E R
    |st st' calls log i c v kh rh k k' created E R|st st' calls log i c v kh rh k k' err E R
    |st st' calls log i kh k k' E R|st st' calls log i kh rh id k k' e E R Ee
    |st st' calls log c v k k' r R].
  - apply advance_inv; [done|]. unfold owned_at. by rewrite E.
  - apply owned_at_lookup in E. apply (swept_inv _ _ _ now) in Hi.
    apply reserve_cases in R as [[_ []]|(_ & Hn & Hf & Hlt & [= ->])].
    exact (reserve_inv _ _ (swept now st) i (Reserved c v kh rh) kh Hi E eq_refl Hn Hf Hlt).
  - apply owned_at_lookup in E. apply (swept_inv _ _ _ now) in Hi.
    apply reserve_cases in R as [[[= ->] (e' & Ee' & Hf)]|([=] & _)].
    apply advance_inv; [|done]. apply replay_log_inv; [done|done|].
    rewrite Ee in Ee'. by injection Ee' as <-.
  - apply owned_at_lookup in E. apply (swept_inv _ _ _ now) in Hi.
    apply reserve_cases in R as [[[= ->] _]|([=] & _)]. by apply advance_inv.
  - apply owned_at_lookup in E. apply Create_records in R as (items & [= ->] & _).
    apply advance_inv; [by apply items_inv|]. rewrite E. by destruct (bool_decide _).
  - apply owned_at_lookup in E. apply Create_records in R as (items & [= ->] & _).
    apply advance_inv; [by apply items_inv|]. by rewrite E.
  - apply owned_at_lookup in E. unfold clearInFlight, modify in R. cbn in R. injection R as _ <-.
    by apply release_inv.
  - apply owned_at_lookup in E. apply record_created_cases in R as (e' & [= ->] & _).
    cbn in Ee. rewrite lookup_insert_eq in Ee. injection Ee as ->. by apply record_inv.
  - apply Create_records in R as (items & [= ->] & _). by apply items_inv.
Qed.

Lemma initial_inv s : initial s -> system_inv s.
Proof.
  destruct s as [st calls log]. intros (E1 & E2 & E3 & E4). cbn in *. subst calls log.
  split; cbn; rewrite ?E1, ?E2; try done.
  - split; [by intros i j kh (? & ? & ?)|]. intros kh. split; [done|]. by intros (? & ? & ? & ?).
  - unfold maxIdempotencyEntries, MaxIdempotencyEntries.
    rewrite map_size_empty, size_empty. destruct (Z.ltb_spec 0 (ms_maxEntries st)); lia.
Qed.

Lemma reachable_inv s : reachable s -> system_inv s.
Proof.
  intros (s0 & Hs0 & Hrun). apply initial_inv in Hs0. induction Hrun as [|s1 s2 s3 H12 _ IH]; [done|].
  apply IH. by eapply step_inv.
Qed.

(** ** Properties *)

(** C4: concurrent idempotent creates, in every interleaving of their critical
    sections. An item is recorded under a key only when every earlier record of the
    key has been swept by a call whose clock had reached its expiry, and a replay
    always returns the one recorded item, to a request with the recorded
    fingerprint: at most one item per key and retention period. *)
Theorem Concurrent_exactly_once s : reachable s -> log_ok (sy_log s).
Proof. intros Hr. by apply si_log_ok, reachable_inv. Qed.

(** The store of concurrent calls stays within its bound, counting completed and
    in-flight keys together; a key in flight has exactly one owner and no record,
    and every owned key is in flight, so no reservation leaks. *)
Theorem Concurrent_bounded_owners s :
  reachable s ->
  Z.of_nat (size (ms_idempotency (sy_store s))) + Z.of_nat (size (ms_inflight (sy_store s)))
    <= maxIdempotencyEntries (sy_store s)
  /\ (forall kh, kh ∈ ms_inflight (sy_store s) <-> exists i, owns (sy_calls s) i kh)
  /\ (forall i j kh, owns (sy_calls s) i kh -> owns (sy_calls s) j kh -> i = j)
  /\ (forall kh, kh ∈ ms_inflight (sy_store s) -> ms_idempotency (sy_store s) !! kh = None).
Proof. intros Hr%reachable_inv. destruct Hr as [[Hu Hf] Hd Hb _ _]. split_and!; auto. Qed.
End Concurrent.
