(* ===== verification/Service.v ===== *)
(** * The item service (internal/item/service.go, cursor.go, idempotency.go)

    The use cases over the persistence seam: create, get, list by offset, list by
    cursor, idempotent create, with the options and the constructor. *)
From S2P Require Import Prelude GoText GoTime Sha256 Errors World Item Idempotency Cursor Order Store.

Section Service.
Context {H : Hash256} {S : Type}.
(** The standard library's [time.Now] and [uuid.NewRandom]. *)
Context (sysnow : nat -> time) (random_uuid : nat -> result uuid).

(** A nil interface or pointer is [None]. *)
Record Service := mkService {
  sv_store : option (StoreOps S);
  sv_generateID : nat -> result uuid;
  sv_clock : nat -> time;
  sv_cursorCodec : option (CodecOps S);
}.

Definition Option : Type := Service -> Service.

Definition WithCursorCodec (codec : option (CodecOps S)) : Option := fun service =>
  match codec with
  | None => service
  | Some _ => mkService (sv_store service) (sv_generateID service) (sv_clock service) codec
  end.

Definition WithIDGenerator (generator : option (nat -> result uuid)) : Option := fun service =>
  match generator with
  | None => service
  | Some g => mkService (sv_store service) g (sv_clock service) (sv_cursorCodec service)
  end.

Definition WithClock (clock : option (nat -> time)) : Option := fun service =>
  match clock with
  | None => service
  | Some c => mkService (sv_store service) (sv_generateID service) c (sv_cursorCodec service)
  end.

Definition NewService (store : option (StoreOps S)) (options : list (option Option)) : Service :=
  fold_left (fun service o => match o with None => service | Some f => f service end) options
    (mkService store random_uuid sysnow None).

(** The store of a service that has one. *)
Definition service_store (service : option Service) : option (Service * StoreOps S) :=
  sv ← service; store ← sv_store sv; Some (sv, store).

(** A fresh UUIDv4 and a UTC timestamp for the canonical input. *)
Definition new_item (service : Service) (canonical : CreateInput) : M S Item :=
  generated <-- observe (sv_generateID service);;
  match generated with
  | Err err => fail (Joined [Sentinel ErrIDGeneration; err])
  | Ok id =>
    if bool_decide (id = uuid_nil) || negb (uuid_version id =? 4) || negb (uuid_is_rfc4122 id)
    then fail (Joined [Sentinel ErrIDGeneration; Sentinel ErrInvalidInput;
                       Opaque &"generated UUID must be RFC4122 version 4"])
    else
      t <-- observe (sv_clock service);;
      createdAt <-- (if IsZero t then observe sysnow else ret t);;
      ret (mkItem id (in_name canonical) (in_description canonical) (to_utc createdAt))
  end.

Definition Create (service : option Service) (ctx : option context) (input : CreateInput) : M S Item :=
  contextError ctx;;;
  canonical <-- of_result (ValidateCreateInput input);;
  match service_store service with
  | None => fail (Sentinel ErrStoreUnavailable)
  | Some (sv, store) =>
    value <-- new_item sv canonical;;
    st_create store ctx value
  end.

Definition Get (service : option Service) (ctx : option context) (id : uuid) : M S Item :=
  contextError ctx;;;
  if bool_decide (id = uuid_nil) then fail (ValidationError &"id" &"must not be nil")
  else match service_store service with
       | None => fail (Sentinel ErrStoreUnavailable)
       | Some (sv, store) => st_get store ctx id
       end.

(** The continuation token of a page: the position of its last item. *)
Definition next_cursor (codec : CodecOps S) (items : list Item) : M S bytes :=
  match last items with
  | None => ret []
  | Some lastItem =>
    position <-- of_result (CursorPositionForItem lastItem);;
    encoded <-- attempt (co_encode codec position);;
    match encoded with
    | Err err => fail (Joined [Sentinel ErrCursorState; err])
    | Ok next => ret next
    end
  end.

Definition List (service : option Service) (ctx : option context) (params : ListParams) : M S Page :=
  contextError ctx;;;
  normalized <-- of_result (NormalizeListParams params);;
  match service_store service with
  | None => fail (Sentinel ErrStoreUnavailable)
  | Some (sv, store) =>
    rows <-- st_list store ctx (mkListParams (lp_limit normalized + 1) (lp_offset normalized));;
    let hasMore := lp_limit normalized <? Z.of_nat (length rows) in
    let items := if hasMore then take (Z.to_nat (lp_limit normalized)) rows else rows in
    next <-- match sv_cursorCodec sv, st_list_after store with
             | Some codec, Some _ => if hasMore then next_cursor codec items else ret []
             | _, _ => ret []
             end;;
    ret (mkPage items (lp_limit normalized) (lp_offset normalized) hasMore next)
  end.

(** Decoding the token of a request into the position to continue after. *)
Definition request_position (codec : CodecOps S) (token : bytes) : M S (option CursorPosition) :=
  match token with
  | [] => ret None
  | _ =>
    if MaxCursorBytes <? Z.of_nat (length token) then fail (invalidCursor &"token exceeds size bound")
    else
      position <-- co_decode codec token;;
      match Validate position with
      | Err err => fail (Joined [Sentinel ErrCursorState; err])
      | Ok _ => ret (Some position)
      end
  end.

Definition ListCursor (service : option Service) (ctx : option context) (request : CursorRequest)
  : M S CursorPage :=
  contextError ctx;;;
  let limit := if cr_limit request =? 0 then DefaultPageSize else cr_limit request in
  if (limit <? 0) || (MaxPageSize <? limit)
  then fail (ValidationError &"limit" &"must be between 0 and 100")
  else
    match (p ← service_store service; codec ← sv_cursorCodec (fst p); Some (snd p, codec)) with
    | None => fail (Sentinel ErrCursorUnavailable)
    | Some (store, codec) =>
      after <-- request_position codec (cr_cursor request);;
      match st_list_after store with
      | None => fail (Sentinel ErrCursorUnavailable)
      | Some listAfter =>
        rows <-- listAfter ctx (mkCursorListParams (limit + 1) after);;
        contextError ctx;;;
        if limit + 1 <? Z.of_nat (length rows)
        then fail (Wrapf [] (Sentinel ErrCursorState) &": store returned too many rows")
        else
          let hasMore := limit <? Z.of_nat (length rows) in
          let items := if hasMore then take (Z.to_nat limit) rows else rows in
          next <-- (if hasMore then next_cursor codec items else ret []);;
          contextError ctx;;;
          ret (mkCursorPage items limit hasMore next)
      end
    end.

Definition CreateIdempotent (service : option Service) (ctx : option context) (input : CreateInput)
  (key : bytes) : M S (Item * bool) :=
  contextError ctx;;;
  of_result (ValidateIdempotencyKey key);;;
  canonical <-- of_result (ValidateCreateInput input);;
  match (p ← service_store service; f ← st_create_idempotent (snd p); Some (fst p, f)) with
  | None => fail (Sentinel ErrIdempotencyUnavailable)
  | Some (sv, createIdempotent) =>
    fingerprint <-- of_result (FingerprintCreateInput canonical);;
    value <-- new_item sv canonical;;
    created <-- createIdempotent ctx value (storageIdempotencyKey ctx key) fingerprint;;
    if bool_decide (ID (fst created) = uuid_nil) then fail (Sentinel ErrIdempotencyState)
    else ret created
  end.
End Service.
