(* ===== verification/ServiceFacts.v ===== *)
(** * Facts about the item service

    The service over any store satisfying [StoreSpec]: what a create stores, what
    pages contain, retries of idempotent creates, and the traversal of a collection
    by cursors. *)
From S2P Require Import Prelude GoText GoEncoding GoTime Sha256 Errors World Item Idempotency Cursor Order Store Service.

Section Facts.
Context {H : Hash256} {S : Type}.
Context (sysnow : nat -> time) (random_uuid : nat -> result uuid).
Context (ops : StoreOps S) `{!StoreSpec ops}.
Implicit Types (sv : Service (S := S)) (w : world S) (ctx : context).

Abbreviation view w := (st_view (w_store w)).

(** A clock that reads representable times. *)
Definition clock_wf (clock : nat -> time) : Prop := forall tick, time_wf (clock tick).

(** An identifier that the service accepts. *)
Definition uuid_v4 (id : uuid) : Prop :=
  id <> uuid_nil /\ uuid_version id = 4 /\ uuid_is_rfc4122 id = true.

(** The item built from a canonical input. *)
Definition built_from (c : CreateInput) (i : Item) : Prop :=
  uuid_v4 (ID i) /\ Name i = in_name c /\ Description i = in_description c /\ canonical_item i.

(** An item that a service makes from a canonical input, at a time it reads. *)
Definition made_by sv (c : CreateInput) (i : Item) : Prop :=
  built_from c i /\ exists tick, CreatedAt i = to_utc (sv_clock sv tick) \/ CreatedAt i = to_utc (sysnow tick).

(** The store can hold what the service makes from an input. *)
Definition accepted sv (c : CreateInput) : Prop := forall i, made_by sv c i -> st_storable i.

Lemma built_from_keep sv c i : accepted sv c -> made_by sv c i -> built_from c (st_keep i) /\ ID (st_keep i) = ID i.
Proof.
  intros Ha Hm. destruct Hm as [(Hid & Hn & Hd & Hc) Ht] eqn:E. clear E.
  destruct (st_keep_ok i) as [(Hid' & Hn' & Hd') Hc']; [by apply Ha|done|].
  unfold built_from. by rewrite Hid', Hn', Hd'.
Qed.

(** A made item as the store keeps it. *)
Definition kept_by sv (c : CreateInput) (i : Item) : Prop := exists j, made_by sv c j /\ i = st_keep j.

(** A generator that at some moment gives no acceptable identifier. *)
Definition generator_fails sv : Prop :=
  exists tick, forall id, sv_generateID sv tick = Ok id -> ~ uuid_v4 id.

Lemma new_item_cases sv c w :
  clock_wf sysnow -> clock_wf (sv_clock sv) ->
  (exists i w', new_item sysnow sv c w = (Ok i, w') /\ w_store w' = w_store w /\ made_by sv c i)
  \/ (exists e w', new_item sysnow sv c w = (Err e, w') /\ w_store w' = w_store w
        /\ Is e ErrIDGeneration = true /\ generator_fails sv).
Proof.
  intros Hn Hc. unfold new_item. m_unfold.
  destruct (sv_generateID sv (w_tick w)) as [id|e] eqn:Eg.
  2: { right. do 2 eexists. split_and!; try done. exists (w_tick w). intros id. by rewrite Eg. }
  destruct (_ || _ || _) eqn:E; cbn [w_tick w_store].
  { right. do 2 eexists. split_and!; try done. exists (w_tick w). intros id'. rewrite Eg.
    intros [= <-] (Hid & Hv & Hr). rewrite bool_decide_false, Hv, Hr in E by done. done. }
  bool_simpl.
  left. destruct (IsZero _); (do 2 eexists; split; [reflexivity|]; split; [done|]; split;
    [unfold built_from, uuid_v4; cbn [ID Name Description]; split_and!; try done|eexists; eauto]).
  all: apply to_utc_canonical; (apply Hn || apply Hc).
Qed.

Lemma service_store_Some sv : sv_store sv = Some ops -> service_store (Some sv) = Some (sv, ops).
Proof. unfold service_store. simpl. by intros ->. Qed.

(** Every outcome of a create. *)
Lemma Create_cases sv ctx input w :
  sv_store sv = Some ops -> live ctx -> st_inv (w_store w) ->
  clock_wf sysnow -> clock_wf (sv_clock sv) ->
  (forall c, ValidateCreateInput input = Ok c -> accepted sv c) ->
  (exists i w' c, Create sysnow (Some sv) (Some ctx) input w = (Ok i, w')
     /\ ValidateCreateInput input = Ok c /\ built_from c i
     /\ st_inv (w_store w') /\ view w !! ID i = None /\ view w' = <[ID i := i]> (view w) /\ kept_by sv c i)
  \/ (exists e w', Create sysnow (Some sv) (Some ctx) input w = (Err e, w')
     /\ st_inv (w_store w') /\ view w' = view w
     /\ (ValidateCreateInput input = Err e
         \/ is_ok (ValidateCreateInput input) = true
            /\ (Is e ErrIDGeneration = true \/ Is e ErrConflict = true))).
Proof.
  intros Hst Hl Hi Hn Hc Hacc. unfold Create. rewrite service_store_Some by done.
  unfold bind. rewrite contextError_live by done. unfold of_result, fail.
  destruct (ValidateCreateInput input) as [c|e]; [|right; do 2 eexists; split_and!; eauto].
  specialize (Hacc c eq_refl).
  set (w1 := World _ _).
  destruct (new_item_cases sv c w1 Hn Hc) as [(i & w2 & -> & E2 & Hb)|(e & w2 & -> & E2 & He & Hg)].
  all: change (w_store w1) with (w_store w) in E2.
  2: { right. do 2 eexists. rewrite E2. split_and!; eauto. }
  rewrite <- E2 in Hi. destruct (view w2 !! ID i) as [j|] eqn:Ej.
  - destruct (st_create_duplicate ctx i w2) as (e & w3 & -> & He & Hi3 & Hv3); [done|done|by apply Hacc|done|].
    right. do 2 eexists. rewrite Hv3, E2. split_and!; eauto.
  - destruct (st_create_new ctx i w2) as (w3 & -> & Hi3 & Hv3); [done|done|apply Hb|by apply Hacc|done|].
    destruct (built_from_keep sv c i Hacc Hb) as [Hk Eid].
    left. do 3 eexists. rewrite Eid, Hv3, <- E2 in *. split_and!; eauto. by exists i.
Qed.

(** A read finds the stored item, or fails with [ErrNotFound]. *)
Lemma Get_run sv ctx id w :
  sv_store sv = Some ops -> live ctx -> st_inv (w_store w) -> id <> uuid_nil ->
  exists w' r, Get (Some sv) (Some ctx) id w = (r, w')
    /\ st_inv (w_store w') /\ view w' = view w
    /\ match view w !! id with
       | Some i => r = Ok i
       | None => exists e, r = Err e /\ Is e ErrNotFound = true
       end.
Proof.
  intros Hst Hl Hi Hid. unfold Get. rewrite service_store_Some by done.
  unfold bind. rewrite contextError_live by done. rewrite bool_decide_false by done.
  destruct (st_get_spec ctx id (World (Datatypes.S (w_tick w)) (w_store w)) Hl Hi Hid)
    as (r & w' & E & ?). by exists w', r.
Qed.

(** ** Pages *)

Lemma has_more_take {A} (l : list A) (k : Z) :
  0 <= k ->
  (k <? Z.of_nat (length (take (Z.to_nat (k + 1)) l))) = (k <? Z.of_nat (length l)).
Proof.
  intros Hk. rewrite length_take. apply Bool.eq_iff_eq_true. rewrite !Z.ltb_lt. lia.
Qed.

(** Keeping one page of the looked-ahead rows. *)
Lemma page_of_rows {A} (l : list A) (k : Z) :
  0 <= k ->
  let rows := take (Z.to_nat (k + 1)) l in
  (if k <? Z.of_nat (length rows) then take (Z.to_nat k) rows else rows) = take (Z.to_nat k) l.
Proof.
  intros Hk. cbv zeta. rewrite has_more_take by done. destruct (Z.ltb_spec k (Z.of_nat (length l))).
  - rewrite take_take. f_equal. lia.
  - rewrite !take_ge; [done|lia..].
Qed.

Lemma next_cursor_last (codec : CodecOps S) items i :
  last items = Some i ->
  next_cursor codec items =
  (position <-- of_result (CursorPositionForItem i);;
   encoded <-- attempt (co_encode codec position);;
   match encoded with
   | Err err => fail (Joined [Sentinel ErrCursorState; err])
   | Ok next => ret next
   end).
Proof. unfold next_cursor. by intros ->. Qed.

Lemma CursorPositionForItem_ok i :
  position_ok (item_position i) -> CursorPositionForItem i = Ok (item_position i).
Proof. intros [_ Hv]. unfold CursorPositionForItem. unfold item_position in Hv. by rewrite Hv. Qed.

(** ** Pages with a continuation token *)

Section Codec.
Context (codec : CodecOps S) `{!CodecSpec codec}.

(** Items for whose position the codec can issue a token. *)
Definition servable (m : gmap uuid Item) : Prop :=
  map_Forall (fun _ i => position_ok (item_position i) /\ cs_ok (item_position i)) m.

(** The token of a page continues after its last item. *)
Definition continues (next : bytes) (items : list Item) : Prop :=
  exists i, last items = Some i /\ 0 < Z.of_nat (length next) <= MaxCursorBytes
    /\ cs_decodes_to next (item_position i).

Lemma next_cursor_run m items w :
  servable m -> items_ok m -> (forall i, i ∈ items -> i ∈ newest m) -> items <> [] ->
  exists next w', next_cursor codec items w = (Ok next, w') /\ w_store w' = w_store w
    /\ continues next items.
Proof.
  intros Hs Hm Hsub Hne. destruct (last items) as [i|] eqn:El; [|by apply last_None in El].
  rewrite (next_cursor_last _ _ _ El). pose proof (last_Some_elem_of _ _ El) as Hi.
  apply Hsub, newest_elem in Hi as Hi'; [|done]. destruct (Hs _ _ Hi') as [Hp Hok].
  destruct (cs_encode (item_position i) w Hp Hok) as (token & w' & E & Hst & Hlen & Hd).
  exists token, w'. m_unfold. rewrite (CursorPositionForItem_ok i Hp), E. split; [done|].
  split; [done|]. by exists i.
Qed.

Lemma request_position_run token p w :
  0 < Z.of_nat (length token) <= MaxCursorBytes -> cs_decodes_to token p -> position_ok p ->
  exists w', request_position codec token w = (Ok (Some p), w') /\ w_store w' = w_store w.
Proof.
  intros Hl Hd [_ Hv]. destruct (cs_decode token p w Hd) as (w' & E & Hst).
  exists w'. unfold request_position. destruct token as [|b token]; [simpl in Hl; lia|].
  rewrite (proj2 (Z.ltb_ge _ _)) by lia. m_unfold. by rewrite E, Hv.
Qed.

(** The position that a request continues after. *)
Definition request_after (token : bytes) (after : option CursorPosition) : Prop :=
  match after with
  | None => token = []
  | Some p => 0 < Z.of_nat (length token) <= MaxCursorBytes /\ cs_decodes_to token p /\ position_ok p /\ st_seekable p
  end.

(** One page of a keyset listing. *)
Lemma ListCursor_run sv ctx list_after limit token after w :
  sv_store sv = Some ops -> sv_cursorCodec sv = Some codec -> st_list_after ops = Some list_after ->
  live ctx -> st_inv (w_store w) -> servable (view w) ->
  1 <= limit <= MaxPageSize -> request_after token after ->
  let rows := rows_after after (newest (view w)) in
  let page := take (Z.to_nat limit) rows in
  let more := limit <? Z.of_nat (length rows) in
  exists next w',
    ListCursor (Some sv) (Some ctx) (mkCursorRequest limit token) w
    = (Ok (mkCursorPage page limit more next), w')
    /\ st_inv (w_store w') /\ view w' = view w
    /\ (if more then continues next page else next = []).
Proof.
  intros Hst Hco Hla Hl Hi Hs Hlim Hreq rows page more.
  unfold ListCursor. cbn [cr_limit cr_cursor]. rewrite service_store_Some by done.
  cbn [mbind option_bind fst snd]. rewrite Hco. cbn [mbind option_bind]. rewrite Hla.
  rewrite (proj2 (Z.eqb_neq limit 0)), !(proj2 (Z.ltb_ge _ _)) by lia. cbn [orb].
  unfold bind at 1. rewrite contextError_live by done. set (w1 := World _ _).
  assert (exists w2, request_position codec token w1 = (Ok after, w2) /\ w_store w2 = w_store w1)
    as (w2 & E2 & S2).
  { destruct after as [p|]; [|rewrite Hreq; by exists w1].
    by destruct Hreq as (? & ? & ? & ?); apply request_position_run. }
  change (w_store w1) with (w_store w) in S2. unfold bind at 1. rewrite E2. rewrite <- S2 in Hi.
  destruct (st_after_spec list_after ctx (limit + 1) after w2) as (w3 & E3 & Hi3 & V3);
    [done|done|done|lia|by destruct after; [apply Hreq|]|intros p ->; apply Hreq|].
  unfold bind at 1. rewrite E3, S2. fold rows. unfold bind at 1. rewrite contextError_live by done.
  cbv zeta. rewrite (page_of_rows rows limit), (has_more_take rows limit) by lia. fold page more.
  assert ((limit + 1 <? Z.of_nat (length (take (Z.to_nat (limit + 1)) rows))) = false) as ->.
  { apply Z.ltb_ge. rewrite length_take. lia. }
  set (w4 := World _ _). rewrite S2 in V3. unfold bind.
  destruct more eqn:Em.
  - destruct (next_cursor_run (view w) page w4) as (next & w5 & -> & S5 & Hc).
    + done.
    + rewrite S2 in Hi. by apply st_items_ok.
    + intros i Hin%elem_of_take_weaken. unfold rows, rows_after in Hin.
      destruct after; [by apply elem_of_bfilter in Hin as []|done].
    + unfold page. intros E. apply (f_equal length) in E. rewrite length_take in E.
      unfold more in Em. bool_simpl. simpl in E. lia.
    + rewrite contextError_live by done. exists next. eexists. split; [done|].
      cbn [w_store]. by rewrite S5.
  - unfold ret. cbn beta iota. rewrite contextError_live by done. exists []. eexists. done.
Qed.

(** One page of an offset listing. *)
Lemma List_run sv ctx params q w :
  sv_store sv = Some ops -> (sv_cursorCodec sv = None \/ sv_cursorCodec sv = Some codec) ->
  live ctx -> st_inv (w_store w) -> servable (view w) -> NormalizeListParams params = Ok q ->
  let rows := drop (Z.to_nat (lp_offset q)) (newest (view w)) in
  let page := take (Z.to_nat (lp_limit q)) rows in
  let more := lp_limit q <? Z.of_nat (length rows) in
  exists next w',
    List (Some sv) (Some ctx) params w = (Ok (mkPage page (lp_limit q) (lp_offset q) more next), w')
    /\ st_inv (w_store w') /\ view w' = view w
    /\ (if more && bool_decide (is_Some (sv_cursorCodec sv)) && bool_decide (is_Some (st_list_after ops))
        then continues next page else next = []).
Proof.
  intros Hst Hco Hl Hi Hs Hq rows page more.
  destruct (NormalizeListParams_Ok _ _ Hq) as (Hlim & Hoff & _).
  unfold List. unfold bind at 1. rewrite contextError_live by done. set (w1 := World _ _).
  unfold of_result, bind at 1. rewrite Hq, service_store_Some by done.
  destruct (st_list_spec ctx (lp_limit q + 1) (lp_offset q) w1) as (w2 & E2 & Hi2 & V2);
    [done|done|lia|done|].
  unfold bind at 1. rewrite E2. change (w_store w1) with (w_store w) in *. fold rows.
  cbv zeta. rewrite (page_of_rows rows), (has_more_take rows) by lia. fold page more.
  unfold bind.
  assert (forall r : bytes, ret r w2 = (Ok r, w2)) as Hret by done.
  destruct Hco as [Hco|Hco]; rewrite Hco.
  { rewrite Hret, bool_decide_false by (by intros [? ?]). rewrite andb_false_r. cbn [andb].
    by exists [], w2. }
  rewrite (bool_decide_true (is_Some (Some codec))) by done.
  destruct (st_list_after ops).
  2: { rewrite Hret, (bool_decide_false (is_Some None)) by (by intros [? ?]). rewrite andb_false_r.
       by exists [], w2. }
  rewrite bool_decide_true, !andb_true_r by done. destruct more eqn:Em; [|by exists [], w2].
  destruct (next_cursor_run (view w) page w2) as (next & w3 & -> & S3 & Hc).
  - done.
  - by apply st_items_ok.
  - by intros i Hin%elem_of_take_weaken%elem_of_drop_weaken.
  - unfold page. intros E. apply (f_equal length) in E. rewrite length_take in E.
    unfold more in Em. bool_simpl. simpl in E. lia.
  - exists next, w3. split; [done|]. by rewrite S3.
Qed.
End Codec.

(** ** Idempotent creates *)

Section Idempotent.
Context `{!IdempotentSpec ops}.

Lemma fingerprint_ok_of input fp : FingerprintCreateInput input = Ok fp -> fingerprint_ok fp.
Proof.
  unfold FingerprintCreateInput. destruct (ValidateCreateInput input) as [c|]; [|done].
  cbn [rbind]. intros [= <-]. by eexists.
Qed.

(** The common part of an idempotent create: everything up to the store. *)
Lemma CreateIdempotent_run sv ctx input key c w :
  sv_store sv = Some ops -> live ctx -> clock_wf sysnow -> clock_wf (sv_clock sv) ->
  ValidateIdempotencyKey key = Ok tt -> ValidateCreateInput input = Ok c ->
  let fp := hex_encode (arr_bytes (Sum256 (fingerprint_payload c))) in
  (exists i w1, w_store w1 = w_store w /\ made_by sv c i
     /\ CreateIdempotent sysnow (Some sv) (Some ctx) input key w
        = (created <-- st_idem (Some ctx) i (storageIdempotencyKey (Some ctx) key) fp;;
           if bool_decide (ID (fst created) = uuid_nil) then fail (Sentinel ErrIdempotencyState)
           else ret created) w1)
  \/ (exists e w1, CreateIdempotent sysnow (Some sv) (Some ctx) input key w = (Err e, w1)
        /\ w_store w1 = w_store w /\ Is e ErrIDGeneration = true /\ generator_fails sv).
Proof.
  intros Hst Hl Hn Hc Hk Hv fp. set (w0 := World (Datatypes.S (w_tick w)) (w_store w)).
  set (store_step := fun i : Item => created <-- st_idem (Some ctx) i (storageIdempotencyKey (Some ctx) key) fp;;
    if bool_decide (ID (fst created) = uuid_nil) then fail (Sentinel ErrIdempotencyState) else ret created).
  assert (CreateIdempotent sysnow (Some sv) (Some ctx) input key w
          = (value <-- new_item sysnow sv c;; store_step value) w0) as ->.
  { unfold CreateIdempotent. rewrite service_store_Some by done.
    cbn [mbind option_bind fst snd]. rewrite st_idem_capable. cbn [mbind option_bind].
    unfold bind at 1. rewrite contextError_live by done.
    unfold bind at 1, of_result at 1. rewrite Hk. unfold bind at 1, of_result at 1. rewrite Hv.
    unfold bind at 1, of_result at 1.
    assert (FingerprintCreateInput c = Ok fp) as ->; [|done].
    apply Fingerprint_Ok. by apply ValidateCreateInput_canonical, (ValidateCreateInput_Ok input). }
  destruct (new_item_cases sv c w0 Hn Hc) as [(i & w2 & En & E2 & Hb)|(e & w2 & En & E2 & He & Hg)].
  - left. exists i, w2. split_and!; [done|done|]. unfold bind at 1. by rewrite En.
  - right. exists e, w2. unfold bind at 1. by rewrite En.
Qed.

(** The first request of a key. *)
Lemma CreateIdempotent_first sv ctx input key c w i b w' :
  sv_store sv = Some ops -> live ctx -> clock_wf sysnow -> clock_wf (sv_clock sv) ->
  ValidateIdempotencyKey key = Ok tt -> ValidateCreateInput input = Ok c -> accepted sv c ->
  st_inv (w_store w) -> st_free (w_store w) ->
  st_record (w_store w) (storageIdempotencyKey (Some ctx) key) = None ->
  CreateIdempotent sysnow (Some sv) (Some ctx) input key w = (Ok (i, b), w') ->
  b = false /\ built_from c i /\ st_inv (w_store w') /\ view w' = <[ID i := i]> (view w)
  /\ st_record (w_store w') (storageIdempotencyKey (Some ctx) key)
     = Some (hex_encode (arr_bytes (Sum256 (fingerprint_payload c))), ID i)
  /\ st_calm (w_store w').
Proof.
  intros Hst Hl Hn Hc Hk Hv Hacc Hi Hf Hr.
  destruct (CreateIdempotent_run sv ctx input key c w) as [(j & w1 & E1 & Hb & ->)|(e & w1 & -> & _)];
    [done..| |done].
  destruct (built_from_keep sv c j Hacc Hb) as [Hkb Eid].
  pose proof Hb as [(Hid & _ & _ & Hcan) _]. pose proof (Hacc j Hb) as Hsj.
  rewrite <- E1 in Hi, Hf, Hr. destruct (view w1 !! ID j) as [k|] eqn:Hnone.
  { edestruct (st_idem_taken ctx j (storageIdempotencyKey (Some ctx) key)) as (e & w2 & E2 & _);
      [done|done|done|apply Hid|apply storageIdempotencyKey_valid|by eexists|done|by eexists|done|].
    unfold bind. by rewrite E2. }
  edestruct (st_idem_fresh ctx j (storageIdempotencyKey (Some ctx) key)) as (w2 & E2 & Hi2 & V2 & R2 & C2);
    [done|done|done|done|apply Hid|apply storageIdempotencyKey_valid|by eexists|done|done|done|].
  unfold bind. rewrite E2. cbn [fst]. rewrite Eid, bool_decide_false by apply Hid.
  intros [= <- <- <-]. by rewrite Eid, V2, E1, R2.
Qed.
End Idempotent.

(** ** Properties *)

(** Every outcome of a create on a live context, when the store can hold what the
    input validates to. Success stores exactly one new item, under a fresh UUIDv4, with the trimmed fields and a canonical UTC
    creation time; every failure leaves the collection untouched and is a
    validation error of the input, an identifier failure or a conflict. *)
Theorem Create_outcomes sv ctx input w :
  sv_store sv = Some ops -> live ctx -> st_inv (w_store w) ->
  clock_wf sysnow -> clock_wf (sv_clock sv) ->
  (forall c, ValidateCreateInput input = Ok c -> accepted sv c) ->
  (exists i w' c, Create sysnow (Some sv) (Some ctx) input w = (Ok i, w')
     /\ ValidateCreateInput input = Ok c /\ built_from c i
     /\ st_inv (w_store w') /\ view w !! ID i = None /\ view w' = <[ID i := i]> (view w))
  \/ (exists e w', Create sysnow (Some sv) (Some ctx) input w = (Err e, w')
     /\ st_inv (w_store w') /\ view w' = view w
     /\ (ValidateCreateInput input = Err e
         \/ is_ok (ValidateCreateInput input) = true
            /\ (Is e ErrIDGeneration = true \/ Is e ErrConflict = true))).
Proof.
  intros Hst Hl Hi Hn Hc Hacc. destruct (Create_cases sv ctx input w) as [(i & w' & c & ? & ? & ? & ? & ? & ? & _)|He];
    [done..|left; by exists i, w', c|by right].
Qed.

(** A created item is read back unchanged, and reading any other identifier
    gives what it gave before. *)
Theorem Create_then_Get sv ctx input i w w' :
  sv_store sv = Some ops -> live ctx -> st_inv (w_store w) ->
  clock_wf sysnow -> clock_wf (sv_clock sv) ->
  (forall c, ValidateCreateInput input = Ok c -> accepted sv c) ->
  Create sysnow (Some sv) (Some ctx) input w = (Ok i, w') ->
  (exists w'', Get (Some sv) (Some ctx) (ID i) w' = (Ok i, w''))
  /\ forall id j, id <> uuid_nil -> id <> ID i ->
       fst (Get (Some sv) (Some ctx) id w) = Ok j <-> fst (Get (Some sv) (Some ctx) id w') = Ok j.
Proof.
  intros Hst Hl Hi Hn Hc Hacc E.
  destruct (Create_cases sv ctx input w) as [(i' & w1 & c & E' & _ & Hb & Hi' & _ & V' & _)|(e & w1 & E' & _)];
    [done..| |congruence].
  rewrite E in E'. injection E' as <- <-.
  split.
  - destruct (Get_run sv ctx (ID i) w') as (w'' & r & -> & _ & _ & Hr); [done..|apply Hb|].
    rewrite V', lookup_insert_eq in Hr. subst r. by eexists.
  - intros id j Hid Hne.
    destruct (Get_run sv ctx id w) as (w1 & r1 & -> & _ & _ & Hr1); [done..|].
    destruct (Get_run sv ctx id w') as (w2 & r2 & -> & _ & _ & Hr2); [done..|].
    rewrite V', lookup_insert_ne in Hr2 by done. cbn [fst].
    destruct (view w !! id); [by rewrite Hr1, Hr2|].
    destruct Hr1 as (e1 & -> & _), Hr2 as (e2 & -> & _). done.
Qed.

(** An offset page holds exactly the rows [offset, offset + limit) of the
    collection newest first, with the normalised limit, and [has_more] says
    whether rows remain behind it; the page carries a continuation token exactly
    when rows remain and the service can list by cursor. *)
Theorem List_page codec `{!CodecSpec codec} sv ctx params q w :
  sv_store sv = Some ops -> (sv_cursorCodec sv = None \/ sv_cursorCodec sv = Some codec) ->
  live ctx -> st_inv (w_store w) -> servable codec (view w) -> NormalizeListParams params = Ok q ->
  exists next w',
    List (Some sv) (Some ctx) params w
    = (Ok (mkPage (take (Z.to_nat (lp_limit q)) (drop (Z.to_nat (lp_offset q)) (newest (view w))))
             (lp_limit q) (lp_offset q)
             (bool_decide (lp_offset q + lp_limit q < Z.of_nat (size (view w)))) next), w')
    /\ view w' = view w
    /\ (next <> [] <->
        lp_offset q + lp_limit q < Z.of_nat (size (view w))
        /\ is_Some (sv_cursorCodec sv) /\ is_Some (st_list_after ops)).
Proof.
  intros Hst Hco Hl Hi Hs Hq. pose proof (NormalizeListParams_Ok _ _ Hq) as (? & ? & _).
  destruct (List_run codec sv ctx params q w) as (next & w' & -> & _ & V & Hc); [done..|].
  assert ((lp_limit q <? Z.of_nat (length (drop (Z.to_nat (lp_offset q)) (newest (view w)))))
          = bool_decide (lp_offset q + lp_limit q < Z.of_nat (size (view w)))) as E.
  { rewrite length_drop, newest_length. apply Bool.eq_iff_eq_true.
    rewrite Z.ltb_lt, bool_decide_eq_true. lia. }
  rewrite E in *. exists next, w'. split_and!; [done|done|].
  transitivity (bool_decide (lp_offset q + lp_limit q < Z.of_nat (size (view w)))
    && bool_decide (is_Some (sv_cursorCodec sv)) && bool_decide (is_Some (st_list_after ops)) = true).
  2: { rewrite !andb_true_iff, !bool_decide_eq_true. tauto. }
  destruct (_ && _); [|by subst next].
  destruct Hc as (i & _ & Hlen & _). split; [done|]. intros _ ->. simpl in Hlen. lia.
Qed.

(** C10: a retried idempotent create. Once a request succeeded under a fresh key,
    any request that canonicalises to the same fields, under the same scope and
    key, returns the same item marked as a replay and stores nothing; one that
    canonicalises to other fields is refused as a conflict, short of a collision of
    the digest. *)
Theorem CreateIdempotent_retry `{!IdempotentSpec ops} sv ctx input key c i b w w' :
  sv_store sv = Some ops -> live ctx -> clock_wf sysnow -> clock_wf (sv_clock sv) ->
  (forall tick, exists id, sv_generateID sv tick = Ok id /\ uuid_v4 id) ->
  ValidateIdempotencyKey key = Ok tt -> ValidateCreateInput input = Ok c -> accepted sv c ->
  st_inv (w_store w) -> st_free (w_store w) ->
  st_record (w_store w) (storageIdempotencyKey (Some ctx) key) = None ->
  CreateIdempotent sysnow (Some sv) (Some ctx) input key w = (Ok (i, b), w') ->
  b = false /\ view w' = <[ID i := i]> (view w)
  /\ forall ctx2 input2 c2,
       live ctx2 -> IdempotencyScopeFromContext (Some ctx2) = IdempotencyScopeFromContext (Some ctx) ->
       ValidateCreateInput input2 = Ok c2 ->
       exists r w'', CreateIdempotent sysnow (Some sv) (Some ctx2) input2 key w' = (r, w'')
         /\ view w'' = view w'
         /\ (c2 = c -> r = Ok (i, true))
         /\ (c2 <> c -> r = Err (Sentinel ErrIdempotencyConflict) \/ collision).
Proof.
  intros Hst Hl Hn Hc Hgen Hk Hv Hacc Hi Hf Hr E.
  destruct (CreateIdempotent_first sv ctx input key c w i b w') as (-> & Hb & Hi' & V' & R' & C'); [done..|].
  split_and!; [done|done|]. intros ctx2 input2 c2 Hl2 Hscope Hv2.
  destruct (CreateIdempotent_run sv ctx2 input2 key c2 w') as [(j & w1 & E1 & Hb2 & ->)|(e & w1 & Ee & _ & _ & He)];
    [done..| |].
  2: { destruct He as [tick Hno], (Hgen tick) as (id & Eg & Hid). by destruct (Hno id Eg). }
  assert (storageIdempotencyKey (Some ctx2) key = storageIdempotencyKey (Some ctx) key) as ->.
  { unfold storageIdempotencyKey. by rewrite Hscope. }
  rewrite <- E1 in Hi', R', C'.
  edestruct (st_idem_known ctx2 j (storageIdempotencyKey (Some ctx) key)) as (r & w2 & E2 & Hi2 & V2 & Hcase);
    [done|done|done|apply Hb2|apply storageIdempotencyKey_valid|by eexists|exact R'|].
  rewrite E1, V', lookup_insert_eq in Hcase. unfold bind. rewrite E2.
  destruct (decide _) as [Ef|Ef]; subst r; cbn [fst].
  - rewrite bool_decide_false by apply Hb. eexists _, w2. split; [done|]. rewrite V2, E1.
    split_and!; [done|done|]. intros Hne. right. apply digest_hex_inj in Ef as [Ef|?]; [|done].
    apply ValidateCreateInput_Ok in Hv as [_ Hv], Hv2 as [_ Hv2].
    by apply fingerprint_payload_inj in Ef.
  - eexists _, w2. split; [done|]. rewrite V2, E1. split_and!; [done| |by left].
    by intros ->.
Qed.
End Facts.
