(* ===== verification/Traversal.v ===== *)
(** * Following cursors through a collection

    A client that repeats [ListCursor] with the token of the previous page, while
    other requests keep inserting items between its pages. It sees every item that
    existed when it started, exactly once and newest first, whatever is inserted
    meanwhile, and it stops. *)
From S2P Require Import Prelude GoText GoTime Sha256 Errors World Item Idempotency Cursor Order Store Service ServiceFacts.

Section Traversal.
Context {H : Hash256} {S : Type}.
Context (ops : StoreOps S) `{!StoreSpec ops} (codec : CodecOps S) `{!CodecSpec codec}.
Context (sv : Service (S := S)) (ctx : context) (limit : Z).

(** The client; [env n] is what other requests do to the store before the page
    that leaves [n] units of fuel. *)
Fixpoint traverse (fuel : nat) (env : nat -> S -> S) (token : bytes) : M S (list Item) :=
  match fuel with
  | O => fail (Opaque &"too many pages")
  | Datatypes.S fuel' =>
    s <-- load;;
    save (env fuel' s);;;
    page <-- ListCursor (Some sv) (Some ctx) (mkCursorRequest limit token);;
    if cpg_has_more page then
      rest <-- traverse fuel' env (cpg_next_cursor page);;
      ret (cpg_items page ++ rest)
    else ret (cpg_items page)
  end.

Abbreviation view w := (st_view (w_store w)).

(** Others only insert items, and all of them belong to [bound]. *)
Definition only_inserts (bound : gmap uuid Item) (env : nat -> S -> S) : Prop :=
  forall n s, st_inv s -> st_view s ⊆ bound ->
    st_inv (env n s) /\ st_view s ⊆ st_view (env n s) /\ st_view (env n s) ⊆ bound.

Definition in_map (m : gmap uuid Item) (i : Item) : bool := bool_decide (m !! ID i = Some i).

(** ** Lemmas on rows *)

Lemma rows_sorted m after : items_ok m -> newest_first (rows_after after (newest m)).
Proof.
  intros Hm. destruct after as [p|]; simpl; [apply StronglySorted_bfilter|]; by apply newest_sorted.
Qed.

Lemma rows_elem m after i :
  items_ok m -> i ∈ rows_after after (newest m) <->
  m !! ID i = Some i /\ match after with None => True | Some p => beyond p i = true end.
Proof.
  intros Hm. destruct after as [p|]; simpl; [rewrite elem_of_bfilter|]; rewrite newest_elem by done; tauto.
Qed.

Lemma rows_canonical m after : items_ok m -> Forall canonical_item (rows_after after (newest m)).
Proof.
  intros Hm. apply Forall_forall. intros i [Hi _]%rows_elem; [|done]. by destruct (Hm _ _ Hi).
Qed.

Lemma items_ok_sub m m' : m ⊆ m' -> items_ok m' -> items_ok m.
Proof. intros Hs Hm k i Hk. apply Hm. by eapply lookup_weaken. Qed.

Lemma rows_submap m0 m after :
  items_ok m -> m0 ⊆ m ->
  List.filter (in_map m0) (rows_after after (newest m)) = rows_after after (newest m0).
Proof.
  intros Hm Hs. pose proof (newest_submap m0 m Hm Hs : List.filter (in_map m0) (newest m) = newest m0) as E.
  destruct after as [p|]; simpl; [|done]. rewrite filter_swap. by rewrite E.
Qed.

(** Cutting the rows after their first items: the rest is what lies beyond the
    last of them. *)
Lemma rows_cut m after front i rest :
  items_ok m -> after_ok after -> rows_after after (newest m) = front ++ i :: rest ->
  rows_after (Some (item_position i)) (newest m) = rest.
Proof.
  intros Hm Ha E. pose proof (rows_canonical m after Hm) as Hc.
  pose proof (filter_beyond_last _ front i rest (rows_sorted m after Hm) Hc E) as Hf.
  rewrite <- Hf. destruct after as [p|]; [|done]. simpl. symmetry. apply filter_imp.
  assert (i ∈ rows_after (Some p) (newest m)) as [Hi Hp]%rows_elem; [| |done].
  { rewrite E. apply elem_of_app. right. constructor. }
  intros j Hj%newest_elem Hb; [|done].
  assert (canonical_item i) as Ci by by destruct (Hm _ _ Hi).
  assert (canonical_item j) as Cj by by destruct (Hm _ _ Hj).
  apply (beyond_trans p i j); [apply Ha|done|done|done|]. by rewrite newer_beyond.
Qed.

(** The rows strictly shrink from page to page. *)
Lemma rows_shrink m after i :
  items_ok m -> after_ok after -> i ∈ rows_after after (newest m) ->
  (length (rows_after (Some (item_position i)) (newest m)) < length (rows_after after (newest m)))%nat.
Proof.
  intros Hm Ha Hi. apply list_elem_of_split in Hi as (front & rest & E).
  rewrite (rows_cut m after front i rest Hm Ha E), E, length_app. simpl. lia.
Qed.

(** A page followed by what comes after its last item. *)
Lemma page_join m after page front i rest :
  items_ok m -> after_ok after -> page = front ++ [i] -> newest_first page -> newest_first rest ->
  (forall j, j ∈ page -> j ∈ rows_after after (newest m)) ->
  (forall j, j ∈ rest -> j ∈ rows_after (Some (item_position i)) (newest m)) ->
  newest_first (page ++ rest) /\ (forall j, j ∈ page ++ rest -> j ∈ rows_after after (newest m)).
Proof.
  intros Hm Ha E Sp Sr Hp Hr.
  assert (i ∈ page) as Hi by (rewrite E; apply elem_of_app; right; constructor).
  assert (forall j, j ∈ rest -> newer i j = true) as Hir.
  { intros j [Hj Hb]%Hr%rows_elem; [|done]. apply Hp, rows_elem in Hi as [Hi _]; [|done].
    destruct (Hm _ _ Hi), (Hm _ _ Hj). by rewrite newer_beyond. }
  assert (forall j, j ∈ page -> canonical_item j) as Hpc.
  { intros j [Hj _]%Hp%rows_elem; [|done]. by destruct (Hm _ _ Hj). }
  assert (forall j, j ∈ rest -> canonical_item j) as Hrc.
  { intros j [Hj _]%Hr%rows_elem; [|done]. by destruct (Hm _ _ Hj). }
  split.
  - apply StronglySorted_app_2; [|done|done]. intros x y Hx Hy.
    rewrite E in Hx. apply elem_of_app in Hx as [Hx|Hx]; [|apply list_elem_of_singleton in Hx as ->; by apply Hir].
    assert (newer x i = true) as Hxi.
    { rewrite E in Sp. eapply StronglySorted_app_1_elem_of in Sp; [exact Sp|done|constructor]. }
    apply (newer_trans x i y); [|by apply Hpc|by apply Hrc|done|by apply Hir].
    apply Hpc. rewrite E. apply elem_of_app. by left.
  - intros j [Hj|Hj]%elem_of_app; [by apply Hp|].
    pose proof (Hir j Hj) as Hn. pose proof (Hrc j Hj). apply Hr, rows_elem in Hj as [Hj _]; [|done].
    pose proof (Hpc i Hi) as Ci. apply Hp, rows_elem in Hi as [Hi Hbi]; [|done].
    apply rows_elem; [done|]. split; [done|]. destruct after as [p|]; [|done].
    apply (beyond_trans p i j); [apply Ha|done..].
Qed.

(** ** The traversal *)

Context (list_after : option context -> CursorListParams -> M S (list Item)).
Context (Hstore : sv_store sv = Some ops) (Hcodec : sv_cursorCodec sv = Some codec).
Context (Hlist : st_list_after ops = Some list_after) (Hlive : live ctx).
Context (Hlimit : 1 <= limit <= MaxPageSize).

Lemma traverse_run bound env m0 :
  items_ok bound -> servable codec bound -> only_inserts bound env ->
  forall fuel token after w,
    st_inv (w_store w) -> m0 ⊆ view w -> view w ⊆ bound -> request_after ops codec token after ->
    (length (rows_after after (newest bound)) < fuel)%nat ->
    exists items w', traverse fuel env token w = (Ok items, w')
      /\ newest_first items
      /\ (forall i, i ∈ items -> i ∈ rows_after after (newest bound))
      /\ List.filter (in_map m0) items = rows_after after (newest m0).
Proof.
  intros Hb Hs Henv. induction fuel as [|fuel IH]; intros token after w Hi H0 Hsub Hreq Hfuel; [lia|].
  destruct (Henv fuel (w_store w) Hi Hsub) as (Hi1 & Hgrow & Hsub1).
  cbn [traverse]. unfold bind at 1, load at 1. unfold bind at 1, save at 1.
  set (w1 := World _ _). change (env fuel (w_store w)) with (w_store w1) in Hi1, Hgrow, Hsub1.
  assert (m0 ⊆ view w1) as H01 by (by etransitivity).
  assert (after_ok after) as Ha by (by destruct after; [apply Hreq|]).
  assert (items_ok (view w1)) as Hv1 by by apply st_items_ok.
  destruct (ListCursor_run ops codec sv ctx list_after limit token after w1)
    as (next & w2 & E2 & Hi2 & V2 & Hnext); try done.
  { intros k i Hk. apply (Hs k). by eapply lookup_weaken. }
  unfold bind at 1. rewrite E2. cbn [cpg_has_more cpg_items cpg_next_cursor].
  set (rows := rows_after after (newest (view w1))) in *.
  pose proof (rows_sorted (view w1) after Hv1) as Hsort. fold rows in Hsort.
  assert (forall i, i ∈ rows -> i ∈ rows_after after (newest bound)) as Hin.
  { intros i [Hl ?]%rows_elem; [|done]. apply rows_elem; [done|]. split; [by eapply lookup_weaken|done]. }
  destruct (limit <? Z.of_nat (length rows)) eqn:Em; bool_simpl.
  2: { exists rows, w2. rewrite take_ge by lia. split_and!; [done|done|done|]. by apply rows_submap. }
  destruct Hnext as (i & Elast & Hlen & Hdec).
  pose proof Elast as (front & Efront)%last_Some.
  assert (rows = front ++ i :: drop (Z.to_nat limit) rows) as Erows.
  { rewrite <- (take_drop (Z.to_nat limit) rows) at 1. by rewrite Efront, <- app_assoc. }
  assert (i ∈ rows) as Hir by (rewrite Erows; apply elem_of_app; right; constructor).
  pose proof (Hin i Hir) as [Hib _]%rows_elem; [|done].
  destruct (IH next (Some (item_position i)) w2) as (rest & w3 & E3 & S3 & I3 & F3).
  - done.
  - by rewrite V2.
  - by rewrite V2.
  - split; [done|]. split; [done|]. split; [by destruct (Hs _ _ Hib)|].
    apply (st_seek_item (w_store w1)); [done|]. by apply rows_elem in Hir as [? _].
  - pose proof (rows_shrink bound after i Hb Ha (Hin i Hir)). lia.
  - exists (take (Z.to_nat limit) rows ++ rest), w3. unfold bind. rewrite E3. split; [done|].
    destruct (page_join bound after (take (Z.to_nat limit) rows) front i rest) as [Jsort Jin]; try done.
    { rewrite <- (take_drop (Z.to_nat limit) rows) in Hsort. by eapply StronglySorted_app_1_l. }
    { intros j Hj%elem_of_take_weaken. by apply Hin. }
    split; [done|]. split; [done|].
    rewrite List.filter_app, F3. rewrite <- (rows_submap m0 (view w1) (Some _) Hv1 H01).
    rewrite (rows_cut _ _ _ _ _ Hv1 Ha Erows), <- List.filter_app, take_drop.
    by apply rows_submap.
Qed.

Lemma newest_first_NoDup l : Forall canonical_item l -> newest_first l -> NoDup l.
Proof.
  intros Hc Hs. induction Hs as [|i l Hs IH Hi]; constructor.
  - intros Hin. rewrite Forall_forall in Hi. apply Forall_cons in Hc as [Ci _].
    specialize (Hi i Hin). by rewrite (newer_asym i i) in Hi.
  - apply IH. by apply Forall_cons in Hc as [_ ?].
Qed.

(** ** Properties *)

(** C1: following the cursors of a collection is complete and terminates. Whatever
    items other requests insert between the pages, a client that follows
    [next_cursor] from the first page to the last gets every item that existed when
    it started exactly once, newest first, and nothing that was never inserted; it
    never skips, never repeats and needs no more pages than there are items. *)
Theorem Cursor_traversal_complete bound env fuel w :
  items_ok bound -> servable codec bound -> only_inserts bound env ->
  st_inv (w_store w) -> view w ⊆ bound -> (size bound < fuel)%nat ->
  exists items w', traverse fuel env [] w = (Ok items, w')
    /\ NoDup items /\ newest_first items
    /\ (forall i, i ∈ items -> bound !! ID i = Some i)
    /\ List.filter (in_map (view w)) items = newest (view w).
Proof.
  intros Hb Hs Henv Hi Hsub Hf. rewrite <- newest_length in Hf.
  destruct (traverse_run bound env (view w) Hb Hs Henv fuel [] None w) as (items & w' & E & Sd & I & F); try done.
  assert (forall i, i ∈ items -> bound !! ID i = Some i) as Hin.
  { intros i Hin. by apply I, rows_elem in Hin as [? _]. }
  exists items, w'. split_and!; try done. apply newest_first_NoDup; [|done].
  apply Forall_forall. intros i Hi'%Hin. by destruct (Hb _ _ Hi').
Qed.
End Traversal.
