(* ===== verification/Scenario.v ===== *)
(** * A running service

    The service over the in-memory store and the signed cursor codec, with concrete
    clocks and identifiers: the classes the service is verified against are met
    together, and the service's theorems are evaluated on it. *)
From S2P Require Import Prelude GoText GoEncoding GoTime Sha256 Errors World Item Idempotency Cursor CursorFacts Order Store Memory MemoryFacts MemoryConcurrent Service ServiceFacts Traversal.

#[local] Existing Instance sha256_hash.

Section Scenario.
(** One iteration order, one clock (stopped), one source of identifiers. *)
Definition sc_range (tick : nat) (m : gmap uuid Item) : list Item := reverse (map_to_list m).*2.
Definition sc_clock (tick : nat) : time := Time 63800000000 500 (Some 77) (Zone 7200).
Definition sc_uuid (n : nat) : uuid :=
  array_of 16 (replicate 6 (zb 1) ++ [zb 0x4f; zb 2; zb 0x8f] ++ replicate 6 (zb 3) ++ [zb (Z.of_nat n)]).
Definition sc_generate (tick : nat) : result uuid := Ok (sc_uuid tick).

Definition sc_codec : SignedCursorCodec :=
  mkCodec (Sum256 (replicate 32 (zb 9))) 0 (Some sc_clock) cursorPurpose.

Definition sc_ops : StoreOps (option MemoryStore) := memory_ops sc_clock sc_range.
Definition sc_codec_ops : CodecOps (option MemoryStore) := signed_codec sc_clock (Some sc_codec).
Definition sc_service : Service :=
  NewService sc_clock sc_generate (Some sc_ops)
    [Some (Service.WithClock (Some sc_clock)); None; Some (WithCursorCodec (Some sc_codec_ops))].

Definition sc_item (n : nat) : Item := mkItem (sc_uuid n) &"tea" &"" (to_utc (sc_clock 0)).
Definition sc_items (n : nat) : gmap uuid Item :=
  list_to_map ((fun k => (sc_uuid k, sc_item k)) <$> seq 0 n).
Definition sc_world (n : nat) : world (option MemoryStore) := World 200 (Some (set_items New (sc_items n))).

Lemma sc_range_perm tick m : sc_range tick m ≡ₚ (map_to_list m).*2.
Proof. unfold sc_range. by rewrite reverse_Permutation. Qed.

Lemma sc_clock_ok t : time_wf (store_clock sc_clock None t)
  /\ 0 <= t_sec (store_clock sc_clock None t) < 2 ^ 62 /\ IsZero (store_clock sc_clock None t) = false.
Proof. by repeat split. Qed.

Lemma sc_window t t' :
  instant (to_utc (store_clock sc_clock None t'))
  < instant (to_utc (store_clock sc_clock None t)) + IdempotencyRecordRetention.
Proof. done. Qed.

Lemma sc_sane : clock_sane sc_clock sc_codec.
Proof. intros t. by repeat split. Qed.

Lemma sc_ttl : ttl_ok sc_codec.
Proof. done. Qed.

#[export] Instance sc_store_spec : StoreSpec sc_ops :=
  memory_store_spec sc_clock sc_range sc_range_perm None.
#[export] Instance sc_idem_spec : IdempotentSpec sc_ops :=
  memory_idempotent_spec sc_clock sc_range sc_range_perm None sc_clock_ok sc_window.
#[export] Instance sc_codec_spec : CodecSpec sc_codec_ops :=
  signed_codec_spec sc_clock sc_codec sc_sane sc_ttl (fun t t' => or_introl eq_refl).

Lemma sc_items_forall (P : Item -> Prop) n :
  (forall k, P (sc_item k)) -> map_Forall (fun k i => ID i = k /\ P i) (sc_items n).
Proof.
  intros HP k i Hk. apply elem_of_list_to_map_2, list_elem_of_fmap in Hk as (m & E & _).
  injection E as -> ->. by split.
Qed.

Lemma sc_items_ok n : items_ok (sc_items n).
Proof. apply sc_items_forall. by repeat split. Qed.

Lemma sc_world_inv n : st_inv (w_store (sc_world n)).
Proof. split; [apply sc_items_ok|done|done]. Qed.

Lemma sc_uuid_not_nil k : sc_uuid k <> uuid_nil.
Proof. intros E. apply (f_equal (fun u => nth 0 (arr_bytes u) (zb 0))) in E. discriminate. Qed.

Lemma sc_servable n : servable sc_codec_ops (sc_items n).
Proof.
  assert (map_Forall (fun k i => ID i = k /\ (position_ok (item_position i) /\ cs_ok (item_position i)))
    (sc_items n)) as Hf.
  { apply sc_items_forall. intros k. split; [split; [by repeat split|]|by left].
    apply Validate_Ok; [by repeat split|]. split; [apply sc_uuid_not_nil|done]. }
  intros k i Hk. by apply Hf in Hk as [_ ?].
Qed.

Lemma sc_generate_ok tick : exists id, sv_generateID sc_service tick = Ok id /\ uuid_v4 id.
Proof. exists (sc_uuid tick). split; [done|]. split; [apply sc_uuid_not_nil|done]. Qed.

(** The memory store holds every item. *)
Lemma sc_accepts c : accepted sc_clock sc_ops sc_service c.
Proof. by intros i _. Qed.
End Scenario.

(** ** Witnesses *)

Definition sc_input : CreateInput := mkCreateInput &" green tea " &"loose".

Example Create_outcomes_witness :
  exists r w', Create sc_clock (Some sc_service) (Some background) sc_input (sc_world 3) = (r, w')
    /\ st_inv (w_store w').
Proof.
  destruct (Create_outcomes sc_clock sc_ops sc_service background sc_input (sc_world 3))
    as [(i & w' & c & E & _ & _ & Hi & _)|(e & w' & E & Hi & _)].
  1-6: first [reflexivity|exact live_background|exact (sc_world_inv 3)|intros c _; apply sc_accepts|by repeat split].
  - exists (Ok i), w'. split; [exact E|exact Hi].
  - exists (Err e), w'. split; [exact E|exact Hi].
Defined.

Definition sc_created : Item := mkItem (sc_uuid 201) &"green tea" &"loose" (to_utc (sc_clock 0)).
Definition sc_after_create : world (option MemoryStore) :=
  snd (Create sc_clock (Some sc_service) (Some background) sc_input (sc_world 3)).

Example Create_then_Get_witness :
  exists w'', Get (Some sc_service) (Some background) (sc_uuid 201) sc_after_create = (Ok sc_created, w'').
Proof.
  apply (Create_then_Get sc_clock sc_ops sc_service background sc_input sc_created (sc_world 3) sc_after_create).
  - reflexivity.
  - exact live_background.
  - exact (sc_world_inv 3).
  - by repeat split.
  - by repeat split.
  - intros c _. apply sc_accepts.
  - apply outcome_is_spec. vm_compute. reflexivity.
Defined.

Example List_page_witness :
  exists next w', List (Some sc_service) (Some background) (mkListParams 2 1) (sc_world 5)
    = (Ok (mkPage (take 2 (drop 1 (newest (sc_items 5)))) 2 1 true next), w') /\ next <> [].
Proof.
  destruct (List_page sc_ops sc_codec_ops sc_service background (mkListParams 2 1) (mkListParams 2 1) (sc_world 5))
    as (next & w' & E & _ & Hn).
  - reflexivity.
  - right. reflexivity.
  - exact live_background.
  - exact (sc_world_inv 5).
  - exact (sc_servable 5).
  - reflexivity.
  - exists next, w'. split; [exact E|]. apply Hn. split; [by vm_compute|]. split; by eexists.
Defined.

Definition sc_key : bytes := &"k-1".
Definition sc_after_first : world (option MemoryStore) :=
  snd (CreateIdempotent sc_clock (Some sc_service) (Some background) sc_input sc_key (sc_world 3)).

Example CreateIdempotent_retry_witness :
  exists w'', CreateIdempotent sc_clock (Some sc_service) (Some background)
    (mkCreateInput &"green tea" &"loose  ") sc_key sc_after_first = (Ok (sc_created, true), w'').
Proof.
  assert (CreateIdempotent sc_clock (Some sc_service) (Some background) sc_input sc_key (sc_world 3)
          = (Ok (sc_created, false), sc_after_first)) as Hfirst
    by (apply outcome_is_spec; vm_compute; reflexivity).
  assert (clock_wf sc_clock) as Hc by by repeat split.
  assert (st_free (w_store (sc_world 3))) as Hfree by by split.
  assert (st_record (w_store (sc_world 3)) (storageIdempotencyKey (Some background) sc_key) = None)
    as Hrec by reflexivity.
  pose proof (CreateIdempotent_retry sc_clock sc_ops sc_service background sc_input sc_key
    (mkCreateInput &"green tea" &"loose") sc_created false (sc_world 3) sc_after_first) as Hretry.
  specialize (Hretry eq_refl live_background Hc Hc sc_generate_ok eq_refl eq_refl (sc_accepts _) (sc_world_inv 3)).
  specialize (Hretry Hfree Hrec Hfirst). apply proj2, proj2 in Hretry.
  destruct (Hretry background (mkCreateInput &"green tea" &"loose  ") (mkCreateInput &"green tea" &"loose"))
    as (r & w'' & E & _ & Hsame & _); [exact live_background|reflexivity|reflexivity|].
  exists w''. rewrite E. rewrite Hsame by reflexivity. reflexivity.
Defined.

Example Cursor_traversal_complete_witness :
  exists items w', traverse sc_service background 2 4 (fun _ s => s) [] (sc_world 3) = (Ok items, w')
    /\ List.filter (in_map (sc_items 3)) items = newest (sc_items 3).
Proof.
  assert (1 <= 2 <= MaxPageSize) as Hlim by done.
  assert (size (sc_items 3) < 4)%nat as Hfuel by (apply Nat.ltb_lt; vm_compute; reflexivity).
  pose proof (Cursor_traversal_complete sc_ops sc_codec_ops sc_service background 2 (ListAfter sc_range)) as Ht.
  specialize (Ht eq_refl eq_refl eq_refl live_background Hlim (sc_items 3) (fun _ s => s) 4%nat (sc_world 3)).
  specialize (Ht (sc_items_ok 3) (sc_servable 3)).
  destruct Ht as (items & w' & E & _ & _ & _ & F).
  - intros n s Hi Hs. split; [exact Hi|]. split; [reflexivity|exact Hs].
  - exact (sc_world_inv 3).
  - reflexivity.
  - exact Hfuel.
  - exists items, w'. split; [exact E|exact F].
Defined.

Example Memory_listings_witness :
  fst (Memory.List sc_range (Some background) (mkListParams 2 1) (sc_world 5))
  = Ok (take 2 (drop 1 (newest (sc_items 5)))).
Proof.
  destruct (Memory_listings sc_range sc_range_perm background 2 1 (Some (item_position (sc_item 2)))
    (sc_world 5) (set_items New (sc_items 5))) as [E _].
  - exact live_background.
  - reflexivity.
  - exact (sc_items_ok 5).
  - intros p [= <-]. by repeat split.
  - exact E.
Defined.

(** One call, from its arrival to the record of its item. *)
Definition sc_digest (n : nat) : array 32 := array_of 32 (replicate 32 (zb (Z.of_nat n))).
Definition sc_arrived : call :=
  Arrived (Some background) (sc_item 1) (sc_digest 1) (sc_digest 2) (to_utc (sc_clock 0)).
Definition sc_reserved : call := Reserved (Some background) (sc_item 1) (sc_digest 1) (sc_digest 2).
Definition sc_written : call := Written (sc_digest 1) (sc_digest 2) (sc_uuid 1).
Definition sc_holding : MemoryStore := set_inflight New (ms_inflight New ∪ {[sc_digest 1]}).
Definition sc_stored : MemoryStore := set_items sc_holding (<[sc_uuid 1 := sc_item 1]> (ms_items New)).
Definition sc_entry : idempotencyEntry :=
  mkEntry (sc_digest 2) (sc_uuid 1) (Add (to_utc (sc_clock 0)) IdempotencyRecordRetention).
Definition sc_recorded : MemoryStore :=
  set_idempotency (set_inflight sc_stored (ms_inflight sc_stored ∖ {[sc_digest 1]}))
    (<[sc_digest 1 := sc_entry]> (ms_idempotency sc_stored)).

Definition sc_mid : system :=
  mkSystem sc_holding (<[0%nat := sc_reserved]> (<[0%nat := sc_arrived]> ∅)) [Swept (to_utc (sc_clock 0))].
Definition sc_end : system :=
  mkSystem sc_recorded (<[0%nat := Finished]> (<[0%nat := sc_written]> (sy_calls sc_mid)))
    [Fresh (sc_digest 1) sc_entry; Swept (to_utc (sc_clock 0))].

Lemma sc_mid_reachable : reachable sc_clock sc_mid.
Proof.
  exists (mkSystem New ∅ []). split; [by repeat split|].
  eapply rtc_l; [apply (step_arrive _ _ _ _ 0%nat (Some background) (sc_item 1) (sc_digest 1) (sc_digest 2)
    (to_utc (sc_clock 0))); apply lookup_empty|].
  apply rtc_once. apply (step_reserve _ _ _ _ _ _ _ _ _ _ _ 0 0);
    [apply lookup_insert_eq|reflexivity].
Qed.

Lemma sc_end_reachable : reachable sc_clock sc_end.
Proof.
  destruct sc_mid_reachable as (s0 & H0 & Hrun). exists s0. split; [exact H0|].
  etransitivity; [exact Hrun|].
  eapply rtc_l; [eapply (step_write _ _ sc_stored _ _ 0 _ _ _ _ 0 2);
    [apply lookup_insert_eq|reflexivity]|].
  rewrite bool_decide_false by exact (sc_uuid_not_nil 1). apply rtc_once.
  eapply (step_record _ _ _ _ _ 0 _ _ _ 0 1); [apply lookup_insert_eq|reflexivity|apply lookup_insert_eq].
Qed.

Example Concurrent_exactly_once_witness : log_ok [Fresh (sc_digest 1) sc_entry; Swept (to_utc (sc_clock 0))].
Proof. exact (Concurrent_exactly_once sc_clock sc_end sc_end_reachable). Defined.

Example Concurrent_bounded_owners_witness :
  sc_digest 1 ∈ ms_inflight sc_holding <-> exists i, owns (sy_calls sc_mid) i (sc_digest 1).
Proof.
  destruct (Concurrent_bounded_owners sc_clock sc_mid sc_mid_reachable) as (_ & Hf & _).
  exact (Hf (sc_digest 1)).
Defined.
