(* ===== verification/Auth.v ===== *)
(** * Authentication (pkg/auth/auth.go)

    Principals and their context, the strict Bearer parser and the SHA-256 verifier.
    A request is what the verifier reads of it: its header map, in the order in
    which Go iterates over it. *)
From S2P Require Import Prelude GoText GoEncoding Sha256 Errors World.

Definition MaxBearerTokenBytes : Z := 4096.
Definition MaxPrincipalSubjectBytes : Z := 256.
Definition MaxPrincipalScopes : Z := 128.
Definition MaxPrincipalScopeBytes : Z := 256.
Definition MaxPrincipalScopeTotalBytes : Z := 4096.
Definition DefaultBearerSubject : bytes := &"configured-bearer".

(** ** Principals *)

(** [None] is a nil slice of scopes. *)
Record Principal := mkPrincipal { Subject : bytes; Scopes : option (list bytes) }.
#[global] Instance Principal_eq_dec : EqDecision Principal.
Proof. solve_decision. Defined.

Definition scopes_of (p : Principal) : list bytes := default [] (Scopes p).

Definition validatePrincipalText (value : bytes) (maxBytes : Z) (requireNonEmpty : bool) : result unit :=
  if (requireNonEmpty && bool_decide (value = [])) || (maxBytes <? Z.of_nat (length value))
     || negb (ValidString value) || negb (bool_decide (value = TrimSpace value))
     || has_rune is_control value
  then Err (Sentinel ErrInvalidPrincipal)
  else if negb requireNonEmpty && bool_decide (value = [])
  then Err (Sentinel ErrInvalidPrincipal)
  else Ok tt.

(** The loop of [Principal.Validate] over the scopes. *)
Fixpoint validate_scopes (scopes : list bytes) (totalBytes : Z) : result unit :=
  match scopes with
  | [] => Ok tt
  | scope :: rest =>
    rbind (validatePrincipalText scope MaxPrincipalScopeBytes false) (fun _ =>
      let totalBytes := totalBytes + Z.of_nat (length scope) in
      if MaxPrincipalScopeTotalBytes <? totalBytes
      then Err (Sentinel ErrInvalidPrincipal)
      else validate_scopes rest totalBytes)
  end.

Definition Validate (p : Principal) : result unit :=
  rbind (validatePrincipalText (Subject p) MaxPrincipalSubjectBytes true) (fun _ =>
    if MaxPrincipalScopes <? Z.of_nat (length (scopes_of p))
    then Err (Sentinel ErrInvalidPrincipal)
    else validate_scopes (scopes_of p) 0).

Definition HasScope (p : Principal) (scope : bytes) : bool :=
  if bool_decide (scope = []) then false
  else existsb (fun candidate => bool_decide (candidate = scope)) (scopes_of p).

(** [append([]string(nil), scopes...)] of an empty slice is nil. *)
Definition clonePrincipal (p : Principal) : Principal :=
  match Scopes p with
  | None | Some [] => mkPrincipal (Subject p) None
  | Some scopes => mkPrincipal (Subject p) (Some scopes)
  end.

Definition ContextWithPrincipal (ctx : option context) (principal : Principal) : result context :=
  match ctx with
  | None => Err (Sentinel ErrNilContext)
  | Some c =>
    rbind (Validate principal) (fun _ =>
      let p := clonePrincipal principal in
      Ok (with_value c (PrincipalValue (Subject p) (Scopes p))))
  end.

Definition WithPrincipal (ctx : option context) (principal : Principal) : option context :=
  match ContextWithPrincipal ctx principal with
  | Ok updated => Some updated
  | Err _ => ctx
  end.

Fixpoint lookup_principal (vs : list ctx_value) : option Principal :=
  match vs with
  | [] => None
  | PrincipalValue subject scopes :: _ => Some (mkPrincipal subject scopes)
  | _ :: rest => lookup_principal rest
  end.

Definition PrincipalFromContext (ctx : option context) : option Principal :=
  c ← ctx; p ← lookup_principal (ctx_values c); Some (clonePrincipal p).

(** ** The Bearer parser *)

Definition token68_char (b : byte) : bool := is_alnum b || in_set &"-._~+/" b.
Definition equals_sign : byte := zb 61.

Fixpoint token_chars (token : bytes) : bool :=
  match token with
  | [] => true
  | b :: rest =>
    if token68_char b then token_chars rest
    else if bool_decide (b = equals_sign) then forallb (fun c => bool_decide (c = equals_sign)) token
    else false
  end.

Definition validBearerToken (token : bytes) : bool :=
  match token with
  | [] => false
  | b :: _ => negb (bool_decide (b = equals_sign)) && token_chars token
  end.

Definition bearer_limit : Z := MaxBearerTokenBytes + Z.of_nat (length (&"Bearer ")).

Definition ParseBearerHeader (values : list bytes) : result bytes :=
  match values with
  | [] => Err (Sentinel ErrMissingCredentials)
  | [raw] =>
    if (bearer_limit <? Z.of_nat (length raw)) || bool_decide (raw = []) then
      if bearer_limit <? Z.of_nat (length raw) then Err (Sentinel ErrCredentialsTooLong)
      else Err (Sentinel ErrInvalidCredentials)
    else if negb (bool_decide (raw = TrimSpace raw))
            || existsb (in_set [zb 9; zb 13; zb 10]) raw
    then Err (Sentinel ErrInvalidCredentials)
    else
      match index_byte raw (zb 32) with
      | None | Some O => Err (Sentinel ErrInvalidCredentials)
      | Some separator =>
        let token := drop (S separator) raw in
        if Nat.eqb separator (length raw - 1)
           || match index_byte token (zb 32) with Some _ => true | None => false end
        then Err (Sentinel ErrInvalidCredentials)
        else
          let scheme := take separator raw in
          if negb (equal_fold scheme &"Bearer") then Err (Sentinel ErrUnsupportedScheme)
          else if bool_decide (token = []) then Err (Sentinel ErrInvalidCredentials)
          else if MaxBearerTokenBytes <? Z.of_nat (length token) then Err (Sentinel ErrCredentialsTooLong)
          else if negb (validBearerToken token) then Err (Sentinel ErrInvalidCredentials)
          else Ok token
      end
  | _ => Err (Sentinel ErrDuplicateCredentials)
  end.

(** The header map of a request, as a list in iteration order. *)
Definition headers : Type := list (bytes * list bytes).

Definition authorization_values (header : headers) : list bytes :=
  concat (snd <$> List.filter (fun e => equal_fold (fst e) &"Authorization") header).

Definition ParseBearerToken (request : option headers) : result bytes :=
  match request with
  | None => Err (Sentinel ErrNilRequest)
  | Some header => ParseBearerHeader (authorization_values header)
  end.

(** ** The verifier *)

Section Verifier.
Context {H : Hash256}.

Definition parseSHA256Digest (raw : bytes) : result (array 32) :=
  if negb (Z.of_nat (length raw) =? 64) || negb (bool_decide (raw = TrimSpace raw))
  then Err (Sentinel ErrInvalidDigest)
  else
    match hex_decode raw with
    | None => Err (Sentinel ErrInvalidDigest)
    | Some decoded =>
      if negb (Nat.eqb (length decoded) 32) then Err (Sentinel ErrInvalidDigest)
      else Ok (array_of 32 decoded)
    end.

Record BearerSHA256 := mkBearer { bs_digest : array 32; bs_principal : Principal }.

Definition NewBearerSHA256FromDigest (digest : array 32) (subject : bytes) : result BearerSHA256 :=
  let principal := mkPrincipal subject None in
  rbind (Validate principal) (fun _ => Ok (mkBearer digest principal)).

Definition NewBearerSHA256WithSubject (digestHex subject : bytes) : result BearerSHA256 :=
  rbind (parseSHA256Digest digestHex) (fun digest =>
    let principal := mkPrincipal subject None in
    rbind (Validate principal) (fun _ => Ok (mkBearer digest principal))).

Definition NewBearerSHA256 (digestHex : bytes) : result BearerSHA256 :=
  NewBearerSHA256WithSubject digestHex DefaultBearerSubject.

Definition constantTimeDigestEqual (left right : array 32) : bool :=
  bool_decide (arr_bytes left = arr_bytes right).

(** One look at the context. *)
Definition ctx_check {S} (c : context) : M S unit :=
  e <-- observe (ctx_err c);;
  match e with None => ret tt | Some err => fail err end.

Definition Authenticate {S} (v : option BearerSHA256) (ctx : option context) (request : option headers)
  : M S Principal :=
  match ctx with
  | None => fail (Sentinel ErrNilContext)
  | Some c =>
    ctx_check c;;;
    match request with
    | None => fail (Sentinel ErrNilRequest)
    | Some _ =>
      match v with
      | None => fail (Sentinel ErrInvalidCredentials)
      | Some v =>
        token <-- of_result (ParseBearerToken request);;
        ctx_check c;;;
        let provided := Sum256 token in
        if negb (constantTimeDigestEqual provided (bs_digest v))
        then fail (Sentinel ErrInvalidCredentials)
        else
          ctx_check c;;;
          ret (clonePrincipal (bs_principal v))
      end
    end
  end.
End Verifier.
