(* ===== verification/AuthFacts.v ===== *)
(** * Facts about authentication

    The Bearer grammar, the closed set of authentication failures, what the
    verifier accepts, and principals carried by a context. *)
From S2P Require Import Prelude GoText GoEncoding Sha256 Errors World Idempotency Auth.

(** ** The Bearer grammar *)

(** RFC 6750: one or more token characters, then padding. *)
Definition b64token (token : bytes) : Prop :=
  exists body n, token = body ++ replicate n equals_sign /\ body <> []
    /\ forallb token68_char body = true.

(** "Bearer", in any case. *)
Definition bearer_scheme (scheme : bytes) : Prop := lower_byte <$> scheme = &"bearer".

Lemma token68_char_facts b :
  token68_char b = true -> bz b < 0x80 /\ is_space (bz b) = false /\ b <> zb 32 /\ b <> equals_sign
    /\ in_set [zb 9; zb 13; zb 10] b = false.
Proof.
  apply (Forall_bytes_forall (fun b => token68_char b = true -> bz b < 0x80 /\ is_space (bz b) = false
    /\ b <> zb 32 /\ b <> equals_sign /\ in_set [zb 9; zb 13; zb 10] b = false)). vm_compute. reflexivity.
Qed.

Lemma token_chars_spec token :
  token_chars token = true <->
  exists body n, token = body ++ replicate n equals_sign /\ forallb token68_char body = true.
Proof.
  induction token as [|b token IH]; cbn [token_chars].
  { split; [|done]. intros _. by exists [], 0%nat. }
  destruct (token68_char b) eqn:Eb.
  - rewrite IH. split.
    + intros (body & n & -> & Hb). exists (b :: body), n. simpl. by rewrite Eb.
    + intros (body & n & E & Hb). destruct body as [|c body].
      * destruct n; [done|]. injection E as -> _. by vm_compute in Eb.
      * injection E as -> ->. simpl in Hb. apply andb_true_iff in Hb as [_ Hb]. by exists body, n.
  - split.
    + case_match eqn:E; [|done]. intros Hall. exists [], (length (b :: token)). split; [|done].
      symmetry. apply replicate_as_Forall. split; [done|]. apply Forall_forall. intros c Hc.
      rewrite forallb_forall in Hall. symmetry.
      by apply list_elem_of_In, Hall, bool_decide_eq_true in Hc.
    + intros (body & n & E & Hb). destruct body as [|c body].
      * simpl in E. rewrite E. destruct n; [done|]. injection E as -> _.
        rewrite bool_decide_true by done. apply forallb_forall. intros c Hc.
        apply bool_decide_eq_true. apply list_elem_of_In, elem_of_replicate in Hc. by destruct Hc.
      * injection E as -> _. simpl in Hb. by rewrite Eb in Hb.
Qed.

Lemma validBearerToken_spec token : validBearerToken token = true <-> b64token token.
Proof.
  unfold validBearerToken, b64token. destruct token as [|b token].
  { split; [done|]. intros (body & n & E & Hne & _). by destruct body. }
  rewrite andb_true_iff, negb_true_iff, bool_decide_eq_false, token_chars_spec. split.
  - intros [Hb (body & n & E & Hbody)]. exists body, n. split_and!; try done.
    intros ->. destruct n; [done|]. by injection E as -> _.
  - intros (body & n & E & Hne & Hbody). split; [|by exists body, n].
    destruct body as [|c body]; [done|]. injection E as -> _. simpl in Hbody.
    apply andb_true_iff in Hbody as [Hc _]. apply token68_char_facts in Hc. tauto.
Qed.

(** The bytes of a token need no trimming and hold no separator. *)
Lemma b64token_bytes token :
  b64token token ->
  Forall (fun b => bz b < 0x80 /\ is_space (bz b) = false /\ b <> zb 32 /\ in_set [zb 9; zb 13; zb 10] b = false) token.
Proof.
  intros (body & n & -> & _ & Hb). apply Forall_app. split.
  - apply Forall_forall. intros b Hin. rewrite forallb_forall in Hb.
    apply list_elem_of_In, Hb, token68_char_facts in Hin. tauto.
  - apply Forall_replicate. by vm_compute.
Qed.

Lemma b64token_nonempty token : b64token token -> token <> [].
Proof. intros (body & n & -> & Hne & _). by destruct body. Qed.

(** Case folding on ASCII letters other than [s] and [k]. *)
Lemma fold_rune_bearer r c :
  fold_rune r = bz c -> c ∈ &"bearer" -> r < 0x80.
Proof.
  intros E Hc. assert (bz c < 0x80 /\ bz c <> 115 /\ bz c <> 107) as (? & ? & ?).
  { cbn in Hc. repeat (apply elem_of_cons in Hc as [->|Hc]; [by vm_compute|]). by apply elem_of_nil in Hc. }
  unfold fold_rune in E. repeat case_match; bool_simpl; lia.
Qed.

Lemma equal_fold_bearer scheme : equal_fold scheme &"Bearer" = true <-> bearer_scheme scheme.
Proof.
  unfold equal_fold, bearer_scheme. rewrite bool_decide_eq_true.
  assert ((fun rc => fold_rune rc.1) <$> runes (&"Bearer") = bz <$> &"bearer") as -> by by vm_compute.
  split.
  - intros E. assert (ascii scheme) as Ha.
    { apply ascii_of_runes, Forall_forall. intros rc Hrc.
      apply (list_elem_of_fmap_2 (fun rc => fold_rune rc.1)) in Hrc as Hf. rewrite E in Hf.
      apply list_elem_of_fmap in Hf as (c & Ec & Hc). by eapply fold_rune_bearer. }
    rewrite fold_ascii in E by done. by apply (inj (fmap bz)) in E.
  - intros E. rewrite fold_ascii; [by rewrite E|].
    apply Forall_forall. intros b Hb. apply (list_elem_of_fmap_2 lower_byte) in Hb as Hf. rewrite E in Hf.
    assert (forall b, lower_byte b ∈ &"bearer" -> bz b < 0x80) as Hbyte; [|by apply Hbyte].
    apply (Forall_bytes_forall (fun b => lower_byte b ∈ &"bearer" -> bz b < 0x80)). vm_compute. reflexivity.
Qed.

(** ** Parsing a header *)

Definition bearer_value (scheme token : bytes) : bytes := scheme ++ zb 32 :: token.

Lemma bearer_scheme_bytes scheme :
  bearer_scheme scheme ->
  length scheme = 6%nat
  /\ Forall (fun b => bz b < 0x80 /\ is_space (bz b) = false /\ b <> zb 32 /\ in_set [zb 9; zb 13; zb 10] b = false) scheme.
Proof.
  intros E. split; [by apply (f_equal length) in E; rewrite length_fmap in E|].
  apply Forall_forall. intros b Hb. apply (list_elem_of_fmap_2 lower_byte) in Hb as Hf. rewrite E in Hf.
  clear Hb. revert b Hf. apply (Forall_bytes_forall (fun b => lower_byte b ∈ &"bearer" ->
    bz b < 0x80 /\ is_space (bz b) = false /\ b <> zb 32 /\ in_set [zb 9; zb 13; zb 10] b = false)).
  vm_compute. reflexivity.
Qed.

Lemma bearer_value_trimmed scheme token :
  bearer_scheme scheme -> b64token token ->
  TrimSpace (bearer_value scheme token) = bearer_value scheme token.
Proof.
  intros Hs Ht. apply bearer_scheme_bytes in Hs as [Hl Hs].
  pose proof (b64token_nonempty _ Ht) as Hne. apply b64token_bytes in Ht. apply TrimSpace_tight.
  - apply Forall_app. split; [apply (Forall_impl _ _ _ Hs); by intros b [? _]|].
    constructor; [by vm_compute|]. apply (Forall_impl _ _ _ Ht). by intros b [? _].
  - destruct scheme as [|b scheme]; [done|]. apply Forall_cons in Hs as [Hb _]. apply Hb.
  - unfold bearer_value. rewrite rev_app_distr. cbn [rev]. rewrite <- app_assoc.
    destruct token as [|b token] using rev_ind; [done|]. rewrite rev_unit. cbn [app].
    apply Forall_app in Ht as [_ Ht]. apply Forall_cons in Ht as [Hb _]. apply Hb.
Qed.

Lemma bearer_value_no_control scheme token :
  bearer_scheme scheme -> b64token token ->
  existsb (in_set [zb 9; zb 13; zb 10]) (bearer_value scheme token) = false.
Proof.
  intros [_ Hs]%bearer_scheme_bytes Ht%b64token_bytes. apply not_true_iff_false. intros Hex.
  apply existsb_exists in Hex as (b & Hin%list_elem_of_In & Hb). unfold bearer_value in Hin.
  rewrite Forall_forall in Hs, Ht.
  apply elem_of_app in Hin as [Hin|Hin]; [|apply elem_of_cons in Hin as [->|Hin]].
  - apply Hs in Hin as (_ & _ & _ & Hf). congruence.
  - by vm_compute in Hb.
  - apply Ht in Hin as (_ & _ & _ & Hf). congruence.
Qed.

Lemma ParseBearerHeader_complete scheme token :
  bearer_scheme scheme -> b64token token -> Z.of_nat (length token) <= MaxBearerTokenBytes ->
  ParseBearerHeader [bearer_value scheme token] = Ok token.
Proof.
  intros Hs Ht Hlen. pose proof (bearer_scheme_bytes _ Hs) as [Hl Hsb].
  assert (zb 32 ∉ scheme) as Hn.
  { intros Hin. rewrite Forall_forall in Hsb. by apply Hsb in Hin as (_ & _ & ? & _). }
  assert (zb 32 ∉ token) as Hnt.
  { intros Hin. pose proof (b64token_bytes _ Ht) as Htb. rewrite Forall_forall in Htb.
    by apply Htb in Hin as (_ & _ & ? & _). }
  unfold ParseBearerHeader.
  assert ((bearer_limit <? Z.of_nat (length (bearer_value scheme token))) = false) as ->.
  { apply Z.ltb_ge. unfold bearer_value. rewrite length_app, Hl. cbn [length].
    unfold bearer_limit. change (length (&"Bearer ")) with 7%nat. lia. }
  rewrite bool_decide_false by (unfold bearer_value; by destruct scheme). cbn [orb].
  rewrite bearer_value_trimmed, bool_decide_true, bearer_value_no_control by done. cbn [negb orb].
  unfold bearer_value at 1. rewrite index_byte_app, Hl by done.
  assert (drop 7 (bearer_value scheme token) = token) as Hd.
  { unfold bearer_value. change (7)%nat with (6 + 1)%nat. rewrite <- drop_drop, <- Hl.
    by rewrite drop_app_length. }
  rewrite Hd. assert (index_byte token (zb 32) = None) as -> by by apply index_byte_None.
  pose proof (b64token_nonempty _ Ht) as Hne.
  assert (Nat.eqb 6 (length (bearer_value scheme token) - 1) = false) as ->.
  { apply Nat.eqb_neq. unfold bearer_value. rewrite length_app, Hl. cbn [length].
    destruct token; [done|simpl; lia]. }
  cbn [orb]. unfold bearer_value. rewrite <- Hl at 1. rewrite take_app_length.
  rewrite (proj2 (equal_fold_bearer scheme) Hs), bool_decide_false by done. cbn [negb].
  rewrite (proj2 (Z.ltb_ge _ _)) by lia. by rewrite (proj2 (validBearerToken_spec token) Ht).
Qed.

Lemma ParseBearerHeader_sound values token :
  ParseBearerHeader values = Ok token ->
  exists scheme, values = [bearer_value scheme token] /\ bearer_scheme scheme /\ b64token token
    /\ Z.of_nat (length token) <= MaxBearerTokenBytes.
Proof.
  unfold ParseBearerHeader. destruct values as [|raw [|? ?]]; [done| |done].
  case_match; [by case_match|]. case_match; [done|].
  destruct (index_byte raw (zb 32)) as [[|n]|] eqn:Ei; [done| |done].
  apply index_byte_split in Ei as (Er & _ & _).
  destruct (Nat.eqb _ _ || _); [done|]. destruct (equal_fold _ _) eqn:Ef; [|done]. cbn [negb].
  case_match; [done|]. case_match; [done|]. destruct (validBearerToken _) eqn:Ev; [|done].
  intros [= <-]. exists (take (S n) raw). bool_simpl.
  rewrite <- equal_fold_bearer, <- validBearerToken_spec. split_and!; try done. by f_equal.
Qed.

(** Every failure of the parser is one of five errors, all of them invalid
    credentials to the caller. *)
Definition bearer_errors : list error :=
  Sentinel <$> [ErrMissingCredentials; ErrDuplicateCredentials; ErrUnsupportedScheme;
                ErrCredentialsTooLong; ErrInvalidCredentials].

Lemma ParseBearerHeader_err values e : ParseBearerHeader values = Err e -> e ∈ bearer_errors.
Proof.
  unfold ParseBearerHeader, bearer_errors.
  repeat (case_match; simplify_eq); intros [= <-]; cbn [fmap list_fmap]; rewrite !elem_of_cons; auto 10.
Qed.

Lemma bearer_errors_is e : e ∈ bearer_errors -> Is e ErrInvalidCredentials = true.
Proof.
  unfold bearer_errors. cbn [fmap list_fmap]. intros He.
  repeat (apply elem_of_cons in He as [->|He]; [reflexivity|]). by apply elem_of_nil in He.
Qed.

(** ** The order of a header map *)

Lemma ParseBearerHeader_perm vs vs' : vs ≡ₚ vs' -> ParseBearerHeader vs = ParseBearerHeader vs'.
Proof.
  intros Hp. destruct vs as [|v [|v2 vs]].
  - by apply Permutation_nil_l in Hp as ->.
  - by apply Permutation_singleton_l in Hp as ->.
  - apply Permutation_length in Hp. by destruct vs' as [|? [|? ?]].
Qed.

Lemma authorization_values_perm h h' : h ≡ₚ h' -> authorization_values h ≡ₚ authorization_values h'.
Proof.
  intros Hp. unfold authorization_values.
  assert (List.filter (fun e => equal_fold (fst e) &"Authorization") h
          ≡ₚ List.filter (fun e => equal_fold (fst e) &"Authorization") h') as Hf.
  { induction Hp as [|x l l' Hp IH|x y l|l1 l2 l3 _ IH1 _ IH2]; simpl.
    - done.
    - destruct (equal_fold _ _); [by constructor|done].
    - destruct (equal_fold (fst x) _), (equal_fold (fst y) _); try done. constructor.
    - by rewrite IH1. }
  induction Hf as [|x l l' Hp' IH|x y l|l1 l2 l3 _ IH1 _ IH2]; simpl.
  - done.
  - by rewrite IH.
  - by rewrite !app_assoc, (Permutation_app_comm (snd y)).
  - by rewrite IH1.
Qed.

(** ** Principals *)

Definition principal_text_ok (value : bytes) (maxBytes : Z) : Prop :=
  value <> [] /\ Z.of_nat (length value) <= maxBytes /\ ValidString value = true
  /\ TrimSpace value = value /\ has_rune is_control value = false.

Lemma validatePrincipalText_spec value maxBytes required :
  validatePrincipalText value maxBytes required = Ok tt <-> principal_text_ok value maxBytes.
Proof.
  unfold validatePrincipalText, principal_text_ok. destruct value as [|b value].
  { split; [|by intros []]. rewrite (bool_decide_true (@nil byte = [])) by done.
    destruct required; cbn [negb andb orb]; [done|]. by case_match. }
  rewrite (bool_decide_false (b :: value = [])) by done. rewrite !andb_false_r. cbn [orb].
  destruct (Z.ltb_spec maxBytes (Z.of_nat (length (b :: value)))); cbn [orb].
  { split; [done|]. intros (_ & ? & _). lia. }
  destruct (ValidString _); cbn [negb orb]; [|split; [done|by intros (_ & _ & ? & _)]].
  destruct (decide (b :: value = TrimSpace (b :: value))) as [E|E].
  - rewrite bool_decide_true by done. cbn [negb orb].
    destruct (has_rune _ _); split; try done; by intros (_ & _ & _ & _ & ?).
  - rewrite bool_decide_false by done. cbn [negb orb]. split; [done|]. by intros (_ & _ & _ & Et & _).
Qed.

Definition total_bytes (scopes : list bytes) : Z := Z.of_nat (sum_list_with (fun s : bytes => length s) scopes).

Lemma validate_scopes_spec scopes total :
  total <= MaxPrincipalScopeTotalBytes ->
  validate_scopes scopes total = Ok tt <->
  Forall (fun s => principal_text_ok s MaxPrincipalScopeBytes) scopes
  /\ total + total_bytes scopes <= MaxPrincipalScopeTotalBytes.
Proof.
  revert total. induction scopes as [|s scopes IH]; intros total Ht; cbn [validate_scopes].
  { unfold total_bytes. simpl. split; [|done]. intros _. split; [constructor|lia]. }
  rewrite Forall_cons, <- (validatePrincipalText_spec s _ false).
  assert (total_bytes (s :: scopes) = Z.of_nat (length s) + total_bytes scopes) as ->
    by (unfold total_bytes; simpl; lia).
  assert (0 <= total_bytes scopes) by (unfold total_bytes; lia).
  destruct (validatePrincipalText s _ false) as [[]|]; cbn [rbind]; [|by split; [|intros [[] _]]].
  destruct (Z.ltb_spec MaxPrincipalScopeTotalBytes (total + Z.of_nat (length s))).
  - split; [done|]. intros [_ ?]. lia.
  - rewrite IH by lia. split; intros [H1 H2]; (split; [tauto|lia]).
Qed.

Lemma PrincipalFromContext_with c p :
  PrincipalFromContext (Some (with_value c (PrincipalValue (Subject p) (Scopes p)))) = Some (clonePrincipal p).
Proof. by destruct p. Qed.

Lemma clone_idemp p : clonePrincipal (clonePrincipal p) = clonePrincipal p.
Proof. destruct p as [s [[|? ?]|]]; done. Qed.

(** ** The verifier *)

Section Verifier.
Context {H : Hash256}.

Lemma ctx_check_live {S} c (w : world S) :
  live c -> ctx_check c w = (Ok tt, World (Datatypes.S (w_tick w)) (w_store w)).
Proof. intros Hl. unfold ctx_check. m_unfold. by rewrite Hl. Qed.

Lemma Authenticate_run {S} v c header (w : world S) :
  live c ->
  fst (Authenticate (Some v) (Some c) (Some header) w)
  = rbind (ParseBearerToken (Some header)) (fun token =>
      if bool_decide (Sum256 token = bs_digest v) then Ok (clonePrincipal (bs_principal v))
      else Err (Sentinel ErrInvalidCredentials)).
Proof.
  intros Hl. unfold Authenticate. unfold bind at 1. rewrite ctx_check_live by done.
  unfold bind at 1, of_result at 1. destruct (ParseBearerToken (Some header)) as [token|]; [|done].
  unfold bind at 1. rewrite ctx_check_live by done. cbn [rbind]. unfold constantTimeDigestEqual.
  destruct (decide (Sum256 token = bs_digest v)) as [E|E].
  - rewrite !bool_decide_true by congruence. cbn [negb]. unfold bind. by rewrite ctx_check_live.
  - rewrite !bool_decide_false; [done|done|]. by intros ?%arr_eq.
Qed.

Lemma parseSHA256Digest_encode (d : array 32) : parseSHA256Digest (hex_encode (arr_bytes d)) = Ok d.
Proof.
  unfold parseSHA256Digest. rewrite hex_encode_length, arr_length.
  assert (TrimSpace (hex_encode (arr_bytes d)) = hex_encode (arr_bytes d)) as ->.
  { pose proof (hex_encode_token (arr_bytes d)) as Ht. rewrite forallb_forall in Ht.
    assert (forall b, b ∈ hex_encode (arr_bytes d) -> bz b < 0x80 /\ is_space (bz b) = false) as Hb.
    { intros b Hb%list_elem_of_In%Ht. revert b Hb.
      apply (Forall_bytes_forall (fun b => token_char b = true -> bz b < 0x80 /\ is_space (bz b) = false)).
      vm_compute. reflexivity. }
    apply TrimSpace_tight.
    - apply Forall_forall. intros b Hin. by apply Hb.
    - destruct (hex_encode (arr_bytes d)) as [|b l]; [done|]. apply Hb. constructor.
    - destruct (hex_encode (arr_bytes d)) as [|b l] using rev_ind; [done|].
      rewrite rev_unit. apply Hb. apply elem_of_app. right. constructor. }
  rewrite bool_decide_true by done. cbn. rewrite hex_decode_encode, arr_length. cbn.
  by rewrite array_of_arr_bytes.
Qed.

Lemma NewBearer_of_digest (d : array 32) subject :
  Validate (mkPrincipal subject None) = Ok tt ->
  NewBearerSHA256WithSubject (hex_encode (arr_bytes d)) subject = Ok (mkBearer d (mkPrincipal subject None)).
Proof.
  intros Hv. unfold NewBearerSHA256WithSubject. rewrite parseSHA256Digest_encode. cbn [rbind].
  by rewrite Hv.
Qed.

(** ** Properties *)

(** C35: the Bearer parser accepts exactly one header value of the form
    "Bearer b64token" (the scheme in any case, one space, an RFC 6750 token of at
    most 4096 bytes) and returns that token; everything else is refused with one of
    five errors that all unwrap to [ErrInvalidCredentials]. *)
Theorem ParseBearerHeader_grammar values :
  (forall token, ParseBearerHeader values = Ok token <->
     exists scheme, values = [bearer_value scheme token] /\ bearer_scheme scheme /\ b64token token
       /\ Z.of_nat (length token) <= MaxBearerTokenBytes)
  /\ (forall e, ParseBearerHeader values = Err e ->
       e ∈ bearer_errors /\ Is e ErrInvalidCredentials = true).
Proof.
  split.
  - intros token. split; [apply ParseBearerHeader_sound|].
    intros (scheme & -> & Hs & Ht & Hl). by apply ParseBearerHeader_complete.
  - intros e E%ParseBearerHeader_err. split; [done|]. by apply bearer_errors_is.
Qed.

(** C21: a verifier configured with the digest of a secret. On a live context it
    authenticates exactly the requests whose only Authorization value, however the
    header name is spelt and in whatever order the header map is read, is a Bearer
    token with the configured digest: the secret itself, short of a collision of
    the digest. The caller is the configured subject. *)
Theorem Authenticate_secret {S} secret subject v c header (w : world S) :
  live c ->
  NewBearerSHA256WithSubject (hex_encode (arr_bytes (Sum256 secret))) subject = Ok v ->
  (forall p, fst (Authenticate (Some v) (Some c) (Some header) w) = Ok p ->
     Subject p = subject /\ Scopes p = None
     /\ exists scheme token, authorization_values header = [bearer_value scheme token]
          /\ bearer_scheme scheme /\ b64token token /\ (token = secret \/ collision))
  /\ (forall header' scheme, b64token secret -> Z.of_nat (length secret) <= MaxBearerTokenBytes ->
     bearer_scheme scheme -> authorization_values header' ≡ₚ [bearer_value scheme secret] ->
     fst (Authenticate (Some v) (Some c) (Some header') w) = Ok (mkPrincipal subject None)).
Proof.
  intros Hl Hv. unfold NewBearerSHA256WithSubject in Hv. rewrite parseSHA256Digest_encode in Hv.
  cbn [rbind] in Hv. destruct (Validate _) as [[]|]; [|done]. cbn [rbind] in Hv. injection Hv as <-.
  split.
  - intros p. rewrite Authenticate_run by done. cbn [bs_digest bs_principal clonePrincipal Scopes Subject].
    unfold ParseBearerToken. destruct (ParseBearerHeader _) as [token|] eqn:E; [|done]. cbn [rbind].
    case_match eqn:Ed; [|done]. intros [= <-]. bool_simpl. split_and!; [done|done|].
    apply ParseBearerHeader_sound in E as (scheme & Ev & Hs & Ht & _). exists scheme, token.
    split_and!; try done. by apply Sum256_inj.
  - intros header' scheme Ht Hlen Hs Hp. rewrite Authenticate_run by done. unfold ParseBearerToken.
    rewrite (ParseBearerHeader_perm _ _ Hp), ParseBearerHeader_complete by done. cbn [rbind bs_digest].
    by rewrite bool_decide_true.
Qed.

(** A principal is stored in a context exactly when it is within its bounds (a
    subject and at most 128 scopes of valid, trimmed, control-free text, 4096 bytes
    in all); it is then read back with the same subject and the same scopes, also
    through later scope values, and attaching it changes no idempotency scope. *)
Theorem Principal_roundtrip c p :
  (Validate p = Ok tt <->
     principal_text_ok (Subject p) MaxPrincipalSubjectBytes
     /\ Z.of_nat (length (scopes_of p)) <= MaxPrincipalScopes
     /\ Forall (fun s => principal_text_ok s MaxPrincipalScopeBytes) (scopes_of p)
     /\ total_bytes (scopes_of p) <= MaxPrincipalScopeTotalBytes)
  /\ (Validate p <> Ok tt -> WithPrincipal (Some c) p = Some c)
  /\ (Validate p = Ok tt ->
       exists c' q, WithPrincipal (Some c) p = Some c'
         /\ PrincipalFromContext (Some c') = Some q
         /\ PrincipalFromContext (WithIdempotencyScope (Some c') (Subject p)) = Some q
         /\ Subject q = Subject p /\ scopes_of q = scopes_of p
         /\ (forall scope, HasScope q scope = HasScope p scope)
         /\ IdempotencyScopeFromContext (Some c') = IdempotencyScopeFromContext (Some c)).
Proof.
  split; [|split].
  - unfold Validate. rewrite <- (validatePrincipalText_spec _ _ true).
    destruct (validatePrincipalText _ _ true) as [[]|]; cbn [rbind]; [|by split; [|intros [? _]]].
    destruct (Z.ltb_spec MaxPrincipalScopes (Z.of_nat (length (scopes_of p)))).
    + split; [done|]. intros (_ & ? & _). lia.
    + rewrite validate_scopes_spec by done. rewrite Z.add_0_l. tauto.
  - unfold WithPrincipal, ContextWithPrincipal. by destruct (Validate p) as [[]|].
  - intros Hv. unfold WithPrincipal, ContextWithPrincipal. rewrite Hv. cbn [rbind].
    exists (with_value c (PrincipalValue (Subject (clonePrincipal p)) (Scopes (clonePrincipal p)))).
    exists (clonePrincipal p). rewrite PrincipalFromContext_with, clone_idemp.
    destruct p as [s [[|x l]|]]; by split_and!.
Qed.
End Verifier.

(** ** Witnesses *)

Definition wit_secret : bytes := &"s3cr3t-T0ken==".
Definition wit_header : headers :=
  [(&"Accept", [&"*/*"]); (&"aUTHORIZATION", [&"bEARER s3cr3t-T0ken=="])].

Example ParseBearerHeader_grammar_witness :
  ParseBearerHeader [&"Bearer tok=="] = Ok &"tok==" /\ b64token &"tok==".
Proof.
  destruct (ParseBearerHeader_grammar [&"Bearer tok=="]) as [Hok _].
  assert (b64token &"tok==") as Ht by (by exists &"tok", 2%nat).
  split; [|exact Ht]. apply Hok. exists &"Bearer". repeat split; [exact Ht|done].
Defined.

Example Authenticate_secret_witness :
  exists v, @NewBearerSHA256WithSubject (hex_encode (arr_bytes (sha256_hash wit_secret))) &"ci" = Ok v
    /\ fst (@Authenticate sha256_hash unit (Some v) (Some background) (Some wit_header) (World 0 tt))
       = Ok (mkPrincipal &"ci" None).
Proof.
  assert (exists v, @NewBearerSHA256WithSubject (hex_encode (arr_bytes (sha256_hash wit_secret))) &"ci" = Ok v)
    as [v Hv].
  { exact (ex_intro _ _ (NewBearer_of_digest (sha256_hash wit_secret) (&"ci") eq_refl)). }
  exists v. split; [exact Hv|].
  destruct (@Authenticate_secret sha256_hash unit wit_secret &"ci" v background wit_header (World 0 tt)
    live_background Hv) as [_ Hok].
  apply (Hok wit_header &"bEARER").
  - exists &"s3cr3t-T0ken", 2%nat. split; [reflexivity|].
    split; [discriminate|vm_compute; reflexivity].
  - done.
  - reflexivity.
  - reflexivity.
Defined.
