(* ===== verification/HttpApi.v ===== *)
(** * The HTTP adapter of the items (internal/item/httpapi)

    The three handlers, the query and header parsers and the error table. A request
    is what the handlers read of it; a response is the status, the headers they set
    and the value they hand to the JSON encoder. *)
From S2P Require Import Prelude GoText GoUrl GoJsonParse GoTime Sha256 Errors World Item Idempotency Cursor Order Store Service.

Definition defaultMaxBodyBytes : Z := 2 ^ 20.
Definition IdempotencyKeyHeader : bytes := &"Idempotency-Key".
Definition IdempotencyReplayedHeader : bytes := &"Idempotency-Replayed".

(** ** Requests and responses *)

(** The header map is in iteration order; [rq_url] is the path and the raw query. *)
Record request := mkRequest {
  rq_context : option context;
  rq_headers : list (bytes * list bytes);
  rq_url : option (bytes * bytes);
  rq_param_id : bytes;
  rq_body : option bytes;
  rq_content_length : Z;
}.

Record pageMeta := mkMeta {
  pm_limit : Z;
  pm_offset : option Z;
  pm_has_more : bool;
  pm_next_cursor : bytes;
}.

Inductive body :=
  | ErrorBody (code message : bytes)
  | ItemBody (data : Item)
  | ListBody (data : list Item) (meta : pageMeta).

Record response := mkResponse {
  rs_status : Z;
  rs_headers : list (bytes * bytes);
  rs_body : body;
}.

Definition writeError (status : Z) (code message : bytes) : response :=
  mkResponse status [] (ErrorBody code message).

Definition internal_error : response := writeError 500 &"internal_error" &"internal server error".

Definition writeServiceError (err : error) : response :=
  if Is err ErrCursorUnavailable || Is err ErrCursorState then
    writeError 503 &"cursor_unavailable" &"cursor pagination is temporarily unavailable"
  else if Is err ErrInvalidCursor then
    writeError 400 &"invalid_cursor" &"invalid pagination cursor"
  else if Is err ErrIdempotencyConflict then
    writeError 409 &"idempotency_conflict" &"idempotency key was used with a different request"
  else if Is err ErrIdempotencyInProgress then
    mkResponse 409 [(&"Retry-After", &"1")]
      (ErrorBody &"idempotency_in_progress" &"idempotency request is still in progress")
  else if Is err ErrIdempotencyUnavailable || Is err ErrIdempotencyState then
    writeError 503 &"idempotency_unavailable" &"idempotent create is temporarily unavailable"
  else if Is err ErrInvalidInput then
    writeError 422 &"validation_error" &"invalid item"
  else if Is err ErrNotFound then
    writeError 404 &"not_found" &"item not found"
  else if Is err ErrConflict then
    writeError 409 &"conflict" &"item already exists"
  else internal_error.

(** ** Parsing *)

Definition parseQueryInt (values : list (bytes * bytes)) (key : bytes) (fallback : Z) : result Z :=
  match query_values values key with
  | [] => Ok fallback
  | [entry] =>
    if bool_decide (entry = []) then Ok fallback
    else match Atoi entry with
         | None => Err (Sentinel ErrInvalidPagination)
         | Some parsed => Ok parsed
         end
  | _ => Err (Sentinel ErrInvalidPagination)
  end.

Inductive listRequest :=
  | OffsetRequest (params : ListParams)
  | KeysetRequest (request : CursorRequest).

Definition parseListRequest (c : option request) : result listRequest :=
  match (r ← c; rq_url r) with
  | None => Err (Sentinel ErrInvalidPagination)
  | Some (_, rawQuery) =>
    match ParseQuery rawQuery with
    | None => Err (Sentinel ErrInvalidPagination)
    | Some values =>
      rbind (parseQueryInt values &"limit" DefaultPageSize) (fun limit =>
        let limit := if limit =? 0 then DefaultPageSize else limit in
        if (limit <? 0) || (MaxPageSize <? limit) then Err (Sentinel ErrInvalidPagination)
        else
          let offsetValues := query_values values &"offset" in
          rbind (parseQueryInt values &"offset" 0) (fun offset =>
            if offset <? 0 then Err (Sentinel ErrInvalidPagination)
            else
              match query_values values &"cursor" with
              | [] => Ok (OffsetRequest (mkListParams limit offset))
              | [cursor] =>
                if negb (bool_decide (offsetValues = [])) || bool_decide (cursor = [])
                   || (MaxCursorBytes <? Z.of_nat (length cursor))
                then Err (Sentinel ErrInvalidPagination)
                else Ok (KeysetRequest (mkCursorRequest limit cursor))
              | _ => Err (Sentinel ErrInvalidPagination)
              end))
    end
  end.

(** The key of a request, if it has one. *)
Definition parseIdempotencyKey (c : option request) : result (option bytes) :=
  match c with
  | None => Ok None
  | Some r =>
    let values :=
      concat (snd <$> List.filter (fun e => equal_fold (fst e) IdempotencyKeyHeader) (rq_headers r)) in
    match values with
    | [] => Ok None
    | [value] => rbind (ValidateIdempotencyKey value) (fun _ => Ok (Some value))
    | _ => Err (ValidationError &"idempotency_key" &"must contain exactly one value")
    end
  end.

(** ** The request body *)

Record createRequest := mkCreateRequest { cr_name : bytes; cr_description : bytes }.
#[global] Instance createRequest_eq_dec : EqDecision createRequest.
Proof. solve_decision. Defined.

Inductive createField := NameField | DescriptionField.

(** The field that a member is decoded into: its key folds to the field's name. *)
Definition field_of (key : bytes) : option createField :=
  if equal_fold key &"name" then Some NameField
  else if equal_fold key &"description" then Some DescriptionField else None.

(** One member: null leaves its field alone; an unknown member and a value that is no
    string are errors. *)
Definition store_member (request : createRequest) (member : bytes * json) : option createRequest :=
  field ← field_of member.1;
  match member.2, field with
  | JString s, NameField => Some (mkCreateRequest s (cr_description request))
  | JString s, DescriptionField => Some (mkCreateRequest (cr_name request) s)
  | JNull, _ => Some request
  | _, _ => None
  end.

Fixpoint store_members (request : createRequest) (members : list (bytes * json)) : option createRequest :=
  match members with
  | [] => Some request
  | member :: rest => request ← store_member request member; store_members request rest
  end.

(** A document decoded into a pointer to a [createRequest]; null makes it nil. *)
Definition decode_request (v : json) : option (option createRequest) :=
  match v with
  | JNull => Some None
  | JObject members => Some <$> store_members (mkCreateRequest [] []) members
  | _ => None
  end.

(** What the second [Decode], into an [any], finds. *)
Inductive json_tail := AtEOF | AnotherValue | Malformed.

Definition decode_tail (rest : bytes) : json_tail :=
  if forallb json_space rest then AtEOF
  else match json_read rest with
       | Some (v, _) => if json_any v then AnotherValue else Malformed
       | None => Malformed
       end.

(** A reader limited to [maxBytes] makes the decoder fail on every longer body: it
    reads on to the end of the input after the first value. *)
Definition decodeStrictJSON (c : request) (maxBytes : Z) : result (option createRequest) :=
  match rq_body c with
  | None => Err (Sentinel ErrUnexpectedEOF)
  | Some raw =>
    let maxBytes := if maxBytes <=? 0 then defaultMaxBodyBytes else maxBytes in
    if maxBytes <? rq_content_length c then Err (Opaque &"http: request body too large")
    else if maxBytes <? Z.of_nat (length raw) then Err (Opaque &"http: request body too large")
    else match json_read raw with
         | None => Err (Opaque &"invalid JSON")
         | Some (v, rest) =>
           match decode_request v with
           | None => Err (Opaque &"json: cannot unmarshal")
           | Some value =>
             match decode_tail rest with
             | AtEOF => Ok value
             | AnotherValue => Err (Sentinel ErrTrailingJSON)
             | Malformed => Err (Opaque &"invalid JSON")
             end
           end
         end
  end.

Section Handlers.
Context {S : Type}.
Context (uuid_parse : bytes -> option uuid).

(** The application boundary: [Service] and the results of the type assertions to
    [item.IdempotentCreator] and [item.CursorLister]. *)
Record ServiceOps := mkServiceOps {
  so_create : option context -> CreateInput -> M S Item;
  so_get : option context -> uuid -> M S Item;
  so_list : option context -> ListParams -> M S Page;
  so_create_idempotent : option (option context -> CreateInput -> bytes -> M S (Item * bool));
  so_list_cursor : option (option context -> CursorRequest -> M S CursorPage);
}.

Record Handler := mkHandler { hd_service : option ServiceOps; hd_maxBodyBytes : Z }.

Definition HandlerOption : Type := Handler -> Handler.

Definition WithMaxBodyBytes (limit : Z) : HandlerOption := fun h =>
  if 0 <? limit then mkHandler (hd_service h) limit else h.

Definition NewHandler (service : option ServiceOps) (options : list (option HandlerOption)) : Handler :=
  let h := fold_left (fun h o => match o with None => h | Some f => f h end) options
             (mkHandler service defaultMaxBodyBytes) in
  if hd_maxBodyBytes h <=? 0 then mkHandler (hd_service h) defaultMaxBodyBytes else h.

(** net/http gives every request a URL; that the code would panic on a nil one is not
    modelled, the empty path standing for it. *)
Definition resourceLocation (c : request) (id : uuid) : bytes :=
  let path := match rq_url c with Some (path, _) => path | None => [] end in
  let path := match path with [] => &"/items" | _ => path end in
  trim_right_byte (zb 47) path ++ &"/" ++ path_escape (uuid_string id).

(** Answer with [k], or with the response of the service error. *)
Definition or_service_error {A} (m : M S A) (k : A -> M S response) : M S response :=
  outcome <-- attempt m;;
  match outcome with
  | Err err => ret (writeServiceError err)
  | Ok a => k a
  end.

Definition created_response (c : request) (key : option bytes) (created : Item) (replayed : bool) : response :=
  if bool_decide (ID created = uuid_nil) then internal_error
  else
    mkResponse (if replayed then 200 else 201)
      (match key with Some k => [(IdempotencyKeyHeader, k)] | None => [] end
       ++ [(&"Location", resourceLocation c (ID created))]
       ++ (if replayed then [(IdempotencyReplayedHeader, &"true")] else []))
      (ItemBody created).

(** The input of the service, out of the decoded request. *)
Definition create_input (request : createRequest) : CreateInput :=
  mkCreateInput (cr_name request) (cr_description request).

Definition Create (h : Handler) (c : request) : M S response :=
  match parseIdempotencyKey (Some c) with
  | Err _ => ret (writeError 400 &"bad_request" &"invalid idempotency key")
  | Ok key =>
    match decodeStrictJSON c (hd_maxBodyBytes h) with
    | Err _ | Ok None => ret (writeError 400 &"bad_request" &"invalid request body")
    | Ok (Some request) =>
      let input := create_input request in
      match hd_service h, key with
      | None, Some _ => ret (writeServiceError (Sentinel ErrIdempotencyUnavailable))
      | None, None => ret internal_error
      | Some service, Some k =>
        match so_create_idempotent service with
        | None => ret (writeServiceError (Sentinel ErrIdempotencyUnavailable))
        | Some create =>
          or_service_error (create (rq_context c) input k) (fun '(created, replayed) =>
            ret (created_response c key created replayed))
        end
      | Some service, None =>
        or_service_error (so_create service (rq_context c) input) (fun created =>
          ret (created_response c key created false))
      end
    end
  end.

Definition Get (h : Handler) (c : request) : M S response :=
  match uuid_parse (TrimSpace (rq_param_id c)) with
  | None => ret (writeError 400 &"bad_request" &"invalid item id")
  | Some id =>
    if bool_decide (id = uuid_nil) then ret (writeError 400 &"bad_request" &"invalid item id")
    else
      match hd_service h with
      | None => ret internal_error
      | Some service =>
        or_service_error (so_get service (rq_context c) id) (fun found =>
          ret (mkResponse 200 [] (ItemBody found)))
      end
  end.

Definition List (h : Handler) (c : request) : M S response :=
  match parseListRequest (Some c) with
  | Err _ => ret (writeError 400 &"bad_request" &"invalid pagination parameters")
  | Ok request =>
    match hd_service h, request with
    | None, KeysetRequest _ => ret (writeServiceError (Sentinel ErrCursorUnavailable))
    | None, OffsetRequest _ => ret internal_error
    | Some service, KeysetRequest cursor =>
      match so_list_cursor service with
      | None => ret (writeServiceError (Sentinel ErrCursorUnavailable))
      | Some list_cursor =>
        or_service_error (list_cursor (rq_context c) cursor) (fun page =>
          ret (mkResponse 200 [] (ListBody (cpg_items page)
                 (mkMeta (cpg_limit page) None (cpg_has_more page) (cpg_next_cursor page)))))
      end
    | Some service, OffsetRequest params =>
      or_service_error (so_list service (rq_context c) params) (fun page =>
        ret (mkResponse 200 [] (ListBody (pg_items page)
               (mkMeta (pg_limit page) (Some (pg_offset page)) (pg_has_more page) (pg_next_cursor page)))))
    end
  end.
End Handlers.

(** The methods of an [*item.Service] behind the boundary. *)
Definition service_ops {H : Hash256} {S} (sysnow : nat -> time) (service : option (Service (S := S)))
  : ServiceOps :=
  mkServiceOps (Service.Create sysnow service) (Service.Get service) (Service.List service)
    (Some (Service.CreateIdempotent sysnow service)) (Some (Service.ListCursor service)).
