(* ===== verification/Responses.v ===== *)
(** * Response bodies (internal/item/httpapi/handler.go)

    The JSON documents behind the bodies of the adapter, as the tags of their structs
    name the members, their bytes, and the client that reads them back. *)
From S2P Require Import Prelude GoText GoTime GoCalendar GoJson GoJsonParse Errors World Item Cursor Order Store HttpApi.

(** ** Documents *)

(** [json.Marshal] of an [item.Item]; a time that has no text is an error. *)
Definition item_json (i : Item) : option json :=
  created ← time_text (CreatedAt i);
  Some (JObject [(&"id", JString (uuid_string (ID i))); (&"name", JString (Name i));
                 (&"description", JString (Description i)); (&"created_at", JString created)]).

Definition int_json (n : Z) : json := JNumber (Itoa n).

(** The offset of a keyset page and the token of a last page are omitted. *)
Definition meta_json (m : pageMeta) : json :=
  JObject ([(&"limit", int_json (pm_limit m))]
           ++ match pm_offset m with Some offset => [(&"offset", int_json offset)] | None => [] end
           ++ [(&"has_more", JBool (pm_has_more m))]
           ++ (if bool_decide (pm_next_cursor m = []) then [] else [(&"next_cursor", JString (pm_next_cursor m))])).

Fixpoint items_json (items : list Item) : option (list json) :=
  match items with
  | [] => Some []
  | i :: rest => v ← item_json i; vs ← items_json rest; Some (v :: vs)
  end.

Definition body_json (b : body) : option json :=
  match b with
  | ErrorBody code message => Some (JObject [(&"error", JObject [(&"code", JString code); (&"message", JString message)])])
  | ItemBody i => v ← item_json i; Some (JObject [(&"data", v)])
  | ListBody items meta => vs ← items_json items; Some (JObject [(&"data", JArray vs); (&"meta", meta_json meta)])
  end.

Definition body_bytes (b : body) : option bytes := json_render <$> body_json b.

(** ** A client *)

Section Client.
Context (uuid_parse : bytes -> option uuid).

Definition member (key : bytes) (v : json) : option json :=
  match v with JObject ms => snd <$> List.find (fun m => bool_decide (fst m = key)) ms | _ => None end.
Definition as_string (v : json) : option bytes := match v with JString s => Some s | _ => None end.
Definition as_bool (v : json) : option bool := match v with JBool b => Some b | _ => None end.
Definition as_int (v : json) : option Z := match v with JNumber t => Atoi t | _ => None end.
(** A member that may be absent. *)
Definition optional {A} (read : json -> option A) (key : bytes) (v : json) : option (option A) :=
  match member key v with None => Some None | Some x => Some <$> read x end.

Definition read_item (v : json) : option Item :=
  id ← (v ← member &"id" v; s ← as_string v; uuid_parse s);
  name ← (v ← member &"name" v; as_string v);
  description ← (v ← member &"description" v; as_string v);
  created ← (v ← member &"created_at" v; s ← as_string v; read_time s);
  Some (mkItem id name description created).

Definition read_meta (v : json) : option pageMeta :=
  limit ← (v ← member &"limit" v; as_int v);
  offset ← optional as_int &"offset" v;
  more ← (v ← member &"has_more" v; as_bool v);
  next ← optional as_string &"next_cursor" v;
  Some (mkMeta limit offset more (default [] next)).

Fixpoint read_items (vs : list json) : option (list Item) :=
  match vs with
  | [] => Some []
  | v :: rest => i ← read_item v; l ← read_items rest; Some (i :: l)
  end.

Definition read_body_json (v : json) : option body :=
  match member &"error" v, member &"data" v, member &"meta" v with
  | Some e, _, _ =>
    code ← (v ← member &"code" e; as_string v);
    message ← (v ← member &"message" e; as_string v);
    Some (ErrorBody code message)
  | None, Some (JArray vs), Some meta => items ← read_items vs; m ← read_meta meta; Some (ListBody items m)
  | None, Some v, _ => ItemBody <$> read_item v
  | None, None, _ => None
  end.

(** The body in a response: one document and nothing else. *)
Definition read_body (raw : bytes) : option body :=
  match json_read raw with Some (v, []) => read_body_json v | _ => None end.

End Client.
