(* ===== verification/RequestBody.v ===== *)
(** * The body of a create request

    What [decodeStrictJSON] accepts, stated on the grammar of JSON: one object, with
    white space around it, whose members are names and descriptions. *)
From S2P Require Import Prelude GoText GoUnicode GoFloat GoNet GoJson GoJsonParse GoJsonGrammar Errors World Item HttpApi.

(** ** What an object says about a request *)

#[global] Instance createField_eq_dec : EqDecision createField.
Proof. solve_decision. Defined.

(** The last string given for a field; [old] when there is none. *)
Fixpoint last_value (field : createField) (old : bytes) (members : list (bytes * json)) : bytes :=
  match members with
  | [] => old
  | (key, JString s) :: rest => last_value field (if bool_decide (field_of key = Some field) then s else old) rest
  | _ :: rest => last_value field old rest
  end.

Definition string_or_null (v : json) : Prop := v = JNull \/ exists s, v = JString s.
Definition known_member (m : bytes * json) : Prop := is_Some (field_of m.1) /\ string_or_null m.2.

Lemma store_member_known q m q' :
  store_member q m = Some q' ->
  known_member m
  /\ cr_name q' = last_value NameField (cr_name q) [m] /\ cr_description q' = last_value DescriptionField (cr_description q) [m].
Proof.
  destruct m as [key v]. unfold store_member, known_member. cbn [fst snd last_value].
  destruct (field_of key) as [f|] eqn:Ef; [|done]. cbn [mbind option_bind].
  destruct v as [| | |s| |]; try done.
  - intros [= <-]. split; [split; [by eexists|by left]|done].
  - destruct f; intros [= <-]; cbn [cr_name cr_description];
      (split; [split; [by eexists|right; by exists s]|]); split; case_bool_decide; congruence.
Qed.

Lemma store_member_total q m : known_member m -> is_Some (store_member q m).
Proof.
  destruct m as [key v]. unfold store_member, known_member. cbn [fst snd]. intros [[f ->] Hv]. cbn [mbind option_bind].
  destruct Hv as [->|[s ->]]; [by eexists|by destruct f; eexists].
Qed.

Lemma last_value_cons f old m rest : last_value f old (m :: rest) = last_value f (last_value f old [m]) rest.
Proof. destruct m as [key [| | |s| |]]; try done. Qed.

(** An object is decoded exactly when its members are known strings and nulls; the last
    string of a field wins. *)
Lemma store_members_spec members : forall q q',
  store_members q members = Some q' <->
  Forall known_member members
  /\ q' = mkCreateRequest (last_value NameField (cr_name q) members) (last_value DescriptionField (cr_description q) members).
Proof.
  induction members as [|m rest IH]; intros q q'; cbn [store_members].
  - cbn [last_value]. destruct q. split; [by intros [= <-]|by intros [_ ->]].
  - split.
    + destruct (store_member q m) as [q1|] eqn:E; [|done]. cbn [mbind option_bind]. intros [Hk ->]%IH.
      destruct (store_member_known _ _ _ E) as (Hm & Hn & Hd). split; [by constructor|].
      by rewrite Hn, Hd, (last_value_cons NameField _ m rest), (last_value_cons DescriptionField _ m rest).
    + intros [Hk ->]. apply Forall_cons in Hk as [Hm Hk]. destruct (store_member_total q m Hm) as [q1 E]. rewrite E.
      cbn [mbind option_bind]. destruct (store_member_known _ _ _ E) as (_ & Hn & Hd). apply IH. split; [done|].
      by rewrite Hn, Hd, (last_value_cons NameField _ m rest), (last_value_cons DescriptionField _ m rest).
Qed.

(** The strings of a document are valid UTF-8. *)
Definition valid_member (m : bytes * json) : Prop := match m.2 with JString s => ValidString s = true | _ => True end.

Lemma spells_valid_members d ms p : spells_members d ms p -> Forall valid_member ms.
Proof.
  assert (forall d v p, spells d v p -> match v with JString s => ValidString s = true | _ => True end) as Hv
    by (intros ? ? ?; destruct 1; try done; apply unquote_valid).
  induction 1; (constructor; [by eapply Hv|try done; try constructor]).
Qed.

Lemma spells_valid_object d ms p : spells d (JObject ms) p -> Forall valid_member ms.
Proof. intros Hp. inversion Hp; subst; [constructor|by eapply spells_valid_members]. Qed.

Lemma last_value_valid f ms old : ValidString old = true -> Forall valid_member ms -> ValidString (last_value f old ms) = true.
Proof.
  intros Ho Hms. revert old Ho. induction Hms as [|[key v] ms Hm Hms IH]; intros old Ho; [done|].
  destruct v; cbn [last_value]; apply IH; try done. by destruct (bool_decide _).
Qed.

(** ** The accepted bodies *)

(** The limit in force. *)
Definition body_limit (maxBytes : Z) : Z := if maxBytes <=? 0 then defaultMaxBodyBytes else maxBytes.

Definition fits (c : request) (maxBytes : Z) (raw : bytes) : Prop :=
  rq_body c = Some raw /\ rq_content_length c <= body_limit maxBytes /\ Z.of_nat (length raw) <= body_limit maxBytes.

Lemma decodeStrictJSON_fits c maxBytes raw :
  fits c maxBytes raw ->
  decodeStrictJSON c maxBytes
  = match json_read raw with
    | None => Err (Opaque &"invalid JSON")
    | Some (v, rest) =>
      match decode_request v with
      | None => Err (Opaque &"json: cannot unmarshal")
      | Some value =>
        match decode_tail rest with
        | AtEOF => Ok value
        | AnotherValue => Err (Sentinel ErrTrailingJSON)
        | Malformed => Err (Opaque &"invalid JSON")
        end
      end
    end.
Proof.
  unfold fits, body_limit, decodeStrictJSON. intros (-> & Hc & Hl). by rewrite !(proj2 (Z.ltb_ge _ _)) by lia.
Qed.

Lemma decodeStrictJSON_Ok c maxBytes value :
  decodeStrictJSON c maxBytes = Ok value ->
  exists raw v rest, fits c maxBytes raw /\ json_read raw = Some (v, rest) /\ decode_request v = Some value /\ white rest.
Proof.
  intros E. unfold decodeStrictJSON in E. destruct (rq_body c) as [raw|] eqn:Eb; [|done].
  fold (body_limit maxBytes) in E. cbv zeta in E.
  destruct (Z.ltb_spec (body_limit maxBytes) (rq_content_length c)); [done|].
  destruct (Z.ltb_spec (body_limit maxBytes) (Z.of_nat (length raw))); [done|].
  destruct (json_read raw) as [[v rest]|] eqn:Er; [|done].
  destruct (decode_request v) as [val|] eqn:Ed; [|done].
  unfold decode_tail in E. destruct (forallb json_space rest) eqn:Ew; [|by repeat case_match].
  injection E as <-. exists raw, v, rest. apply all_white in Ew. by split_and!.
Qed.

Lemma white_delimits_end w : white w -> delimits w.
Proof.
  destruct 1 as [|c w Hc Hw]; [done|]. cbn [delimits]. revert Hc.
  unfold json_space, in_set. rewrite bool_decide_eq_true, !elem_of_cons, elem_of_nil.
  intros [->|[->|[->|[->|[]]]]]; (split_and!; [reflexivity|by vm_compute|reflexivity]).
Qed.

(** The bodies of a create: an object of known members in white space. *)
Definition create_document (raw : bytes) (q : createRequest) : Prop :=
  exists before p after members,
    raw = before ++ p ++ after /\ white before /\ white after /\ spells 0 (JObject members) p
    /\ Forall known_member members
    /\ q = mkCreateRequest (last_value NameField [] members) (last_value DescriptionField [] members).

Lemma decode_request_Some v q :
  decode_request v = Some (Some q) <-> exists members, v = JObject members /\ store_members (mkCreateRequest [] []) members = Some q.
Proof.
  split.
  - destruct v; try done. cbn. destruct (store_members _ _) as [q'|] eqn:E; [|done]. intros [= <-]. eauto.
  - intros (ms & -> & E). cbn. by rewrite E.
Qed.

Lemma decodeStrictJSON_documents c maxBytes q :
  decodeStrictJSON c maxBytes = Ok (Some q) <-> exists raw, fits c maxBytes raw /\ create_document raw q.
Proof.
  split.
  - intros (raw & v & rest & Hf & Hr & Hd & Hw)%decodeStrictJSON_Ok. exists raw. split; [done|].
    apply decode_request_Some in Hd as (ms & -> & Hs). apply store_members_spec in Hs as [Hk Hq].
    apply json_read_sound in Hr as (w & p & -> & Hb & Hp). by exists w, p, rest, ms.
  - intros (raw & Hf & (w & p & r & ms & -> & Hw & Hr & Hp & Hk & Hq)). rewrite (decodeStrictJSON_fits _ _ _ Hf).
    rewrite (json_read_complete w (JObject ms) p r) by (done || by apply white_delimits_end).
    assert (decode_request (JObject ms) = Some (Some q)) as ->
      by (apply decode_request_Some; exists ms; split; [done|]; by apply store_members_spec).
    unfold decode_tail. by rewrite (proj2 (all_white r)).
Qed.

Lemma create_document_valid raw q :
  create_document raw q -> ValidString (cr_name q) = true /\ ValidString (cr_description q) = true.
Proof.
  intros (w & p & r & ms & _ & _ & _ & Hp & _ & ->). apply spells_valid_object in Hp.
  by split; apply last_value_valid.
Qed.

(** The document that [json.Marshal] makes of a name and a description. *)
Lemma create_document_of n d before after :
  ValidString n = true -> ValidString d = true -> white before -> white after ->
  create_document (before ++ json_object2 &"name" n &"description" d ++ after) (mkCreateRequest n d).
Proof.
  intros Hn Hd Hb Ha. exists before, (json_object2 &"name" n &"description" d), after, [(&"name", JString n); (&"description", JString d)].
  assert (json_object2 &"name" n &"description" d
    = json_render (JObject [(&"name", JString n); (&"description", JString d)])) as E.
  { unfold json_object2. cbn [json_render fmap list_fmap join_bytes fst snd app]. by repeat (first [rewrite <- app_assoc | progress (cbn [app])]). }
  split_and!; try done.
  - rewrite E. apply json_render_spells. cbn. by rewrite Hn, Hd.
  - repeat constructor; try (by eexists); right; by eexists.
Qed.

(** ** Properties *)

(** C15: a create is decoded exactly from the documents of the grammar: one object, in
    white space, within the size limit, whose members fold to the two fields and are
    strings or nulls, the last string of a field being its value. Whatever else the
    body is, the answer is 400 and nothing changes. *)
Theorem Create_body_grammar {S} (h : Handler (S := S)) c key :
  parseIdempotencyKey (Some c) = Ok key ->
  (forall q, decodeStrictJSON c (hd_maxBodyBytes h) = Ok (Some q)
     <-> exists raw, fits c (hd_maxBodyBytes h) raw /\ create_document raw q)
  /\ ((forall raw q, fits c (hd_maxBodyBytes h) raw -> ~ create_document raw q) ->
      forall w, Create h c w = (Ok (writeError 400 &"bad_request" &"invalid request body"), w)).
Proof.
  intros Hk. split; [intros q; apply decodeStrictJSON_documents|]. intros Hno w. unfold Create. rewrite Hk.
  destruct (decodeStrictJSON c (hd_maxBodyBytes h)) as [[q|]|e] eqn:E; try done.
  apply decodeStrictJSON_documents in E as (raw & Hf & Hd). by destruct (Hno raw q).
Qed.

(** What a client encodes is what the service is given. Any valid UTF-8 name and
    description, encoded as [json.Marshal] does and padded with white space, are decoded
    to themselves. *)
Theorem Posted_input_decoded c maxBytes n d before after :
  ValidString n = true -> ValidString d = true -> white before -> white after ->
  fits c maxBytes (before ++ json_object2 &"name" n &"description" d ++ after) ->
  decodeStrictJSON c maxBytes = Ok (Some (mkCreateRequest n d)).
Proof.
  intros Hn Hd Hb Ha Hf. apply decodeStrictJSON_documents. eexists. split; [exact Hf|]. by apply create_document_of.
Qed.

(** A decoded request is valid UTF-8, so it is refused for its lengths alone: it is
    valid exactly when its trimmed name has 1 to 120 characters and its trimmed
    description at most 2000. *)
Theorem Decoded_input_bounds c maxBytes q :
  decodeStrictJSON c maxBytes = Ok (Some q) ->
  is_ok (ValidateCreateInput (create_input q)) = true <->
  MinNameLength <= RuneCountInString (TrimSpace (cr_name q)) <= MaxNameLength
  /\ RuneCountInString (TrimSpace (cr_description q)) <= MaxDescriptionLength.
Proof.
  intros (raw & _ & Hd)%decodeStrictJSON_documents. apply create_document_valid in Hd as [Hn Hd].
  apply ValidString_trim in Hn, Hd. unfold ValidateCreateInput. cbn [create_input in_name in_description].
  rewrite Hn, Hd. cbn [negb].
  destruct (Z.ltb_spec (RuneCountInString (TrimSpace (cr_name q))) MinNameLength); [split; [done|lia]|].
  destruct (Z.ltb_spec MaxNameLength (RuneCountInString (TrimSpace (cr_name q)))); [split; [done|lia]|].
  destruct (Z.ltb_spec MaxDescriptionLength (RuneCountInString (TrimSpace (cr_description q)))); [split; [done|lia]|].
  split; [lia|done].
Qed.

(** ** Witnesses *)

Definition rb_request (raw : bytes) : request := mkRequest (Some background) [] (Some (&"/items", [])) [] (Some raw) (Z.of_nat (length raw)).
Definition rb_name : bytes := [quote] ++ &"a\<" ++ [zb 9; zb 0xE2; zb 0x80; zb 0xA8; zb 0xF0; zb 0x9F; zb 0x98; zb 0x80].
Definition rb_body : bytes := json_object2 &"name" rb_name &"description" [].
(** A misspelt member. *)
Definition rb_unknown : bytes := json_object2 &"name" rb_name &"descripton" [].

Example Posted_input_decoded_witness :
  decodeStrictJSON (rb_request (&" " ++ rb_body ++ [zb 10])) 0 = Ok (Some (mkCreateRequest rb_name [])).
Proof.
  apply (Posted_input_decoded (rb_request (&" " ++ rb_body ++ [zb 10])) 0 rb_name [] &" " [zb 10]).
  - vm_compute. reflexivity.
  - reflexivity.
  - repeat constructor.
  - repeat constructor.
  - split_and!; [reflexivity|vm_compute; discriminate|vm_compute; discriminate].
Defined.

Example Decoded_input_bounds_witness : is_ok (ValidateCreateInput (create_input (mkCreateRequest rb_name []))) = true.
Proof.
  apply (Decoded_input_bounds (rb_request rb_body) 0 (mkCreateRequest rb_name [])).
  - vm_compute. reflexivity.
  - vm_compute. split; [split|]; discriminate.
Defined.

Example Create_body_grammar_witness :
  exists c, Create (S := unit) (NewHandler None []) c (World 0 tt) = (Ok (writeError 400 &"bad_request" &"invalid request body"), World 0 tt).
Proof.
  exists (rb_request rb_unknown). destruct (Create_body_grammar (S := unit) (NewHandler None []) (rb_request rb_unknown) None) as [H1 H2].
  - reflexivity.
  - apply H2. intros raw q Hf Hd. assert (decodeStrictJSON (rb_request rb_unknown) (hd_maxBodyBytes (NewHandler (S := unit) None [])) = Ok (Some q)) as E.
    { apply H1. by exists raw. }
    vm_compute in E. discriminate E.
Defined.
