(* ===== verification/HttpFacts.v ===== *)
(** * Facts about the HTTP adapter

    What any response can contain, what the query parser lets through, and the
    adapter over a service and a store. *)
From S2P Require Import Prelude GoText GoEncoding GoUrl GoTime Sha256 Errors World Item Idempotency Cursor CursorFacts Order Store Service ServiceFacts HttpApi RequestBody.

(** ** Responses *)

(** Every error response there is. *)
Definition error_responses : list response :=
  [writeError 400 &"bad_request" &"invalid idempotency key";
   writeError 400 &"bad_request" &"invalid request body";
   writeError 400 &"bad_request" &"invalid item id";
   writeError 400 &"bad_request" &"invalid pagination parameters";
   writeError 503 &"cursor_unavailable" &"cursor pagination is temporarily unavailable";
   writeError 400 &"invalid_cursor" &"invalid pagination cursor";
   writeError 409 &"idempotency_conflict" &"idempotency key was used with a different request";
   mkResponse 409 [(&"Retry-After", &"1")]
     (ErrorBody &"idempotency_in_progress" &"idempotency request is still in progress");
   writeError 503 &"idempotency_unavailable" &"idempotent create is temporarily unavailable";
   writeError 422 &"validation_error" &"invalid item";
   writeError 404 &"not_found" &"item not found";
   writeError 409 &"conflict" &"item already exists";
   internal_error].

(** The [n]-th of them. *)
Ltac pick n := apply (list_elem_of_lookup_2 error_responses n); reflexivity.

Lemma writeServiceError_closed err : writeServiceError err ∈ error_responses.
Proof.
  unfold writeServiceError.
  case_match; [pick 4%nat|]. case_match; [pick 5%nat|]. case_match; [pick 6%nat|]. case_match; [pick 7%nat|].
  case_match; [pick 8%nat|]. case_match; [pick 9%nat|]. case_match; [pick 10%nat|]. case_match; [pick 11%nat|]. pick 12%nat.
Qed.

(** A response is one of the fixed error responses or carries the service's data. *)
Definition sealed (r : response) : Prop :=
  match rs_body r with
  | ErrorBody _ _ => r ∈ error_responses
  | ItemBody i => rs_status r = 200 \/ (rs_status r = 201 /\ ID i <> uuid_nil)
  | ListBody _ _ => rs_status r = 200 /\ rs_headers r = []
  end.

Section Handlers.
Context {S : Type}.
Context (uuid_parse : bytes -> option uuid).

Lemma error_sealed r : r ∈ error_responses -> sealed r.
Proof.
  intros Hr. unfold sealed. assert (exists c m, rs_body r = ErrorBody c m) as (c & m & ->); [|done].
  unfold error_responses in Hr.
  repeat (apply elem_of_cons in Hr as [->|Hr]; [by do 2 eexists|]). by apply elem_of_nil in Hr.
Qed.

(** The outcome of a handler that ran to a response. *)
Definition responds (m : M S response) (P : response -> Prop) : Prop :=
  forall w, exists r w', m w = (Ok r, w') /\ P r.

Lemma responds_ret r (P : response -> Prop) : P r -> responds (ret r) P.
Proof. intros HP w. by exists r, w. Qed.

Lemma responds_or_service_error {A} (m : M S A) (k : A -> M S response) (P : response -> Prop) :
  (forall r, r ∈ error_responses -> P r) -> (forall a, responds (k a) P) ->
  responds (or_service_error m k) P.
Proof.
  intros He Hk w. unfold or_service_error, bind, attempt. destruct (m w) as [[a|e] w1].
  - apply Hk.
  - eexists _, _. split; [done|]. apply He, writeServiceError_closed.
Qed.

Lemma created_sealed c key created replayed : sealed (created_response c key created replayed).
Proof.
  unfold created_response. case_match eqn:E.
  - apply error_sealed. pick 12%nat.
  - bool_simpl. unfold sealed. cbn. destruct replayed; [by left|by right].
Qed.

Lemma refuse_sealed r : r ∈ error_responses -> responds (ret r) sealed.
Proof. intros Hr. by apply responds_ret, error_sealed. Qed.

Lemma Create_sealed h c : responds (Create h c) sealed.
Proof.
  unfold Create. destruct (parseIdempotencyKey _) as [key|]; [|apply refuse_sealed; pick 0%nat].
  destruct (decodeStrictJSON _ _) as [[input|]|]; [|apply refuse_sealed; pick 1%nat..].
  destruct (hd_service h) as [service|], key as [k|].
  - destruct (so_create_idempotent service); [|apply refuse_sealed, writeServiceError_closed].
    apply responds_or_service_error; [apply error_sealed|]. intros [created replayed].
    apply responds_ret, created_sealed.
  - apply responds_or_service_error; [apply error_sealed|]. intros created.
    apply responds_ret, created_sealed.
  - apply refuse_sealed, writeServiceError_closed.
  - apply refuse_sealed. pick 12%nat.
Qed.

Lemma Get_sealed h c : responds (Get uuid_parse h c) sealed.
Proof.
  unfold Get. destruct (uuid_parse _) as [id|]; [|apply refuse_sealed; pick 2%nat].
  case_match; [apply refuse_sealed; pick 2%nat|].
  destruct (hd_service h) as [service|]; [|apply refuse_sealed; pick 12%nat].
  apply responds_or_service_error; [apply error_sealed|]. intros found. apply responds_ret. by left.
Qed.

Lemma List_sealed (h : Handler (S := S)) c : responds (List h c) sealed.
Proof.
  unfold List. destruct (parseListRequest _) as [[params|cursor]|]; [| |apply refuse_sealed; pick 3%nat];
    (destruct (hd_service h) as [service|]).
  - apply responds_or_service_error; [apply error_sealed|]. intros page. by apply responds_ret.
  - apply refuse_sealed. pick 12%nat.
  - destruct (so_list_cursor service); [|apply refuse_sealed, writeServiceError_closed].
    apply responds_or_service_error; [apply error_sealed|]. intros page. by apply responds_ret.
  - apply refuse_sealed, writeServiceError_closed.
Qed.
End Handlers.

(** ** Pagination parameters *)

Lemma query_ints values key fallback n :
  parseQueryInt values key fallback = Ok n -> int64_range fallback -> int64_range n.
Proof.
  unfold parseQueryInt. destruct (query_values values key) as [|e [|? ?]]; [by intros [= <-]| |done].
  case_match; [by intros [= <-]|]. unfold Atoi. destruct (match e with [] => _ | _ => _ end) as [sign ds].
  destruct ds; [done|]. destruct (parse_digits 0 _) as [v|]; [|done]. cbn [mbind option_bind].
  destruct (decide _); [|done]. by intros [= <-].
Qed.

Lemma parseListRequest_cases c r :
  parseListRequest c = Ok r ->
  match r with
  | OffsetRequest p => 1 <= lp_limit p <= MaxPageSize /\ 0 <= lp_offset p
  | KeysetRequest q => 1 <= cr_limit q <= MaxPageSize /\ 0 < Z.of_nat (length (cr_cursor q)) <= MaxCursorBytes
  end.
Proof.
  unfold parseListRequest. destruct (c ≫= rq_url) as [[path raw]|]; [|done].
  destruct (ParseQuery raw) as [values|]; [|done].
  destruct (parseQueryInt values &"limit" DefaultPageSize) as [limit|]; [|done]. cbn [rbind].
  assert ((if limit =? 0 then DefaultPageSize else limit) <> 0) as Hnz by by destruct (Z.eqb_spec limit 0).
  set (l := if limit =? 0 then DefaultPageSize else limit) in *.
  destruct ((l <? 0) || (MaxPageSize <? l)) eqn:El; [done|]. bool_simpl.
  assert (1 <= l <= MaxPageSize) as Hl by lia.
  destruct (parseQueryInt values &"offset" 0) as [offset|]; [|done]. cbn [rbind].
  destruct (offset <? 0) eqn:Eo; [done|]. bool_simpl.
  destruct (query_values values &"cursor") as [|cursor [|? ?]]; [by intros [= <-]| |done].
  destruct (_ || _ || _) eqn:Ec; [done|]. bool_simpl. intros [= <-]. cbn. split; [done|].
  destruct cursor; [done|]. cbn [length] in *. lia.
Qed.

(** ** Tokens in URLs *)

Definition page_query (limit : Z) (token : bytes) : bytes :=
  &"limit=" ++ Itoa limit ++ &"&cursor=" ++ token.

Lemma Itoa_limit limit :
  1 <= limit <= MaxPageSize ->
  forallb query_plain (Itoa limit) = true /\ Atoi (Itoa limit) = Some limit /\ Itoa limit <> [].
Proof.
  intros Hl. assert (1 <= limit < 1 + 100) as Hr by (unfold MaxPageSize in Hl; lia).
  clear Hl. revert limit Hr.
  apply (range_forall_prop 1 100 (fun limit => forallb query_plain (Itoa limit) = true
    /\ Atoi (Itoa limit) = Some limit /\ Itoa limit <> [])). vm_compute. reflexivity.
Qed.

Lemma parse_page_query limit token :
  1 <= limit <= MaxPageSize -> forallb query_plain token = true ->
  ParseQuery (page_query limit token) = Some [(&"limit", Itoa limit); (&"cursor", token)].
Proof.
  intros Hl Ht. pose proof (Itoa_limit limit Hl) as (Hi & _ & _).
  assert (page_query limit token
    = (&"limit" ++ zb 61 :: Itoa limit) ++ zb 38 :: (&"cursor" ++ zb 61 :: token)) as ->.
  { unfold page_query. by rewrite <- app_assoc. }
  assert (forall k v, forallb query_plain k = true -> forallb query_plain v = true -> zb 38 ∉ k ++ zb 61 :: v) as Hamp.
  { intros k v Hk Hv [Hin|Hin]%elem_of_app; [by eapply query_plain_notin in Hin; [|done|set_solver]|].
    apply elem_of_cons in Hin as [E|Hin]; [by vm_compute in E|].
    by eapply query_plain_notin in Hin; [|done|set_solver]. }
  unfold ParseQuery. rewrite split_byte_app by by apply Hamp.
  rewrite split_byte_none by by apply Hamp. cbn [length]. cbv zeta.
  rewrite (proj2 (Z.ltb_ge max_query_params _)) by done.
  cbn [List.filter]. rewrite !bool_decide_false by done. cbn [negb].
  unfold mapM. by rewrite !query_pair_plain.
Qed.

Lemma cursor_token_plain {H : Hash256} codec payload :
  forallb query_plain (cursor_token codec payload) = true.
Proof. unfold cursor_token. by rewrite forallb_app, b64_encode_plain. Qed.

Lemma parse_page_request limit token c path :
  1 <= limit <= MaxPageSize -> forallb query_plain token = true ->
  0 < Z.of_nat (length token) <= MaxCursorBytes -> rq_url c = Some (path, page_query limit token) ->
  parseListRequest (Some c) = Ok (KeysetRequest (mkCursorRequest limit token)).
Proof.
  intros Hl Hp Ht Hu. pose proof (Itoa_limit limit Hl) as (_ & Ha & Hne).
  unfold parseListRequest. cbn [mbind option_bind]. rewrite Hu, (parse_page_query _ _ Hl Hp).
  assert (forall a b : bytes, query_values [(&"limit", a); (&"cursor", b)] (&"limit") = [a]
    /\ query_values [(&"limit", a); (&"cursor", b)] (&"offset") = []
    /\ query_values [(&"limit", a); (&"cursor", b)] (&"cursor") = [b]) as Hq by by intros a b.
  destruct (Hq (Itoa limit) token) as (Q1 & Q2 & Q3).
  unfold parseQueryInt at 1. rewrite Q1, bool_decide_false, Ha by done. cbn [rbind].
  rewrite (proj2 (Z.eqb_neq limit 0)), !(proj2 (Z.ltb_ge _ _)) by lia. cbn [orb].
  unfold parseQueryInt. rewrite Q2, Q3. cbn [rbind]. rewrite bool_decide_true by done. cbn [negb orb].
  rewrite bool_decide_false by (intros ->; simpl in Ht; lia). cbn [orb].
  by rewrite (proj2 (Z.ltb_ge MaxCursorBytes _)) by lia.
Qed.

(** ** The adapter over a service *)

Section Api.
Context {H : Hash256} {S : Type} (sysnow : nat -> time).
Context (ops : StoreOps S) `{!StoreSpec ops}.
Context (uuid_parse : bytes -> option uuid).
(** google/uuid: [Parse] reads what [String] writes. *)
Context (uuid_parse_string : forall u, uuid_parse (uuid_string u) = Some u).
Implicit Types (sv : Service (S := S)) (c : request) (w : world S).

Definition api sv (maxBodyBytes : Z) : Handler := mkHandler (Some (service_ops sysnow (Some sv))) maxBodyBytes.

(** The characters of an identifier need neither escaping nor trimming. *)
Definition plain_char (b : byte) : Prop :=
  path_unreserved b = true /\ bz b < 0x80 /\ is_space (bz b) = false.

Lemma hex_encode_plain_chars l : Forall plain_char (hex_encode l).
Proof.
  assert (forall z, 0 <= z < 16 -> plain_char (hex_digit z)) as Hd.
  { unfold plain_char. apply (range_forall_prop 0 16 (fun z => path_unreserved (hex_digit z) = true
      /\ bz (hex_digit z) < 0x80 /\ is_space (bz (hex_digit z)) = false)). vm_compute. reflexivity. }
  induction l as [|b l IH]; [constructor|]. pose proof (bz_range b). simpl.
  constructor; [|constructor; [|done]]; apply Hd; [|by apply Z.mod_pos_bound].
  split; [by apply Z.div_pos; lia|apply Z.div_lt_upper_bound; lia].
Qed.

Lemma uuid_string_chars u : Forall plain_char (uuid_string u).
Proof.
  assert (forall l r, Forall plain_char r -> Forall plain_char (hex_encode l ++ &"-" ++ r)) as Hg.
  { intros l r Hr. apply Forall_app. split; [apply hex_encode_plain_chars|].
    apply Forall_app. split; [|done]. by repeat constructor. }
  unfold uuid_string. do 4 apply Hg. apply hex_encode_plain_chars.
Qed.

Lemma uuid_string_trimmed u : TrimSpace (uuid_string u) = uuid_string u.
Proof.
  pose proof (uuid_string_chars u) as Hc. apply TrimSpace_tight.
  - eapply Forall_impl; [exact Hc|]. by intros b (_ & ? & _).
  - destruct (uuid_string u) as [|b s]; [done|]. apply Forall_cons in Hc as [(_ & _ & ?) _]. done.
  - destruct (uuid_string u) as [|b s] using rev_ind; [done|]. rewrite rev_unit.
    apply Forall_app in Hc as [_ Hc]. apply Forall_cons in Hc as [(_ & _ & ?) _]. done.
Qed.

Lemma path_escape_uuid u : path_escape (uuid_string u) = uuid_string u.
Proof.
  apply path_escape_plain, forallb_forall. intros b Hb%list_elem_of_In.
  pose proof (uuid_string_chars u) as Hc. rewrite Forall_forall in Hc. by apply Hc in Hb as [? _].
Qed.

(** What a create answers over a store that keeps its promises. *)
Lemma Create_answers sv c ctx maxBytes request cin w :
  sv_store sv = Some ops -> st_inv (w_store w) -> clock_wf sysnow -> clock_wf (sv_clock sv) ->
  rq_context c = Some ctx -> live ctx -> parseIdempotencyKey (Some c) = Ok None ->
  decodeStrictJSON c maxBytes = Ok (Some request) -> ValidateCreateInput (create_input request) = Ok cin ->
  accepted sysnow ops sv cin ->
  exists r w', Create (api sv maxBytes) c w = (Ok r, w') /\ st_inv (w_store w')
    /\ ((exists i, r = mkResponse 201 [(&"Location", resourceLocation c (ID i))] (ItemBody i)
           /\ built_from cin i /\ st_view (w_store w) !! ID i = None
           /\ st_view (w_store w') = <[ID i := i]> (st_view (w_store w)))
        \/ (exists e, r = writeServiceError e /\ st_view (w_store w') = st_view (w_store w)
           /\ (Is e ErrIDGeneration = true \/ Is e ErrConflict = true))).
Proof.
  intros Hst Hi Hn Hc Hctx Hl Hk Hd Hv Hacc. unfold Create. rewrite Hk. cbn [api hd_maxBodyBytes hd_service].
  rewrite Hd. cbn [service_ops so_create]. rewrite Hctx.
  unfold or_service_error, bind, attempt.
  assert (forall c0 : CreateInput, ValidateCreateInput (create_input request) = Ok c0 -> accepted sysnow ops sv c0) as Hacc'
    by (intros c0 E; rewrite Hv in E; by injection E as <-).
  destruct (Create_cases sysnow ops sv ctx (create_input request) w Hst Hl Hi Hn Hc Hacc')
    as [(i & w' & c' & -> & Hv' & Hb & Hi' & Hnone & V & _)|(e & w' & -> & Hi' & V & He)].
  - rewrite Hv in Hv'. injection Hv' as <-. eexists _, w'. split; [done|]. split; [done|]. left.
    exists i. split_and!; try done. unfold created_response. rewrite bool_decide_false by apply Hb. done.
  - eexists _, w'. split; [done|]. split; [done|]. right. exists e. split_and!; try done.
    destruct He as [He|[_ He]]; [congruence|done].
Qed.

Lemma Get_answers sv c ctx maxBytes id i w :
  sv_store sv = Some ops -> st_inv (w_store w) -> rq_context c = Some ctx -> live ctx ->
  rq_param_id c = uuid_string id -> id <> uuid_nil -> st_view (w_store w) !! id = Some i ->
  fst (Get uuid_parse (api sv maxBytes) c w) = Ok (mkResponse 200 [] (ItemBody i)).
Proof.
  intros Hst Hi Hctx Hl Hp Hid Hv. unfold Get. rewrite Hp, uuid_string_trimmed, uuid_parse_string.
  rewrite bool_decide_false by done. cbn [api hd_service service_ops so_get]. rewrite Hctx.
  unfold or_service_error, bind, attempt.
  destruct (Get_run ops sv ctx id w) as (w' & r & -> & _ & _ & Hr); [done..|].
  rewrite Hv in Hr. by subst r.
Qed.

(** ** Properties *)

(** A created item is at its Location. A valid create document over a store that
    keeps its promises answers 201 with the stored item and a Location whose last segment
    is its identifier; a read of that segment, on any later request, answers 200
    with the same item. A failed create changes nothing. *)
Theorem Http_create_then_get sv c ctx maxBytes raw request cin w :
  sv_store sv = Some ops -> st_inv (w_store w) -> clock_wf sysnow -> clock_wf (sv_clock sv) ->
  rq_context c = Some ctx -> live ctx -> parseIdempotencyKey (Some c) = Ok None ->
  fits c maxBytes raw -> create_document raw request -> ValidateCreateInput (create_input request) = Ok cin ->
  accepted sysnow ops sv cin ->
  exists r w', Create (api sv maxBytes) c w = (Ok r, w')
    /\ ((exists i prefix, rs_status r = 201 /\ rs_body r = ItemBody i
           /\ Name i = in_name cin /\ Description i = in_description cin
           /\ rs_headers r = [(&"Location", prefix ++ &"/" ++ uuid_string (ID i))]
           /\ forall c2 ctx2, rq_context c2 = Some ctx2 -> live ctx2 -> rq_param_id c2 = uuid_string (ID i) ->
                fst (Get uuid_parse (api sv maxBytes) c2 w') = Ok (mkResponse 200 [] (ItemBody i)))
        \/ (r ∈ error_responses /\ st_view (w_store w') = st_view (w_store w))).
Proof.
  intros Hst Hi Hn Hc Hctx Hl Hk Hf Hraw Hv Hacc.
  assert (decodeStrictJSON c maxBytes = Ok (Some request)) as Hd by (apply decodeStrictJSON_documents; by exists raw).
  destruct (Create_answers sv c ctx maxBytes request cin w) as
    (r & w' & -> & Hi' & [(i & -> & Hb & _ & V)|(e & -> & V & _)]); [done..| |].
  - eexists _, w'. split; [done|]. left. destruct Hb as ((Hid & _) & Hname & Hdesc & _).
    eexists i, _. split_and!; [done|done|done|done| |].
    + unfold resourceLocation. by rewrite path_escape_uuid.
    + intros c2 ctx2 Hc2 Hl2 Hp2. eapply Get_answers; try done. by rewrite V, lookup_insert_eq.
  - eexists _, w'. split; [done|]. right. split; [apply writeServiceError_closed|done].
Qed.

(** A server-side failure is blamed on the client. When the identifier source
    yields an identifier that is not a random UUID, a perfectly valid create is
    answered 422 [validation_error] "invalid item". *)
Theorem Http_generator_failure_is_422 sv c ctx maxBytes request cin id w :
  sv_store sv = Some ops -> (forall tick, sv_generateID sv tick = Ok id) -> ~ uuid_v4 id ->
  rq_context c = Some ctx -> live ctx -> parseIdempotencyKey (Some c) = Ok None ->
  decodeStrictJSON c maxBytes = Ok (Some request) -> ValidateCreateInput (create_input request) = Ok cin ->
  fst (Create (api sv maxBytes) c w) = Ok (writeError 422 &"validation_error" &"invalid item").
Proof.
  intros Hst Hg Hid Hctx Hl Hk Hd Hv. unfold Create. rewrite Hk. cbn [api hd_maxBodyBytes hd_service].
  rewrite Hd. cbn [service_ops so_create]. rewrite Hctx.
  assert (exists w', Service.Create sysnow (Some sv) (Some ctx) (create_input request) w
    = (Err (Joined [Sentinel ErrIDGeneration; Sentinel ErrInvalidInput;
                    Opaque &"generated UUID must be RFC4122 version 4"]), w')) as [w' E].
  { unfold Service.Create. rewrite (service_store_Some ops sv Hst). unfold bind at 1.
    rewrite contextError_live by done. unfold bind at 1, of_result at 1. rewrite Hv.
    unfold new_item, bind, observe. rewrite Hg. cbn beta iota.
    destruct (_ || _ || _) eqn:E; [by eexists|]. bool_simpl. by destruct Hid. }
  unfold or_service_error, bind, attempt. by rewrite E.
Qed.
End Api.

(** C38: nothing but the service's data and thirteen fixed error bodies leaves the
    adapter. Whatever the request, the service, its errors and their texts, every
    handler answers, an error answer is one of a fixed list of responses, and a
    201 always names a real item. *)
Theorem Handlers_sealed {S} uuid_parse (h : Handler (S := S)) c :
  responds (Create h c) sealed
  /\ responds (Get uuid_parse h c) sealed
  /\ responds (List h c) sealed.
Proof. split_and!; [apply Create_sealed|apply Get_sealed|apply List_sealed]. Qed.

(** The query parser and the service agree. A parsed offset request is accepted
    unchanged by the service's normalisation, a parsed keyset request has an
    acceptable limit and a bounded token, and a token issued by the signed codec
    survives a page URL byte for byte. *)
Theorem Query_agrees_with_service {H : Hash256} r limit codec payload c path :
  1 <= limit <= MaxPageSize ->
  length payload = cursorPayloadBytes ->
  rq_url c = Some (path, page_query limit (cursor_token codec payload)) ->
  (match parseListRequest r with
   | Ok (OffsetRequest p) => NormalizeListParams p = Ok p
   | Ok (KeysetRequest q) =>
     1 <= cr_limit q <= MaxPageSize /\ 0 < Z.of_nat (length (cr_cursor q)) <= MaxCursorBytes
   | Err _ => True
   end)
  /\ parseListRequest (Some c) = Ok (KeysetRequest (mkCursorRequest limit (cursor_token codec payload))).
Proof.
  intros Hl Hp Hu. split.
  - destruct (parseListRequest r) as [[p|q]|] eqn:E; [| |done]; apply parseListRequest_cases in E; [|done].
    destruct p as [l o]. cbn in E. apply NormalizeListParams_ok; lia.
  - apply (parse_page_request _ _ _ path); [done|apply cursor_token_plain| |done].
    by rewrite cursor_token_length.
Qed.
