(* ===== verification/ResponsesFacts.v ===== *)
(** * Response bodies: facts

    A client that parses a body of the adapter gets back what the adapter wrote. *)
From S2P Require Import Prelude GoText GoEncoding GoUnicode GoTime GoNet GoCalendar GoJson GoJsonParse GoJsonGrammar Sha256 Errors World Item Idempotency Cursor CursorFacts Order Store Service ServiceFacts HttpApi RequestBody HttpFacts Responses.

Section Readback.
Context (uuid_parse : bytes -> option uuid).
Context (uuid_parse_string : forall u, uuid_parse (uuid_string u) = Some u).

(** An item of the collection: valid text and a time in UTC. *)
Definition readable_item (i : Item) : Prop :=
  ValidString (Name i) = true /\ ValidString (Description i) = true /\ canonical_time (CreatedAt i).

Definition readable_body (b : body) : Prop :=
  match b with
  | ErrorBody code message => ValidString code = true /\ ValidString message = true
  | ItemBody i => readable_item i
  | ListBody items m =>
    Forall readable_item items /\ int64_range (pm_limit m) /\ ValidString (pm_next_cursor m) = true
    /\ match pm_offset m with Some o => int64_range o | None => True end
  end.

(** *** The documents can be written *)

Lemma uuid_string_valid u : ValidString (uuid_string u) = true.
Proof.
  apply ascii_valid. eapply Forall_impl; [apply uuid_string_chars|]. by intros b (_ & ? & _).
Qed.

Lemma item_json_ok d i v : readable_item i -> d < maxNestingDepth -> item_json i = Some v -> json_ok d v = true.
Proof.
  intros (Hn & Hd & _) Hdepth. unfold item_json. destruct (time_text (CreatedAt i)) as [s|] eqn:E; [|done].
  cbn [mbind option_bind]. intros [= <-]. cbn [json_ok forallb fst snd]. rewrite (proj2 (Z.ltb_lt _ _)) by done.
  rewrite uuid_string_valid, Hn, Hd. by rewrite (ascii_valid s) by (by eapply time_text_ascii).
Qed.

Lemma items_json_ok d items vs :
  Forall readable_item items -> d < maxNestingDepth -> items_json items = Some vs -> forallb (json_ok d) vs = true.
Proof.
  intros Hi Hd. revert vs. induction Hi as [|i items Hi Hs IH]; intros vs; cbn [items_json]; [by intros [= <-]|].
  destruct (item_json i) as [v|] eqn:E; [|done]. destruct (items_json items) as [vs'|]; [|done].
  cbn [mbind option_bind]. intros [= <-]. cbn [forallb]. by rewrite (item_json_ok d i v), IH.
Qed.

Lemma int_json_ok d n : json_ok d (int_json n) = true.
Proof. cbn [int_json json_ok]. apply bool_decide_eq_true. apply json_number_Itoa. Qed.

Lemma meta_json_ok d m : ValidString (pm_next_cursor m) = true -> d < maxNestingDepth -> json_ok d (meta_json m) = true.
Proof.
  intros Hc Hd. unfold meta_json. cbn [json_ok]. rewrite (proj2 (Z.ltb_lt _ _)) by done. rewrite !forallb_app.
  cbn [forallb fst snd]. rewrite int_json_ok.
  destruct (pm_offset m), (bool_decide _); cbn [forallb fst snd]; rewrite ?int_json_ok; cbn [json_ok]; by rewrite ?Hc.
Qed.

Lemma body_json_ok b v : readable_body b -> body_json b = Some v -> json_ok 0 v = true.
Proof.
  destruct b as [code message|i|items m]; cbn [readable_body body_json].
  - intros [Hc Hm] [= <-]. cbn. by rewrite Hc, Hm.
  - intros Hi. destruct (item_json i) as [x|] eqn:E; [|done]. intros [= <-]. cbn [json_ok forallb fst snd].
    by rewrite (item_json_ok (0 + 1) i x).
  - intros (Hi & _ & Hc & _). destruct (items_json items) as [vs|] eqn:E; [|done]. intros [= <-].
    cbn [json_ok forallb fst snd]. by rewrite (items_json_ok (0 + 1 + 1) items vs), (meta_json_ok (0 + 1) m).
Qed.

(** *** The client reads them back *)

Lemma member_here k v ms : member k (JObject ((k, v) :: ms)) = Some v.
Proof. cbn. by rewrite bool_decide_true. Qed.

Lemma member_next k k' v ms : k' <> k -> member k (JObject ((k', v) :: ms)) = member k (JObject ms).
Proof. intros Hk. cbn [member List.find fst]. by rewrite bool_decide_false. Qed.

(** A member of an object with literal keys. *)
Ltac lookup_member := repeat first [rewrite member_here | rewrite member_next by (by vm_compute)]; cbn [mbind option_bind].

Lemma read_item_json i v : readable_item i -> item_json i = Some v -> read_item uuid_parse v = Some i.
Proof.
  intros (_ & _ & Hc). unfold item_json. destruct (time_text (CreatedAt i)) as [s|] eqn:E; [|done].
  cbn [mbind option_bind]. intros [= <-]. unfold read_item. lookup_member. cbn [as_string mbind option_bind].
  rewrite uuid_parse_string. cbn [mbind option_bind]. rewrite (read_time_text _ _ Hc E). by destruct i.
Qed.

Lemma read_items_json items vs :
  Forall readable_item items -> items_json items = Some vs -> read_items uuid_parse vs = Some items.
Proof.
  intros Hi. revert vs. induction Hi as [|i items Hi Hs IH]; intros vs; cbn [items_json]; [by intros [= <-]|].
  destruct (item_json i) as [v|] eqn:E; [|done]. destruct (items_json items) as [vs'|]; [|done].
  cbn [mbind option_bind]. intros [= <-]. cbn [read_items]. by rewrite (read_item_json i v), (IH vs').
Qed.

Lemma read_meta_json m :
  int64_range (pm_limit m) -> match pm_offset m with Some o => int64_range o | None => True end ->
  read_meta (meta_json m) = Some m.
Proof.
  destruct m as [limit offset more next]. cbn [pm_limit pm_offset]. intros Hl Ho.
  unfold read_meta, meta_json, optional. cbn [pm_limit pm_offset pm_has_more pm_next_cursor app].
  destruct offset as [o|], (bool_decide_reflect (next = [])) as [->|Hn]; cbn [app]; lookup_member;
    cbn [int_json as_int as_bool as_string mbind option_bind fmap option_fmap option_map];
    rewrite ?Atoi_Itoa by done; reflexivity.
Qed.

Lemma read_body_json_of b v : readable_body b -> body_json b = Some v -> read_body_json uuid_parse v = Some b.
Proof.
  destruct b as [code message|i|items m]; cbn [readable_body body_json].
  - intros _ [= <-]. unfold read_body_json. lookup_member. reflexivity.
  - intros Hi. destruct (item_json i) as [x|] eqn:E; [|done]. cbn [mbind option_bind]. intros [= <-].
    unfold read_body_json. lookup_member. pose proof (read_item_json i x Hi E) as Hr.
    assert (exists ms, x = JObject ms) as [ms ->].
    { unfold item_json in E. destruct (time_text _); [|done]. cbn in E. injection E as <-. eauto. }
    cbn [member List.find snd fst fmap option_fmap option_map]. by rewrite Hr.
  - intros (Hi & Hl & _ & Ho). destruct (items_json items) as [vs|] eqn:E; [|done]. cbn [mbind option_bind]. intros [= <-].
    unfold read_body_json. lookup_member. rewrite (read_items_json items vs Hi E). cbn [mbind option_bind].
    by rewrite read_meta_json.
Qed.

Lemma body_bytes_read b raw : readable_body b -> body_bytes b = Some raw -> read_body uuid_parse raw = Some b.
Proof.
  intros Hb. unfold body_bytes. destruct (body_json b) as [v|] eqn:E; [|done]. intros [= <-]. unfold read_body.
  pose proof (json_render_read [] v [] ltac:(constructor) (body_json_ok b v Hb E) I) as Hr.
  rewrite app_nil_r in Hr. cbn [app] in Hr. rewrite Hr. by apply read_body_json_of.
Qed.

(** The items that have a text: those of the years 0 to 9999. *)
Definition four_digit_year (i : Item) : Prop := 0 <= d_year (civil (t_sec (CreatedAt i) / 86400)) <= 9999.

Lemma item_json_total i : canonical_item i -> is_Some (item_json i) <-> four_digit_year i.
Proof.
  intros (_ & _ & Hl). unfold four_digit_year. rewrite <- (time_text_total _ Hl). unfold item_json.
  destruct (time_text (CreatedAt i)); cbn; split; (by intros [? ?]) || by eexists.
Qed.

Lemma items_json_total items : Forall canonical_item items -> is_Some (items_json items) <-> Forall four_digit_year items.
Proof.
  induction 1 as [|i items Hi Hs IH]; [split; [constructor|by eexists]|]. cbn [items_json].
  rewrite Forall_cons, <- IH, <- (item_json_total i Hi).
  destruct (item_json i), (items_json items); cbn; split; try (by intros [? ?]); try (by intros [[? ?] [? ?]]); try (by eexists);
    intros _; split; by eexists.
Qed.

Lemma canonical_text_valid n d i :
  ValidateCreateInput (mkCreateInput n d) = Ok (mkCreateInput (Name i) (Description i)) -> canonical_item i -> readable_item i.
Proof. intros (_ & _ & _ & Hn & Hd & _)%ValidateCreateInput_Ok Hi. done. Qed.

(** C16: a client reads back what the adapter answers. Every body of valid text, UTC
    times and 64-bit numbers is encoded, unless one of its times is outside the years 0
    to 9999, and the encoded bytes are one JSON document from which a client recovers
    the error, the item, or the page with its items in order. *)
Theorem Response_roundtrip b :
  readable_body b ->
  (is_Some (body_bytes b) <-> match b with ErrorBody _ _ => True | ItemBody i => four_digit_year i | ListBody l _ => Forall four_digit_year l end)
  /\ forall raw, body_bytes b = Some raw -> read_body uuid_parse raw = Some b.
Proof.
  intros Hb. split; [|intros raw; by apply body_bytes_read].
  unfold body_bytes. rewrite fmap_is_Some. destruct b as [code message|i|items m]; cbn [body_json].
  - split; [done|by eexists].
  - destruct Hb as (_ & _ & Hc). rewrite <- (item_json_total i Hc). destruct (item_json i); cbn; split; (by intros [? ?]) || by eexists.
  - destruct Hb as (Hi & _). rewrite <- items_json_total by (eapply Forall_impl; [exact Hi|]; by intros i (_ & _ & ?)).
    destruct (items_json items); cbn; split; (by intros [? ?]) || by eexists.
Qed.

(** ** The wire *)

Section Wire.
Context {H : Hash256} {S : Type} (sysnow : nat -> time).
Context (ops : StoreOps S) `{!StoreSpec ops}.

(** C11: from the bytes of a request to the bytes of the answers. A client posts the JSON
    encoding of a name and a description that the service accepts. Over a store that
    keeps its promises it is answered 201 with a document from which it reads an item
    with the canonical name and description and whose identifier ends the Location, and
    every later read of that identifier is answered 200 with the same bytes; or it is answered one of the fixed
    errors, and the collection has not changed. *)
Theorem Wire_create_then_get (sv : Service (S := S)) c ctx maxBytes n d before after cin w :
  sv_store sv = Some ops -> st_inv (w_store w) -> clock_wf sysnow -> clock_wf (sv_clock sv) ->
  rq_context c = Some ctx -> live ctx -> parseIdempotencyKey (Some c) = Ok None ->
  ValidString n = true -> ValidString d = true -> white before -> white after ->
  fits c maxBytes (before ++ json_object2 &"name" n &"description" d ++ after) ->
  ValidateCreateInput (mkCreateInput n d) = Ok cin -> accepted sysnow ops sv cin ->
  exists r w', Create (api sysnow sv maxBytes) c w = (Ok r, w')
    /\ ((exists i prefix, rs_status r = 201 /\ Name i = in_name cin /\ Description i = in_description cin
           /\ rs_headers r = [(&"Location", prefix ++ &"/" ++ uuid_string (ID i))]
           /\ (forall raw, body_bytes (rs_body r) = Some raw -> read_body uuid_parse raw = Some (ItemBody i))
           /\ forall c2 ctx2, rq_context c2 = Some ctx2 -> live ctx2 -> rq_param_id c2 = uuid_string (ID i) ->
                exists g, fst (Get uuid_parse (api sysnow sv maxBytes) c2 w') = Ok g
                  /\ rs_status g = 200 /\ body_bytes (rs_body g) = body_bytes (rs_body r))
        \/ (r ∈ error_responses /\ st_view (w_store w') = st_view (w_store w))).
Proof.
  intros Hst Hi Hn Hc Hctx Hl Hk Hvn Hvd Hb Ha Hf Hv Hacc.
  assert (decodeStrictJSON c maxBytes = Ok (Some (mkCreateRequest n d))) as Hd.
  { apply decodeStrictJSON_documents. eexists. split; [exact Hf|]. by apply create_document_of. }
  destruct (Create_answers sysnow ops sv c ctx maxBytes (mkCreateRequest n d) cin w) as
    (r & w' & -> & Hi' & [(i & -> & Hbuilt & _ & V)|(e & -> & V & _)]); [done..| |];
    (eexists _, w'; split; [done|]); [left|right; split; [apply writeServiceError_closed|done]].
  destruct Hbuilt as ((Hid & _) & Hname & Hdesc & Hcan). eexists i, _. cbn [rs_status rs_body rs_headers]. split_and!; [done|done|done| | |].
  - unfold resourceLocation. by rewrite path_escape_uuid.
  - intros raw. apply body_bytes_read. destruct cin as [cn cd]. cbn [in_name in_description] in *. subst cn cd.
    by eapply canonical_text_valid.
  - intros c2 ctx2 Hc2 Hl2 Hp2. exists (mkResponse 200 [] (ItemBody i)). split; [|done]. eapply Get_answers; try done. by rewrite V, lookup_insert_eq.
Qed.
End Wire.
End Readback.
