(* ===== verification/HttpConcurrent.v ===== *)
(** * Concurrent requests to the items over the memory store

    The handlers of internal/item/httpapi run on many goroutines over one memory store.
    A keyed create takes the store's lock up to three times; every other request takes it
    once. A thread is a request cut at those critical sections; any number of threads
    interleave at the cuts, each section at any moment. Run alone, a thread is its
    handler. *)
From S2P Require Import Prelude GoText GoTime GoUrl Sha256 Errors World Item Idempotency Cursor Order Store Memory MemoryConcurrent Service ServiceFacts HttpApi HttpFacts.

Abbreviation state := (option MemoryStore).

(** ** Sections that only add items *)

(** The records, the reservations and the options are those of before, and no item is
    lost; a new item is kept under its own identifier. *)
Definition grows (st st' : MemoryStore) : Prop :=
  st' = set_items st (ms_items st') /\ ms_items st ⊆ ms_items st'
  /\ forall id it, ms_items st' !! id = Some it -> ms_items st !! id = Some it \/ ID it = id.

Definition quiet {A} (m : M state A) : Prop :=
  forall k st, exists r k' st', m (World k (Some st)) = (r, World k' (Some st')) /\ grows st st'.

Lemma grows_refl st : grows st st.
Proof. split_and!; [by destruct st|done|by left]. Qed.

Lemma grows_trans a b c : grows a b -> grows b c -> grows a c.
Proof.
  intros (Ea & Ha & Ia) (Eb & Hb & Ib). split_and!.
  - rewrite Eb. by rewrite Ea.
  - by etransitivity.
  - intros id it Hit. destruct (Ib id it Hit) as [Hi|?]; [by apply Ia|by right].
Qed.

Lemma quiet_still {A} (m : M state A) :
  (forall k st, exists r k', m (World k (Some st)) = (r, World k' (Some st))) -> quiet m.
Proof. intros Hm k st. destruct (Hm k st) as (r & k' & E). exists r, k', st. split; [done|apply grows_refl]. Qed.

Lemma quiet_ret {A} (a : A) : quiet (ret a).
Proof. apply quiet_still. intros k st. eexists _, _. reflexivity. Qed.
Lemma quiet_fail {A} e : quiet (fail (A := A) e).
Proof. apply quiet_still. intros k st. eexists _, _. reflexivity. Qed.
Lemma quiet_of_result {A} (r : result A) : quiet (of_result r).
Proof. apply quiet_still. intros k st. eexists _, _. reflexivity. Qed.
Lemma quiet_observe {A} (f : nat -> A) : quiet (observe f).
Proof. apply quiet_still. intros k st. eexists _, _. reflexivity. Qed.

Lemma quiet_bind {A B} (m : M state A) (f : A -> M state B) : quiet m -> (forall a, quiet (f a)) -> quiet (bind m f).
Proof.
  intros Hm Hf k st. unfold bind. destruct (Hm k st) as ([a|e] & k1 & st1 & -> & H1); [|by eexists _, _, _].
  destruct (Hf a k1 st1) as (r & k2 & st2 & -> & H2). eexists _, _, _. split; [done|]. by eapply grows_trans.
Qed.

Lemma quiet_attempt {A} (m : M state A) : quiet m -> quiet (attempt m).
Proof. intros Hm k st. unfold attempt. destruct (Hm k st) as (r & k1 & st1 & -> & H1). by eexists _, _, _. Qed.

Lemma quiet_load {A} (f : state -> M state A) : (forall st, quiet (f (Some st))) -> quiet (s <-- load;; f s).
Proof. intros Hf k st. unfold bind, load. cbn beta iota zeta. apply Hf. Qed.

Lemma quiet_contextError ctx : quiet (contextError ctx).
Proof.
  unfold contextError. destruct ctx as [c|]; [|apply quiet_fail].
  apply quiet_bind; [apply quiet_observe|]. intros [e|]; [apply quiet_fail|apply quiet_ret].
Qed.

Lemma quiet_or_service_error {A} (m : M state A) k : quiet m -> (forall a, quiet (k a)) -> quiet (or_service_error m k).
Proof.
  intros Hm Hk. unfold or_service_error. apply quiet_bind; [by apply quiet_attempt|]. intros [a|e]; [done|apply quiet_ret].
Qed.

Lemma quiet_Create ctx value : quiet (Memory.Create ctx value).
Proof.
  intros k st. destruct (Memory.Create ctx value (World k (Some st))) as [r [k' s']] eqn:E.
  unfold Memory.Create, with_store, contextError in E. revert E. destruct ctx as [c|]; m_unfold.
  2: { intros [= <- <- <-]. eexists _, _, _. split; [done|apply grows_refl]. }
  cbn [w_tick w_store].
  destruct (ctx_err c k); [intros [= <- <- <-]; eexists _, _, _; split; [done|apply grows_refl]|]. cbn [w_store w_tick].
  destruct (ctx_err c _); [intros [= <- <- <-]; eexists _, _, _; split; [done|apply grows_refl]|]. cbn [w_store w_tick].
  destruct (ms_items st !! ID value) eqn:Ei; intros [= <- <- <-]; eexists _, _, _; (split; [done|]); [apply grows_refl|].
  split_and!; [done|by apply insert_subseteq|]. intros id it. cbn [set_items ms_items].
  destruct (decide (id = ID value)) as [->|Hne]; [rewrite lookup_insert_eq; intros [= ->]; by right|].
  rewrite lookup_insert_ne by done. by left.
Qed.

Create HintDb quiet.
#[export] Hint Resolve quiet_ret quiet_fail quiet_of_result quiet_observe quiet_contextError quiet_Create quiet_attempt : quiet.

(** Bind by bind; the branches of a condition one by one. *)
Ltac quiet_tac :=
  repeat first
    [ solve [auto with quiet]
    | apply quiet_load; intros ?
    | apply quiet_or_service_error; [|intros ?]
    | apply quiet_bind; [|intros ?]
    | match goal with |- quiet (if ?b then _ else _) => destruct b | |- quiet (match ?x with _ => _ end) => destruct x eqn:? end ].

Section QuietOperations.
Context {H : Hash256} (sysnow : nat -> time) (range_items : nat -> gmap uuid Item -> list Item).

Lemma quiet_Get ctx id : quiet (Memory.Get ctx id).
Proof. unfold Memory.Get, with_store. quiet_tac. Qed.
Lemma quiet_List ctx params : quiet (Memory.List range_items ctx params).
Proof. unfold Memory.List, with_store. quiet_tac. Qed.
Lemma quiet_ListAfter ctx params : quiet (Memory.ListAfter range_items ctx params).
Proof. unfold Memory.ListAfter, with_store. quiet_tac. Qed.
Lemma quiet_now clock : quiet (Memory.now sysnow clock).
Proof. unfold Memory.now. quiet_tac. Qed.

(** The signed codec keeps no state in the store. *)
Lemma quiet_signed_codec codec :
  (forall p, quiet (co_encode (signed_codec sysnow codec) p)) /\ (forall t, quiet (co_decode (signed_codec sysnow codec) t)).
Proof.
  assert (forall c, quiet (currentTime sysnow c)) by (intros c; unfold currentTime; cbv zeta; quiet_tac).
  split; intros p; cbn [signed_codec co_encode co_decode]; [unfold Encode|unfold Decode]; cbv zeta; quiet_tac.
Qed.
End QuietOperations.
#[export] Hint Resolve quiet_Get quiet_List quiet_ListAfter quiet_now : quiet.

Section Requests.
Context {H : Hash256} (sysnow : nat -> time) (range_items : nat -> gmap uuid Item -> list Item).
Context (uuid_parse : bytes -> option uuid).
Context (sv : Service (S := state)) (maxBytes : Z).

Definition handler : HttpApi.Handler := api sysnow sv maxBytes.

Inductive job := Post (c : request) | Fetch (c : request) | Listing (c : request).

Definition serve_job (j : job) : M state response :=
  match j with
  | Post c => HttpApi.Create handler c
  | Fetch c => HttpApi.Get uuid_parse handler c
  | Listing c => HttpApi.List handler c
  end.

(** Where a request stands: not begun; about to reserve its key; the owner of a
    reservation, about to write its item, to give the key up after a failed write, or to
    record the written item; about to answer; answered. *)
Inductive thread :=
  | Received (j : job)
  | Ready (c : request) (key : bytes) (value : Item) (requestHash : array 32) (t : time)
  | Holding (c : request) (key : bytes) (value : Item) (requestHash : array 32)
  | Dropping (c : request) (key : bytes) (err : error)
  | Stored (c : request) (key : bytes) (created : Item) (requestHash : array 32)
  | Recorded (c : request) (key : bytes) (created : Item)
  | Answered (j : job) (r : response).

(** The key under which the store keeps the record of a request. *)
Definition key_hash (c : request) (key : bytes) : array 32 := Sum256 (storageIdempotencyKey (rq_context c) key).

(** What a keyed create does before its first critical section: the service's checks and
    new item, the store's checks and the reading of its clock. *)
Definition prelude (c : request) (input : CreateInput) (key : bytes) : M state (Item * array 32 * time) :=
  contextError (rq_context c);;;
  of_result (ValidateIdempotencyKey key);;;
  canonical <-- of_result (ValidateCreateInput input);;
  fingerprint <-- of_result (FingerprintCreateInput canonical);;
  value <-- new_item sysnow sv canonical;;
  contextError (rq_context c);;;
  of_result (validateRequest (storageIdempotencyKey (rq_context c) key) fingerprint value);;;
  with_store ErrIdempotencyUnavailable (fun st =>
    t <-- Memory.now sysnow (ms_clock st);;
    ret (value, default (zero_array 32) (decodeDigest fingerprint), t)).

Definition refused (c : request) (err : error) : thread := Answered (Post c) (writeServiceError err).

(** The end of [Service.CreateIdempotent] and of the handler. *)
Definition finish (c : request) (key : bytes) (created : Item) (replayed : bool) : thread :=
  if bool_decide (ID created = uuid_nil) then refused c (Sentinel ErrIdempotencyState)
  else Answered (Post c) (created_response c (Some key) created replayed).

(** The next section of a thread. The Lock and Unlock around it are not represented: a
    section is one atomic step, taken when the thread holds the lock. *)
Definition advance (t : thread) : M state thread :=
  match t with
  | Received j =>
    let whole := r <-- serve_job j;; ret (Answered j r) in
    match j with
    | Post c =>
      match parseIdempotencyKey (Some c), decodeStrictJSON c maxBytes with
      | Ok (Some key), Ok (Some q) =>
        outcome <-- attempt (prelude c (create_input q) key);;
        match outcome with
        | Err err => ret (refused c err)
        | Ok (value, requestHash, t) => ret (Ready c key value requestHash t)
        end
      | _, _ => whole
      end
    | _ => whole
    end
  | Ready c key value requestHash t =>
    outcome <-- attempt (reserve (rq_context c) (key_hash c key) requestHash t);;
    match outcome with
    | Err err => ret (refused c err)
    | Ok (Some existing) => ret (finish c key existing true)
    | Ok None => ret (Holding c key value requestHash)
    end
  | Holding c key value requestHash =>
    outcome <-- attempt (Memory.Create (rq_context c) value);;
    match outcome with
    | Err err => ret (Dropping c key err)
    | Ok created =>
      if bool_decide (ID created = uuid_nil) then ret (Dropping c key (Sentinel ErrIdempotencyState))
      else ret (Stored c key created requestHash)
    end
  | Dropping c key err => clearInFlight (key_hash c key);;; ret (refused c err)
  | Stored c key created requestHash =>
    outcome <-- attempt (record_created sysnow (key_hash c key) requestHash (ID created));;
    match outcome with
    | Err err => ret (refused c err)
    | Ok _ => ret (Recorded c key created)
    end
  | Recorded c key created =>
    outcome <-- attempt (contextError (rq_context c));;
    match outcome with
    | Err err => ret (refused c err)
    | Ok _ => ret (finish c key created false)
    end
  | Answered _ _ => ret t
  end.

(** [n] sections of a thread that runs alone. *)
Fixpoint run_alone (n : nat) (t : thread) : M state thread :=
  match n with O => ret t | S n => t' <-- advance t;; run_alone n t' end.

(** ** Interleavings *)

Record requests := mkRequests { req_store : MemoryStore; req_threads : gmap nat thread }.

Inductive progress : requests -> requests -> Prop :=
  | pr_arrive st ths i j :
      ths !! i = None -> progress (mkRequests st ths) (mkRequests st (<[i := Received j]> ths))
  | pr_section st st' ths i t t' k k' :
      ths !! i = Some t -> advance t (World k (Some st)) = (Ok t', World k' (Some st')) ->
      progress (mkRequests st ths) (mkRequests st' (<[i := t']> ths)).

Definition served_from (st : MemoryStore) (s : requests) : Prop := rtc progress (mkRequests st ∅) s.

(** A schedule: the threads that move, one after the other; the first move of a thread is
    its arrival with its request. *)
Fixpoint run_schedule (jobs : nat -> job) (l : list nat) (k : nat) (s : requests) : requests :=
  match l with
  | [] => s
  | i :: l =>
    match req_threads s !! i with
    | None => run_schedule jobs l k (mkRequests (req_store s) (<[i := Received (jobs i)]> (req_threads s)))
    | Some t =>
      match advance t (World k (Some (req_store s))) with
      | (Ok t', World k' (Some st')) => run_schedule jobs l k' (mkRequests st' (<[i := t']> (req_threads s)))
      | _ => s
      end
    end
  end.

Lemma run_schedule_progress jobs l : forall k s, rtc progress s (run_schedule jobs l k s).
Proof.
  induction l as [|i l IH]; intros k [st ths]; cbn [run_schedule req_store req_threads]; [constructor|].
  destruct (ths !! i) as [t|] eqn:Ei.
  - destruct (advance t (World k (Some st))) as [[t'|e] [k' [st'|]]] eqn:E; try constructor.
    eapply rtc_l; [by eapply pr_section|apply IH].
  - eapply rtc_l; [by apply pr_arrive|apply IH].
Qed.

(** ** Alone, a thread is its handler *)

Context (Hstore : sv_store sv = Some (memory_ops sysnow range_items)).

Lemma run_alone_answered n j r w : run_alone n (Answered j r) w = (Ok (Answered j r), w).
Proof. induction n as [|n IH]; [done|]. cbn [run_alone advance]. unfold bind, ret. exact IH. Qed.

(** What follows the prelude, run in one go. *)
Definition rest_alone (c : request) (key : bytes) (p : Item * array 32 * time) : M state (Item * bool) :=
  let '(value, requestHash, t) := p in
  found <-- reserve (rq_context c) (key_hash c key) requestHash t;;
  created <-- match found with
    | Some existing => ret (existing, true)
    | None =>
      outcome <-- attempt (Memory.Create (rq_context c) value);;
      match outcome with
      | Err err => clearInFlight (key_hash c key);;; fail err
      | Ok created =>
        if bool_decide (ID created = uuid_nil)
        then clearInFlight (key_hash c key);;; fail (Sentinel ErrIdempotencyState)
        else
          record_created sysnow (key_hash c key) requestHash (ID created);;;
          contextError (rq_context c);;;
          ret (created, false)
      end
    end;;
  if bool_decide (ID (fst created) = uuid_nil) then fail (Sentinel ErrIdempotencyState) else ret created.

(** Both sides run the same call next. *)
Ltac same_call m w := destruct (m w) as [[?|?] ?]; cbn beta iota zeta; [|reflexivity].

Lemma CreateIdempotent_prelude c input key w :
  Service.CreateIdempotent sysnow (Some sv) (rq_context c) input key w
  = (p <-- prelude c input key;; rest_alone c key p) w.
Proof.
  unfold Service.CreateIdempotent, prelude, rest_alone, service_store. cbn [mbind option_bind]. rewrite Hstore.
  cbn [mbind option_bind memory_ops st_create_idempotent fst snd]. unfold Memory.CreateIdempotent, with_store.
  m_unfold. same_call (contextError (S := state) (rq_context c)) w.
  destruct (ValidateIdempotencyKey key); [|reflexivity]. destruct (ValidateCreateInput input) as [canonical|]; [|reflexivity].
  destruct (FingerprintCreateInput canonical) as [fp|]; [|reflexivity].
  match goal with |- context [new_item sysnow sv canonical ?w] => same_call (new_item sysnow sv canonical) w end.
  match goal with |- context [contextError (rq_context c) ?w] => same_call (contextError (S := state) (rq_context c)) w end.
  destruct (validateRequest _ fp _); [|reflexivity]. destruct (w_store _) as [st|]; [|reflexivity].
  match goal with |- context [Memory.now sysnow ?k ?w] => same_call (Memory.now sysnow k) w end.
  unfold key_hash. by destruct (reserve _ _ _ _ _) as [[?|?] ?].
Qed.

Lemma or_service_error_run {A} (m : M state A) (k : A -> M state response) w :
  or_service_error m k w = match m w with (Ok a, w') => k a w' | (Err e, w') => (Ok (writeServiceError e), w') end.
Proof. unfold or_service_error. m_unfold. by destruct (m w) as [[a|e] w']. Qed.

(** A keyed create whose body is decoded. *)
Lemma keyed_create c key q w :
  parseIdempotencyKey (Some c) = Ok (Some key) -> decodeStrictJSON c maxBytes = Ok (Some q) ->
  HttpApi.Create handler c w
  = or_service_error (p <-- prelude c (create_input q) key;; rest_alone c key p)
      (fun p => ret (created_response c (Some key) p.1 p.2)) w.
Proof.
  intros Hk Hd. unfold HttpApi.Create. rewrite Hk. cbn [handler api hd_maxBodyBytes hd_service]. rewrite Hd.
  cbn [service_ops so_create_idempotent]. rewrite !or_service_error_run, CreateIdempotent_prelude.
  by destruct ((p <-- _;; _) w) as [[[i b]|e] w'].
Qed.

Lemma refused_run n c e w : run_alone n (refused c e) w = (Ok (refused c e), w).
Proof. apply run_alone_answered. Qed.

Lemma finish_run c key created replayed n w :
  run_alone n (finish c key created replayed) w
  = (Ok (Answered (Post c) (if bool_decide (ID created = uuid_nil) then writeServiceError (Sentinel ErrIdempotencyState)
                            else created_response c (Some key) created replayed)), w).
Proof. unfold finish, refused. destruct (bool_decide _); apply run_alone_answered. Qed.

(** Its sections after the prelude, run one after the other. *)
Lemma rest_alone_sections c key p w :
  run_alone 4 (Ready c key p.1.1 p.1.2 p.2) w
  = (r <-- or_service_error (rest_alone c key p) (fun p => ret (created_response c (Some key) p.1 p.2));;
     ret (Answered (Post c) r)) w.
Proof.
  destruct p as [[value rh] t]. cbn [fst snd]. unfold bind at 1. rewrite or_service_error_run.
  change (run_alone 4 ?t) with (t' <-- advance t;; run_alone 3 t'). unfold rest_alone. cbn [advance].
  m_unfold. destruct (reserve _ _ rh t w) as [[[existing|]|e] w1]; cbn beta iota zeta; [| |by rewrite refused_run].
  { rewrite finish_run. by destruct (bool_decide _). }
  change (run_alone 3 ?t) with (t' <-- advance t;; run_alone 2 t'). cbn [advance]. m_unfold.
  destruct (Memory.Create _ value w1) as [[created|e] w2]; cbn beta iota zeta.
  - destruct (bool_decide (ID created = uuid_nil)) eqn:En.
    + change (run_alone 2 ?t) with (t' <-- advance t;; run_alone 1 t'). cbn [advance]. m_unfold.
      unfold clearInFlight, modify. m_unfold. by rewrite refused_run.
    + change (run_alone 2 ?t) with (t' <-- advance t;; run_alone 1 t'). cbn [advance]. m_unfold.
      destruct (record_created sysnow _ _ _ w2) as [[[]|e] w3]; cbn beta iota zeta; [|by rewrite refused_run].
      change (run_alone 1 ?t) with (t' <-- advance t;; run_alone 0 t'). cbn [advance]. m_unfold.
      destruct (contextError _ w3) as [[[]|e] w4]; cbn beta iota zeta; [|by rewrite refused_run].
      rewrite finish_run. cbn [fst]. by rewrite En.
  - change (run_alone 2 ?t) with (t' <-- advance t;; run_alone 1 t'). cbn [advance]. m_unfold.
    unfold clearInFlight, modify. m_unfold. by rewrite refused_run.
Qed.

(** Five sections are enough for every request, and run alone they are its handler. *)
Lemma run_alone_serves j w : run_alone 5 (Received j) w = (r <-- serve_job j;; ret (Answered j r)) w.
Proof.
  change (run_alone 5 ?t) with (t' <-- advance t;; run_alone 4 t').
  assert (forall w, (t' <-- (r <-- serve_job j;; ret (Answered j r));; run_alone 4 t') w
    = (r <-- serve_job j;; ret (Answered j r)) w) as Hwhole.
  { intros w0. m_unfold. destruct (serve_job j w0) as [[r|e] w']; cbn beta iota zeta; [by rewrite run_alone_answered|done]. }
  destruct j as [c|c|c]; cbn [advance]; try exact (Hwhole w).
  destruct (parseIdempotencyKey (Some c)) as [[key|]|e] eqn:Ek; try exact (Hwhole w).
  destruct (decodeStrictJSON c maxBytes) as [[q|]|e] eqn:Ed; try exact (Hwhole w). clear Hwhole.
  cbn [serve_job]. unfold bind at 3. rewrite (keyed_create c key q w Ek Ed), or_service_error_run.
  unfold bind at 1, bind at 1, attempt. unfold bind at 1.
  destruct (prelude c (create_input q) key w) as [[p|e] w1]; cbn beta iota zeta; [|by unfold ret; cbn beta iota zeta; rewrite refused_run].
  destruct p as [[value rh] t]. pose proof (rest_alone_sections c key (value, rh, t) w1) as Hr. cbn [fst snd] in Hr.
  unfold ret at 1. rewrite Hr. unfold bind at 1. by rewrite or_service_error_run.
Qed.

(** The codec keeps no state in the store. *)
Context (Hcodec : forall codec, sv_cursorCodec sv = Some codec ->
  (forall p, quiet (co_encode codec p)) /\ (forall t, quiet (co_decode codec t))).

Lemma quiet_new_item canonical : quiet (new_item sysnow sv canonical).
Proof. unfold new_item. quiet_tac. Qed.

Hint Resolve quiet_new_item : quiet.

Lemma quiet_next_cursor codec items : sv_cursorCodec sv = Some codec -> quiet (next_cursor codec items).
Proof. intros Hc. destruct (Hcodec codec Hc) as [He _]. unfold next_cursor. quiet_tac. Qed.

Lemma store_of_sv : service_store (Some sv) = Some (sv, memory_ops sysnow range_items).
Proof. unfold service_store. cbn. by rewrite Hstore. Qed.

Lemma quiet_service_Create ctx input : quiet (Service.Create sysnow (Some sv) ctx input).
Proof. unfold Service.Create. rewrite store_of_sv. cbn [memory_ops st_create]. quiet_tac. Qed.

Lemma quiet_service_Get ctx id : quiet (Service.Get (Some sv) ctx id).
Proof. unfold Service.Get. rewrite store_of_sv. cbn [memory_ops st_get]. quiet_tac. Qed.

Lemma quiet_service_List ctx params : quiet (Service.List (Some sv) ctx params).
Proof.
  unfold Service.List. rewrite store_of_sv. cbn [memory_ops st_list st_list_after].
  destruct (sv_cursorCodec sv) as [codec|] eqn:Ec in |- *; [pose proof (fun items => quiet_next_cursor codec items Ec)|]; quiet_tac.
Qed.

Lemma quiet_service_ListCursor ctx cr : quiet (Service.ListCursor (Some sv) ctx cr).
Proof.
  unfold Service.ListCursor. rewrite store_of_sv. cbn [mbind option_bind fst snd].
  destruct (sv_cursorCodec sv) as [codec|] eqn:Ec in |- *; cbn [mbind option_bind fst snd memory_ops st_list_after];
    [pose proof (fun items => quiet_next_cursor codec items Ec); destruct (Hcodec codec Ec) as [_ Hd]|].
  - assert (forall t, quiet (request_position codec t)) by (intros t; unfold request_position; quiet_tac). quiet_tac.
  - quiet_tac.
Qed.
Hint Resolve quiet_service_Create quiet_service_Get quiet_service_List quiet_service_ListCursor : quiet.

(** A create without a key, or without a body, and every read. *)
Lemma quiet_serve_job j :
  (forall c key q, j = Post c -> parseIdempotencyKey (Some c) = Ok (Some key) -> decodeStrictJSON c maxBytes = Ok (Some q) -> False) ->
  quiet (serve_job j).
Proof.
  intros Hno. destruct j as [c|c|c]; cbn [serve_job].
  - unfold HttpApi.Create. cbn [handler api hd_maxBodyBytes hd_service service_ops so_create].
    destruct (parseIdempotencyKey (Some c)) as [[key|]|e] eqn:Ek; [| |quiet_tac];
      (destruct (decodeStrictJSON c maxBytes) as [[q|]|e] eqn:Ed; [|quiet_tac..]); [by destruct (Hno c key q)|quiet_tac].
  - unfold HttpApi.Get. cbn [handler api hd_service service_ops so_get]. quiet_tac.
  - unfold HttpApi.List. cbn [handler api hd_service service_ops so_list so_list_cursor]. quiet_tac.
Qed.


Lemma quiet_prelude c input key : quiet (prelude c input key).
Proof. unfold prelude, with_store. quiet_tac. Qed.

(** ** One retention period *)

(** What the clock of a store can read. *)
Definition reading (clk : option (nat -> time)) (t : time) : Prop :=
  exists k, t = to_utc (sysnow k) \/ exists clock, clk = Some clock /\ t = to_utc (clock k).

(** No reading reaches the expiry of a record made at another. *)
Definition one_period (clk : option (nat -> time)) : Prop :=
  forall t u, reading clk t -> reading clk u -> Before t (Add u IdempotencyRecordRetention) = true.

Lemma bind_Ok {A B} (m : M state A) (f : A -> M state B) w b w' :
  bind m f w = (Ok b, w') -> exists a w1, m w = (Ok a, w1) /\ f a w1 = (Ok b, w').
Proof. unfold bind. destruct (m w) as [[a|e] w1]; [|done]. by exists a, w1. Qed.

Lemma quiet_run {A} (m : M state A) k st r w' :
  quiet m -> m (World k (Some st)) = (r, w') -> exists k' st', w' = World k' (Some st') /\ grows st st'.
Proof. intros Hm E. destruct (Hm k st) as (r0 & k1 & st1 & E0 & Hg). rewrite E0 in E. injection E as <- <-. eauto. Qed.

Lemma now_reading clk w t w' : Memory.now sysnow clk w = (Ok t, w') -> reading clk t.
Proof.
  unfold Memory.now. destruct clk as [clock|]; m_unfold.
  - destruct (IsZero _); intros [= <- _]; eexists; [by left|right; eauto].
  - intros [= <- _]. eexists. by left.
Qed.

Lemma quiet_clock {A} (m : M state A) k st r w' :
  quiet m -> m (World k (Some st)) = (r, w') -> exists k' st', w' = World k' (Some st') /\ ms_clock st' = ms_clock st.
Proof. intros Hm E. apply quiet_run in E as (k' & st' & -> & [E1 _]); [|done]. exists k', st'. split; [done|]. by rewrite E1. Qed.

Lemma prelude_reading c input key k st v rh t w' :
  prelude c input key (World k (Some st)) = (Ok (v, rh, t), w') -> reading (ms_clock st) t.
Proof.
  intros E. unfold prelude in E.
  apply bind_Ok in E as (? & w1 & E1 & E). apply quiet_clock in E1 as (k1 & st1 & -> & C1); [|auto with quiet].
  apply bind_Ok in E as (? & w2 & E2 & E). apply quiet_clock in E2 as (k2 & st2 & -> & C2); [|auto with quiet].
  apply bind_Ok in E as (can & w3 & E3 & E). apply quiet_clock in E3 as (k3 & st3 & -> & C3); [|auto with quiet].
  apply bind_Ok in E as (fp & w4 & E4 & E). apply quiet_clock in E4 as (k4 & st4 & -> & C4); [|auto with quiet].
  apply bind_Ok in E as (v' & w5 & E5 & E). apply quiet_clock in E5 as (k5 & st5 & -> & C5); [|auto with quiet].
  apply bind_Ok in E as (? & w6 & E6 & E). apply quiet_clock in E6 as (k6 & st6 & -> & C6); [|auto with quiet].
  apply bind_Ok in E as (? & w7 & E7 & E). apply quiet_clock in E7 as (k7 & st7 & -> & C7); [|auto with quiet].
  unfold with_store in E. apply bind_Ok in E as (s8 & w8 & E8 & E). injection E8 as <- <-. cbn [w_store] in E.
  apply bind_Ok in E as (t' & w9 & E9 & E). injection E as <- <- <- _. apply now_reading in E9. congruence.
Qed.

(** Within the period, a sweep removes nothing. *)
Definition fresh_records (clk : option (nat -> time)) (st : MemoryStore) : Prop :=
  forall kh e, ms_idempotency st !! kh = Some e ->
    exists u, reading clk u /\ ie_expiresAt e = Add u IdempotencyRecordRetention.

Lemma swept_same clk now st : one_period clk -> reading clk now -> fresh_records clk st -> swept now st = st.
Proof.
  intros Hp Hn Hf. assert (ms_idempotency (swept now st) = ms_idempotency st) as E.
  { apply map_eq. intros kh. rewrite swept_lookup. destruct (ms_idempotency st !! kh) as [e|] eqn:Ee; [|done].
    cbn [mbind option_bind]. destruct (Hf kh e Ee) as (u & Hu & ->). by rewrite (Hp now u Hn Hu). }
  unfold swept, cleanupIdempotencyLocked in *. cbn [set_idempotency ms_idempotency] in E. rewrite E. by destruct st.
Qed.

(** What the sections of a keyed create do. *)
Lemma getItem_found ctx id k st it w' :
  getItem ctx id (World k (Some st)) = (Ok it, w') -> ms_items st !! id = Some it /\ w_store w' = Some st.
Proof.
  unfold getItem, contextError. destruct ctx as [c|]; m_unfold; [|done].
  destruct (ctx_err c _); [done|]. cbn [w_store w_tick]. destruct (ctx_err c _); [done|]. cbn [w_store w_tick mbind option_bind].
  destruct (ms_items st !! id) eqn:E; [|done]. by intros [= <- <-].
Qed.

Lemma reserve_found ctx kh rh now k st it w' :
  reserve ctx kh rh now (World k (Some st)) = (Ok (Some it), w') ->
  exists e, ms_idempotency (swept now st) !! kh = Some e /\ ms_items st !! ie_itemID e = Some it.
Proof.
  unfold reserve, modify, with_store. m_unfold. cbn [w_store w_tick fmap option_fmap option_map].
  fold (swept now st). destruct (ms_idempotency (swept now st) !! kh) as [e|] eqn:Ee.
  - destruct (negb _); [done|].
    destruct (getItem ctx (ie_itemID e) _) as [[v|err] w1] eqn:Eg; [|by destruct (_ || _)].
    intros [= <- <-]. exists e. split; [done|]. by apply getItem_found in Eg as [? _].
  - destruct (bool_decide _); [done|]. by destruct (_ <=? _).
Qed.

Lemma Create_found ctx v k st r w' :
  Memory.Create ctx v (World k (Some st)) = (Ok r, w') ->
  r = v /\ w_store w' = Some (set_items st (<[ID v := v]> (ms_items st))) /\ ms_items st !! ID v = None.
Proof.
  unfold Memory.Create, with_store, contextError. destruct ctx as [c|]; m_unfold; [|done].
  cbn [w_store w_tick]. destruct (ctx_err c _); [done|]. cbn [w_store w_tick].
  destruct (ctx_err c _); [done|]. cbn [w_store w_tick].
  destruct (ms_items st !! ID v) eqn:E; [done|]. by intros [= <- <-].
Qed.

Lemma record_created_found kh rh id k st r w' :
  record_created sysnow kh rh id (World k (Some st)) = (r, w') ->
  exists e, w_store w' = Some (set_idempotency (set_inflight st (ms_inflight st ∖ {[kh]})) (<[kh := e]> (ms_idempotency st)))
    /\ ie_itemID e = id
    /\ exists u, reading (ms_clock st) u /\ ie_expiresAt e = Add u IdempotencyRecordRetention.
Proof.
  unfold record_created, with_store. unfold bind at 1, load. cbn beta iota zeta. cbn [w_store].
  unfold bind. destruct (Memory.now sysnow (ms_clock st) _) as [[t|e] w1] eqn:En.
  - intros [= <- <-]. eexists. split; [done|]. split; [done|]. exists t. split; [by eapply now_reading|done].
  - unfold Memory.now in En. destruct (ms_clock st); revert En; m_unfold; [destruct (IsZero _)|]; done.
Qed.

(** ** The invariant *)

(** The item recorded under a key. *)
Definition recorded (st : MemoryStore) (kh : array 32) (id : uuid) : Prop :=
  exists e, ms_idempotency st !! kh = Some e /\ ie_itemID e = id.

Definition posted (c : request) (key : bytes) : Prop := parseIdempotencyKey (Some c) = Ok (Some key).

(** What holds of a thread between its sections. *)
Definition thread_ok (clk : option (nat -> time)) (st : MemoryStore) (t : thread) : Prop :=
  match t with
  | Received _ => True
  | Ready c key _ _ now => posted c key /\ reading clk now
  | Holding c key _ _ => posted c key /\ key_hash c key ∈ ms_inflight st
  | Dropping c key _ => key_hash c key ∈ ms_inflight st
  | Stored c key created _ =>
    posted c key /\ key_hash c key ∈ ms_inflight st /\ ms_items st !! ID created = Some created
  | Recorded c key created =>
    posted c key /\ recorded st (key_hash c key) (ID created) /\ ms_items st !! ID created = Some created
  | Answered (Post c) r =>
    forall key it, posted c key -> rs_body r = ItemBody it ->
      recorded st (key_hash c key) (ID it) /\ ms_items st !! ID it = Some it
  | Answered _ _ => True
  end.

(** The reservation of a thread, and the key that it has won: by a reservation, or by an
    item it recorded. *)
Definition holds (t : thread) : option (array 32) :=
  match t with
  | Holding c key _ _ | Dropping c key _ | Stored c key _ _ => Some (key_hash c key)
  | _ => None
  end.

Definition wins (t : thread) (kh : array 32) : Prop :=
  match t with
  | Holding c key _ _ | Dropping c key _ | Stored c key _ _ | Recorded c key _ => key_hash c key = kh
  | Answered (Post c) r =>
    rs_status r = 201 /\ (exists it, rs_body r = ItemBody it) /\ exists key, posted c key /\ key_hash c key = kh
  | _ => False
  end.

(** The store as every thread finds it. *)
Record found_store (clk : option (nat -> time)) (st : MemoryStore) : Prop := {
  fs_clock : ms_clock st = clk;
  fs_fresh : fresh_records clk st;
  fs_ids id it : ms_items st !! id = Some it -> ID it = id;
  fs_disjoint kh : kh ∈ ms_inflight st -> ms_idempotency st !! kh = None;
}.

Record requests_inv (clk : option (nat -> time)) (s : requests) : Prop := {
  ri_store : found_store clk (req_store s);
  ri_threads i t : req_threads s !! i = Some t -> thread_ok clk (req_store s) t;
  ri_winner i j t u kh : req_threads s !! i = Some t -> req_threads s !! j = Some u -> wins t kh -> wins u kh -> i = j;
}.

(** A winner's key is reserved or has its record. *)
Lemma wins_marked clk st t kh :
  thread_ok clk st t -> wins t kh -> kh ∈ ms_inflight st \/ exists id, recorded st kh id.
Proof.
  destruct t as [j|c key v rh t|c key v rh|c key e|c key it rh|c key it|[c|c|c] r]; cbn [thread_ok wins]; try done.
  - intros [_ ?] <-. by left.
  - intros ? <-. by left.
  - intros (_ & ? & _) <-. by left.
  - intros (_ & ? & _) <-. right. eauto.
  - intros Ht (_ & [it Hb] & key & Hk & <-). right. exists (ID it). by apply (Ht key it).
Qed.

Lemma holds_wins t kh : holds t = Some kh -> wins t kh.
Proof. by destruct t as [j|c key v rh t|c key v rh|c key e|c key it rh|c key it|[c|c|c] r]; cbn; intros [= <-]. Qed.

(** The store has only gained, but for reservations that the thread does not hold. *)
Record gains (st st' : MemoryStore) : Prop := {
  ga_items : ms_items st ⊆ ms_items st';
  ga_records : ms_idempotency st ⊆ ms_idempotency st';
}.

Lemma recorded_gains st st' kh id : gains st st' -> recorded st kh id -> recorded st' kh id.
Proof. intros [_ Hr] (e & He & Hid). exists e. split; [by eapply lookup_weaken|done]. Qed.

Lemma thread_ok_gains clk st st' t :
  gains st st' -> (forall kh, holds t = Some kh -> kh ∈ ms_inflight st -> kh ∈ ms_inflight st') ->
  thread_ok clk st t -> thread_ok clk st' t.
Proof.
  intros Hg Hf. pose proof (ga_items _ _ Hg) as Hi.
  destruct t as [j|c key v rh t|c key v rh|c key e|c key it rh|c key it|[c|c|c] r]; cbn [thread_ok holds] in *; try done.
  - intros [? ?]. split; [done|]. by apply Hf.
  - intros ?. by apply Hf.
  - intros (? & ? & ?). split_and!; [done|by apply Hf|by eapply lookup_weaken].
  - intros (? & ? & ?). split_and!; [done|by eapply recorded_gains|by eapply lookup_weaken].
  - intros Ht key it Hk Hb. destruct (Ht key it Hk Hb). split; [by eapply recorded_gains|by eapply lookup_weaken].
Qed.

(** One thread moves: the others keep what they know, and nobody wins what another has. *)
Lemma requests_step clk st st' ths i t t' :
  requests_inv clk (mkRequests st ths) -> ths !! i = Some t ->
  found_store clk st' -> gains st st' -> thread_ok clk st' t' ->
  (forall kh, kh ∈ ms_inflight st -> holds t <> Some kh -> kh ∈ ms_inflight st') ->
  (forall kh, wins t' kh -> wins t kh \/ (kh ∉ ms_inflight st /\ ms_idempotency st !! kh = None)) ->
  requests_inv clk (mkRequests st' (<[i := t']> ths)).
Proof.
  intros [_ Ht Hw] Ei Hst Hg Hok Hin Hwin. cbn [req_store req_threads] in *. split; cbn [req_store req_threads]; try done.
  - intros j u Hj. destruct (decide (j = i)) as [->|Hne].
    + rewrite lookup_insert_eq in Hj. by injection Hj as <-.
    + rewrite lookup_insert_ne in Hj by done. eapply thread_ok_gains; [done| |by eapply Ht].
      intros kh Hh Hkh. apply Hin; [done|]. intros Hi. apply Hne. symmetry. eapply Hw; [exact Ei|exact Hj|by apply holds_wins..].
  - assert (forall j u kh, j <> i -> ths !! j = Some u -> wins u kh -> wins t' kh -> False) as Hother.
    { intros j u kh Hne Hj Hu Ht'. destruct (Hwin kh Ht') as [Hold|[Hfree Hnone]]; [apply Hne; by eapply Hw|].
      destruct (wins_marked clk st u kh) as [?|(id & e & He & _)]; [by eapply Ht|done|done|congruence]. }
    intros j1 j2 u1 u2 kh. destruct (decide (j1 = i)) as [->|N1], (decide (j2 = i)) as [->|N2];
      rewrite ?lookup_insert_eq, ?lookup_insert_ne by done; [done| | |by apply Hw].
    + intros [= <-] H2 W1 W2. by destruct (Hother j2 u2 kh).
    + intros H1 [= <-] W1 W2. by destruct (Hother j1 u1 kh).
Qed.

(** *** The sections of a thread *)

(** The premises of [requests_step]. *)
Record moves (clk : option (nat -> time)) (st : MemoryStore) (t : thread) (st' : MemoryStore) (t' : thread) : Prop := {
  mv_store : found_store clk st';
  mv_gains : gains st st';
  mv_ok : thread_ok clk st' t';
  mv_inflight kh : kh ∈ ms_inflight st -> holds t <> Some kh -> kh ∈ ms_inflight st';
  mv_wins kh : wins t' kh -> wins t kh \/ (kh ∉ ms_inflight st /\ ms_idempotency st !! kh = None);
}.

Lemma grows_moves clk st st' t t' :
  found_store clk st -> grows st st' -> thread_ok clk st' t' -> (forall kh, wins t' kh -> wins t kh) ->
  moves clk st t st' t'.
Proof.
  intros [Hc Hf Hi Hd] (E & Hsub & Hids) Hok Hw. rewrite E in Hok |- *. split; try done.
  - split; try done. intros id it Hit. destruct (Hids id it Hit); [by apply Hi|done].
  - by left; apply Hw.
Qed.

Lemma error_body err it : rs_body (writeServiceError err) <> ItemBody it.
Proof. unfold writeServiceError. repeat (destruct (_ : bool); [done|]). done. Qed.

Lemma refused_ok clk st c err : thread_ok clk st (refused c err).
Proof. cbn. intros key it _ Hb. by apply error_body in Hb. Qed.

Lemma refused_wins c err kh : ~ wins (refused c err) kh.
Proof. cbn. intros (_ & [it Hb] & _). by apply error_body in Hb. Qed.

Lemma posted_inj c key key' : posted c key -> posted c key' -> key = key'.
Proof. unfold posted. congruence. Qed.

Lemma finish_ok clk st c key created replayed :
  posted c key -> recorded st (key_hash c key) (ID created) -> ms_items st !! ID created = Some created ->
  thread_ok clk st (finish c key created replayed).
Proof.
  intros Hk Hr Hi. unfold finish. destruct (bool_decide (ID created = uuid_nil)) eqn:En; [apply refused_ok|].
  cbn. unfold created_response. rewrite En. cbn [rs_body]. intros key' it Hk' [= <-].
  by rewrite (posted_inj c key' key).
Qed.

Lemma finish_wins c key created replayed kh :
  posted c key -> wins (finish c key created replayed) kh -> replayed = false /\ key_hash c key = kh.
Proof.
  intros Hk. unfold finish. destruct (bool_decide (ID created = uuid_nil)) eqn:En; [by intros ?%refused_wins|].
  cbn. unfold created_response. rewrite En. cbn [rs_status rs_body]. intros (Hs & _ & key' & Hk' & <-).
  rewrite (posted_inj c key' key) by done. by destruct replayed.
Qed.

Section Moves.
Context (clk : option (nat -> time)) (Hperiod : one_period clk).
Implicit Types st : MemoryStore.

Lemma ready_moves st c key v rh now k t' k' st' :
  found_store clk st -> posted c key -> reading clk now ->
  advance (Ready c key v rh now) (World k (Some st)) = (Ok t', World k' (Some st')) ->
  moves clk st (Ready c key v rh now) st' t'.
Proof.
  intros Hst Hk Hnow. cbn [advance]. unfold bind, attempt.
  pose proof (swept_same clk now st Hperiod Hnow (fs_fresh _ _ Hst)) as Esw.
  destruct (reserve (rq_context c) (key_hash c key) rh now (World k (Some st))) as [r [k1 s1]] eqn:E.
  pose proof (reserve_cases _ _ _ _ _ _ _ _ E) as Hcases. rewrite Esw in Hcases. cbn [w_store] in Hcases.
  destruct r as [[it|]|err]; cbn beta iota zeta; intros [= <- <- ->].
  - destruct Hcases as [[[= ->] _]|([=] & _)]. apply reserve_found in E as (e & He & Hit). rewrite Esw in He.
    pose proof (fs_ids _ _ Hst _ _ Hit) as Hid.
    apply (grows_moves _ _ _ _ _ Hst); [apply grows_refl| |].
    + apply finish_ok; [done|by exists e|by rewrite Hid].
    + intros kh Hw. by apply finish_wins in Hw as [? _].
  - destruct Hcases as [[_ []]|(_ & Hnone & Hfree & _ & [= ->])].
    destruct Hst as [Hc Hf Hi Hd]. split; try done; cbn [set_inflight ms_inflight ms_items ms_idempotency].
    + split; try done. intros kh [?| ->%elem_of_singleton]%elem_of_union; [by apply Hd|done].
    + split; [done|]. cbn. set_solver.
    + intros kh Hkh _. set_solver.
    + intros kh <-. by right.
  - destruct Hcases as [[[= ->] _]|([=] & _)].
    apply (grows_moves _ _ _ _ _ Hst); [apply grows_refl|apply refused_ok|by intros kh ?%refused_wins].
Qed.

Lemma holding_moves st c key v rh k t' k' st' :
  found_store clk st -> posted c key -> key_hash c key ∈ ms_inflight st ->
  advance (Holding c key v rh) (World k (Some st)) = (Ok t', World k' (Some st')) ->
  moves clk st (Holding c key v rh) st' t'.
Proof.
  intros Hst Hk Hin. cbn [advance]. unfold bind, attempt.
  destruct (Memory.Create (rq_context c) v (World k (Some st))) as [r w1] eqn:E.
  pose proof (quiet_run _ _ _ _ _ (quiet_Create _ _) E) as (k1 & st1 & -> & Hg).
  assert (key_hash c key ∈ ms_inflight st1) as Hin1 by (destruct Hg as [-> _]; done).
  destruct r as [created|err]; cbn beta iota zeta; [destruct (bool_decide (ID created = uuid_nil))|];
    intros [= <- <- ->]; apply (grows_moves _ _ _ _ _ Hst Hg); try done.
  apply Create_found in E as (-> & [= ->] & _). cbn. split_and!; [done|done|by rewrite lookup_insert_eq].
Qed.

Lemma dropping_moves st c key err k t' k' st' :
  found_store clk st ->
  advance (Dropping c key err) (World k (Some st)) = (Ok t', World k' (Some st')) ->
  moves clk st (Dropping c key err) st' t'.
Proof.
  intros [Hc Hf Hi Hd]. cbn [advance]. unfold clearInFlight, modify. m_unfold. intros [= <- <- <-].
  split; try done; cbn [set_inflight ms_inflight].
  - split; try done. intros kh [Hkh _]%elem_of_difference. by apply Hd.
  - apply refused_ok.
  - intros kh Hkh Hne. apply elem_of_difference. split; [done|]. intros ->%elem_of_singleton. by apply Hne.
  - by intros kh ?%refused_wins.
Qed.

Lemma stored_moves st c key created rh k t' k' st' :
  found_store clk st -> posted c key -> key_hash c key ∈ ms_inflight st -> ms_items st !! ID created = Some created ->
  advance (Stored c key created rh) (World k (Some st)) = (Ok t', World k' (Some st')) ->
  moves clk st (Stored c key created rh) st' t'.
Proof.
  intros [Hc Hf Hi Hd] Hk Hin Hit. cbn [advance]. unfold bind, attempt. pose proof (Hd _ Hin) as Hnone.
  destruct (record_created sysnow (key_hash c key) rh (ID created) (World k (Some st))) as [r [k1 s1]] eqn:E.
  apply record_created_found in E as (e & [= ->] & Hid & u & Hu & He). rewrite Hc in Hu.
  set (st1 := set_idempotency _ _).
  assert (found_store clk st1) as Hst1.
  { split; try done; subst st1; cbn [set_idempotency set_inflight ms_idempotency ms_inflight].
    - intros kh e'. cbn [set_idempotency ms_idempotency]. destruct (decide (kh = key_hash c key)) as [->|Hne];
        [rewrite lookup_insert_eq; intros [= <-]; by exists u|rewrite lookup_insert_ne by done; apply Hf].
    - intros kh [Hkh Hne]%elem_of_difference. rewrite lookup_insert_ne by set_solver. by apply Hd. }
  assert (gains st st1) as Hg by (split; [done|]; subst st1; cbn; by apply insert_subseteq).
  assert (recorded st1 (key_hash c key) (ID created)) as Hr.
  { exists e. split; [|done]. subst st1. cbn. by rewrite lookup_insert_eq. }
  assert (forall kh, kh ∈ ms_inflight st -> holds (Stored c key created rh) <> Some kh -> kh ∈ ms_inflight st1) as Hin1.
  { intros kh Hkh Hne. subst st1. cbn. apply elem_of_difference. split; [done|]. intros ->%elem_of_singleton. by apply Hne. }
  destruct r as [[]|err]; cbn beta iota zeta; intros [= <- <- <-]; split; try done.
  - by left.
  - apply refused_ok.
  - by intros kh ?%refused_wins.
Qed.

Lemma recorded_moves st c key created k t' k' st' :
  found_store clk st -> posted c key -> recorded st (key_hash c key) (ID created) -> ms_items st !! ID created = Some created ->
  advance (Recorded c key created) (World k (Some st)) = (Ok t', World k' (Some st')) ->
  moves clk st (Recorded c key created) st' t'.
Proof.
  intros Hst Hk Hr Hit. cbn [advance]. unfold bind, attempt.
  destruct (contextError (S := state) (rq_context c) (World k (Some st))) as [r [k1 s1]] eqn:E.
  assert (s1 = Some st) as ->.
  { unfold contextError in E. destruct (rq_context c) as [ctx|]; revert E; m_unfold; [|by intros [= _ _ <-]].
    cbn [w_tick]. by destruct (ctx_err ctx k); intros [= _ _ <-]. }
  destruct r as [[]|err]; cbn beta iota zeta; intros [= <- <- <-];
    apply (grows_moves _ _ _ _ _ Hst (grows_refl st)).
  - by apply finish_ok.
  - intros kh Hw. by apply finish_wins in Hw as [_ <-].
  - apply refused_ok.
  - by intros kh ?%refused_wins.
Qed.

(** A keyed create whose body is not decoded answers with an error. *)
Lemma undecoded_body c key w r w' :
  posted c key -> (forall q, decodeStrictJSON c maxBytes <> Ok (Some q)) ->
  HttpApi.Create handler c w = (Ok r, w') -> forall it, rs_body r <> ItemBody it.
Proof.
  intros Hk Hd. unfold HttpApi.Create. rewrite Hk. cbn [handler api hd_maxBodyBytes].
  destruct (decodeStrictJSON c maxBytes) as [[q|]|e]; [by destruct (Hd q)|..]; by intros [= <- _].
Qed.

Lemma whole_moves st j k r k' st' :
  found_store clk st ->
  (forall c key q, j = Post c -> posted c key -> decodeStrictJSON c maxBytes = Ok (Some q) -> False) ->
  serve_job j (World k (Some st)) = (Ok r, World k' (Some st')) ->
  moves clk st (Received j) st' (Answered j r).
Proof.
  intros Hst Hno E. pose proof (quiet_run _ _ _ _ _ (quiet_serve_job j Hno) E) as (k1 & st1 & [= <- <-] & Hg).
  assert (forall c key it, j = Post c -> posted c key -> rs_body r <> ItemBody it) as Herr.
  { intros c key it -> Hk. eapply undecoded_body; [exact Hk| |exact E]. intros q Hq. by eapply Hno. }
  apply (grows_moves _ _ _ _ _ Hst Hg).
  - destruct j as [c|c|c]; cbn; try done. intros key it Hk Hb. by destruct (Herr c key it eq_refl Hk).
  - destruct j as [c|c|c]; cbn; try done. intros kh (_ & [it Hb] & key & Hk & _). by destruct (Herr c key it eq_refl Hk).
Qed.

Lemma received_moves st j k t' k' st' :
  found_store clk st ->
  advance (Received j) (World k (Some st)) = (Ok t', World k' (Some st')) ->
  moves clk st (Received j) st' t'.
Proof.
  intros Hst. cbn [advance].
  assert ((forall c key q, j = Post c -> posted c key -> decodeStrictJSON c maxBytes = Ok (Some q) -> False) ->
    (r <-- serve_job j;; ret (Answered j r)) (World k (Some st)) = (Ok t', World k' (Some st')) ->
    moves clk st (Received j) st' t') as Hwhole.
  { intros Hno E. apply bind_Ok in E as (r & w1 & E1 & E). injection E as <- ->. by eapply whole_moves. }
  destruct j as [c|c|c]; [|by apply Hwhole..]. unfold posted in Hwhole.
  destruct (parseIdempotencyKey (Some c)) as [[key|]|e] eqn:Ek; [|apply Hwhole; intros ? ? ? [= <-]; congruence..].
  destruct (decodeStrictJSON c maxBytes) as [[q|]|e] eqn:Ed; [|apply Hwhole; intros ? ? ? [= <-]; congruence..].
  clear Hwhole. unfold bind, attempt. destruct (prelude c (create_input q) key (World k (Some st))) as [r w1] eqn:E.
  pose proof (quiet_run _ _ _ _ _ (quiet_prelude _ _ _) E) as (k1 & st1 & -> & Hg).
  destruct r as [[[v rh] now]|err]; cbn beta iota zeta; intros [= <- <- ->]; apply (grows_moves _ _ _ _ _ Hst Hg); try done.
  - split; [done|]. apply prelude_reading in E. by rewrite (fs_clock _ _ Hst) in E.
  - apply refused_ok.
  - by intros kh ?%refused_wins.
Qed.

Lemma advance_moves st t k t' k' st' :
  found_store clk st -> thread_ok clk st t ->
  advance t (World k (Some st)) = (Ok t', World k' (Some st')) -> moves clk st t st' t'.
Proof.
  intros Hst Hok E. destruct t as [j|c key v rh now|c key v rh|c key e|c key it rh|c key it|j r]; cbn [thread_ok] in Hok.
  - by eapply received_moves.
  - destruct Hok. by eapply ready_moves.
  - destruct Hok. by eapply holding_moves.
  - by eapply dropping_moves.
  - destruct Hok as (? & ? & ?). by eapply stored_moves.
  - destruct Hok as (? & ? & ?). by eapply recorded_moves.
  - injection E as <- <- <-. by apply (grows_moves _ _ _ _ _ Hst (grows_refl st)).
Qed.

Lemma progress_inv s s' : progress s s' -> requests_inv clk s -> requests_inv clk s'.
Proof.
  intros [st ths i j Ei|st st' ths i t t' k k' Ei E] Hinv.
  - destruct Hinv as [Hst Ht Hw]. cbn [req_store req_threads] in *. split; cbn [req_store req_threads]; [done|..].
    + intros i' u. destruct (decide (i' = i)) as [->|Hne]; [rewrite lookup_insert_eq; by intros [= <-]|].
      rewrite lookup_insert_ne by done. apply Ht.
    + intros i1 i2 u1 u2 kh. destruct (decide (i1 = i)) as [->|N1]; [rewrite lookup_insert_eq; by intros [= <-] _ []|].
      destruct (decide (i2 = i)) as [->|N2]; [rewrite lookup_insert_eq; by intros _ [= <-] _ []|].
      rewrite !lookup_insert_ne by done. apply Hw.
  - pose proof (ri_store _ _ Hinv) as Hst. pose proof (ri_threads _ _ Hinv i t Ei) as Hok.
    destruct (advance_moves st t k t' k' st' Hst Hok E). by eapply requests_step.
Qed.
End Moves.

(** A store without records yet, whose items are kept under their identifiers. *)
Definition unused (st : MemoryStore) : Prop :=
  ms_idempotency st = ∅ /\ ms_inflight st = ∅ /\ forall id it, ms_items st !! id = Some it -> ID it = id.

Lemma served_inv st s :
  unused st -> one_period (ms_clock st) -> served_from st s -> requests_inv (ms_clock st) s.
Proof.
  intros (Hr & Hf & Hi) Hp Hs.
  assert (requests_inv (ms_clock st) (mkRequests st ∅)) as H0.
  { split; cbn [req_store req_threads]; try done. split; try done; rewrite ?Hr, ?Hf; try done. intros kh e. by rewrite Hr. }
  unfold served_from in Hs. revert H0. induction Hs as [|s1 s2 s3 H12 _ IH]; [done|]. intros H0. by eapply IH, progress_inv.
Qed.

(** ** Every section goes on *)

(** Sections left, at most. *)
Definition rank (t : thread) : nat :=
  match t with
  | Received _ => 5 | Ready _ _ _ _ _ => 4 | Holding _ _ _ _ => 3 | Stored _ _ _ _ => 2
  | Dropping _ _ _ => 1 | Recorded _ _ _ => 1 | Answered _ _ => 0
  end.

Lemma rank_finish c key created replayed : rank (finish c key created replayed) = 0%nat.
Proof. unfold finish. by destruct (bool_decide _). Qed.

Lemma serve_job_responds j w : exists r w', serve_job j w = (Ok r, w').
Proof.
  destruct j as [c|c|c]; cbn [serve_job];
    [destruct (Create_sealed handler c w) as (r & w' & E & _)|destruct (Get_sealed uuid_parse handler c w) as (r & w' & E & _)
    |destruct (List_sealed handler c w) as (r & w' & E & _)]; eauto.
Qed.

(** A section that keeps the store of a non-nil receiver. *)
Definition runs {A} (m : M state A) : Prop :=
  forall k st, exists r k' st', m (World k (Some st)) = (r, World k' (Some st')).

Lemma quiet_runs {A} (m : M state A) : quiet m -> runs m.
Proof. intros Hm k st. destruct (Hm k st) as (r & k' & st' & E & _). eauto. Qed.

Lemma reserve_runs c kh rh now : runs (reserve c kh rh now).
Proof.
  intros k st. destruct (reserve c kh rh now (World k (Some st))) as [r [k' s']] eqn:E.
  apply reserve_cases in E as [[E _]|(_ & _ & _ & _ & E)]; cbn [w_store] in E; rewrite E; eauto.
Qed.

Lemma record_created_runs kh rh id : runs (record_created sysnow kh rh id).
Proof.
  intros k st. destruct (record_created sysnow kh rh id (World k (Some st))) as [r [k' s']] eqn:E.
  apply record_created_found in E as (e & E & _). cbn [w_store] in E. rewrite E. eauto.
Qed.

(** A section of a thread that is not answered ends, and less is left to do. *)
Definition goes_on (t : thread) : Prop :=
  forall k st, exists t' k' st', advance t (World k (Some st)) = (Ok t', World k' (Some st')) /\ (rank t' < rank t)%nat.

Lemma section_goes_on {A} (m : M state A) (f : result A -> M state thread) t :
  advance t = (r <-- attempt m;; f r) -> runs m ->
  (forall r, exists t', f r = ret t' /\ (rank t' < rank t)%nat) -> goes_on t.
Proof.
  intros E Hm Hf k st. rewrite E. unfold bind, attempt. destruct (Hm k st) as (r & k' & st' & ->).
  destruct (Hf r) as (t' & -> & Hr). by exists t', k', st'.
Qed.

Lemma received_goes_on j : goes_on (Received j).
Proof.
  assert ((forall c key q, j = Post c -> posted c key -> decodeStrictJSON c maxBytes = Ok (Some q) -> False) ->
    advance (Received j) = (r <-- serve_job j;; ret (Answered j r)) -> goes_on (Received j)) as Hwhole.
  { intros Hno E k st. rewrite E. unfold bind. destruct (serve_job_responds j (World k (Some st))) as (r & w' & Er).
    rewrite Er. apply (quiet_run _ _ _ _ _ (quiet_serve_job j Hno)) in Er as (k' & st' & -> & _).
    eexists _, _, _. split; [reflexivity|]. cbn. lia. }
  destruct j as [c|c|c]; [|by apply Hwhole..]. cbn [advance] in Hwhole. unfold posted in Hwhole.
  destruct (parseIdempotencyKey (Some c)) as [[key|]|e] eqn:Ek; [|apply Hwhole; [intros ? ? ? [= <-]; congruence|done]..].
  destruct (decodeStrictJSON c maxBytes) as [[q|]|e] eqn:Ed; [|apply Hwhole; [intros ? ? ? [= <-]; congruence|done]..].
  clear Hwhole. eapply (section_goes_on (prelude c (create_input q) key)).
  - cbn [advance]. rewrite Ek, Ed. reflexivity.
  - apply quiet_runs, quiet_prelude.
  - intros [[[v rh] now]|err]; eexists; (split; [reflexivity|]); cbn; lia.
Qed.

Lemma thread_goes_on t : (forall j r, t <> Answered j r) -> goes_on t.
Proof.
  destruct t as [j|c key v rh now|c key v rh|c key e|c key it rh|c key it|j r]; intros Hna.
  - apply received_goes_on.
  - eapply section_goes_on; [reflexivity|apply reserve_runs|].
    intros [[it|]|err]; eexists; (split; [reflexivity|]); rewrite ?rank_finish; cbn; lia.
  - eapply section_goes_on; [reflexivity|apply quiet_runs, quiet_Create|].
    intros [it|err]; [destruct (bool_decide (ID it = uuid_nil)) eqn:En|];
      eexists; (split; [cbn beta iota; rewrite ?En; reflexivity|]); cbn; lia.
  - intros k st. eexists _, _, _. split; [reflexivity|]. cbn. lia.
  - eapply section_goes_on; [reflexivity|apply record_created_runs|].
    intros [[]|err]; eexists; (split; [reflexivity|]); cbn; lia.
  - eapply section_goes_on; [reflexivity|apply quiet_runs, quiet_contextError|].
    intros [[]|err]; eexists; (split; [reflexivity|]); rewrite ?rank_finish; cbn; lia.
  - by destruct (Hna j r).
Qed.

(** ** Reservations *)

(** A section of thread [i], which is not answered. *)
Definition unanswered (t : thread) : bool := match t with Answered _ _ => false | _ => true end.

Inductive section (i : nat) : requests -> requests -> Prop :=
  | section_of st st' ths t t' k k' :
    ths !! i = Some t -> unanswered t = true -> advance t (World k (Some st)) = (Ok t', World k' (Some st')) ->
    section i (mkRequests st ths) (mkRequests st' (<[i := t']> ths)).
Definition any_section (s s' : requests) : Prop := exists i, section i s s'.

Lemma any_section_progress s s' : any_section s s' -> progress s s'.
Proof. intros [i [st st' ths t t' k k' Ei _ E]]. by eapply pr_section. Qed.

(** What a section does to the reservations: nothing, or it takes a free one for its
    thread, or it gives its thread's back. *)
Definition hands (st : MemoryStore) (t : thread) (st' : MemoryStore) (t' : thread) : Prop :=
  ms_inflight st' = ms_inflight st /\ holds t' = holds t
  \/ holds t = None /\ (exists kh, holds t' = Some kh /\ kh ∉ ms_inflight st /\ ms_inflight st' = ms_inflight st ∪ {[kh]})
  \/ holds t' = None /\ exists kh, holds t = Some kh /\ ms_inflight st' = ms_inflight st ∖ {[kh]}.

Lemma grows_inflight st st' : grows st st' -> ms_inflight st' = ms_inflight st.
Proof. intros [-> _]. done. Qed.

Lemma holds_finish c key created replayed : holds (finish c key created replayed) = None.
Proof. unfold finish. by destruct (bool_decide _). Qed.

Lemma received_hands st j k t' k' st' :
  advance (Received j) (World k (Some st)) = (Ok t', World k' (Some st')) -> hands st (Received j) st' t'.
Proof.
  assert ((forall c key q, j = Post c -> posted c key -> decodeStrictJSON c maxBytes = Ok (Some q) -> False) ->
    (r <-- serve_job j;; ret (Answered j r)) (World k (Some st)) = (Ok t', World k' (Some st')) ->
    hands st (Received j) st' t') as Hwhole.
  { intros Hno E. apply bind_Ok in E as (r & w1 & E1 & E). injection E as <- ->.
    apply (quiet_run _ _ _ _ _ (quiet_serve_job j Hno)) in E1 as (k1 & st1 & [= <- <-] & Hg). left. split; [by apply grows_inflight|done]. }
  cbn [advance]. destruct j as [c|c|c]; [|by apply Hwhole..]. unfold posted in Hwhole.
  destruct (parseIdempotencyKey (Some c)) as [[key|]|e] eqn:Ek; [|apply Hwhole; intros ? ? ? [= <-]; congruence..].
  destruct (decodeStrictJSON c maxBytes) as [[q|]|e] eqn:Ed; [|apply Hwhole; intros ? ? ? [= <-]; congruence..].
  clear Hwhole. unfold bind, attempt. destruct (prelude c (create_input q) key (World k (Some st))) as [r w1] eqn:E.
  apply (quiet_run _ _ _ _ _ (quiet_prelude _ _ _)) in E as (k1 & st1 & -> & Hg).
  destruct r as [[[v rh] now]|err]; cbn beta iota zeta; intros [= <- <- <-]; left; (split; [by apply grows_inflight|done]).
Qed.

Lemma advance_hands st t k t' k' st' :
  advance t (World k (Some st)) = (Ok t', World k' (Some st')) -> hands st t st' t'.
Proof.
  destruct t as [j|c key v rh now|c key v rh|c key err|c key it rh|c key it|j r]; [apply received_hands|cbn [advance]..].
  - unfold bind, attempt. destruct (reserve (rq_context c) (key_hash c key) rh now (World k (Some st))) as [r [k1 s1]] eqn:E.
    pose proof (reserve_cases _ _ _ _ _ _ _ _ E) as [[Es Hr]|(-> & _ & Hfree & _ & Es)]; cbn [w_store] in Es; subst s1.
    + destruct r as [[it|]|err]; [|done|]; cbn beta iota zeta; intros [= <- <- <-]; left; (split; [done|]); [apply holds_finish|done].
    + cbn beta iota zeta. intros [= <- <- <-]. right. left. split; [done|]. by exists (key_hash c key).
  - unfold bind, attempt. destruct (Memory.Create (rq_context c) v (World k (Some st))) as [r w1] eqn:E.
    apply (quiet_run _ _ _ _ _ (quiet_Create _ _)) in E as (k1 & st1 & -> & Hg%grows_inflight).
    destruct r as [created|err]; cbn beta iota zeta; [destruct (bool_decide _)|]; intros [= <- <- <-]; by left.
  - unfold clearInFlight, modify. m_unfold. intros [= <- <- <-]. right. right. split; [done|]. by exists (key_hash c key).
  - unfold bind, attempt. destruct (record_created sysnow _ _ _ _) as [r [k1 s1]] eqn:E.
    apply record_created_found in E as (e & Es & _). cbn [w_store] in Es. subst s1.
    destruct r as [[]|err]; cbn beta iota zeta; intros [= <- <- <-]; right; right; (split; [done|]); by exists (key_hash c key).
  - unfold bind, attempt. destruct (contextError (rq_context c) _) as [r w1] eqn:E.
    apply (quiet_run _ _ _ _ _ (quiet_contextError _)) in E as (k1 & st1 & -> & Hg%grows_inflight).
    destruct r as [[]|err]; cbn beta iota zeta; intros [= <- <- <-]; left; (split; [done|]); [apply holds_finish|done].
  - intros [= <- _ <-]. by left.
Qed.

(** The reserved keys are those that the threads hold, each held once. *)
Record owned (s : requests) : Prop := {
  ow_held kh : kh ∈ ms_inflight (req_store s) <-> exists i t, req_threads s !! i = Some t /\ holds t = Some kh;
  ow_once i j t u kh : req_threads s !! i = Some t -> req_threads s !! j = Some u -> holds t = Some kh -> holds u = Some kh -> i = j;
}.

Lemma owned_step st st' ths i t t' :
  owned (mkRequests st ths) -> ths !! i = Some t -> hands st t st' t' -> owned (mkRequests st' (<[i := t']> ths)).
Proof.
  intros [Hh Ho] Ei Hands. cbn [req_store req_threads] in *.
  assert (forall kh, kh ∈ ms_inflight st' <-> holds t' = Some kh \/ exists j u, j <> i /\ ths !! j = Some u /\ holds u = Some kh) as Hiff.
  { intros kh. assert (kh ∈ ms_inflight st <-> holds t = Some kh \/ exists j u, j <> i /\ ths !! j = Some u /\ holds u = Some kh) as Hold.
    { rewrite Hh. split; [|intros [?|(j & u & _ & ? & ?)]; eauto]. intros (j & u & Hj & Hu).
      destruct (decide (j = i)) as [->|]; [left; congruence|right; eauto]. }
    destruct Hands as [[-> ->]|[(Hn & k & Hk & _ & ->)|(Hn & k & Hk & ->)]]; [done| |].
    - rewrite elem_of_union, elem_of_singleton, Hold, Hn, Hk. split.
      + intros [[[=]|Hu]| ->]; [by right|by left].
      + intros [[= ->]|Hu]; [by right|left; by right].
    - rewrite elem_of_difference, elem_of_singleton, Hold, Hn, Hk. split.
      + intros [[[= ->]|Hu] Hne]; [done|by right].
      + intros [[=]|(j & u & Hj & Eu & Hu)]. split; [right; by exists j, u|]. intros ->. by destruct Hj, (Ho j i u t k). }
  split; cbn [req_store req_threads].
  - intros kh. rewrite Hiff. split.
    + intros [?|(j & u & Hj & Eu & Hu)]; [exists i, t'; by rewrite lookup_insert_eq|exists j, u; by rewrite lookup_insert_ne].
    + intros (j & u & Ej & Hu). destruct (decide (j = i)) as [->|Hne]; [rewrite lookup_insert_eq in Ej; left; congruence|].
      rewrite lookup_insert_ne in Ej by done. right. eauto.
  - assert (forall j u kh, j <> i -> ths !! j = Some u -> holds u = Some kh -> holds t' = Some kh -> False) as Hother.
    { intros j u kh Hj Eu Hu Ht'. assert (kh ∈ ms_inflight st) as Hin by (apply Hh; eauto).
      destruct Hands as [[_ E]|[(Hn & k & Hk & Hfree & _)|(Hn & _)]]; [|congruence..]. apply Hj. eapply Ho; eauto. congruence. }
    intros j1 j2 u1 u2 kh. destruct (decide (j1 = i)) as [->|N1], (decide (j2 = i)) as [->|N2];
      rewrite ?lookup_insert_eq, ?lookup_insert_ne by done; [done| | |by apply Ho].
    + intros [= <-] H2 W1 W2. by destruct (Hother j2 u2 kh).
    + intros H1 [= <-] W1 W2. by destruct (Hother j1 u1 kh).
Qed.

Lemma progress_owned s s' : progress s s' -> owned s -> owned s'.
Proof.
  intros [st ths i j Ei|st st' ths i t t' k k' Ei E] Ho; [|eapply owned_step; [done|done|by eapply advance_hands]].
  destruct Ho as [Hh Ho]. cbn [req_store req_threads] in *. split; cbn [req_store req_threads].
  - intros kh. rewrite Hh. split; intros (i' & t & Et & Ht).
    + exists i', t. rewrite lookup_insert_ne; [done|]. intros ->. congruence.
    + destruct (decide (i' = i)) as [->|Hne]; [rewrite lookup_insert_eq in Et; by simplify_eq|].
      rewrite lookup_insert_ne in Et by done. eauto.
  - intros i1 i2 u1 u2 kh. destruct (decide (i1 = i)) as [->|N1]; [rewrite lookup_insert_eq; by intros [= <-] _ [=]|].
    destruct (decide (i2 = i)) as [->|N2]; [rewrite lookup_insert_eq; by intros _ [= <-] _ [=]|].
    rewrite !lookup_insert_ne by done. apply Ho.
Qed.

Lemma served_owned st s : ms_inflight st = ∅ -> served_from st s -> owned s.
Proof.
  intros Hf Hs. assert (owned (mkRequests st ∅)) as H0.
  { split; cbn [req_store req_threads]; [|done]. intros kh. rewrite Hf. split; [set_solver|]. by intros (i & t & ? & _). }
  unfold served_from in Hs. revert H0. induction Hs as [|s1 s2 s3 H12 _ IH]; [done|]. intros H0. by eapply IH, progress_owned.
Qed.

(** The sections that are left to all threads. *)
Definition left_over (ths : gmap nat thread) : nat := map_fold (fun _ t n => (rank t + n)%nat) 0%nat ths.

Lemma left_over_insert ths i t : ths !! i = None -> left_over (<[i := t]> ths) = (rank t + left_over ths)%nat.
Proof. intros Hi. unfold left_over. rewrite map_fold_insert_L; [done|intros; lia|done]. Qed.

Lemma left_over_bound ths : (left_over ths <= 5 * size ths)%nat.
Proof.
  induction ths as [|i t ths Hi IH] using map_ind; [done|]. rewrite left_over_insert, map_size_insert_None by done.
  assert (rank t <= 5)%nat by (destruct t; cbn; lia). lia.
Qed.

Lemma left_over_section s s' : any_section s s' ->
  (left_over (req_threads s') < left_over (req_threads s))%nat /\ size (req_threads s') = size (req_threads s).
Proof.
  intros [i [st st' ths t t' k k' Ei Hun E]]. cbn [req_threads]. split.
  - assert (goes_on t) as Hg by (apply thread_goes_on; by intros j r ->).
    destruct (Hg k st) as (t1 & k1 & st1 & E1 & Hr). rewrite E1 in E. injection E as -> _ _.
    rewrite <- insert_delete_eq, left_over_insert by apply lookup_delete_eq.
    rewrite <- (insert_delete_id ths i t Ei) at 2. rewrite left_over_insert by apply lookup_delete_eq. lia.
  - rewrite map_size_insert. by rewrite Ei.
Qed.

Lemma left_over_sections n s s' : nsteps any_section n s s' -> (n + left_over (req_threads s') <= left_over (req_threads s))%nat.
Proof. induction 1 as [|n s1 s2 s3 [H12 _]%left_over_section _ IH]; lia. Qed.

(** ** Properties *)

(** C5: concurrent keyed creates agree. In every interleaving of the critical sections of
    any requests, within a retention period, all the creates that were answered with an
    item for one caller and key were answered with the same item; only one of them was
    answered 201, the others replay; and the item is in the store. *)
Theorem Concurrent_posts_agree st s i j ci cj ri rj ki kj it jt :
  unused st -> one_period (ms_clock st) -> served_from st s ->
  req_threads s !! i = Some (Answered (Post ci) ri) -> req_threads s !! j = Some (Answered (Post cj) rj) ->
  posted ci ki -> posted cj kj -> key_hash ci ki = key_hash cj kj ->
  rs_body ri = ItemBody it -> rs_body rj = ItemBody jt ->
  it = jt /\ (rs_status ri = 201 -> rs_status rj = 201 -> i = j) /\ ms_items (req_store s) !! ID it = Some it.
Proof.
  intros Hu Hp Hs Hi Hj Hki Hkj Hkh Hbi Hbj. destruct (served_inv st s Hu Hp Hs) as [Hst Ht Hw].
  destruct (Ht i _ Hi ki it Hki Hbi) as [(e & He & Eid) Hit]. destruct (Ht j _ Hj kj jt Hkj Hbj) as [(f & Hf & Ejd) Hjt].
  split_and!; [|intros Si Sj|done].
  - rewrite Hkh in He. assert (e = f) as -> by congruence. congruence.
  - apply (Hw i j _ _ (key_hash ci ki) Hi Hj); cbn; (split; [done|]); eauto.
Qed.

(** C31: No key stays reserved. In every interleaving of the sections of any requests, the
    store's reserved keys are exactly those that some request under way owns; every request
    that is not answered can move, whatever the others do; at most five sections per request
    are left before all are answered; and when they are, whether they created, failed or
    were cancelled, no key is reserved. A section is atomic here: that a mutex is free in
    the end is taken as given. *)
Theorem Reservations_released st s :
  ms_inflight st = ∅ -> served_from st s ->
  (forall kh, kh ∈ ms_inflight (req_store s) <-> exists i t, req_threads s !! i = Some t /\ holds t = Some kh)
  /\ (forall i t, req_threads s !! i = Some t -> unanswered t = true -> exists s', section i s s')
  /\ (forall n s', nsteps any_section n s s' -> (n <= 5 * size (req_threads s))%nat)
  /\ forall s', rtc any_section s s' -> (forall i t, req_threads s' !! i = Some t -> unanswered t = false) ->
       ms_inflight (req_store s') = ∅.
Proof.
  intros Hf Hs. pose proof (served_owned st s Hf Hs) as Hown. split_and!; [apply Hown|..].
  - intros i t Ei Hun. destruct s as [st0 ths]. assert (goes_on t) as Hg by (apply thread_goes_on; by intros j r ->).
    destruct (Hg 0%nat st0) as (t' & k' & st' & E & _). eexists. by eapply section_of.
  - intros n s' Hn%left_over_sections. pose proof (left_over_bound (req_threads s)). lia.
  - intros s' Hr Hall. assert (owned s') as Hown'.
    { eapply (served_owned st); [done|]. unfold served_from in *. etransitivity; [exact Hs|].
      eapply rtc_subrel; [|exact Hr]. apply any_section_progress. }
    apply set_eq. intros kh. rewrite (ow_held _ Hown'). split; [|set_solver].
    intros (i & t & Ei & Ht). apply Hall in Ei. by destruct t.
Qed.
End Requests.
