(* ===== verification/HttpScenario.v ===== *)
(** * A running server

    The HTTP adapter over the service of [Scenario], with a concrete parser of
    identifiers: its theorems are evaluated on it. *)
From S2P Require Import Prelude GoText GoEncoding GoUrl GoJson GoJsonParse GoJsonGrammar GoTime Sha256 Errors World Item Idempotency Cursor CursorFacts Order Store Memory MemoryFacts Service ServiceFacts Traversal Scenario HttpApi Responses RequestBody HttpFacts ResponsesFacts HttpConcurrent.

#[local] Existing Instance sha256_hash.

Section HttpScenario.
(** The canonical text form of an identifier, without its dashes. *)
Definition sc_undash : bytes -> bytes := List.filter (fun b => negb (bool_decide (b = zb 45))).
Definition sc_uuid_parse (s : bytes) : option uuid :=
  raw ← hex_decode (sc_undash s);
  if Nat.eqb (length raw) 16 then Some (array_of 16 raw) else None.

Lemma hex_encode_app l r : hex_encode (l ++ r) = hex_encode l ++ hex_encode r.
Proof. induction l as [|b l IH]; [done|]. simpl. by rewrite IH. Qed.

Lemma sc_undash_app l r : sc_undash (l ++ r) = sc_undash l ++ sc_undash r.
Proof. apply List.filter_app. Qed.

Lemma hex_encode_no_dash l :
  sc_undash (hex_encode l) = hex_encode l.
Proof.
  pose proof (hex_encode_plain_chars l) as Hl.
  assert (forall z, 0 <= z < 16 -> negb (bool_decide (hex_digit z = zb 45)) = true) as Hd.
  { apply (range_forall_prop 0 16 (fun z => negb (bool_decide (hex_digit z = zb 45)) = true)). vm_compute. reflexivity. }
  induction l as [|b l IH]; [done|]. pose proof (bz_range b). simpl in Hl.
  apply Forall_cons in Hl as [_ Hl]. apply Forall_cons in Hl as [_ Hl].
  unfold sc_undash in *. cbn [hex_encode List.filter]. rewrite !Hd, IH by (done || div_mod_lia). done.
Qed.

Lemma sc_uuid_parse_string u : sc_uuid_parse (uuid_string u) = Some u.
Proof.
  assert (sc_undash (uuid_string u) = hex_encode (arr_bytes u)) as E.
  { unfold uuid_string. rewrite !sc_undash_app, !hex_encode_no_dash.
    change (sc_undash &"-") with (@nil byte). cbn [app]. rewrite <- !hex_encode_app. f_equal.
    assert (forall n (l : bytes), take 2 (drop n l) ++ drop (n + 2) l = drop n l) as Hstep
      by (intros n l; rewrite <- drop_drop; apply take_drop).
    rewrite (Hstep 8%nat), (Hstep 6%nat), (Hstep 4%nat). apply take_drop. }
  unfold sc_uuid_parse. rewrite E, hex_decode_encode. cbn [mbind option_bind].
  rewrite arr_length. by rewrite array_of_arr_bytes.
Qed.

(** A body as a client may send it, and what it is decoded to. *)
Definition sc_body : bytes :=
  &" {" ++ json_string &"name" ++ &": " ++ json_string &" green tea " ++ &"," ++ json_string &"Description" ++ &":"
  ++ json_string &"loose" ++ &"}".
Definition sc_decoded : createRequest := mkCreateRequest &" green tea " &"loose".

Definition sc_post : request :=
  mkRequest (Some background) [(&"Content-Type", [&"application/json"])] (Some (&"/v1/items/", [])) []
    (Some sc_body) (Z.of_nat (length sc_body)).
(** The encoding of the same input, on two lines. *)
Definition sc_wire : request :=
  let raw := &" " ++ json_object2 &"name" &" green tea " &"description" &"loose" ++ [zb 10] in
  mkRequest (Some background) [(&"Content-Type", [&"application/json"])] (Some (&"/v1/items", [])) [] (Some raw) (-1).
Definition sc_page (token : bytes) : request :=
  mkRequest (Some background) [] (Some (&"/v1/items", page_query 20 token)) [] None 0.

(** The same service with an identifier source that yields the nil UUID. *)
Definition sc_broken : Service :=
  NewService sc_clock (fun _ => Ok uuid_nil) (Some sc_ops) [Some (Service.WithClock (Some sc_clock))].
End HttpScenario.

(** ** Witnesses *)

Example Http_create_then_get_witness :
  exists r w', HttpApi.Create (api sc_clock sc_service 0) sc_post (sc_world 3) = (Ok r, w')
    /\ (rs_status r = 201 \/ r ∈ error_responses).
Proof.
  pose proof (Http_create_then_get sc_clock sc_ops sc_uuid_parse sc_uuid_parse_string
    sc_service sc_post background 0 sc_body sc_decoded (mkCreateInput &"green tea" &"loose") (sc_world 3)) as Ht.
  destruct Ht as (r & w' & E & Hr).
  - reflexivity.
  - exact (sc_world_inv 3).
  - by repeat split.
  - by repeat split.
  - reflexivity.
  - exact live_background.
  - vm_compute; reflexivity.
  - split_and!; [reflexivity|vm_compute; discriminate|vm_compute; discriminate].
  - assert (decodeStrictJSON sc_post 0 = Ok (Some sc_decoded)) as E by (vm_compute; reflexivity).
    apply decodeStrictJSON_documents in E as (raw & (Hb & _) & Hd). by injection Hb as <-.
  - vm_compute; reflexivity.
  - apply sc_accepts.
  - exists r, w'. split; [exact E|]. destruct Hr as [(i & p & Hs & _)|[Hr _]]; [left; exact Hs|right; exact Hr].
Defined.

Example Http_generator_failure_is_422_witness :
  fst (HttpApi.Create (api sc_clock sc_broken 0) sc_post (sc_world 3))
  = Ok (writeError 422 &"validation_error" &"invalid item").
Proof.
  pose proof (Http_generator_failure_is_422 sc_clock sc_ops sc_broken sc_post background 0
    sc_decoded (mkCreateInput &"green tea" &"loose") uuid_nil (sc_world 3)) as Ht.
  apply Ht.
  - reflexivity.
  - intros tick. reflexivity.
  - intros [Hn _]. by apply Hn.
  - reflexivity.
  - exact live_background.
  - vm_compute; reflexivity.
  - vm_compute; reflexivity.
  - vm_compute; reflexivity.
Defined.

Example Query_agrees_with_service_witness :
  parseListRequest (Some (sc_page (cursor_token sc_codec (replicate cursorPayloadBytes (zb 7)))))
  = Ok (KeysetRequest (mkCursorRequest 20 (cursor_token sc_codec (replicate cursorPayloadBytes (zb 7))))).
Proof.
  apply (Query_agrees_with_service None 20 sc_codec (replicate cursorPayloadBytes (zb 7))
    (sc_page (cursor_token sc_codec (replicate cursorPayloadBytes (zb 7)))) &"/v1/items").
  - done.
  - apply length_replicate.
  - reflexivity.
Defined.

Example Wire_create_then_get_witness :
  exists r w', HttpApi.Create (api sc_clock sc_service 0) sc_wire (sc_world 3) = (Ok r, w')
    /\ (rs_status r = 201 \/ r ∈ error_responses).
Proof.
  pose proof (Wire_create_then_get sc_uuid_parse sc_uuid_parse_string sc_clock sc_ops
    sc_service sc_wire background 0 &" green tea " &"loose" &" " [zb 10] (mkCreateInput &"green tea" &"loose") (sc_world 3)) as Ht.
  destruct Ht as (r & w' & E & Hr).
  - reflexivity.
  - exact (sc_world_inv 3).
  - by repeat split.
  - by repeat split.
  - reflexivity.
  - exact live_background.
  - vm_compute; reflexivity.
  - vm_compute; reflexivity.
  - vm_compute; reflexivity.
  - by repeat constructor.
  - by repeat constructor.
  - split_and!; [reflexivity|vm_compute; discriminate|vm_compute; discriminate].
  - vm_compute; reflexivity.
  - apply sc_accepts.
  - exists r, w'. split; [exact E|]. destruct Hr as [(i & p & Hs & _)|[Hr _]]; [left; exact Hs|right; exact Hr].
Defined.

(** A page of two items with a text that needs escapes, and its next token. *)
Definition sc_answer : body :=
  ListBody [sc_item 1; mkItem (ID (sc_item 2)) [zb 34; zb 60; zb 9] (&"a" ++ [zb 0xE2; zb 0x80; zb 0xA8]) (CreatedAt (sc_item 2))]
    (mkMeta 2 None true &"v1.token").

Example Response_roundtrip_witness :
  exists raw, body_bytes sc_answer = Some raw /\ read_body sc_uuid_parse raw = Some sc_answer.
Proof.
  destruct (Response_roundtrip sc_uuid_parse sc_uuid_parse_string sc_answer) as [Ht Hr].
  - split_and!; [|vm_compute; split; first [discriminate|reflexivity]|reflexivity|exact I].
    repeat first [apply Forall_nil_2|apply Forall_cons_2]; (split_and!; [reflexivity|reflexivity|]); vm_compute; repeat split; first [discriminate|reflexivity].
  - destruct (proj2 Ht) as [raw E].
    + repeat first [apply Forall_nil_2|apply Forall_cons_2]; vm_compute; split; discriminate.
    + exists raw. split; [exact E|exact (Hr raw E)].
Defined.

(** ** Concurrent requests *)

(** Three posts of one body under one key, and a listing between their sections: the
    second finds the key reserved, the third, which arrives last, replays. *)
Definition sc_keyed : request :=
  mkRequest (Some background) [(&"Idempotency-Key", [sc_key])] (Some (&"/v1/items", [])) [] (Some sc_body) (-1).
Definition sc_listing : request :=
  mkRequest (Some background) [] (Some (&"/v1/items", &"limit=2&offset=1")) [] None 0.
Definition sc_jobs (i : nat) : job := match i with 3%nat => Listing sc_listing | _ => Post sc_keyed end.
Definition sc_memory : MemoryStore := set_items New (sc_items 3).
Definition sc_schedule : list nat := [0; 1; 0; 1; 0; 1; 3; 0; 3; 0; 0; 2; 2; 2]%nat.
Definition sc_run : requests :=
  run_schedule sc_clock sc_uuid_parse sc_service 0 sc_jobs sc_schedule 200 (mkRequests sc_memory ∅).

Definition sc_status (i : nat) : option Z :=
  match req_threads sc_run !! i with Some (Answered _ r) => Some (rs_status r) | _ => None end.

Example sc_statuses : (sc_status 0, sc_status 1, sc_status 2, sc_status 3) = (Some 201, Some 409, Some 200, Some 200).
Proof. vm_compute. reflexivity. Qed.

Lemma sc_codec_quiet codec :
  sv_cursorCodec sc_service = Some codec -> (forall p, quiet (co_encode codec p)) /\ (forall t, quiet (co_decode codec t)).
Proof. intros [= <-]. apply quiet_signed_codec. Qed.

Lemma sc_unused : unused sc_memory.
Proof.
  split_and!; [done..|]. intros id it Hit.
  by destruct (map_Forall_lookup_1 _ _ _ _ (sc_items_forall (fun _ => True) 3 (fun _ => I)) Hit).
Qed.

Lemma sc_one_period : one_period sc_clock None.
Proof.
  intros t u [k [->|(? & [=] & _)]] [k' [->|(? & [=] & _)]]. vm_compute. reflexivity.
Qed.

(** What a thread that created or replayed holds. *)
Definition sc_answered (i : nat) : option (request * response * Item) :=
  match req_threads sc_run !! i with
  | Some (Answered (Post c) r) => match rs_body r with ItemBody it => Some (c, r, it) | _ => None end
  | _ => None
  end.

Lemma sc_answered_thread i c r it :
  sc_answered i = Some (c, r, it) -> req_threads sc_run !! i = Some (Answered (Post c) r) /\ rs_body r = ItemBody it.
Proof.
  unfold sc_answered. destruct (req_threads sc_run !! i) as [[| | | | | |j r']|]; try done.
  destruct j; try done. destruct (rs_body r') eqn:E; try done. by intros [= <- <- <-].
Qed.

Example Concurrent_posts_agree_witness :
  exists c d r s it jt, sc_answered 0 = Some (c, r, it) /\ sc_answered 2 = Some (d, s, jt)
    /\ it = jt /\ ms_items (req_store sc_run) !! ID it = Some it.
Proof.
  destruct (sc_answered 0) as [[[c r] it]|] eqn:E0; [|by vm_compute in E0].
  destruct (sc_answered 2) as [[[d s] jt]|] eqn:E2; [|by vm_compute in E2].
  exists c, d, r, s, it, jt. split; [done|]. split; [done|].
  assert (c = sc_keyed /\ d = sc_keyed) as [-> ->].
  { split; [revert E0|revert E2]; vm_compute; by intros [= <- _ _]. }
  apply sc_answered_thread in E0 as [E0 B0], E2 as [E2 B2].
  pose proof (Concurrent_posts_agree sc_clock sc_range sc_uuid_parse sc_service 0 eq_refl sc_codec_quiet
    sc_memory sc_run 0%nat 2%nat sc_keyed sc_keyed r s sc_key sc_key it jt) as Ht.
  destruct Ht as (Eq & _ & Hit).
  - exact sc_unused.
  - exact sc_one_period.
  - apply run_schedule_progress.
  - exact E0.
  - exact E2.
  - vm_compute. reflexivity.
  - vm_compute. reflexivity.
  - reflexivity.
  - exact B0.
  - exact B2.
  - split; [exact Eq|exact Hit].
Defined.

(** Two requests under way: one holds the key, the other was refused it. *)
Definition sc_midway : requests :=
  run_schedule sc_clock sc_uuid_parse sc_service 0 sc_jobs [0; 1; 0; 1; 0; 1]%nat 200 (mkRequests sc_memory ∅).

Example Reservations_released_witness :
  key_hash sc_keyed sc_key ∈ ms_inflight (req_store sc_midway)
  /\ (forall n s', nsteps (any_section sc_clock sc_uuid_parse sc_service 0) n sc_midway s' -> (n <= 5 * 2)%nat)
  /\ forall s', rtc (any_section sc_clock sc_uuid_parse sc_service 0) sc_midway s' ->
       (forall i t, req_threads s' !! i = Some t -> unanswered t = false) -> ms_inflight (req_store s') = ∅.
Proof.
  destruct (Reservations_released sc_clock sc_range sc_uuid_parse sc_service 0 eq_refl sc_codec_quiet sc_memory sc_midway
    eq_refl (run_schedule_progress _ _ _ _ _ _ _ _)) as (Hheld & _ & Hn & Hend).
  split; [|split; [exact Hn|exact Hend]].
  apply Hheld. exists 0%nat. eexists. split; [vm_compute; reflexivity|]. vm_compute. reflexivity.
Defined.
