(* ===== verification/RateLimit.v ===== *)
(** * The token-bucket limiter (pkg/ratelimit/ratelimit.go)

    A limiter keeps one bucket per key. Its locked sections are functions of the
    time read before the lock was taken, so that any sequence of times, in any
    order, is an interleaving of concurrent callers. A map iteration visits the
    entries in the order that [range] gives. *)
From S2P Require Import Prelude GoText GoTime GoFloat Errors World.

Definition MaxKeyBytes : Z := 256.
Definition MaxCapacity : Z := 100000.
Definition MaxRefillRate : float64 := of_int 100000.
Definition MaxClients : Z := 1000000.
Definition MaxIdleTTL : Z := 24 * Hour.
Definition maxRetryDuration : Z := maxDuration.

(** [OverflowPolicy] is a byte with two named values. *)
Definition RejectNew : Z := 0.
Definition EvictOldest : Z := 1.

Definition ReasonAllowed : bytes := &"".
Definition ReasonRateLimited : bytes := &"rate_limited".
Definition ReasonCapacity : bytes := &"capacity".
Definition ReasonInvalidKey : bytes := &"invalid_key".
Definition ReasonInvalidCost : bytes := &"invalid_cost".
Definition ReasonUnavailable : bytes := &"unavailable".

(** ** Configuration *)

Record Config := mkConfig {
  Capacity : Z;
  RefillRate : float64;
  cfg_MaxClients : Z;
  IdleTTL : Z;
  Overflow : Z;
  cfg_Clock : option (nat -> time);
}.

(** The errors of [Config.Validate], each with the value its message prints. *)
Inductive config_error :=
  | CapacityNotPositive (n : Z)
  | CapacityTooLarge (n : Z)
  | RefillRateNotPositive (r : float64)
  | RefillRateTooLarge (r : float64)
  | MaxClientsNotPositive (n : Z)
  | MaxClientsTooLarge (n : Z)
  | IdleTTLNegative (d : Z)
  | IdleTTLTooLarge (d : Z)
  | UnknownOverflow (p : Z).

Definition Validate (c : Config) : option config_error :=
  if Capacity c <=? 0 then Some (CapacityNotPositive (Capacity c))
  else if MaxCapacity <? Capacity c then Some (CapacityTooLarge (Capacity c))
  else if IsNaN (RefillRate c) || IsInf (RefillRate c) || fle (RefillRate c) f_zero
  then Some (RefillRateNotPositive (RefillRate c))
  else if flt MaxRefillRate (RefillRate c) then Some (RefillRateTooLarge (RefillRate c))
  else if cfg_MaxClients c <=? 0 then Some (MaxClientsNotPositive (cfg_MaxClients c))
  else if MaxClients <? cfg_MaxClients c then Some (MaxClientsTooLarge (cfg_MaxClients c))
  else if IdleTTL c <? 0 then Some (IdleTTLNegative (IdleTTL c))
  else if MaxIdleTTL <? IdleTTL c then Some (IdleTTLTooLarge (IdleTTL c))
  else if negb (Overflow c =? RejectNew) && negb (Overflow c =? EvictOldest)
  then Some (UnknownOverflow (Overflow c))
  else None.

(** ** Limiters *)

Record Decision := mkDecision {
  Allowed : bool;
  Remaining : Z;
  RetryAfter : Z;
  Reset_ : time;
  Reason : bytes;
}.

Record bucket := mkBucket { tokens : float64; lastRefill : time; lastSeen : time }.

Record Limiter := mkLimiter {
  capacity : Z;
  refillRate : float64;
  maxClients : Z;
  idleTTL : Z;
  overflow : Z;
  clock : nat -> time;
  buckets : gmap bytes bucket;
}.

Definition set_buckets (l : Limiter) (bs : gmap bytes bucket) : Limiter :=
  mkLimiter (capacity l) (refillRate l) (maxClients l) (idleTTL l) (overflow l) (clock l) bs.

Definition New (sysnow : nat -> time) (cfg : Config) : Limiter + config_error :=
  match Validate cfg with
  | Some err => inr err
  | None =>
    inl (mkLimiter (Capacity cfg) (RefillRate cfg) (cfg_MaxClients cfg) (IdleTTL cfg) (Overflow cfg)
           (default sysnow (cfg_Clock cfg)) ∅)
  end.

Definition validKey (key : bytes) : bool :=
  if bool_decide (key = []) || (MaxKeyBytes <? Z.of_nat (length key)) || negb (ValidString key) then false
  else if has_rune (fun r => is_control r || is_space r) key then false
  else true.

(** ** Arithmetic of a bucket *)

(** The constant [1e-9]. *)
Definition nano : float64 := fdiv (of_int 1) (of_int 1000000000).

Definition wholeTokens (tokens : float64) (capacity : Z) : Z :=
  if fle tokens f_zero then 0
  else
    let value := to_int64 (Floor (fadd tokens nano)) in
    if value <? 0 then 0 else if capacity <? value then capacity else value.

Definition durationForTokens (tokens refillRate : float64) : Z :=
  if fle tokens f_zero then 0
  else
    let nanos := fmul (fdiv tokens refillRate) (of_int Second) in
    if IsInf nanos || fle (of_int maxRetryDuration) nanos then maxRetryDuration
    else to_int64 (Ceil nanos).

Definition resetAt (now : time) (tokens : float64) (capacity : Z) (refillRate : float64) : time :=
  Add now (durationForTokens (fsub (of_int capacity) tokens) refillRate).

(** The time a bucket is served at, never before its last refill. *)
Definition effective (now : time) (entry : bucket) : time :=
  if Before now (lastRefill entry) then lastRefill entry else now.

Definition refill (l : Limiter) (effectiveNow : time) (entry : bucket) : bucket :=
  if After effectiveNow (lastRefill entry) then
    let elapsed := Seconds (Sub effectiveNow (lastRefill entry)) in
    let sum := fadd (tokens entry) (fmul elapsed (refillRate l)) in
    mkBucket (if flt (of_int (capacity l)) sum then of_int (capacity l) else sum)
      effectiveNow (lastSeen entry)
  else entry.

Definition touch (effectiveNow : time) (entry : bucket) : bucket :=
  if After effectiveNow (lastSeen entry)
  then mkBucket (tokens entry) (lastRefill entry) effectiveNow else entry.

(** Take [cost] tokens out of a bucket, if it has them. *)
Definition take_tokens (l : Limiter) (effectiveNow : time) (cost : Z) (entry : bucket) : Decision * bucket :=
  if fle (of_int cost) (tokens entry) then
    let left := fsub (tokens entry) (of_int cost) in
    let left := if flt left f_zero then f_zero else left in
    (mkDecision true (wholeTokens left (capacity l)) 0
       (resetAt effectiveNow left (capacity l) (refillRate l)) ReasonAllowed,
     mkBucket left (lastRefill entry) (lastSeen entry))
  else
    (mkDecision false (wholeTokens (tokens entry) (capacity l))
       (durationForTokens (fsub (of_int cost) (tokens entry)) (refillRate l))
       (resetAt effectiveNow (tokens entry) (capacity l) (refillRate l)) ReasonRateLimited,
     entry).

(** ** The bounded map *)

Definition isExpired (l : Limiter) (now : time) (entry : bucket) : bool :=
  (0 <? idleTTL l) && negb (Before now (Add (lastSeen entry) (idleTTL l))).

(** Deleting while iterating is well defined and visits every entry. *)
Definition cleanupLocked (l : Limiter) (now : time) : Z * Limiter :=
  if idleTTL l <=? 0 then (0, l)
  else
    let kept := base.filter (fun kv : bytes * bucket => isExpired l now kv.2 = false) (buckets l) in
    (Z.of_nat (size (buckets l)) - Z.of_nat (size kept), set_buckets l kept).

Section Limiter.
Context (range : gmap bytes bucket -> list (bytes * bucket)).

(** One iteration of the loop of [evictOldestLocked]. *)
Definition older (oldest : option (bytes * bucket)) (kv : bytes * bucket) : option (bytes * bucket) :=
  match oldest with
  | None => Some kv
  | Some (oldestKey, entry) =>
    if Before (lastSeen kv.2) (lastSeen entry)
       || (Equal (lastSeen kv.2) (lastSeen entry) && bytes_ltb kv.1 oldestKey)
    then Some kv else oldest
  end.

Definition evictOldestLocked (l : Limiter) : Limiter :=
  match fold_left older (range (buckets l)) None with
  | Some (oldestKey, _) => set_buckets l (delete oldestKey (buckets l))
  | None => l
  end.

(** Make room for a new key: [None] when it is not admitted. *)
Definition make_room (l : Limiter) (now : time) : Limiter * bool :=
  if maxClients l <=? Z.of_nat (size (buckets l)) then
    let l := (cleanupLocked l now).2 in
    if maxClients l <=? Z.of_nat (size (buckets l)) then
      if overflow l =? RejectNew then (l, false) else (evictOldestLocked l, true)
    else (l, true)
  else (l, true).

(** The part of the locked section that has a bucket: refill it, take the tokens and
    keep it in the map. *)
Definition serve (l : Limiter) (now : time) (key : bytes) (cost : Z) (entry : bucket) : Decision * Limiter :=
  let effectiveNow := effective now entry in
  let '(decision, entry) :=
    take_tokens l effectiveNow cost (touch effectiveNow (refill l effectiveNow entry)) in
  (decision, set_buckets l (<[key := entry]> (buckets l))).

(** The part that has none. *)
Definition enter (l : Limiter) (now : time) (key : bytes) (cost : Z) : Decision * Limiter :=
  let '(l, admitted) := make_room l now in
  if admitted then serve l now key cost (mkBucket (of_int (capacity l)) now now)
  else (mkDecision false 0 0 zero_time ReasonCapacity, l).

(** The locked section of [AllowN]. *)
Definition allowLocked (l : Limiter) (now : time) (key : bytes) (cost : Z) : Decision * Limiter :=
  match buckets l !! key with
  | Some entry =>
    if isExpired l now entry then enter (set_buckets l (delete key (buckets l))) now key cost
    else serve l now key cost entry
  | None => enter l now key cost
  end.

Definition rejected (reason : bytes) : Decision := mkDecision false 0 0 zero_time reason.

Definition AllowN (key : bytes) (cost : Z) : M (option Limiter) Decision :=
  l <-- load;;
  match l with
  | None => ret (rejected ReasonUnavailable)
  | Some l =>
    if negb (validKey key) then ret (rejected ReasonInvalidKey)
    else if (cost <? 1) || (capacity l <? cost) then ret (rejected ReasonInvalidCost)
    else
      now <-- observe (clock l);;
      let '(decision, l) := allowLocked l now key cost in
      save (Some l);;;
      ret decision
  end.

Definition Allow (key : bytes) : M (option Limiter) Decision := AllowN key 1.

Definition Cleanup : M (option Limiter) Z :=
  l <-- load;;
  match l with
  | None => ret 0
  | Some l =>
    if idleTTL l <=? 0 then ret 0
    else
      now <-- observe (clock l);;
      let '(removed, l) := cleanupLocked l now in
      save (Some l);;;
      ret removed
  end.

Definition Len : M (option Limiter) Z :=
  l <-- load;;
  match l with
  | None => ret 0
  | Some l =>
    now <-- observe (clock l);;
    let '(_, l) := cleanupLocked l now in
    save (Some l);;;
    ret (Z.of_nat (size (buckets l)))
  end.
End Limiter.
