(* ===== verification/GoFloatFacts.v ===== *)
(** * Rounding

    The value of a float as a rational, and what one rounding does to it: operations
    return the exact result when it is representable, respect bounds by integers and
    err by at most one part in 2^53 (plus half the smallest subnormal). *)
From S2P Require Import Prelude GoTime GoFloat.
From Stdlib Require Import QArith Qabs Qpower Lqa.
#[local] Open Scope Z_scope.

(** ** Powers of two *)

Definition pw (e : Z) : Q := Qpower 2 e.

Lemma pw_add a b : (pw (a + b) == pw a * pw b)%Q.
Proof. by apply Qpower_plus. Qed.
Lemma pw_pos e : (0 < pw e)%Q.
Proof. by apply Qpower_0_lt. Qed.
Lemma pw_Z n : 0 <= n -> (pw n == inject_Z (2 ^ n))%Q.
Proof. intros Hn. unfold pw. rewrite Zpower_Qpower by done. done. Qed.
Lemma pw_mono a b : a <= b -> (pw a <= pw b)%Q.
Proof.
  intros Hab. replace b with (a + (b - a)) by lia. rewrite pw_add, (pw_Z (b - a)) by lia.
  assert (1 <= 2 ^ (b - a)) as H1 by (pose proof (Z.pow_pos_nonneg 2 (b - a)); lia).
  rewrite Zle_Qle in H1. pose proof (pw_pos a). change (inject_Z 1) with 1%Q in H1. nra.
Qed.
Lemma pw_shift e d : (pw e == pw (e - d) * pw d)%Q.
Proof. rewrite <- pw_add. by replace (e - d + d) with e by lia. Qed.

(** ** Shifting right *)

(** The record stands for the rational [y]. *)
Definition inb (rec : shr_record) (y : Q) : Prop :=
  let m := inject_Z (shr_m rec) in
  match loc_of_shr_record rec with
  | loc_Exact => (y == m)%Q
  | loc_Inexact Lt => (m < y)%Q /\ (y < m + (1 # 2))%Q
  | loc_Inexact Eq => (y == m + (1 # 2))%Q
  | loc_Inexact Gt => (m + (1 # 2) < y)%Q /\ (y < m + 1)%Q
  end.

Lemma inb_ext rec y y' : (y == y')%Q -> inb rec y -> inb rec y'.
Proof.
  intros E. unfold inb. destruct (loc_of_shr_record rec) as [|[]]; rewrite <- ?E; done.
Qed.

Lemma inb_half rec y :
  0 <= shr_m rec -> inb rec y -> inb (shr_1 rec) (y * (1 # 2)) /\ shr_m (shr_1 rec) = shr_m rec / 2.
Proof.
  destruct rec as [m r s]. cbn [shr_m]. intros Hm Hy.
  assert (exists h b, m = 2 * h + Z.b2z b /\ 0 <= h
    /\ shr_1 (Build_shr_record m r s) = Build_shr_record h b (r || s)) as (h & b & -> & Hh & ->).
  { destruct m as [|[p|p|]|]; [exists 0, false|exists (Z.pos p), true|exists (Z.pos p), false|exists 0, true|lia];
      (split; [cbn [Z.b2z]; lia|split; [lia|by destruct r, s]]). }
  split; [|cbn [shr_m]; apply Z.div_unique_pos with (Z.b2z b); destruct b; cbn; lia].
  revert Hy. unfold inb. cbn [shr_m]. rewrite inject_Z_plus, inject_Z_mult. change (inject_Z 2) with 2%Q.
  generalize (inject_Z h). intros q.
  destruct b, r, s; cbn [loc_of_shr_record orb Z.b2z];
    try change (inject_Z 1) with 1%Q; try change (inject_Z 0) with 0%Q; intros; try split; lra.
Qed.

Lemma iter_pos_nat {A} (f : A -> A) p (x : A) : SpecFloat.iter_pos f p x = Nat.iter (Pos.to_nat p) f x.
Proof.
  revert x. induction p as [p IH|p IH|]; intros x; cbn [SpecFloat.iter_pos].
  - rewrite !IH, Pos2Nat.inj_xI. rewrite <- Nat.iter_add, Nat.iter_succ_r. f_equal. lia.
  - rewrite !IH, Pos2Nat.inj_xO. rewrite <- Nat.iter_add. f_equal. lia.
  - done.
Qed.

Lemma inb_shift n rec y :
  0 <= shr_m rec -> inb rec y ->
  inb (Nat.iter n shr_1 rec) (y * pw (- Z.of_nat n)) /\ shr_m (Nat.iter n shr_1 rec) = shr_m rec / 2 ^ Z.of_nat n.
Proof.
  intros Hm Hy. induction n as [|n [IH IHm]].
  - split; [|by rewrite Z.div_1_r]. eapply inb_ext; [|exact Hy]. change (pw (- Z.of_nat 0)) with 1%Q. lra.
  - rewrite Nat.iter_succ. assert (0 <= shr_m (Nat.iter n shr_1 rec)) as Hn.
    { rewrite IHm. apply Z.div_pos; [done|]. by apply Z.pow_pos_nonneg; lia. }
    destruct (inb_half _ _ Hn IH) as [Hi Hm']. split.
    + eapply inb_ext; [|exact Hi]. replace (- Z.of_nat (S n)) with (- Z.of_nat n + -1) by lia.
      rewrite pw_add. change (pw (-1)) with (1 # 2)%Q. lra.
    + rewrite Hm', IHm. rewrite Z.div_div by (try apply Z.pow_nonzero; lia). f_equal.
      rewrite Nat2Z.inj_succ, Z.pow_succ_r by lia. lia.
Qed.

(** ** Rounding a record *)

Record rounds (y : Q) (M : Z) : Prop := {
  rnd_near : (Qabs (inject_Z M - y) <= (1 # 2))%Q;
  rnd_le : forall c, (y <= inject_Z c)%Q -> M <= c;
  rnd_ge : forall c, (inject_Z c <= y)%Q -> c <= M;
}.

Lemma inb_rounds rec y :
  inb rec y -> rounds y (round_nearest_even (shr_m rec) (loc_of_shr_record rec)).
Proof.
  unfold inb. destruct rec as [m r s]. cbn [shr_m].
  assert (forall M, M = m \/ M = m + 1 ->
    (inject_Z m <= y)%Q -> (y < inject_Z m + 1)%Q -> (M = m + 1 -> (inject_Z m < y)%Q) ->
    (M = m -> (y <= inject_Z m + (1 # 2))%Q) -> (M = m + 1 -> (inject_Z m + (1 # 2) <= y)%Q) -> rounds y M) as Hgen.
  { intros M HM Hlo Hhi Hup Hd Hu.
    assert (inject_Z (m + 1) == inject_Z m + 1)%Q as Es by by rewrite inject_Z_plus.
    split.
    - apply Qabs_Qle_condition. destruct HM as [->| ->].
      + specialize (Hd eq_refl). split; lra.
      + specialize (Hu eq_refl). rewrite Es. split; lra.
    - intros c Hc. destruct HM as [->| ->].
      + rewrite Zle_Qle. lra.
      + specialize (Hup eq_refl). enough (m < c) by lia. rewrite Zlt_Qlt. lra.
    - intros c Hc. enough (c < m + 1) by lia. rewrite Zlt_Qlt, Es. lra. }
  destruct (loc_of_shr_record _) as [|[]]; cbn [round_nearest_even].
  - intros Ey. apply Hgen; [by left|lra|lra|lia|lra|lia].
  - intros Ey. destruct (Z.even m); (apply Hgen; [lia|lra|lra|intros; lra|intros; lra|intros; lra]).
  - intros [? ?]. apply Hgen; [by left|lra|lra|lia|intros; lra|lia].
  - intros [? ?]. apply Hgen; [by right|lra|lra|intros; lra|lia|intros; lra].
Qed.

(** ** Values *)

Definition fval (x : float64) : Q :=
  match x with
  | S754_finite s m e => inject_Z (signed_mantissa s m) * pw e
  | _ => 0
  end.

Definition finite (x : float64) : Prop :=
  match x with S754_zero _ | S754_finite _ _ _ => True | _ => False end.

Definition exponent (d : Z) : Z := fexp prec emax d.
Lemma exponent_eq d : exponent d = Z.max (d - 53) (-1074).
Proof. done. Qed.

Lemma digits2_log2 p : Z.pos (digits2_pos p) = Z.log2 (Z.pos p) + 1.
Proof.
  assert (forall q, digits2_pos q = Pos.size q) as E by (induction q; cbn; congruence).
  rewrite E. destruct p; cbn; lia.
Qed.

Lemma Zdigits2_spec m : 0 <= m -> m < 2 ^ Zdigits2 m /\ (0 < m -> 2 ^ (Zdigits2 m - 1) <= m) /\ 0 <= Zdigits2 m.
Proof.
  intros Hm. destruct m as [|p|]; [done| |lia]. cbn [Zdigits2]. rewrite digits2_log2.
  pose proof (Z.log2_spec (Z.pos p) eq_refl) as [Hlo Hhi].
  replace (Z.log2 (Z.pos p) + 1 - 1) with (Z.log2 (Z.pos p)) by lia.
  pose proof (Z.log2_nonneg (Z.pos p)). split_and!; [done|done|lia].
Qed.

Lemma Zdigits2_le m n : 0 <= m -> 0 <= n -> m < 2 ^ n -> Zdigits2 m <= n.
Proof.
  intros Hm Hn Hlt. destruct (Zdigits2_spec m Hm) as (_ & Hlo & Hd).
  destruct (Z.eq_dec m 0) as [->|]; [by cbn|]. specialize (Hlo ltac:(lia)).
  destruct (Z.lt_ge_cases n (Zdigits2 m)); [|done].
  pose proof (Z.pow_le_mono_r 2 n (Zdigits2 m - 1)). lia.
Qed.

(** The second normalisation is exact. *)
Lemma shr_fexp_small M e :
  0 <= M <= 2 ^ 53 -> -1074 <= e ->
  exists M' e', shr_fexp prec emax M e loc_Exact = (Build_shr_record M' false false, e')
    /\ 0 <= M' /\ e <= e' <= e + 1 /\ (inject_Z M' * pw e' == inject_Z M * pw e)%Q
    /\ (e = -1074 \/ 2 ^ 52 <= M -> exponent (Zdigits2 M' + e') = e').
Proof.
  intros HM He. unfold shr_fexp. fold (exponent (Zdigits2 M + e)). rewrite exponent_eq.
  destruct (Z.eq_dec M (2 ^ 53)) as [->|Hne].
  - assert (Zdigits2 (2 ^ 53) = 54) as -> by reflexivity.
    replace (Z.max (54 + e - 53) (-1074) - e) with 1 by lia.
    exists (2 ^ 52), (e + 1). split_and!; [reflexivity|lia|lia|lia| |].
    + rewrite pw_add. change (pw 1) with 2%Q. change (inject_Z (2 ^ 53)) with (inject_Z (2 ^ 52 * 2)).
      rewrite inject_Z_mult. change (inject_Z 2) with 2%Q. ring.
    + intros _. rewrite exponent_eq. assert (Zdigits2 (2 ^ 52) = 53) as -> by reflexivity. lia.
  - assert (Zdigits2 M <= 53) by (apply Zdigits2_le; lia).
    exists M, e. split_and!; try lia; [|done|].
    + unfold shr. destruct (_ - e) as [|p|] eqn:E; [done|lia|done].
    + intros Hc. rewrite exponent_eq. pose proof (Zdigits2_spec M ltac:(lia)) as (_ & _ & Hd).
      destruct Hc as [->|Hc]; [lia|]. assert (52 < Zdigits2 M); [|lia].
      apply (Z.pow_lt_mono_r_iff 2); [lia|lia|]. pose proof (Zdigits2_spec M ltac:(lia)) as (Hlt & _). lia.
Qed.

Definition of_sign (s : bool) (q : Q) : Q := if s then - q else q.

(** Rounding the magnitude [y * 2^e]. *)
Lemma binary_round_aux_spec s m e l y (e1 := Z.max e (exponent (Zdigits2 m + e))) :
  0 <= m -> inb (shr_record_of_loc m l) y ->
  exists M, rounds (y * pw (e - e1)) M /\ 0 <= M <= 2 ^ 53
    /\ (e1 <= 970 ->
        let r := binary_round_aux prec emax s m e l in
        finite r /\ (fval r == of_sign s (inject_Z M * pw e1))%Q
        /\ (forall s' m' e', r = S754_finite s' m' e' ->
              s' = s /\ (e1 = -1074 \/ 2 ^ 52 <= M -> exponent (Zdigits2 (Z.pos m') + e') = e'))).
Proof.
  intros Hm Hy. pose proof (Zdigits2_spec m Hm) as (Hhi & _ & Hd0).
  assert (shr_m (shr_record_of_loc m l) = m) as Em by by destruct l as [|[]].
  assert (exists rec, shr_fexp prec emax m e l = (rec, e1) /\ inb rec (y * pw (e - e1))) as (rec & Es & Hr).
  { unfold shr_fexp, shr. fold (exponent (Zdigits2 m + e)). unfold e1. destruct (exponent _ - e) as [|p|p] eqn:E.
    - exists (shr_record_of_loc m l). split; [f_equal; lia|]. eapply inb_ext; [|done].
      replace (e - Z.max _ _) with 0 by lia. change (pw 0) with 1%Q. lra.
    - exists (Nat.iter (Pos.to_nat p) shr_1 (shr_record_of_loc m l)). rewrite iter_pos_nat.
      split; [f_equal; lia|]. eapply inb_ext; [|apply inb_shift; [lia|done]].
      rewrite positive_nat_Z. by replace (e - Z.max _ _) with (- Z.pos p) by lia.
    - exists (shr_record_of_loc m l). split; [f_equal; lia|]. eapply inb_ext; [|done].
      replace (e - Z.max _ _) with 0 by lia. change (pw 0) with 1%Q. lra. }
  pose proof (inb_rounds _ _ Hr) as HR. set (M := round_nearest_even _ _) in HR.
  assert (0 <= y /\ y <= inject_Z (2 ^ Zdigits2 m))%Q as [Hy0 Hy1].
  { assert (inject_Z m + 1 <= inject_Z (2 ^ Zdigits2 m))%Q as Hm1.
    { change 1%Q with (inject_Z 1). rewrite <- inject_Z_plus, <- Zle_Qle. lia. }
    assert (0 <= inject_Z m)%Q by (change 0%Q with (inject_Z 0); by rewrite <- Zle_Qle).
    revert Hy. unfold inb. cbv zeta. rewrite Em. generalize dependent (inject_Z m). intros q.
    intros Ha Hb Hc. destruct (loc_of_shr_record (shr_record_of_loc m l)) as [|[]]; split; lra. }
  assert (exponent (Zdigits2 m + e) <= e1) as He1 by (unfold e1; lia). rewrite exponent_eq in He1.
  pose proof (pw_pos (e - e1)) as Hp.
  assert (0 <= M <= 2 ^ 53) as HM.
  { split.
    - apply (rnd_ge _ _ HR). change (inject_Z 0) with 0%Q. nra.
    - apply (rnd_le _ _ HR). rewrite <- pw_Z by done. rewrite <- pw_Z in Hy1 by done.
      apply Qle_trans with (pw (Zdigits2 m) * pw (e - e1))%Q; [nra|].
      rewrite <- pw_add. apply pw_mono. lia. }
  exists M. split; [done|]. split; [done|]. intros He970. cbv zeta. unfold binary_round_aux. rewrite Es.
  fold M. destruct (shr_fexp_small M e1 HM ltac:(lia)) as (M' & e' & -> & HM' & He' & Ev & Hcan).
  cbn [shr_m]. destruct M' as [|p|]; [| |lia].
  - split; [done|]. split; [|done]. cbn [fval]. change (inject_Z 0) with 0%Q in Ev. destruct s; cbn [of_sign]; lra.
  - replace (e' <=? emax - prec) with true by (unfold emax, prec; lia).
    split; [done|]. split; [|by intros ??? [= -> -> ->]]. cbn [fval]. destruct s; cbn [of_sign signed_mantissa]; [|done].
    change (Z.neg p) with (- Z.pos p). rewrite inject_Z_opp. lra.
Qed.

(** ** Correct rounding of a non-negative real *)

Definition unit_roundoff : Q := pw (-53).
Definition half_subnormal : Q := pw (-1075).

(** The float [r] is a rounding of [X]. *)
Record near (X : Q) (r : float64) : Prop := {
  near_finite : finite r;
  near_pos : (0 <= fval r)%Q;
  near_sign : forall s m e, r = S754_finite s m e -> s = false;
  near_canonical : forall s m e, r = S754_finite s m e -> exponent (Zdigits2 (Z.pos m) + e) = e;
  near_err : (Qabs (fval r - X) <= X * unit_roundoff + half_subnormal)%Q;
  near_le : forall c, 0 <= c < 2 ^ 53 -> (X <= inject_Z c)%Q -> (fval r <= inject_Z c)%Q;
  near_ge : forall c, 0 <= c < 2 ^ 53 -> (inject_Z c <= X)%Q -> (inject_Z c <= fval r)%Q;
}.

Lemma near_exact X r c : near X r -> 0 <= c < 2 ^ 53 -> (X == inject_Z c)%Q -> (fval r == inject_Z c)%Q.
Proof.
  intros N Hc E. apply Qle_antisym; [apply (near_le _ _ N)|apply (near_ge _ _ N)]; (done || by rewrite E; apply Qle_refl).
Qed.

Lemma near_ext X X' r : (X == X')%Q -> near X r -> near X' r.
Proof.
  intros E [? ? ? ? He Hl Hg]. split; try done.
  - by rewrite <- E.
  - intros c. rewrite <- E. apply Hl.
  - intros c. rewrite <- E. apply Hg.
Qed.

(** An integer, scaled to an exponent that is not positive, stays one. *)
Lemma scale_integer c e : 0 <= c -> e <= 0 -> exists c', (inject_Z c == inject_Z c' * pw e)%Q.
Proof.
  intros Hc He. exists (c * 2 ^ (- e)). rewrite inject_Z_mult, <- pw_Z, <- Qmult_assoc, <- pw_add by lia.
  replace (- e + e) with 0 by lia. change (pw 0) with 1%Q. ring.
Qed.

Lemma mul_le_pw e a b : (a * pw e <= b * pw e)%Q <-> (a <= b)%Q.
Proof. pose proof (pw_pos e). split; intros; [apply Qmult_le_r with (pw e)|apply Qmult_le_r]; done. Qed.

Lemma rounds_scaled Y M e :
  rounds Y M -> 0 <= M ->
  (Qabs (inject_Z M * pw e - Y * pw e) <= pw (e - 1))%Q
  /\ (forall c, (Y * pw e <= inject_Z c * pw e)%Q -> (inject_Z M * pw e <= inject_Z c * pw e)%Q)
  /\ (forall c, (inject_Z c * pw e <= Y * pw e)%Q -> (inject_Z c * pw e <= inject_Z M * pw e)%Q).
Proof.
  intros [Hn Hl Hg] HM. split_and!.
  - assert (inject_Z M * pw e - Y * pw e == (inject_Z M - Y) * pw e)%Q as -> by ring.
    rewrite Qabs_Qmult, (Qabs_pos (pw e)) by apply Qlt_le_weak, pw_pos.
    replace (e - 1) with (-1 + e) by lia. rewrite pw_add. by apply mul_le_pw.
  - intros c. rewrite !mul_le_pw. intros Hc. rewrite <- Zle_Qle. by apply Hl.
  - intros c. rewrite !mul_le_pw. intros Hc. rewrite <- Zle_Qle. by apply Hg.
Qed.

Lemma inb_lower rec y : inb rec y -> (inject_Z (shr_m rec) <= y)%Q.
Proof.
  unfold inb. cbv zeta. destruct (loc_of_shr_record rec) as [|[]]; intros Hy; lra.
Qed.

(** A positive mantissa, already at or below the precision of its result. *)
Lemma near_of_rounds X M d r (e1 := exponent d) :
  (pw (d - 1) <= X)%Q -> rounds (X * pw (- e1)) M -> 0 <= M -> finite r ->
  (fval r == inject_Z M * pw e1)%Q ->
  (forall s m e, r = S754_finite s m e ->
     s = false /\ (e1 = -1074 \/ 2 ^ 52 <= M -> exponent (Zdigits2 (Z.pos m) + e) = e)) -> near X r.
Proof.
  intros HX HR HM Hf Ev Hs.
  assert (X * pw (- e1) * pw e1 == X)%Q as EX.
  { rewrite <- Qmult_assoc, <- pw_add. replace (- e1 + e1) with 0 by lia. change (pw 0) with 1%Q. ring. }
  destruct (rounds_scaled _ _ e1 HR HM) as (He & Hl & Hg).
  assert (0 <= inject_Z M)%Q as HM0 by (change 0%Q with (inject_Z 0); by rewrite <- Zle_Qle).
  pose proof (pw_pos e1). pose proof (exponent_eq d) as E1. fold e1 in E1.
  assert (e1 <= 0 \/ 0 < e1 /\ e1 = d - 53) as Hcase by lia.
  assert (forall c, 0 <= c < 2 ^ 53 -> 0 < e1 -> (inject_Z c < X)%Q) as Hbig.
  { intros c Hc Hpos. eapply Qlt_le_trans; [|exact HX]. eapply Qlt_le_trans; [|apply (pw_mono 53); lia].
    rewrite pw_Z by done. rewrite <- Zlt_Qlt. lia. }
  assert (e1 = -1074 \/ 2 ^ 52 <= M) as Hcan.
  { assert (e1 = -1074 \/ e1 = d - 53) as [Ed|Ed] by lia; [by left|right].
    apply (rnd_ge _ _ HR). rewrite <- (mul_le_pw e1), EX. eapply Qle_trans; [|exact HX].
    rewrite <- pw_Z, <- pw_add by done. apply pw_mono. lia. }
  split; [done| |by intros s m e [E _]%Hs|intros s m e [_ E]%Hs; by apply E| | |].
  - rewrite Ev. nra.
  - rewrite Ev. rewrite EX in He. eapply Qle_trans; [exact He|]. unfold unit_roundoff, half_subnormal.
    pose proof (pw_pos (-53)). pose proof (pw_pos (-1075)). pose proof (pw_pos (d - 1)).
    assert (e1 = d - 53 \/ e1 = -1074) as [Ed|Ed] by lia.
    + replace (e1 - 1) with ((d - 1) + -53) by lia. rewrite pw_add. nra.
    + replace (e1 - 1) with (-1075) by lia. nra.
  - intros c Hc HXc. rewrite Ev. destruct Hcase as [Hneg|[Hpos _]].
    + destruct (scale_integer c e1) as [c' Ec]; [lia|lia|]. rewrite Ec. apply Hl. by rewrite EX, <- Ec.
    + specialize (Hbig c Hc Hpos). lra.
  - intros c Hc HXc. rewrite Ev. destruct Hcase as [Hneg|[Hpos Hd]].
    + destruct (scale_integer c e1) as [c' Ec]; [lia|lia|]. rewrite Ec. apply Hg. by rewrite EX, <- Ec.
    + apply Qle_trans with (inject_Z (2 ^ 52) * pw e1)%Q.
      * rewrite <- pw_Z, <- pw_add by done. apply Qle_trans with (pw 53); [|apply pw_mono; lia].
        rewrite pw_Z, <- Zle_Qle by done. lia.
      * apply Hg. rewrite EX, <- pw_Z, <- pw_add by done. by replace (52 + e1) with (d - 1) by lia.
Qed.

Lemma near_round X m e l y :
  0 < m -> inb (shr_record_of_loc m l) y -> (X == y * pw e)%Q -> (X < pw 900)%Q ->
  e <= exponent (Zdigits2 m + e) ->
  near X (binary_round_aux prec emax false m e l).
Proof.
  intros Hm Hy EX HX Hl. set (d := Zdigits2 m + e).
  assert (shr_m (shr_record_of_loc m l) = m) as Em by by destruct l as [|[]].
  pose proof (inb_lower _ _ Hy) as Hmy. rewrite Em in Hmy.
  pose proof (Zdigits2_spec m ltac:(lia)) as (_ & Hlo & _). specialize (Hlo Hm).
  assert (1 <= Zdigits2 m) as Hd1 by (destruct m; [lia|cbn; lia|lia]).
  pose proof (pw_pos e) as Hpe.
  assert (pw (d - 1) <= X)%Q as Hd.
  { replace (d - 1) with ((Zdigits2 m - 1) + e) by (unfold d; lia). rewrite pw_add, EX.
    apply mul_le_pw. eapply Qle_trans; [|exact Hmy]. rewrite pw_Z by lia. by rewrite <- Zle_Qle. }
  assert (d - 1 < 900) as Hd9.
  { destruct (Z.lt_ge_cases (d - 1) 900) as [|Hge]; [done|]. pose proof (pw_mono 900 (d - 1) Hge). lra. }
  pose proof (exponent_eq d) as Ex.
  destruct (binary_round_aux_spec false m e l y ltac:(lia) Hy) as (M & HR & HM & Hr). fold d in HR, Hr.
  rewrite (Z.max_r e) in HR, Hr by done. destruct (Hr ltac:(lia)) as (Hf & Ev & Hs).
  eapply (near_of_rounds X M d); [done| |lia|done|done|exact Hs].
  destruct HR as [Hn Hl' Hg].
  assert (X * pw (- exponent d) == y * pw (e - exponent d))%Q as EY
    by (rewrite EX, <- Qmult_assoc, <- pw_add; done).
  split; [by rewrite EY|intros c; rewrite EY; apply Hl'|intros c; rewrite EY; apply Hg].
Qed.

(** ** Operations on non-negative floats *)

Definition nonneg (x : float64) : Prop :=
  finite x
  /\ forall s m e, x = S754_finite s m e -> s = false /\ exponent (Zdigits2 (Z.pos m) + e) = e.

Lemma near_nonneg X r : near X r -> nonneg r.
Proof. intros [? ? Hs Hc]. split; [done|]. intros s m e E. split; [by eapply Hs|by eapply Hc]. Qed.

Lemma nonneg_fval x : nonneg x -> (0 <= fval x)%Q.
Proof.
  intros [Hf Hs]. destruct x as [s|s| |s m e]; try done. cbn.
  destruct (Hs s m e eq_refl) as [-> _]. cbn. pose proof (pw_pos e).
  assert (0 <= inject_Z (Z.pos m))%Q by (change 0%Q with (inject_Z 0); by rewrite <- Zle_Qle). nra.
Qed.

Lemma near_refl x : nonneg x -> near (fval x) x.
Proof.
  intros Hx. pose proof (nonneg_fval x Hx). destruct Hx as [Hf Hs].
  split; try done; [by intros s m e [E _]%Hs|by intros s m e [_ E]%Hs|].
  assert (fval x - fval x == 0)%Q as -> by ring. unfold unit_roundoff, half_subnormal.
  pose proof (pw_pos (-53)). pose proof (pw_pos (-1075)). change (Qabs 0) with 0%Q. nra.
Qed.

(** The two shapes of a non-negative float. *)
Lemma nonneg_cases x :
  nonneg x -> (exists s, x = S754_zero s) \/ (exists m e, x = S754_finite false m e
    /\ (fval x == inject_Z (Z.pos m) * pw e)%Q /\ exponent (Zdigits2 (Z.pos m) + e) = e).
Proof.
  intros [Hf Hs]. destruct x as [s|s| |s m e]; try done; [by left; exists s|].
  destruct (Hs s m e eq_refl) as [-> Hc]. right. by exists m, e.
Qed.

Lemma iter_xO m d : Z.pos (Pos.iter xO m d) = Z.pos m * 2 ^ Z.pos d.
Proof.
  induction d as [|d IH] using Pos.peano_ind; [cbn; lia|].
  rewrite Pos.iter_succ, Pos2Z.inj_succ, Z.pow_succ_r by lia. rewrite Pos2Z.inj_xO, IH. lia.
Qed.

Lemma shl_align_spec m e e' :
  let '(m', e'') := shl_align m e e' in
  e'' = Z.min e e' /\ Z.pos m' = Z.pos m * 2 ^ (e - e'').
Proof.
  unfold shl_align. destruct (e' - e) as [|p|p] eqn:E.
  - split; [lia|]. rewrite Z.sub_diag. lia.
  - split; [lia|]. rewrite Z.sub_diag. lia.
  - split; [lia|]. rewrite iter_xO. repeat f_equal. lia.
Qed.

Lemma shl_align_value m e e' : e' <= e -> (inject_Z (Z.pos (fst (shl_align m e e'))) * pw e' == inject_Z (Z.pos m) * pw e)%Q.
Proof.
  intros He. pose proof (shl_align_spec m e e') as Hs. destruct (shl_align m e e') as [m' e'']. cbn [fst].
  destruct Hs as [-> ->]. rewrite Z.min_r by done. rewrite inject_Z_mult, <- pw_Z, <- Qmult_assoc, <- pw_add by lia.
  by replace (e - e' + e') with e by lia.
Qed.

Lemma Zdigits2_unique m d : 2 ^ d <= m < 2 ^ (d + 1) -> 0 <= d -> Zdigits2 m = d + 1.
Proof.
  intros Hm Hd. pose proof (Z.pow_pos_nonneg 2 d).
  destruct (Zdigits2_spec m ltac:(lia)) as (Hhi & Hlo & Hn). specialize (Hlo ltac:(lia)).
  assert (d < Zdigits2 m) by (apply (Z.pow_lt_mono_r_iff 2); lia).
  assert (Zdigits2 m - 1 < d + 1) by (apply (Z.pow_lt_mono_r_iff 2); lia). lia.
Qed.

Lemma Zdigits2_shift m k : 0 <= k -> Zdigits2 (Z.pos m * 2 ^ k) = Zdigits2 (Z.pos m) + k.
Proof.
  intros Hk. destruct (Zdigits2_spec (Z.pos m) ltac:(lia)) as (Hhi & Hlo & Hn). specialize (Hlo eq_refl).
  assert (0 < Zdigits2 (Z.pos m)) by done. pose proof (Z.pow_pos_nonneg 2 k).
  rewrite (Zdigits2_unique _ (Zdigits2 (Z.pos m) - 1 + k)); [lia| |lia].
  replace (Zdigits2 (Z.pos m) - 1 + k + 1) with (Zdigits2 (Z.pos m) + k) by lia.
  rewrite !Z.pow_add_r by lia. nia.
Qed.

Lemma Zdigits2_mul m m' :
  Zdigits2 (Z.pos m) + Zdigits2 (Z.pos m') - 1 <= Zdigits2 (Z.pos m * Z.pos m').
Proof.
  destruct (Zdigits2_spec (Z.pos m) ltac:(lia)) as (_ & Hlo & _). specialize (Hlo eq_refl).
  destruct (Zdigits2_spec (Z.pos m') ltac:(lia)) as (_ & Hlo' & _). specialize (Hlo' eq_refl).
  destruct (Zdigits2_spec (Z.pos m * Z.pos m') ltac:(lia)) as (Hhi & _ & Hd).
  assert (0 < Zdigits2 (Z.pos m) /\ 0 < Zdigits2 (Z.pos m')) as [H1 H2] by done.
  assert (2 ^ (Zdigits2 (Z.pos m) - 1 + (Zdigits2 (Z.pos m') - 1)) <= Z.pos m * Z.pos m') as Hle
    by (rewrite Z.pow_add_r by lia; apply Z.mul_le_mono_nonneg; lia).
  assert (Zdigits2 (Z.pos m) - 1 + (Zdigits2 (Z.pos m') - 1) < Zdigits2 (Z.pos m * Z.pos m')); [|lia].
  apply (Z.pow_lt_mono_r_iff 2); lia.
Qed.

Lemma near_binary_round X m e :
  (X == inject_Z (Z.pos m) * pw e)%Q -> (X < pw 900)%Q -> near X (binary_round prec emax false m e).
Proof.
  intros EX HX. unfold binary_round. fold (exponent (Z.pos (digits2_pos m) + e)).
  set (e' := exponent _). pose proof (shl_align_spec m e e') as Hs. destruct (shl_align m e e') as [m' e''].
  destruct Hs as [-> Em]. apply (near_round X (Z.pos m') (Z.min e e') loc_Exact (inject_Z (Z.pos m'))).
  - done.
  - done.
  - rewrite Em, EX, inject_Z_mult, <- pw_Z, <- Qmult_assoc, <- pw_add by lia.
    by replace (e - e `min` e' + e `min` e') with e by lia.
  - done.
  - rewrite Em, Zdigits2_shift by lia.
    replace (Zdigits2 (Z.pos m) + (e - e `min` e') + e `min` e') with (Zdigits2 (Z.pos m) + e) by lia.
    unfold e'. cbn [Zdigits2]. lia.
Qed.

Lemma fadd_near x y : nonneg x -> nonneg y -> (fval x + fval y < pw 900)%Q -> near (fval x + fval y) (fadd x y).
Proof.
  intros Hx Hy HX. pose proof (nonneg_cases x Hx) as [[s ->]|(m & e & -> & Ex & Hce)];
    pose proof (nonneg_cases y Hy) as [[s' ->]|(m' & e' & -> & Ey & Hce')].
  - apply near_ext with 0%Q; [cbn; ring|]. destruct s, s'; apply (near_refl (S754_zero _)); done.
  - apply near_ext with (fval (S754_finite false m' e')); [cbn; ring|]. destruct s; by apply near_refl.
  - apply near_ext with (fval (S754_finite false m e)); [cbn; ring|]. destruct s'; by apply near_refl.
  - unfold fadd, SFadd. cbn [cond_Zopp]. rewrite <- Pos2Z.inj_add. cbn [binary_normalize].
    apply near_binary_round; [|done]. rewrite Pos2Z.inj_add, inject_Z_plus, Qmult_plus_distr_l.
    rewrite !shl_align_value by lia. by rewrite Ex, Ey.
Qed.

Lemma fsub_near x y :
  nonneg x -> nonneg y -> (fval y <= fval x)%Q -> (fval x < pw 900)%Q -> near (fval x - fval y) (fsub x y).
Proof.
  intros Hx Hy Hle HX. pose proof (nonneg_cases x Hx) as [[s ->]|(m & e & -> & Ex & Hce)];
    pose proof (nonneg_cases y Hy) as [[s' ->]|(m' & e' & -> & Ey & Hce')].
  - apply near_ext with 0%Q; [cbn; ring|]. destruct s, s'; apply (near_refl (S754_zero _)); done.
  - exfalso. rewrite Ey in Hle. cbn in Hle. pose proof (pw_pos e').
    assert (0 < inject_Z (Z.pos m'))%Q by (change 0%Q with (inject_Z 0); by rewrite <- Zlt_Qlt). nra.
  - apply near_ext with (fval (S754_finite false m e)); [cbn; ring|]. destruct s'; by apply near_refl.
  - unfold fsub, SFsub. cbn [cond_Zopp]. set (ez := Z.min e e'). set (a := Z.pos _). set (b := Z.pos _).
    assert (inject_Z (a - b) * pw ez == fval (S754_finite false m e) - fval (S754_finite false m' e'))%Q as Ed.
    { rewrite Ex, Ey, <- (shl_align_value m e ez), <- (shl_align_value m' e' ez) by lia.
      fold a b. unfold Z.sub. rewrite inject_Z_plus, inject_Z_opp. ring. }
    assert (0 <= a - b) as Hab.
    { rewrite Zle_Qle. change (inject_Z 0) with 0%Q. pose proof (pw_pos ez).
      apply Qmult_le_r with (pw ez); [done|]. rewrite Ed. lra. }
    destruct (a - b) as [|p|p]; [|cbn [binary_normalize]|lia].
    + apply near_ext with 0%Q; [rewrite <- Ed; change (inject_Z 0) with 0%Q; ring|].
      by apply (near_refl (S754_zero false)).
    + apply near_binary_round; [by rewrite Ed|]. pose proof (nonneg_fval _ Hy). lra.
Qed.

Lemma fmul_near x y : nonneg x -> nonneg y -> (fval x * fval y < pw 900)%Q -> near (fval x * fval y) (fmul x y).
Proof.
  intros Hx Hy HX. pose proof (nonneg_cases x Hx) as [[s ->]|(m & e & -> & Ex & Hce)];
    pose proof (nonneg_cases y Hy) as [[s' ->]|(m' & e' & -> & Ey & Hce')].
  1-3: apply near_ext with 0%Q; [cbn; ring|apply (near_refl (S754_zero _)); done].
  unfold fmul, SFmul. cbn [xorb].
  apply (near_round _ _ _ loc_Exact (inject_Z (Z.pos (m * m')))); [done|done| |done|].
  - rewrite Ex, Ey, Pos2Z.inj_mul, inject_Z_mult, pw_add. ring.
  - rewrite Pos2Z.inj_mul. pose proof (Zdigits2_mul m m').
    assert (0 < Zdigits2 (Z.pos m) /\ 0 < Zdigits2 (Z.pos m')) as [? ?] by done.
    rewrite exponent_eq in *. change (SpecFloat.Zdigits2) with Zdigits2. lia.
Qed.

Lemma of_int_near n : 0 <= n < 2 ^ 64 -> near (inject_Z n) (of_int n).
Proof.
  intros Hn. unfold of_int. destruct n as [|p|p]; [|cbn [binary_normalize]|lia].
  - apply near_ext with 0%Q; [done|]. by apply (near_refl (S754_zero false)).
  - apply near_binary_round; [change (pw 0) with 1%Q; ring|].
    eapply Qlt_le_trans; [|apply (pw_mono 64); lia]. rewrite pw_Z, <- Zlt_Qlt; lia.
Qed.

Lemma of_int_exact n : 0 <= n < 2 ^ 53 -> (fval (of_int n) == inject_Z n)%Q.
Proof. intros Hn. by apply (near_exact _ _ _ (of_int_near n ltac:(lia))). Qed.

Lemma of_int_nonneg n : 0 <= n < 2 ^ 64 -> nonneg (of_int n).
Proof. intros Hn. by eapply near_nonneg, of_int_near. Qed.

(** ** Division *)

Lemma inject_Z_pos n : 0 < n -> (0 < inject_Z n)%Q.
Proof. intros. change 0%Q with (inject_Z 0). by rewrite <- Zlt_Qlt. Qed.

Lemma new_location_inb n d q r :
  0 < d -> 0 <= r < d -> n = d * q + r ->
  inb (shr_record_of_loc q (new_location d r)) (inject_Z n / inject_Z d).
Proof.
  intros Hd Hr ->. pose proof (inject_Z_pos d Hd) as HD.
  assert (inject_Z (d * q + r) / inject_Z d == inject_Z q + inject_Z r / inject_Z d)%Q as E.
  { rewrite inject_Z_plus, inject_Z_mult. field. lra. }
  eapply inb_ext; [symmetry; exact E|]. clear E.
  assert (r = 0 \/ 0 < r) as [->|Hr0] by lia.
  { unfold new_location, new_location_even, new_location_odd. destruct (Z.even d); cbn;
      change (inject_Z 0) with 0%Q; unfold Qdiv; ring. }
  set (f := (inject_Z r / inject_Z d)%Q).
  assert (f * inject_Z d == inject_Z r)%Q as Ef by (unfold f; field; lra).
  assert (0 < f)%Q as Hf0.
  { apply Qmult_lt_r with (inject_Z d); [done|]. rewrite Ef, Qmult_0_l. by apply inject_Z_pos. }
  assert (f < 1)%Q as Hf1.
  { apply Qmult_lt_r with (inject_Z d); [done|]. rewrite Ef, Qmult_1_l. rewrite <- Zlt_Qlt. lia. }
  assert (forall c, (2 * r ?= d) = c ->
    match c with Eq => f == 1 # 2 | Lt => (f < 1 # 2)%Q | Gt => (1 # 2 < f)%Q end) as Hcmp.
  { assert ((2 * f)%Q * inject_Z d == inject_Z (2 * r)%Z)%Q as E2
      by (rewrite inject_Z_mult, <- Ef; change (inject_Z 2) with 2%Q; ring).
    intros c <-. destruct (Z.compare_spec (2 * r) d) as [E|E|E].
    - rewrite E in E2. assert (2 * f == 1)%Q; [|lra]. apply Qmult_inj_r with (inject_Z d); lra.
    - rewrite Zlt_Qlt in E. assert (2 * f < 1)%Q; [|lra]. apply Qmult_lt_r with (inject_Z d); lra.
    - rewrite Zlt_Qlt in E. assert (1 < 2 * f)%Q; [|lra]. apply Qmult_lt_r with (inject_Z d); lra. }
  assert (exists c, new_location d r = loc_Inexact c /\ (2 * r ?= d) = c) as (c & -> & Ec).
  { unfold new_location, new_location_even, new_location_odd.
    change IntDef.Z.eqb with Z.eqb. change IntDef.Z.compare with Z.compare. change IntDef.Z.even with Z.even.
    destruct (Z.even d) eqn:Ev; cbv beta; rewrite (proj2 (Z.eqb_neq r 0)) by lia; [by eexists|].
    eexists. split; [done|]. assert (2 * r <> d) by (intros <-; by rewrite Z.even_mul in Ev).
    change (IntDef.Z.add (IntDef.Z.mul 2 r) 1) with (2 * r + 1).
    destruct (Z.compare_spec (2 * r + 1) d), (Z.compare_spec (2 * r) d); done || lia. }
  apply Hcmp in Ec. unfold inb. destruct c; cbn; cbn in Ec; lra || (split; lra).
Qed.

(** The mantissa of a quotient: positive, and precise enough. *)
Lemma quotient_spec m1 e1 m2 e2 (X := (inject_Z (Z.pos m1) * pw e1 / (inject_Z (Z.pos m2) * pw e2))%Q) :
  (pw (-900) <= X)%Q ->
  exists q e l, SFdiv_core_binary prec emax (Z.pos m1) e1 (Z.pos m2) e2 = (q, e, l)
    /\ 0 < q /\ e <= exponent (Zdigits2 q + e)
    /\ exists y, inb (shr_record_of_loc q l) y /\ (X == y * pw e)%Q.
Proof.
  intros HX. pose proof (inject_Z_pos (Z.pos m1) eq_refl) as HM1. pose proof (inject_Z_pos (Z.pos m2) eq_refl) as HM2.
  pose proof (pw_pos e1) as P1. pose proof (pw_pos e2) as P2.
  unfold SFdiv_core_binary. change (SpecFloat.fexp prec emax) with exponent.
  set (d1 := Zdigits2 (Z.pos m1)). set (d2 := Zdigits2 (Z.pos m2)).
  change (IntDef.Z.sub (IntDef.Z.add d1 e1) (IntDef.Z.add d2 e2)) with (d1 + e1 - (d2 + e2)).
  set (D := d1 + e1 - (d2 + e2)). change (IntDef.Z.min (exponent D) (IntDef.Z.sub e1 e2)) with (Z.min (exponent D) (e1 - e2)).
  set (e' := Z.min (exponent D) (e1 - e2)). change (IntDef.Z.sub (IntDef.Z.sub e1 e2) e') with (e1 - e2 - e').
  set (s := e1 - e2 - e'). assert (0 <= s) as Hs by lia.
  set (n := Z.pos m1 * 2 ^ s).
  assert (match s with 0 => Z.pos m1 | Z.pos _ => IntDef.Z.shiftl (Z.pos m1) s | Z.neg _ => 0 end = n) as ->.
  { unfold n. destruct s as [|p|p]; [by rewrite Z.mul_1_r| |lia].
    change IntDef.Z.shiftl with Z.shiftl. by rewrite Z.shiftl_mul_pow2. }
  change (IntDef.Z.div_eucl n (Z.pos m2)) with (Z.div_eucl n (Z.pos m2)).
  assert (Z.div_eucl n (Z.pos m2) = (n / Z.pos m2, n mod Z.pos m2)) as ->
    by (unfold Z.div, Z.modulo; by destruct (Z.div_eucl n (Z.pos m2))).
  assert (X * inject_Z (Z.pos m2) * pw e2 == inject_Z (Z.pos m1) * pw e1)%Q as EX
    by (unfold X; field; split; lra).
  assert (X == (inject_Z n / inject_Z (Z.pos m2)) * pw e')%Q as EX'.
  { unfold X, n. rewrite inject_Z_mult, <- pw_Z by done.
    replace e1 with (s + (e2 + e')) by lia. rewrite !pw_add. field. split; lra. }
  pose proof (Zdigits2_spec (Z.pos m1) ltac:(lia)) as (Hm1 & Hl1 & _). specialize (Hl1 eq_refl).
  pose proof (Zdigits2_spec (Z.pos m2) ltac:(lia)) as (Hm2 & Hl2 & _). specialize (Hl2 eq_refl).
  fold d1 in Hm1, Hl1. fold d2 in Hm2, Hl2.
  assert (0 < d1 /\ 0 < d2) as [Hd1 Hd2] by done.
  assert (-901 < D) as HD.
  { destruct (Z.lt_ge_cases (-901) D) as [|HD]; [done|]. exfalso.
    assert (pw (d1 + e1) <= pw (-900) * (pw (d2 - 1) * pw e2))%Q as Hle
      by (rewrite <- !pw_add; apply pw_mono; unfold D in HD; lia).
    rewrite Zlt_Qlt, <- pw_Z in Hm1 by lia. rewrite Zle_Qle, <- pw_Z in Hl2 by lia. rewrite pw_add in Hle.
    pose proof (pw_pos (-900)). pose proof (pw_pos (d2 - 1)).
    assert (pw (d2 - 1) * pw e2 <= inject_Z (Z.pos m2) * pw e2)%Q by by apply mul_le_pw.
    assert (inject_Z (Z.pos m1) * pw e1 < pw d1 * pw e1)%Q by by apply Qmult_lt_r.
    assert (pw (-900) * (pw (d2 - 1) * pw e2) <= X * (inject_Z (Z.pos m2) * pw e2))%Q
      by (apply Qmult_le_compat_nonneg; split; [lra|done|nra|done]).
    lra. }
  pose proof (exponent_eq D) as ED.
  assert (2 ^ (D - e' - 1) <= n / Z.pos m2) as Hq.
  { apply Z.div_le_lower_bound; [lia|]. unfold n.
    transitivity (2 ^ d2 * 2 ^ (D - e' - 1)); [apply Z.mul_le_mono_nonneg_r; lia|].
    rewrite <- Z.pow_add_r by lia. transitivity (2 ^ (d1 - 1) * 2 ^ s); [|apply Z.mul_le_mono_nonneg_r; lia].
    rewrite <- Z.pow_add_r by lia. apply Z.pow_le_mono_r; lia. }
  assert (0 < n / Z.pos m2) as Hq0 by (pose proof (Z.pow_pos_nonneg 2 (D - e' - 1)); lia).
  do 3 eexists. split; [done|]. split; [done|]. split.
  - pose proof (Zdigits2_spec (n / Z.pos m2) ltac:(lia)) as (Hqd & _ & Hqn).
    assert (D - e' - 1 < Zdigits2 (n / Z.pos m2)) by (apply (Z.pow_lt_mono_r_iff 2); lia).
    rewrite exponent_eq. lia.
  - exists (inject_Z n / inject_Z (Z.pos m2))%Q. split; [|done]. apply new_location_inb; [done|by apply Z.mod_pos_bound|].
    by apply Z.div_mod.
Qed.

Lemma fdiv_near x y (X := (fval x / fval y)%Q) :
  nonneg x -> nonneg y -> (0 < fval y)%Q -> (fval x == 0 \/ pw (-900) <= X)%Q -> (X < pw 900)%Q ->
  near X (fdiv x y).
Proof.
  intros Hx Hy Hy0 HX0 HX. pose proof (nonneg_cases y Hy) as [[s' ->]|(m2 & e2 & -> & Ey & _)]; [by destruct (Qlt_irrefl 0)|].
  pose proof (nonneg_cases x Hx) as [[s ->]|(m1 & e1 & -> & Ex & _)].
  { apply near_ext with 0%Q; [unfold X; change (fval (S754_zero s)) with 0%Q; field; lra|]. by apply (near_refl (S754_zero _)). }
  pose proof (inject_Z_pos (Z.pos m1) eq_refl) as HM1. pose proof (pw_pos e1) as P1.
  destruct HX0 as [HX0|HX0]; [rewrite Ex in HX0; nra|].
  destruct (quotient_spec m1 e1 m2 e2) as (q & e & l & E & Hq & He & y & Hy' & Ey').
  { revert HX0. unfold X. by rewrite Ex, Ey. }
  unfold fdiv, SFdiv. rewrite E. cbn [xorb].
  apply (near_round X q e l y); [done|done| |done|done].
  unfold X. by rewrite Ex, Ey, <- Ey'.
Qed.

(** ** Comparisons *)

Lemma canonical_lt m e m' e' :
  exponent (Zdigits2 (Z.pos m) + e) = e -> exponent (Zdigits2 (Z.pos m') + e') = e' -> e < e' ->
  (inject_Z (Z.pos m) * pw e < inject_Z (Z.pos m') * pw e')%Q.
Proof.
  rewrite !exponent_eq. intros Hc Hc' He.
  destruct (Zdigits2_spec (Z.pos m) ltac:(lia)) as (Hhi & _ & _).
  destruct (Zdigits2_spec (Z.pos m') ltac:(lia)) as (_ & Hlo & _). specialize (Hlo eq_refl).
  assert (Zdigits2 (Z.pos m) <= 53 /\ Zdigits2 (Z.pos m') = 53) as [Hd Hd'] by lia. rewrite Hd' in Hlo.
  assert (Z.pos m < 2 ^ 53) as Hm by (pose proof (Z.pow_le_mono_r 2 (Zdigits2 (Z.pos m)) 53); lia).
  rewrite Zlt_Qlt in Hm. rewrite Zle_Qle in Hlo. rewrite <- pw_Z in Hm, Hlo by done.
  pose proof (pw_pos e). pose proof (pw_pos e').
  apply Qlt_le_trans with (pw 53 * pw e)%Q; [by apply Qmult_lt_r|].
  apply Qle_trans with (pw 52 * pw e')%Q; [|by apply mul_le_pw].
  rewrite <- !pw_add. apply pw_mono. lia.
Qed.

Lemma finite_pos m e : (0 < inject_Z (Z.pos m) * pw e)%Q.
Proof. apply Qmult_lt_0_compat; [by apply inject_Z_pos|apply pw_pos]. Qed.

Lemma compare_spec x y :
  nonneg x -> nonneg y -> exists c, SFcompare x y = Some c
    /\ match c with Eq => fval x == fval y | Lt => (fval x < fval y)%Q | Gt => (fval y < fval x)%Q end.
Proof.
  intros Hx Hy. pose proof (nonneg_cases x Hx) as [[s ->]|(m & e & -> & Ex & Hc)];
    pose proof (nonneg_cases y Hy) as [[s' ->]|(m' & e' & -> & Ey & Hc')]; cbn [SFcompare]; eexists;
    (split; [reflexivity|cbv iota]).
  - done.
  - rewrite Ey. apply finite_pos.
  - rewrite Ex. apply finite_pos.
  - change IntDef.Z.compare with Z.compare. destruct (Z.compare_spec e e') as [->|E|E]; cbv iota.
    + change (Pos.compare_cont Eq m m') with (Z.pos m ?= Z.pos m').
      destruct (Z.compare_spec (Z.pos m) (Z.pos m')) as [E|E|E].
      * by rewrite Ex, Ey, E.
      * rewrite Ex, Ey. apply Qmult_lt_r; [apply pw_pos|]. by rewrite <- Zlt_Qlt.
      * rewrite Ex, Ey. apply Qmult_lt_r; [apply pw_pos|]. by rewrite <- Zlt_Qlt.
    + rewrite Ex, Ey. by apply canonical_lt.
    + rewrite Ex, Ey. by apply canonical_lt.
Qed.

Lemma fle_spec x y : nonneg x -> nonneg y -> fle x y = true <-> (fval x <= fval y)%Q.
Proof.
  intros Hx Hy. destruct (compare_spec x y Hx Hy) as (c & E & Hc). unfold fle, SFleb. rewrite E.
  destruct c; (split; [intros; lra|done]) || (split; [done|intros; lra]).
Qed.

Lemma flt_spec x y : nonneg x -> nonneg y -> flt x y = true <-> (fval x < fval y)%Q.
Proof.
  intros Hx Hy. destruct (compare_spec x y Hx Hy) as (c & E & Hc). unfold flt, SFltb. rewrite E.
  destruct c; (split; [intros; lra|done]) || (split; [done|intros; lra]).
Qed.

Lemma nonneg_zero s : nonneg (S754_zero s).
Proof. by split. Qed.

Lemma near_upper X r : near X r -> (fval r <= X + (X * unit_roundoff + half_subnormal))%Q.
Proof. intros N. pose proof (near_err _ _ N) as He. apply Qabs_Qle_condition in He. lra. Qed.

(** ** Durations in seconds *)

Definition nanos (d : Z) : Q := inject_Z d / inject_Z Second.

(** A relative slack of four roundings, and an absolute one below any use of it. *)
Definition slack : Q := pw (-51).
Definition tiny : Q := pw (-1000).

Lemma unit_value : unit_roundoff = (1 # 9007199254740992)%Q.
Proof. reflexivity. Qed.
Lemma slack_value : slack = (1 # 2251799813685248)%Q.
Proof. reflexivity. Qed.
Lemma tiny_pos : (0 < half_subnormal)%Q /\ (1024 * half_subnormal <= tiny)%Q /\ (tiny <= 1 # 1000000000000000000000000000000)%Q.
Proof.
  split_and!; [apply pw_pos| |].
  - change (1024)%Q with (pw 10). unfold half_subnormal, tiny. rewrite <- pw_add. apply pw_mono. lia.
  - apply Qle_trans with (pw (-100)); [apply pw_mono; lia|]. by vm_compute.
Qed.

Lemma Seconds_bound d :
  0 <= d < 2 ^ 63 -> nonneg (Seconds d) /\ (fval (Seconds d) <= nanos d + (nanos d * slack + tiny))%Q.
Proof.
  intros Hd. unfold Seconds. set (q := Z.quot d Second). set (r := Z.rem d Second).
  assert (0 <= q < 2 ^ 34 /\ 0 <= r < Second /\ d = Second * q + r) as (Hq & Hr & Ed).
  { unfold q, r. rewrite Z.quot_div_nonneg, Z.rem_mod_nonneg by (unfold Second; lia).
    unfold Second. Z.div_mod_to_equations. lia. }
  assert (0 < fval (of_int Second))%Q as HS by by rewrite of_int_exact.
  set (R := (inject_Z r / inject_Z Second)%Q).
  assert (fval (of_int r) / fval (of_int Second) == R)%Q as ER
    by (rewrite !of_int_exact by (unfold Second in *; lia); done).
  assert (nanos d == inject_Z q + R)%Q as EN.
  { unfold nanos, R. rewrite Ed, inject_Z_plus, inject_Z_mult. field. done. }
  rewrite EN. clear EN.
  assert (0 <= R < 1)%Q as HR.
  { split; [apply Qle_shift_div_l; [done|]|apply Qlt_shift_div_r; [done|]].
    - rewrite Qmult_0_l. change 0%Q with (inject_Z 0). rewrite <- Zle_Qle. lia.
    - rewrite Qmult_1_l. rewrite <- Zlt_Qlt. lia. }
  assert (near R (fdiv (of_int r) (of_int Second))) as NR.
  { eapply near_ext; [exact ER|]. apply fdiv_near.
    - apply of_int_nonneg. unfold Second in *. lia.
    - by apply of_int_nonneg.
    - done.
    - assert (r = 0 \/ 1 <= r) as [->|Hr1] by lia; [by left|right].
      apply Qle_trans with (pw (-30)); [apply pw_mono; lia|].
      rewrite ER. apply Qle_trans with (inject_Z 1 / inject_Z Second)%Q; [by vm_compute|].
      apply Qmult_le_r; [by vm_compute|]. by rewrite <- Zle_Qle.
    - rewrite ER. apply Qlt_trans with 1%Q; [lra|]. apply Qlt_le_trans with (pw 1); [by vm_compute|]. apply pw_mono. lia. }
  pose proof (near_upper _ _ NR) as UR. pose proof (near_pos _ _ NR) as PR.
  set (f := fdiv _ _) in *. pose proof tiny_pos as (Te & Tt & Tb).
  assert (0 <= inject_Z q)%Q as Hq0 by (change 0%Q with (inject_Z 0); rewrite <- Zle_Qle; lia).
  assert (near (inject_Z q + fval f) (fadd (of_int q) f)) as NS.
  { eapply near_ext; [|apply fadd_near]; rewrite ?of_int_exact by lia; [done|apply of_int_nonneg; lia|by eapply near_nonneg|].
    assert (inject_Z q < inject_Z (2 ^ 34))%Q as Hq1 by (rewrite <- Zlt_Qlt; lia).
    apply Qlt_le_trans with (pw 35); [|apply pw_mono; lia]. rewrite pw_Z by done.
    rewrite unit_value in UR. change (inject_Z (2 ^ 34)) with (17179869184)%Q in Hq1.
    change (inject_Z (2 ^ 35)) with (34359738368)%Q. lra. }
  split; [by eapply near_nonneg|]. pose proof (near_upper _ _ NS) as US.
  rewrite unit_value in UR, US. rewrite slack_value. lra.
Qed.

(** ** Integer parts *)

Lemma Floor_spec x :
  nonneg x -> exists z, Floor x = Some z /\ (inject_Z z <= fval x)%Q /\ (fval x < inject_Z (z + 1))%Q.
Proof.
  intros Hx. pose proof (nonneg_cases x Hx) as [[s ->]|(m & e & -> & Ex & _)].
  { exists 0. by split_and!. }
  cbn [Floor signed_mantissa]. destruct (Z.leb_spec 0 e) as [He|He].
  - exists (Z.pos m * 2 ^ e). assert (fval (S754_finite false m e) == inject_Z (Z.pos m * 2 ^ e))%Q as E
      by (rewrite Ex, pw_Z, <- inject_Z_mult by done; done).
    split; [done|]. rewrite E. split; [apply Qle_refl|]. rewrite <- Zlt_Qlt. lia.
  - exists (Z.pos m / 2 ^ (- e)). split; [done|]. pose proof (pw_pos e) as Hp.
    assert (inject_Z (2 ^ (- e)) * pw e == 1)%Q as E1
      by (rewrite <- pw_Z, <- pw_add by lia; by replace (- e + e) with 0 by lia).
    pose proof (Z.pow_pos_nonneg 2 (- e) ltac:(lia) ltac:(lia)) as H2.
    pose proof (Z.mul_div_le (Z.pos m) (2 ^ (- e)) H2) as Hlo.
    pose proof (Z.mul_succ_div_gt (Z.pos m) (2 ^ (- e)) H2) as Hhi.
    set (q := Z.pos m / 2 ^ (- e)) in *. rewrite Zle_Qle, inject_Z_mult in Hlo.
    rewrite Zlt_Qlt, inject_Z_mult in Hhi. change (Z.succ q) with (q + 1) in Hhi. rewrite Ex. split.
    + apply (mul_le_pw e) in Hlo.
      assert (inject_Z (2 ^ (- e)) * inject_Z q * pw e == inject_Z q * (inject_Z (2 ^ (- e)) * pw e))%Q as E by ring.
      rewrite E, E1 in Hlo. lra.
    + apply (Qmult_lt_r _ _ (pw e) Hp) in Hhi.
      assert (inject_Z (2 ^ (- e)) * inject_Z (q + 1) * pw e == inject_Z (q + 1) * (inject_Z (2 ^ (- e)) * pw e))%Q as E by ring.
      rewrite E, E1 in Hhi. lra.
Qed.

Lemma Floor_between x k : nonneg x -> (inject_Z k <= fval x)%Q -> (fval x < inject_Z (k + 1))%Q -> Floor x = Some k.
Proof.
  intros Hx Hlo Hhi. destruct (Floor_spec x Hx) as (z & -> & Hz & Hz'). f_equal.
  assert (k < z + 1) by (rewrite Zlt_Qlt; lra). assert (z < k + 1) by (rewrite Zlt_Qlt; lra). lia.
Qed.
