(* ===== verification/RateLimitFacts.v ===== *)
(** * Facts about the limiter

    Times are readings of one clock: [reading] relates a Go time to its position in
    nanoseconds, either on the monotonic clock or on the wall clock. *)
From S2P Require Import Prelude GoText GoTime GoFloat GoFloatFacts Errors World RateLimit.
From Stdlib Require Import QArith Qabs Lqa.
#[local] Open Scope Z_scope.

(** ** Readings *)

(** The position of a time on its clock. *)
Definition stamp (mono : bool) (t : time) (n : Z) : Prop :=
  0 <= t_nsec t < Second
  /\ if mono then t_mono t = Some n else t_mono t = None /\ n = instant t.

(** From 1885 to 2157, less a day: the wall seconds that stay packed beside a
    monotonic reading, and whose differences fit a duration. *)
Definition reading (mono : bool) (t : time) (n : Z) : Prop :=
  stamp mono t n /\ 0 <= t_sec t - wallToInternal < 2 ^ 33 - 2 ^ 17 /\ (mono = true -> 0 <= n < 2 ^ 62).

Lemma stamp_Before b t u n n' : stamp b t n -> stamp b u n' -> Before t u = (n <? n').
Proof.
  intros (Ht & Mt) (Hu & Mu). unfold Before, both_mono.
  destruct b; [by rewrite Mt, Mu|]. destruct Mt as [-> ->], Mu as [Mu ->]. unfold instant, Second in *.
  destruct (Z.ltb_spec (t_sec t) (t_sec u)), (Z.eqb_spec (t_sec t) (t_sec u)), (Z.ltb_spec (t_nsec t) (t_nsec u));
    cbn; lia.
Qed.

Lemma stamp_Equal b t u n n' : stamp b t n -> stamp b u n' -> Equal t u = (n =? n').
Proof.
  intros (Ht & Mt) (Hu & Mu). unfold Equal, both_mono.
  destruct b; [by rewrite Mt, Mu|]. destruct Mt as [-> ->], Mu as [Mu ->]. unfold instant, Second in *.
  destruct (Z.eqb_spec (t_sec t) (t_sec u)), (Z.eqb_spec (t_nsec t) (t_nsec u)); cbn; lia.
Qed.

Lemma stamp_fun b t n n' : stamp b t n -> stamp b t n' -> n = n'.
Proof. intros (_ & M) (_ & M'). destruct b; [congruence|]. destruct M, M'. by subst. Qed.

Lemma reading_stamp b t n : reading b t n -> stamp b t n.
Proof. by intros [? _]. Qed.
#[local] Hint Resolve reading_stamp : core.

(** Adding at most a day, or any duration to a wall time, stays exact. *)
Lemma Add_stamp b t n d :
  reading b t n -> 0 <= d < 2 ^ 63 -> (b = true -> d <= MaxIdleTTL) -> stamp b (Add t d) (n + d).
Proof.
  intros ((Ht & Mt) & Hs & Hn) Hd Hb. unfold Add.
  rewrite Z.quot_div_nonneg, Z.rem_mod_nonneg by (unfold Second; lia).
  assert (exists q r, 0 <= q <= d / Second + 1 /\ 0 <= r < Second /\ q * Second + r = t_nsec t + d
    /\ (if Second <=? t_nsec t + d mod Second then (d / Second + 1, t_nsec t + d mod Second - Second)
        else if t_nsec t + d mod Second <? 0 then (d / Second - 1, t_nsec t + d mod Second + Second)
             else (d / Second, t_nsec t + d mod Second)) = (q, r)) as (q & r & Hq & Hr & E & ->).
  { unfold Second in *. destruct (Z.leb_spec 1000000000 (t_nsec t + d mod 1000000000));
      [|rewrite (proj2 (Z.ltb_ge _ 0)) by (Z.div_mod_to_equations; lia)];
      (do 2 eexists; split_and!; [| | | | |done]; Z.div_mod_to_equations; lia). }
  assert (d / Second + 1 <= 2 ^ 34) as Hp by (unfold Second in *; Z.div_mod_to_equations; lia).
  unfold add_sec. cbn [t_sec t_nsec t_mono t_loc].
  destruct b.
  - specialize (Hn eq_refl). specialize (Hb eq_refl). rewrite Mt.
    assert (d / Second + 1 <= 86401)
      by (unfold MaxIdleTTL, Hour, Minute, Second in *; Z.div_mod_to_equations; lia).
    rewrite bool_decide_true by done. cbn [andb].
    rewrite (proj2 (Z.leb_le 0 _)), (proj2 (Z.ltb_lt _ (2 ^ 33))) by lia. cbn [andb t_mono].
    rewrite wrap64_small by (unfold int64_range, MaxIdleTTL, Hour, Minute, Second in *; lia).
    replace ((d <? 0) && (n <? n + d) || (0 <? d) && (n + d <? n)) with false
      by (destruct (Z.ltb_spec d 0), (Z.ltb_spec n (n + d)), (Z.ltb_spec 0 d), (Z.ltb_spec (n + d) n); cbn; lia).
    by split.
  - destruct Mt as [-> ->]. rewrite bool_decide_false by (by intros [? [=]]). cbn [andb t_mono].
    rewrite wrap64_small by (unfold int64_range, wallToInternal, Second in *; lia).
    replace (if Bool.eqb (t_sec t <? t_sec t + q) (0 <? q) then t_sec t + q
             else if 0 <? q then 2 ^ 63 - 1 else - (2 ^ 63 - 1)) with (t_sec t + q).
    2: { destruct (Z.ltb_spec (t_sec t) (t_sec t + q)), (Z.ltb_spec 0 q); cbn; lia. }
    split; [done|]. split; [done|]. unfold instant. cbn. lia.
Qed.

Lemma Sub_reading b t u n n' : reading b t n -> reading b u n' -> n' <= n -> Sub t u = n - n' /\ 0 <= n - n' < 2 ^ 63.
Proof.
  intros Ht Hu Hle. unfold Sub, both_mono. destruct b.
  - destruct Ht as ((_ & ->) & _ & Hn), Hu as ((_ & ->) & _ & Hn').
    specialize (Hn eq_refl). specialize (Hn' eq_refl).
    rewrite wrap64_small by (unfold int64_range; lia).
    rewrite (proj2 (Z.ltb_ge (n - n') 0)), (proj2 (Z.ltb_ge n n')), andb_false_r by lia. cbn [andb]. lia.
  - pose proof Ht as ((Nt & -> & En) & Rt & _). pose proof Hu as ((Nu & Mu & En') & Ru & _).
    assert ((t_sec t - t_sec u) * Second + (t_nsec t - t_nsec u) = n - n') as Ed by (subst; unfold instant; lia).
    assert (0 <= n - n' < 2 ^ 63) as Hr by (unfold Second in *; lia).
    rewrite Ed, wrap64_small by (unfold int64_range; lia).
    rewrite (stamp_Equal false (Add u (n - n')) t (n' + (n - n')) n) by (by apply Add_stamp || by auto).
    rewrite (proj2 (Z.eqb_eq _ _)) by lia. lia.
Qed.

(** ** Invariants *)

(** What [New] checks, of a refill rate that is a binary64 number. *)
Record limiter_ok (l : Limiter) : Prop := {
  lk_capacity : 1 <= capacity l <= MaxCapacity;
  lk_rate : nonneg (refillRate l);
  lk_rate_bounds : (0 < fval (refillRate l) <= 100000)%Q;
  lk_clients : 1 <= maxClients l <= MaxClients;
  lk_ttl : 0 <= idleTTL l <= MaxIdleTTL;
  lk_overflow : overflow l = RejectNew \/ overflow l = EvictOldest;
}.

Definition bucket_ok (l : Limiter) (b : bucket) : Prop :=
  nonneg (tokens b) /\ (fval (tokens b) <= inject_Z (capacity l))%Q /\ lastSeen b = lastRefill b.

Record limiter_inv (l : Limiter) : Prop := {
  li_ok : limiter_ok l;
  li_size : Z.of_nat (size (buckets l)) <= maxClients l;
  li_buckets : map_Forall (fun key b => validKey key = true /\ bucket_ok l b) (buckets l);
}.

Lemma limiter_ok_set l bs : limiter_ok l -> limiter_ok (set_buckets l bs).
Proof. intros []. by split. Qed.
#[local] Hint Resolve limiter_ok_set : core.

Lemma capacity_range l n : limiter_ok l -> 0 <= n <= capacity l -> 0 <= n < 2 ^ 53.
Proof. intros [H]. unfold MaxCapacity in H. lia. Qed.

Lemma New_inv sysnow cfg l :
  valid_binary prec emax (RefillRate cfg) = true -> New sysnow cfg = inl l ->
  limiter_inv l /\ buckets l = ∅ /\ capacity l = Capacity cfg /\ refillRate l = RefillRate cfg
  /\ idleTTL l = IdleTTL cfg /\ maxClients l = cfg_MaxClients cfg /\ overflow l = Overflow cfg.
Proof.
  intros Hv. unfold New, Validate. repeat (break_if; [done|]). intros [= <-]. bool_simpl.
  split; [|by split_and!]. split; cbn; [|rewrite map_size_empty; lia|apply map_Forall_empty].
  destruct cfg as [cap rate clients ttl ov ck].
  cbn [Capacity RefillRate cfg_MaxClients IdleTTL Overflow cfg_Clock] in *.
  assert (nonneg rate) as Hr.
  { destruct rate as [s|s| |s m e]; try done. split; [done|]. intros s' m' e' [= -> -> ->].
    cbn [valid_binary] in Hv. destruct s'; [done|]. split; [done|]. unfold bounded, canonical_mantissa in Hv.
    apply andb_true_iff in Hv as [Hv _]. by apply Z.eqb_eq in Hv. }
  split; cbn; try done; [lia| |lia|].
  - split.
    + apply Qnot_le_lt. intros Hle. apply (fle_spec _ _ Hr (nonneg_zero false)) in Hle. unfold f_zero in *. congruence.
    + apply Qnot_lt_le. intros Hlt. assert (fval MaxRefillRate == 100000)%Q as E by (by apply of_int_exact).
      rewrite <- E in Hlt. apply flt_spec in Hlt; [congruence|by apply of_int_nonneg|done].
  - destruct (Z.eqb_spec ov RejectNew); [by left|]. destruct (Z.eqb_spec ov EvictOldest); [by right|done].
Qed.

(** ** One bucket *)

(** The tokens that [d] nanoseconds bring, and the rounding they may bring with them. *)
Definition earned (l : Limiter) (d : Z) : Q := fval (refillRate l) * nanos d.
Definition refill_slack : Q := 1 # 4294967296.

Lemma nanos_nonneg d : 0 <= d -> (0 <= nanos d)%Q.
Proof.
  intros Hd. unfold nanos. apply Qle_shift_div_l; [done|]. rewrite Qmult_0_l.
  change 0%Q with (inject_Z 0). by rewrite <- Zle_Qle.
Qed.

Lemma nanos_add a b : (nanos (a + b) == nanos a + nanos b)%Q.
Proof. unfold nanos. rewrite inject_Z_plus. field. done. Qed.

Lemma refill_tokens l eff b d :
  limiter_ok l -> bucket_ok l b -> Sub eff (lastRefill b) = d -> 0 <= d < 2 ^ 63 ->
  let b' := refill l eff b in
  nonneg (tokens b') /\ (fval (tokens b') <= inject_Z (capacity l))%Q
  /\ (fval (tokens b') <= fval (tokens b) + (earned l d + refill_slack))%Q.
Proof.
  intros Hl (Hn & Hc & _) <- Hd. cbv zeta. unfold refill. destruct (After _ _).
  2: { assert (0 <= earned l (Sub eff (lastRefill b)))%Q.
       { unfold earned. pose proof (lk_rate_bounds _ Hl). pose proof (nanos_nonneg _ (proj1 Hd)). nra. }
       unfold refill_slack. split_and!; [done|done|lra]. }
  set (d := Sub _ _) in *. cbn [tokens].
  destruct (Seconds_bound d Hd) as [Hs Us]. set (el := Seconds d) in *. pose proof (nonneg_fval _ Hs) as Hs0.
  pose proof (lk_rate_bounds _ Hl) as [Hr0 Hr1]. pose proof (nanos_nonneg d (proj1 Hd)) as HN.
  set (rateq := fval (refillRate l)) in *. unfold earned. fold rateq. set (N := nanos d) in *.
  assert (N <= 17179869184)%Q as HN1.
  { unfold N, nanos. apply Qle_shift_div_r; [done|].
    assert (inject_Z d <= inject_Z (2 ^ 63))%Q by (rewrite <- Zle_Qle; lia).
    eapply Qle_trans; [eassumption|]. by vm_compute. }
  assert (fval el * rateq <= rateq * N + (rateq * N * slack + 100000 * tiny))%Q as HX.
  { pose proof tiny_pos as (_ & Ht & _). assert (0 < tiny)%Q by apply pw_pos.
    apply Qle_trans with ((N + (N * slack + tiny)) * rateq)%Q; [by apply Qmult_le_compat_r; [|apply Qlt_le_weak]|].
    assert (tiny * rateq <= tiny * 100000)%Q by (rewrite !(Qmult_comm tiny); apply Qmult_le_compat_r; [done|by apply Qlt_le_weak]).
    lra. }
  set (Y := (rateq * N)%Q) in *. assert (0 <= Y <= 1717986918400000)%Q as HY by (unfold Y; split; nra).
  assert (0 <= fval el * rateq)%Q as HX0 by nra.
  rewrite slack_value in HX. pose proof tiny_pos as (Te & Tt & Tb).
  assert (pw 60 <= pw 900)%Q as Hbig by (apply pw_mono; lia).
  assert (pw 60 == 1152921504606846976)%Q as E60 by reflexivity.
  assert (near (fval el * rateq) (fmul el (refillRate l))) as NP by (apply fmul_near; [done|apply lk_rate; done|fold rateq; lra]).
  pose proof (near_upper _ _ NP) as UP. rewrite unit_value in UP. pose proof (near_pos _ _ NP) as P0.
  set (P := fmul el (refillRate l)) in *.
  assert (inject_Z (capacity l) <= 100000)%Q as Hcap
    by (pose proof (lk_capacity _ Hl); change 100000%Q with (inject_Z 100000); rewrite <- Zle_Qle; unfold MaxCapacity in *; lia).
  pose proof (nonneg_fval _ Hn) as Ht0.
  assert (near (fval (tokens b) + fval P) (fadd (tokens b) P)) as NS
    by (apply fadd_near; [done|by eapply near_nonneg|lra]).
  pose proof (near_upper _ _ NS) as US. rewrite unit_value in US. pose proof (near_nonneg _ _ NS) as HSn.
  set (sum := fadd (tokens b) P) in *. pose proof (capacity_range l (capacity l) Hl ltac:(pose proof (lk_capacity _ Hl); lia)) as Hcr.
  pose proof (of_int_exact _ Hcr) as Ec. pose proof (of_int_nonneg (capacity l) ltac:(lia)) as Hcn.
  unfold refill_slack. destruct (flt (of_int (capacity l)) sum) eqn:Ef.
  - apply flt_spec in Ef; [|done|done]. rewrite Ec in Ef. rewrite Ec. split_and!; [done|apply Qle_refl|].
    destruct (Qlt_le_dec Y 100000); lra.
  - assert (fval sum <= inject_Z (capacity l))%Q as Hs1.
    { apply Qnot_lt_le. intros Hlt. rewrite <- Ec in Hlt. apply flt_spec in Hlt; [congruence|done|done]. }
    split_and!; [done|done|]. destruct (Qlt_le_dec Y 100000); lra.
Qed.

(** The rounding of one withdrawal. *)
Definition take_slack : Q := 1 # 4294967296.

Lemma wholeTokens_range x cap : 0 <= cap -> 0 <= wholeTokens x cap <= cap.
Proof.
  intros Hc. unfold wholeTokens. destruct (fle _ _); [lia|].
  destruct (Z.ltb_spec (to_int64 (Floor (fadd x nano))) 0); [lia|].
  destruct (Z.ltb_spec cap (to_int64 (Floor (fadd x nano)))); lia.
Qed.

Lemma to_int64_range z : int64_range (to_int64 z).
Proof.
  unfold to_int64, int64_range. destruct z as [z|]; [|lia].
  destruct (Z.leb_spec (- 2 ^ 63) z), (Z.ltb_spec z (2 ^ 63)); cbn; lia.
Qed.

Lemma take_spec l eff cost b :
  limiter_ok l -> nonneg (tokens b) -> (fval (tokens b) <= inject_Z (capacity l))%Q -> 1 <= cost <= capacity l ->
  let '(d, b') := take_tokens l eff cost b in
  lastRefill b' = lastRefill b /\ lastSeen b' = lastSeen b
  /\ nonneg (tokens b') /\ (fval (tokens b') <= inject_Z (capacity l))%Q
  /\ (Allowed d = true <-> (inject_Z cost <= fval (tokens b))%Q)
  /\ 0 <= Remaining d <= capacity l
  /\ (Allowed d = false -> b' = b /\ Reason d = ReasonRateLimited)
  /\ (Allowed d = true -> Reason d = ReasonAllowed /\ RetryAfter d = 0
        /\ near (fval (tokens b) - inject_Z cost) (tokens b')
        /\ (fval (tokens b') + inject_Z cost <= fval (tokens b) + take_slack)%Q).
Proof.
  intros Hl Hn Hc Hcost. pose proof (capacity_range l cost Hl ltac:(lia)) as Hr.
  pose proof (of_int_nonneg cost ltac:(lia)) as Hcn. pose proof (of_int_exact _ Hr) as Ec.
  assert (0 <= capacity l) as Hc0 by lia. pose proof (wholeTokens_range) as Hw.
  unfold take_tokens. destruct (fle (of_int cost) (tokens b)) eqn:Ef.
  - pose proof Ef as Hle. apply fle_spec in Hle; [|done|done]. rewrite Ec in Hle.
    assert (inject_Z (capacity l) <= 100000)%Q as Hcap
      by (pose proof (lk_capacity _ Hl); change 100000%Q with (inject_Z 100000); rewrite <- Zle_Qle; unfold MaxCapacity in *; lia).
    assert (pw 17 <= pw 900)%Q as Hbig by (apply pw_mono; lia). assert (pw 17 == 131072)%Q as E17 by reflexivity.
    assert (near (fval (tokens b) - inject_Z cost) (fsub (tokens b) (of_int cost))) as NS.
    { eapply near_ext; [|apply fsub_near; [done|done|by rewrite Ec|lra]]. by rewrite Ec. }
    set (left := fsub _ _) in *. pose proof (near_nonneg _ _ NS) as Hleft.
    assert (flt left f_zero = false) as ->.
    { apply not_true_is_false. intros Hlt. apply flt_spec in Hlt; [|done|apply nonneg_zero].
      pose proof (near_pos _ _ NS). cbn in Hlt. apply (Qlt_not_le _ _ Hlt). done. }
    cbn [tokens lastRefill lastSeen Allowed Remaining Reason RetryAfter].
    pose proof (near_upper _ _ NS) as US. rewrite unit_value in US. pose proof tiny_pos as (Te & Tt & Tb).
    assert (1 <= inject_Z cost)%Q by (change 1%Q with (inject_Z 1); rewrite <- Zle_Qle; lia).
    assert (0 <= fval (tokens b))%Q by by apply nonneg_fval.
    split_and!; try done.
    + apply (near_le _ _ NS); [|lra]. split; [lia|]. pose proof (lk_capacity _ Hl). unfold MaxCapacity in *. lia.
    + by apply Hw.
    + by apply Hw.
    + intros _. split_and!; try done. unfold take_slack. lra.
  - cbn [tokens lastRefill lastSeen Allowed Remaining Reason RetryAfter]. split_and!; try done; try by apply Hw.
    split; [done|]. intros Hle. exfalso. rewrite <- Ec in Hle. apply fle_spec in Hle; [congruence|done|done].
Qed.

(** ** Serving one bucket *)

Lemma serve_spec l mono now n key cost entry L :
  limiter_ok l -> bucket_ok l entry -> 1 <= cost <= capacity l ->
  reading mono now n -> reading mono (lastRefill entry) L ->
  exists d b t', serve l now key cost entry = (d, set_buckets l (<[key := b]> (buckets l)))
    /\ bucket_ok l b /\ reading mono (lastRefill b) (Z.max n L)
    /\ (Allowed d = true -> (fval (tokens b) + inject_Z cost <= t' + take_slack)%Q)
    /\ (Allowed d = false -> (fval (tokens b) <= t')%Q)
    /\ t' = (fval (tokens entry) + (earned l (Z.max n L - L) + refill_slack))%Q.
Proof.
  intros Hl Hb Hcost Hnow HL. pose proof Hb as (Hn & Hc & Hsame).
  assert (exists eff, effective now entry = eff /\ reading mono eff (Z.max n L)) as (eff & Eeff & Hr).
  { unfold effective. rewrite (stamp_Before mono _ _ n L) by auto. destruct (Z.ltb_spec n L); eexists;
      (split; [reflexivity|]); [by rewrite Z.max_r by lia|by rewrite Z.max_l by lia]. }
  destruct (Sub_reading mono eff (lastRefill entry) (Z.max n L) L Hr HL ltac:(lia)) as [Es Hd].
  pose proof (refill_tokens l eff entry _ Hl Hb Es Hd) as (Hn' & Hc' & Ht').
  assert (lastSeen (touch eff (refill l eff entry)) = lastRefill (touch eff (refill l eff entry))
    /\ reading mono (lastRefill (touch eff (refill l eff entry))) (Z.max n L)
    /\ tokens (touch eff (refill l eff entry)) = tokens (refill l eff entry)) as (Hsame' & Hlast & Htok).
  { unfold touch, refill, After. rewrite (stamp_Before mono (lastRefill entry) eff L (Z.max n L)) by auto.
    destruct (Z.ltb_spec L (Z.max n L)); cbn [lastSeen lastRefill tokens]; rewrite Hsame;
      rewrite (stamp_Before mono (lastRefill entry) eff L (Z.max n L)) by auto;
      destruct (Z.ltb_spec L (Z.max n L)); cbn [lastSeen lastRefill tokens]; try lia; (split_and!; [done| |done]).
    - done.
    - by replace (Z.max n L) with L by lia. }
  unfold serve. rewrite Eeff. pose proof (take_spec l eff cost (touch eff (refill l eff entry)) Hl) as Ht.
  rewrite Htok in Ht. specialize (Ht Hn' Hc' Hcost).
  destruct (take_tokens _ _ _ _) as [d b]. destruct Ht as (E1 & E2 & Hnb & Hcb & _ & _ & Hno & Hyes).
  exists d, b, (fval (tokens entry) + (earned l (Z.max n L - L) + refill_slack))%Q.
  split_and!; try done.
  - split_and!; [done|done|congruence].
  - by rewrite E1.
  - intros Hd'. destruct (Hyes Hd') as (_ & _ & _ & Hle). lra.
  - intros Hd'. destruct (Hno Hd') as [-> _]. by rewrite Htok.
Qed.

(** ** The bounded map *)

Definition position (mono : bool) (t : time) : Z := if mono then default 0 (t_mono t) else instant t.

Lemma stamp_position mono t n : stamp mono t n -> position mono t = n.
Proof. intros [_ Hm]. unfold position. destruct mono; [by rewrite Hm|by destruct Hm]. Qed.

(** The order of [evictOldestLocked]: last seen, then key. *)
Definition before (mono : bool) (a b : bytes * bucket) : Prop :=
  position mono (lastSeen a.2) < position mono (lastSeen b.2)
  \/ position mono (lastSeen a.2) = position mono (lastSeen b.2) /\ bytes_ltb b.1 a.1 = false.

Lemma before_refl mono a : before mono a a.
Proof. right. split; [done|apply bytes_ltb_irrefl]. Qed.

Lemma before_trans mono a b c : before mono a b -> before mono b c -> before mono a c.
Proof.
  intros [?|[E Hab]] [?|[E' Hbc]]; [left; lia|left; lia|left; lia|]. right. split; [lia|].
  destruct (bytes_ltb c.1 a.1) eqn:Hca; [|done].
  destruct (decide (a.1 = b.1)) as [Ea|Hne]; [congruence|].
  destruct (bytes_ltb a.1 b.1) eqn:Hlt; [by rewrite (bytes_ltb_trans c.1 a.1 b.1) in Hbc|].
  by rewrite (bytes_ltb_total a.1 b.1) in Hab.
Qed.

Lemma before_antisym mono a b : before mono a b -> before mono b a -> a.1 = b.1.
Proof.
  intros [?|[E Hab]] [?|[E' Hba]]; try lia. destruct (decide (a.1 = b.1)) as [|Hne]; [done|].
  by rewrite (bytes_ltb_total b.1 a.1) in Hba.
Qed.

Definition all_read (mono : bool) (bs : gmap bytes bucket) : Prop :=
  map_Forall (fun _ b => exists n, reading mono (lastSeen b) n) bs.

Lemma older_step mono a x n m :
  stamp mono (lastSeen a.2) n -> stamp mono (lastSeen x.2) m ->
  exists y, older (Some a) x = Some y /\ (y = a \/ y = x) /\ before mono y a /\ before mono y x.
Proof.
  intros Ha Hx. destruct a as [ka ba], x as [kx bx]. cbn [fst snd] in *. unfold older. cbn [fst snd].
  rewrite (stamp_Before mono _ _ m n), (stamp_Equal mono _ _ m n) by done.
  pose proof (stamp_position _ _ _ Ha). pose proof (stamp_position _ _ _ Hx).
  destruct (_ || _) eqn:E; (eexists; split; [done|]).
  - split; [by right|]. split; [|apply before_refl]. unfold before. cbn [fst snd].
    apply orb_true_iff in E as [E|E]; bool_simpl; [left; lia|right]. split; [lia|by apply bytes_ltb_asym].
  - split; [by left|]. split; [apply before_refl|]. unfold before. cbn [fst snd]. bool_simpl.
    destruct (Z.eqb_spec m n); [right|left; lia]. split; [lia|done].
Qed.

Lemma older_fold mono l a :
  (forall x, x ∈ a :: l -> exists n, stamp mono (lastSeen x.2) n) ->
  exists y, fold_left older l (Some a) = Some y /\ y ∈ a :: l /\ forall x, x ∈ a :: l -> before mono y x.
Proof.
  revert a. induction l as [|x l IH]; intros a Hs; cbn [fold_left].
  - exists a. split_and!; [done|set_solver|]. intros x ->%list_elem_of_singleton. apply before_refl.
  - destruct (Hs a) as [n Ha]; [set_solver|]. destruct (Hs x) as [m Hx]; [set_solver|].
    destruct (older_step mono a x n m Ha Hx) as (y & -> & Hy & Hya & Hyx).
    destruct (IH y) as (z & Ez & Hz & Hmin).
    { intros w [->|Hw]%elem_of_cons; [destruct Hy as [->| ->]; apply Hs; set_solver|apply Hs; set_solver]. }
    exists z. split; [done|]. split.
    + apply elem_of_cons in Hz as [->|Hz]; [destruct Hy as [->| ->]; set_solver|set_solver].
    + assert (before mono z y) as Hzy by (apply Hmin; set_solver).
      intros w [->|[->|Hw]%elem_of_cons]%elem_of_cons; [by eapply before_trans|by eapply before_trans|].
      apply Hmin. set_solver.
Qed.

Section Map.
Context (range : gmap bytes bucket -> list (bytes * bucket)).
Context (range_perm : forall m, range m ≡ₚ map_to_list m).

(** The victim of an eviction is the first entry in that order. *)
Lemma evict_spec mono l :
  all_read mono (buckets l) -> buckets l <> ∅ ->
  exists key b, buckets l !! key = Some b
    /\ evictOldestLocked range l = set_buckets l (delete key (buckets l))
    /\ forall key' b', buckets l !! key' = Some b' -> before mono (key, b) (key', b').
Proof.
  intros Hr Hne. unfold evictOldestLocked.
  assert (forall x, x ∈ range (buckets l) <-> buckets l !! x.1 = Some x.2) as Hin.
  { intros [k b]. rewrite range_perm. apply elem_of_map_to_list. }
  destruct (range (buckets l)) as [|a rest] eqn:E.
  - exfalso. apply Hne, map_to_list_empty_iff. apply Permutation_nil_r. by rewrite <- range_perm, E.
  - cbn [fold_left older]. destruct (older_fold mono rest a) as ([key b] & -> & Hy & Hmin).
    { intros x Hx%Hin. destruct (Hr _ _ Hx) as [n Hn]. exists n. auto. }
    exists key, b. split; [by apply (Hin (key, b))|]. split; [done|].
    intros key' b' Hb'. apply Hmin. by apply Hin.
Qed.

Lemma set_buckets_eta l : set_buckets l (buckets l) = l.
Proof. by destruct l. Qed.

Lemma cleanup_spec l now (l' := (cleanupLocked l now).2) :
  l' = set_buckets l (buckets l')
  /\ forall key b, buckets l' !! key = Some b <-> buckets l !! key = Some b /\ isExpired l now b = false.
Proof.
  unfold l', cleanupLocked. destruct (Z.leb_spec (idleTTL l) 0); cbn [snd].
  - split; [by rewrite set_buckets_eta|]. intros key b. unfold isExpired.
    rewrite (proj2 (Z.ltb_ge _ _)) by lia. cbn. naive_solver.
  - split; [done|]. intros key b. cbn [buckets set_buckets]. by rewrite map_lookup_filter_Some.
Qed.

(** What the limiter forgets: nothing, an idle bucket, or the victim of an eviction. *)
Definition forgotten (mono : bool) (l : Limiter) (now : time) (key : bytes) (b : bucket) : Prop :=
  isExpired l now b = true
  \/ overflow l = EvictOldest
     /\ forall key' b', buckets l !! key' = Some b' -> isExpired l now b' = false -> before mono (key, b) (key', b').

Lemma make_room_spec mono l now :
  limiter_ok l -> all_read mono (buckets l) -> Z.of_nat (size (buckets l)) <= maxClients l ->
  let '(l', admitted) := make_room range l now in
  l' = set_buckets l (buckets l')
  /\ buckets l' ⊆ buckets l
  /\ (forall key b, buckets l !! key = Some b -> buckets l' !! key = None ->
       maxClients l <= Z.of_nat (size (buckets l)) /\ forgotten mono l now key b)
  /\ (admitted = true -> Z.of_nat (size (buckets l')) < maxClients l)
  /\ (admitted = false -> overflow l = RejectNew /\ maxClients l <= Z.of_nat (size (buckets l'))).
Proof.
  intros Hl Hr Hs. unfold make_room. destruct (Z.leb_spec (maxClients l) (Z.of_nat (size (buckets l)))) as [Hfull|].
  2: { split_and!; [by rewrite set_buckets_eta|done|congruence|lia|done]. }
  pose proof (cleanup_spec l now) as [El' Hlook]. set (l' := (cleanupLocked l now).2) in *.
  assert (maxClients l' = maxClients l /\ overflow l' = overflow l) as [-> ->] by by rewrite El'.
  assert (buckets l' ⊆ buckets l) as Hsub by (apply map_subseteq_spec; intros k b Hb; by apply Hlook).
  assert (forall key b, buckets l !! key = Some b -> buckets l' !! key = None -> isExpired l now b = true) as Hexp.
  { intros key b Hb Hno. apply not_false_iff_true. intros Hf. assert (buckets l' !! key = Some b) by (by apply Hlook). congruence. }
  destruct (Z.leb_spec (maxClients l) (Z.of_nat (size (buckets l')))) as [Hfull'|].
  2: { split_and!; [done|done| |done|done]. intros key b Hb Hno. split; [done|left; by eapply Hexp]. }
  destruct (Z.eqb_spec (overflow l) RejectNew) as [|Hne].
  { split_and!; [done|done| |done|done]. intros key b Hb Hno. split; [done|left; by eapply Hexp]. }
  assert (buckets l' <> ∅) as Hne'.
  { intros E. rewrite E, map_size_empty in Hfull'. pose proof (lk_clients _ Hl). lia. }
  assert (all_read mono (buckets l')) as Hr' by (intros k b Hb; apply (Hr k), Hlook, Hb).
  destruct (evict_spec mono l' Hr' Hne') as (key & b & Hb & Ev & Hmin). rewrite Ev. cbn [buckets set_buckets].
  split_and!.
  - by rewrite El'.
  - etransitivity; [apply delete_subseteq|done].
  - intros k c Hc Hno. split; [done|]. apply lookup_delete_None in Hno as [<-|Hno]; [|left; by eapply Hexp].
    assert (c = b) as -> by (apply Hlook in Hb as [Hb _]; congruence).
    right. split; [by destruct (lk_overflow _ Hl)|]. intros k' c' Hc' Hf. apply Hmin. by apply Hlook.
  - intros _. rewrite map_size_delete, Hb. pose proof (map_subseteq_size _ _ Hsub).
    assert (size (buckets l') <> 0%nat) by by apply map_size_ne_0_lookup; eexists.
    lia.
  - done.
Qed.

(** ** The locked section *)

Definition read_inv (mono : bool) (l : Limiter) : Prop := limiter_inv l /\ all_read mono (buckets l).

Lemma set_buckets_inv mono l bs :
  read_inv mono l -> bs ⊆ buckets l -> read_inv mono (set_buckets l bs).
Proof.
  intros [[Hl Hs Hb] Hr] Hsub. split; [split|].
  - auto.
  - cbn. pose proof (map_subseteq_size _ _ Hsub). lia.
  - intros k b Hk. apply (Hb k b). by eapply lookup_weaken.
  - intros k b Hk. apply (Hr k b). by eapply lookup_weaken.
Qed.

Lemma insert_inv mono l key b :
  read_inv mono l -> validKey key = true -> bucket_ok l b -> (exists n, reading mono (lastSeen b) n) ->
  is_Some (buckets l !! key) \/ Z.of_nat (size (buckets l)) < maxClients l ->
  read_inv mono (set_buckets l (<[key := b]> (buckets l))).
Proof.
  intros [[Hl Hs Hb] Hr] Hk Hok Hn Hroom. split; [split|].
  - auto.
  - cbn. rewrite map_size_insert. destruct Hroom as [[c ->]|]; [unfold id; lia|].
    destruct (buckets l !! key); unfold id; lia.
  - cbn. apply map_Forall_insert_2; [by split|done].
  - cbn. by apply map_Forall_insert_2.
Qed.

(** What one call meets: its bucket, room for a new one, or a full map. *)
Inductive admission (mono : bool) (l : Limiter) (now : time) (key : bytes) (cost : Z) : Decision * Limiter -> Prop :=
  | admission_known entry :
      buckets l !! key = Some entry -> isExpired l now entry = false ->
      admission mono l now key cost (serve l now key cost entry)
  | admission_fresh l1 :
      (forall entry, buckets l !! key = Some entry -> isExpired l now entry = true) ->
      l1 = set_buckets l (buckets l1) -> buckets l1 ⊆ delete key (buckets l) ->
      (forall k b, k <> key -> buckets l !! k = Some b -> buckets l1 !! k = None ->
        maxClients l <= Z.of_nat (size (buckets l)) /\ forgotten mono l now k b) ->
      Z.of_nat (size (buckets l1)) < maxClients l ->
      admission mono l now key cost (serve l1 now key cost (mkBucket (of_int (capacity l)) now now))
  | admission_full l1 :
      (forall entry, buckets l !! key = Some entry -> isExpired l now entry = true) ->
      l1 = set_buckets l (buckets l1) -> buckets l1 ⊆ delete key (buckets l) ->
      (forall k b, k <> key -> buckets l !! k = Some b -> buckets l1 !! k = None -> forgotten mono l now k b) ->
      overflow l = RejectNew -> maxClients l <= Z.of_nat (size (buckets l)) ->
      admission mono l now key cost (mkDecision false 0 0 zero_time ReasonCapacity, l1).

Lemma admit_admission mono l now key cost :
  read_inv mono l -> admission mono l now key cost (allowLocked range l now key cost).
Proof.
  intros Hinv. unfold allowLocked.
  assert (forall l0, l0 = set_buckets l (delete key (buckets l)) ->
    (forall entry, buckets l !! key = Some entry -> isExpired l now entry = true) ->
    admission mono l now key cost (enter range l0 now key cost)) as Henter.
  { intros l0 E0 Hnone. assert (read_inv mono l0) as [[Hl Hs Hb] Hr]
      by (rewrite E0; apply set_buckets_inv; [done|apply delete_subseteq]).
    assert (buckets l0 = delete key (buckets l)) as Eb by by rewrite E0.
    pose proof (make_room_spec mono l0 now Hl Hr Hs) as Hroom. unfold enter.
    destruct (make_room range l0 now) as [l1 admitted]. destruct Hroom as (E1 & Hsub & Hforget & Hyes & Hno).
    assert (l1 = set_buckets l (buckets l1)) as E1' by (rewrite E1 at 1; by rewrite E0).
    assert (size (buckets l0) <= size (buckets l))%nat as Hsz by (rewrite Eb; apply map_subseteq_size, delete_subseteq).
    assert (maxClients l0 = maxClients l /\ overflow l0 = overflow l /\ capacity l1 = capacity l) as (Em & Eo & Ec)
      by (rewrite E1', E0; done).
    rewrite Eb in Hsub.
    assert (forall k b, k <> key -> buckets l !! k = Some b -> buckets l1 !! k = None ->
      maxClients l <= Z.of_nat (size (buckets l)) /\ forgotten mono l now k b) as Hf.
    { intros k b Hk Hkb Hnk. destruct (Hforget k b) as [Hfull Hfg]; [by rewrite Eb, lookup_delete_ne by done|done|].
      split; [lia|]. destruct Hfg as [Hexp|[Hov Hmin]]; [left; by rewrite E0 in Hexp|right].
      split; [congruence|]. intros k' b' Hk' Hexp. apply Hmin; [|by rewrite E0].
      rewrite Eb. destruct (decide (k' = key)) as [->|]; [|by rewrite lookup_delete_ne].
      rewrite (Hnone _ Hk') in Hexp. done. }
    destruct admitted.
    - rewrite Ec. apply admission_fresh; try done. rewrite <- Em. by apply Hyes.
    - destruct (Hno eq_refl) as [Hrej Hfull]. apply admission_full; try done; [naive_solver|congruence|].
      pose proof (map_subseteq_size _ _ Hsub). pose proof (map_subseteq_size _ _ (delete_subseteq (buckets l) key)). lia. }
  destruct (buckets l !! key) as [entry|] eqn:E.
  - destruct (isExpired l now entry) eqn:Ee; [|by eapply admission_known].
    apply Henter; [done|]. intros e' [= <-]. done.
  - rewrite <- (set_buckets_eta l) at 2. apply Henter; [|done]. by rewrite delete_id.
Qed.

(** ** Preservation *)

Lemma fresh_ok l now : limiter_ok l -> bucket_ok l (mkBucket (of_int (capacity l)) now now).
Proof.
  intros Hl. pose proof (lk_capacity _ Hl).
  pose proof (of_int_exact (capacity l) (capacity_range l (capacity l) Hl ltac:(lia))) as E.
  split_and!; cbn; [apply of_int_nonneg; unfold MaxCapacity in *; lia| |done]. rewrite E. apply Qle_refl.
Qed.

(** What every decision reports. *)
Definition decision_ok (l : Limiter) (d : Decision) : Prop :=
  0 <= Remaining d <= capacity l /\ int64_range (RetryAfter d)
  /\ (Allowed d = true <-> Reason d = ReasonAllowed)
  /\ (Allowed d = true -> RetryAfter d = 0).

Lemma duration_range x r : int64_range (durationForTokens x r).
Proof.
  unfold durationForTokens. destruct (fle _ _); [done|]. destruct (_ || _); [|apply to_int64_range].
  done.
Qed.

Lemma serve_decision l now key cost entry :
  0 <= capacity l -> decision_ok l (serve l now key cost entry).1.
Proof.
  intros Hc. unfold serve, take_tokens. destruct (fle _ _); cbn [fst]; unfold decision_ok; cbn;
    (split_and!; [by apply wholeTokens_range|by apply wholeTokens_range| | |]); try done; try apply duration_range.
  all: apply duration_range.
Qed.

Lemma serve_inv mono l now n key cost entry :
  read_inv mono l -> reading mono now n -> validKey key = true -> 1 <= cost <= capacity l ->
  bucket_ok l entry -> (exists m, reading mono (lastSeen entry) m) ->
  is_Some (buckets l !! key) \/ Z.of_nat (size (buckets l)) < maxClients l ->
  read_inv mono (serve l now key cost entry).2.
Proof.
  intros Hinv Hn Hk Hcost Hb [m Hm] Hroom. pose proof Hb as (_ & _ & Hsame). rewrite Hsame in Hm.
  destruct (serve_spec l mono now n key cost entry m (li_ok _ (proj1 Hinv)) Hb Hcost Hn Hm)
    as (d & b & t' & -> & Hb' & Hr & _). cbn [snd].
  apply insert_inv; try done. destruct Hb' as (_ & _ & ->). by eexists.
Qed.

Lemma admission_inv mono l now n key cost r :
  read_inv mono l -> reading mono now n -> validKey key = true -> 1 <= cost <= capacity l ->
  admission mono l now key cost r -> read_inv mono r.2 /\ decision_ok l r.1.
Proof.
  intros Hinv Hn Hk Hcost Hadm. pose proof Hinv as [[Hl Hs Hb] Hr].
  destruct Hadm as [entry He Hexp|l1 Hnone E1 Hsub _ Hroom|l1 Hnone E1 Hsub _ _ _].
  - destruct (Hb _ _ He) as [_ Hok]. split; [|apply serve_decision; lia].
    eapply serve_inv; try done; [by apply (Hr _ _ He)|left; by eexists].
  - assert (buckets l1 ⊆ buckets l) as Hsub' by (etransitivity; [exact Hsub|apply delete_subseteq]).
    assert (read_inv mono l1) as Hinv1 by (rewrite E1; by apply set_buckets_inv).
    assert (capacity l1 = capacity l /\ maxClients l1 = maxClients l) as [Ec Em] by by rewrite E1.
    split; [|rewrite <- Ec in *; assert (decision_ok l1 = decision_ok l) as <- by (unfold decision_ok; by rewrite Ec); apply serve_decision; lia].
    eapply serve_inv; try done; [by rewrite Ec|rewrite <- Ec; apply fresh_ok, Hinv1|by eexists|right; by rewrite Em].
  - assert (buckets l1 ⊆ buckets l) as Hsub' by (etransitivity; [exact Hsub|apply delete_subseteq]).
    split; [rewrite E1; by apply set_buckets_inv|]. unfold decision_ok; cbn. split_and!; try done; lia.
Qed.

(** Every interleaving of calls is a sequence of locked sections, each with the time
    its caller read before it got the lock. *)
Inductive lstep (mono : bool) (l : Limiter) : Limiter -> Prop :=
  | lstep_admit now n key cost :
      reading mono now n -> validKey key = true -> 1 <= cost <= capacity l ->
      lstep mono l (allowLocked range l now key cost).2
  | lstep_cleanup now : lstep mono l (cleanupLocked l now).2.

Lemma lstep_inv mono l l' : read_inv mono l -> lstep mono l l' -> read_inv mono l'.
Proof.
  intros Hinv [now n key cost Hn Hk Hc|now].
  - by eapply admission_inv; [..|apply admit_admission].
  - destruct (cleanup_spec l now) as [-> Hlook]. apply set_buckets_inv; [done|].
    apply map_subseteq_spec. intros k b Hb. by apply Hlook.
Qed.

Lemma New_read_inv mono sysnow cfg l :
  valid_binary prec emax (RefillRate cfg) = true -> New sysnow cfg = inl l -> read_inv mono l.
Proof.
  intros Hv HN. destruct (New_inv sysnow cfg l Hv HN) as (Hi & Eb & _). split; [done|].
  rewrite Eb. apply map_Forall_empty.
Qed.

Lemma lsteps_inv mono l l' : read_inv mono l -> rtc (lstep mono) l l' -> read_inv mono l'.
Proof. intros Hinv. induction 1; [done|]. eauto using lstep_inv. Qed.

(** C25: the limiter stays within its bounds. Whatever the interleaving of calls and
    of the clock readings they carry, it never holds more than [MaxClients] buckets,
    only valid keys have one, every bucket holds between zero and [Capacity] tokens,
    and every decision reports between zero and [Capacity] remaining tokens, a
    duration that is not an overflow, and no delay when it allows. *)
Theorem Limiter_invariant mono sysnow cfg l0 l now n key cost :
  valid_binary prec emax (RefillRate cfg) = true -> New sysnow cfg = inl l0 -> rtc (lstep mono) l0 l ->
  reading mono now n -> validKey key = true -> 1 <= cost <= capacity l ->
  Z.of_nat (size (buckets l)) <= maxClients l
  /\ (forall k b, buckets l !! k = Some b ->
       validKey k = true /\ (0 <= fval (tokens b) <= inject_Z (capacity l))%Q /\ lastSeen b = lastRefill b)
  /\ decision_ok l (allowLocked range l now key cost).1.
Proof.
  intros Hv HN Hrun Hn Hk Hc. assert (read_inv mono l) as Hinv
    by (eapply lsteps_inv; [by eapply New_read_inv|done]).
  pose proof Hinv as [[Hl Hs Hb] Hr]. split_and!; [done| |].
  - intros k b Hkb. destruct (Hb _ _ Hkb) as (Hvk & Hn0 & Hcap & Hsame). split_and!; try done. by apply nonneg_fval.
  - by eapply admission_inv; [..|apply admit_admission].
Qed.

(** Callers do not disturb each other. Admitting one key leaves the bucket of
    every other key as it was, except that when the map is full, buckets idle for the
    TTL are dropped and, under [EvictOldest] only, one more: the least recently seen
    of those left, the smallest key among equals, in whatever order the map is read. *)
Theorem Limiter_isolation mono l now n key cost k b :
  read_inv mono l -> reading mono now n -> validKey key = true -> 1 <= cost <= capacity l ->
  k <> key -> buckets l !! k = Some b ->
  let l' := (allowLocked range l now key cost).2 in
  buckets l' !! k = Some b
  \/ buckets l' !! k = None /\ maxClients l <= Z.of_nat (size (buckets l)) /\ forgotten mono l now k b.
Proof.
  intros Hinv Hn Hvk Hc Hk Hb. cbv zeta. pose proof (admit_admission mono l now key cost Hinv) as Hadm.
  assert (forall l1 entry, buckets (serve l1 now key cost entry).2 !! k = buckets l1 !! k) as Hserve.
  { intros l1 entry. unfold serve. destruct (take_tokens _ _ _ _) as [d e]. cbn. by rewrite lookup_insert_ne. }
  assert (forall l1, buckets l1 ⊆ delete key (buckets l) -> buckets l1 !! k = Some b \/ buckets l1 !! k = None) as Hsome.
  { intros l1 Hsub. destruct (buckets l1 !! k) as [b'|] eqn:E; [left|by right].
    eapply lookup_weaken in E; [|exact Hsub]. rewrite lookup_delete_ne in E by done. congruence. }
  destruct Hadm as [entry He Hexp|l1 Hnone E1 Hsub Hf Hroom|l1 Hnone E1 Hsub Hf Hrej Hfull]; rewrite ?Hserve.
  - by left.
  - destruct (Hsome l1 Hsub) as [|E]; [by left|right]. split; [done|]. by apply (Hf k b).
  - destruct (Hsome l1 Hsub) as [|E]; [by left|right]. split; [done|]. split; [done|]. by apply (Hf k b).
Qed.
End Map.

(** ** The order of map iteration *)

Lemma evict_any_order mono range range' l :
  (forall m, range m ≡ₚ map_to_list m) -> (forall m, range' m ≡ₚ map_to_list m) ->
  all_read mono (buckets l) -> evictOldestLocked range l = evictOldestLocked range' l.
Proof.
  intros Hp Hp' Hr. destruct (decide (buckets l = ∅)) as [E|Hne].
  { assert (forall rg : gmap bytes bucket -> list (bytes * bucket),
      (forall m, rg m ≡ₚ map_to_list m) -> rg (buckets l) = []) as Hnil.
    { intros rg Hrg. apply Permutation_nil_r. by rewrite Hrg, E, map_to_list_empty. }
    unfold evictOldestLocked. by rewrite !Hnil. }
  destruct (evict_spec range Hp mono l Hr Hne) as (k & b & Hb & -> & Hmin).
  destruct (evict_spec range' Hp' mono l Hr Hne) as (k' & b' & Hb' & -> & Hmin').
  pose proof (before_antisym mono _ _ (Hmin _ _ Hb') (Hmin' _ _ Hb)) as E. cbn in E. by subst.
Qed.

(** The limiter is deterministic. Two limiters in the same state that read their
    maps in different orders decide alike and end in the same state. *)
Theorem Limiter_order_independent mono range range' l now key cost :
  (forall m, range m ≡ₚ map_to_list m) -> (forall m, range' m ≡ₚ map_to_list m) ->
  read_inv mono l -> allowLocked range l now key cost = allowLocked range' l now key cost.
Proof.
  intros Hp Hp' [_ Hr].
  assert (forall l0, buckets l0 ⊆ buckets l -> make_room range l0 now = make_room range' l0 now) as Hroom.
  { intros l0 Hsub. unfold make_room. destruct (_ <=? _); [|done]. destruct (_ <=? _); [|done].
    destruct (_ =? _); [done|]. f_equal. apply (evict_any_order mono); [done|done|].
    destruct (cleanup_spec l0 now) as [_ Hlook]. intros k b [Hb _]%Hlook.
    apply (Hr k). by eapply lookup_weaken. }
  unfold allowLocked, enter. rewrite !Hroom; [done|done|apply delete_subseteq].
Qed.

(** ** The rate *)

(** A sequence of calls, and the tokens it granted to one key. *)
Fixpoint granted (range : gmap bytes bucket -> list (bytes * bucket)) (key : bytes) (l : Limiter)
    (calls : list (time * bytes * Z)) : Z * Limiter :=
  match calls with
  | [] => (0, l)
  | (now, k, cost) :: rest =>
    let '(d, l') := allowLocked range l now k cost in
    let '(total, l'') := granted range key l' rest in
    ((if bool_decide (k = key) && Allowed d then cost + total else total), l'')
  end.

(** Calls with non-decreasing readings from [T] on. *)
Fixpoint in_order (mono : bool) (cap T : Z) (calls : list (time * bytes * Z)) (T' : Z) : Prop :=
  match calls with
  | [] => T' = T
  | (now, k, cost) :: rest =>
    exists n, reading mono now n /\ T <= n /\ validKey k = true /\ 1 <= cost <= cap
      /\ in_order mono cap n rest T'
  end.

(** The rounding of one call. *)
Definition call_slack : Q := refill_slack + take_slack.

(** A bucket left alone for the TTL is full again. *)
Definition ttl_ok (l : Limiter) : Prop :=
  idleTTL l = 0 \/ (inject_Z (capacity l) <= earned l (idleTTL l))%Q.

(** The account of [key]: what it was granted since [T0] is covered. *)
Definition account (mono : bool) (l : Limiter) (key : bytes) (T0 T : Z) (G : Q) (n : Z) : Prop :=
  match buckets l !! key with
  | Some b => exists L, reading mono (lastRefill b) L /\ T0 <= L <= T
      /\ (G + fval (tokens b) <= inject_Z (capacity l) + (earned l (L - T0) + inject_Z n * call_slack))%Q
  | None => (G <= earned l (T - T0) + inject_Z n * call_slack)%Q
  end.

Lemma earned_add l a b : (earned l (a + b) == earned l a + earned l b)%Q.
Proof. unfold earned. rewrite nanos_add. ring. Qed.

Lemma earned_nonneg l d : limiter_ok l -> 0 <= d -> (0 <= earned l d)%Q.
Proof.
  intros Hl Hd. unfold earned. pose proof (lk_rate_bounds _ Hl). pose proof (nanos_nonneg d Hd). nra.
Qed.

Lemma account_later mono l key T0 T T' G n :
  limiter_ok l -> T <= T' -> account mono l key T0 T G n -> account mono l key T0 T' G n.
Proof.
  intros Hl Hle. unfold account. destruct (buckets l !! key) as [b|].
  - intros (L & ? & ? & ?). exists L. split_and!; (done || lia).
  - intros H. pose proof (earned_nonneg l (T' - T) Hl ltac:(lia)).
    replace (T' - T0) with (T - T0 + (T' - T)) by lia. rewrite earned_add. lra.
Qed.

Lemma isExpired_reading mono l now n b L :
  limiter_ok l -> bucket_ok l b -> reading mono now n -> reading mono (lastRefill b) L ->
  isExpired l now b = (0 <? idleTTL l) && (L + idleTTL l <=? n).
Proof.
  intros Hl (_ & _ & Hsame) Hn HL. pose proof (lk_ttl _ Hl). unfold isExpired. rewrite Hsame. f_equal.
  rewrite (stamp_Before mono _ _ n (L + idleTTL l)); [|auto|].
  - destruct (Z.ltb_spec n (L + idleTTL l)), (Z.leb_spec (L + idleTTL l) n); (done || lia).
  - apply Add_stamp; [done|unfold MaxIdleTTL, Hour, Minute, Second in *; lia|lia].
Qed.

(** Dropping an idle bucket, or keeping it, at a later reading. *)
Lemma account_drop mono l key T0 T G n now m bs :
  read_inv mono l -> ttl_ok l -> reading mono now m -> T <= m ->
  account mono l key T0 T G n ->
  bs !! key = buckets l !! key
  \/ bs !! key = None /\ (forall b, buckets l !! key = Some b -> isExpired l now b = true) ->
  account mono (set_buckets l bs) key T0 m G n.
Proof.
  intros [[Hl Hs Hb] Hr] Httl Hm HT Hacc Hbs. apply (account_later _ _ _ _ _ m _ _ Hl HT) in Hacc.
  unfold account in *. cbn [buckets set_buckets capacity]. destruct Hbs as [->|[-> Hexp]]; [done|].
  destruct (buckets l !! key) as [b|] eqn:E; [|done]. destruct Hacc as (L & HL & HLT & Hacc).
  specialize (Hexp b eq_refl). destruct (Hb _ _ E) as [_ Hok].
  rewrite (isExpired_reading mono l now m b L Hl Hok Hm HL) in Hexp. bool_simpl.
  destruct Httl as [|Hfull]; [lia|]. destruct Hok as (Hn & _).
  pose proof (nonneg_fval _ Hn). pose proof (earned_nonneg l (m - (L + idleTTL l)) Hl ltac:(lia)).
  change (earned (set_buckets l bs)) with (earned l).
  replace (m - T0) with ((L - T0) + (idleTTL l + (m - (L + idleTTL l)))) by lia. rewrite !earned_add. lra.
Qed.

Lemma call_slack_pos : (0 < call_slack)%Q.
Proof. done. Qed.

Lemma account_more mono l key T0 T G n : account mono l key T0 T G n -> account mono l key T0 T G (n + 1).
Proof.
  pose proof call_slack_pos. unfold account. rewrite inject_Z_plus. change (inject_Z 1) with 1%Q.
  destruct (buckets l !! key) as [b|]; [|intros; lra]. intros (L & ? & ? & ?). exists L.
  split_and!; (done || lia || lra).
Qed.

Definition grant (key k : bytes) (cost : Z) (d : Decision) : Q :=
  if bool_decide (k = key) && Allowed d then inject_Z cost else 0.

(** Serving a bucket that an account covers. *)
Lemma account_serve mono l key T0 L m now cost entry G n :
  read_inv mono l -> reading mono now m -> 1 <= cost <= capacity l -> bucket_ok l entry ->
  reading mono (lastRefill entry) L -> T0 <= L <= m ->
  (G + fval (tokens entry) <= inject_Z (capacity l) + (earned l (L - T0) + inject_Z n * call_slack))%Q ->
  let r := serve l now key cost entry in
  account mono r.2 key T0 m (G + grant key key cost r.1) (n + 1).
Proof.
  intros Hinv Hm Hcost Hb HL HT HG. cbv zeta.
  destruct (serve_spec l mono now m key cost entry L (li_ok _ (proj1 Hinv)) Hb Hcost Hm HL)
    as (d & b & t' & -> & Hb' & Hr & Hyes & Hno & ->). cbn [fst snd].
  unfold account, grant. cbn [buckets set_buckets capacity]. rewrite lookup_insert_eq.
  rewrite bool_decide_true by done. cbn [andb]. exists (Z.max m L). split; [done|]. split; [lia|].
  change (earned (set_buckets l _)) with (earned l). rewrite inject_Z_plus. change (inject_Z 1) with 1%Q.
  replace (Z.max m L - T0) with ((L - T0) + (Z.max m L - L)) by lia. rewrite earned_add.
  unfold call_slack, take_slack in *. destruct (Allowed d); [specialize (Hyes eq_refl)|specialize (Hno eq_refl)]; lra.
Qed.

Lemma account_step range mono l key T0 T G n now m k cost :
  (forall m, range m ≡ₚ map_to_list m) -> read_inv mono l -> ttl_ok l -> overflow l = RejectNew ->
  reading mono now m -> T0 <= T <= m -> validKey k = true -> 1 <= cost <= capacity l ->
  account mono l key T0 T G n ->
  let r := allowLocked range l now k cost in
  account mono r.2 key T0 m (G + grant key k cost r.1) (n + 1).
Proof.
  intros Hp Hinv Httl Hrej Hm HT Hk Hcost Hacc. cbv zeta.
  pose proof Hinv as [[Hl Hs Hb] Hr].
  pose proof (admit_admission range Hp mono l now k cost Hinv) as Hadm.
  assert (forall bs x, bs !! key = buckets l !! key
      \/ bs !! key = None /\ (forall b, buckets l !! key = Some b -> isExpired l now b = true) ->
    (x == 0)%Q -> account mono (set_buckets l bs) key T0 m (G + x) (n + 1)) as Hkeep.
  { intros bs x Hbs Ex. assert (account mono (set_buckets l bs) key T0 m G (n + 1)) as H
      by (apply account_more; apply (account_drop mono l key T0 T G n now m); try done; lia).
    unfold account in H |- *. cbn [buckets set_buckets] in *. destruct (bs !! key); [|lra].
    destruct H as (L & ? & ? & ?). exists L. split_and!; (done || lia || lra). }
  assert (forall bs entry, k <> key -> bs !! key = buckets l !! key
      \/ bs !! key = None /\ (forall b, buckets l !! key = Some b -> isExpired l now b = true) ->
    account mono (serve (set_buckets l bs) now k cost entry).2 key T0 m
      (G + grant key k cost (serve (set_buckets l bs) now k cost entry).1) (n + 1)) as Hother.
  { intros bs entry Hne Hbs. unfold serve. destruct (take_tokens _ _ _ _) as [d e]. cbn [fst snd].
    apply (Hkeep (<[k := e]> bs)); [by rewrite lookup_insert_ne|]. unfold grant. by rewrite bool_decide_false. }
  assert (forall bs, bs ⊆ delete k (buckets l) -> k <> key ->
    (forall k' b, k' <> k -> buckets l !! k' = Some b -> bs !! k' = None -> forgotten mono l now k' b) ->
    bs !! key = buckets l !! key
    \/ bs !! key = None /\ (forall b, buckets l !! key = Some b -> isExpired l now b = true)) as Hlost.
  { intros bs Hsub Hne Hf. destruct (bs !! key) as [b|] eqn:E.
    - left. symmetry. eapply lookup_weaken in E; [|exact Hsub]. by rewrite lookup_delete_ne in E.
    - right. split; [done|]. intros b Hb'. destruct (Hf key b) as [|[Hov _]]; try done. by rewrite Hrej in Hov. }
  destruct Hadm as [entry He Hexp|l1 Hnone E1 Hsub Hf Hroom|l1 Hnone E1 Hsub Hf _ Hfull].
  - destruct (decide (k = key)) as [->|Hne].
    + unfold account in Hacc. rewrite He in Hacc. destruct Hacc as (L & HL & HLT & Hacc).
      destruct (Hb _ _ He) as [_ Hok]. eapply account_serve; try done. lia.
    + rewrite <- (set_buckets_eta l). apply Hother; [done|by left].
  - remember (buckets l1) as bs eqn:Ebs. clear Ebs. subst l1. destruct (decide (k = key)) as [->|Hne].
    + assert (account mono (set_buckets l (delete key (buckets l))) key T0 m G n) as Hd.
      { apply (account_drop mono l key T0 T G n now m); try done; [lia|]. right. split; [apply lookup_delete_eq|done]. }
      unfold account in Hd. cbn [buckets set_buckets] in Hd. rewrite lookup_delete_eq in Hd.
      assert (read_inv mono (set_buckets l bs)) as Hinv'.
      { apply set_buckets_inv; [done|]. etransitivity; [exact Hsub|apply delete_subseteq]. }
      apply (account_serve mono (set_buckets l bs) key T0 m m); try done; [exact (fresh_ok (set_buckets l bs) now (li_ok _ (proj1 Hinv')))|lia|].
      cbn [tokens capacity set_buckets]. change (earned (set_buckets l bs)) with (earned l).
      rewrite of_int_exact by (apply (capacity_range l); [done|lia]). 
      change (earned (set_buckets l _)) with (earned l) in Hd. lra.
    + apply Hother; [done|]. apply Hlost; [done|done|]. intros k' b Hk' Hb' Hno. by apply (Hf k' b).
  - remember (buckets l1) as bs eqn:Ebs. clear Ebs. subst l1. cbn [fst snd].
    apply Hkeep; [|unfold grant; cbn; by rewrite andb_false_r].
    destruct (decide (k = key)) as [->|Hne]; [|by apply Hlost].
    right. split; [|done]. apply eq_None_ne_Some. intros b Hb'. eapply lookup_weaken in Hb'; [|exact Hsub].
    by rewrite lookup_delete_eq in Hb'.
Qed.

Lemma admit_config range l now key cost :
  exists bs, (allowLocked range l now key cost).2 = set_buckets l bs.
Proof.
  assert (forall l1 entry, (exists bs1, l1 = set_buckets l bs1) ->
    exists bs, (serve l1 now key cost entry).2 = set_buckets l bs) as Hserve.
  { intros l1 entry [bs1 ->]. unfold serve. destruct (take_tokens _ _ _ _). by eexists. }
  assert (forall l1, (exists bs1, l1 = set_buckets l bs1) -> exists bs, (make_room range l1 now).1 = set_buckets l bs) as Hroom.
  { intros l1 [bs1 ->]. unfold make_room, evictOldestLocked.
    destruct (cleanup_spec (set_buckets l bs1) now) as [-> _].
    destruct (_ <=? _); [|by eexists]. destruct (_ <=? _); [|by eexists]. destruct (_ =? _); [by eexists|].
    cbn [fst]. destruct (fold_left _ _ _) as [[k b]|]; by eexists. }
  assert (forall l1, (exists bs1, l1 = set_buckets l bs1) -> exists bs, (enter range l1 now key cost).2 = set_buckets l bs) as Henter.
  { intros l1 Hl1. unfold enter. specialize (Hroom l1 Hl1). destruct (make_room range l1 now) as [l2 []]; [|done].
    by apply Hserve. }
  assert (exists bs1, l = set_buckets l bs1) as Hself by (exists (buckets l); by rewrite set_buckets_eta).
  unfold allowLocked. destruct (buckets l !! key); [|by apply Henter].
  destruct (isExpired _ _ _); [apply Henter; by eexists|by apply Hserve].
Qed.

Lemma granted_account range mono key T0 calls l T T' G n :
  (forall m, range m ≡ₚ map_to_list m) -> read_inv mono l -> ttl_ok l -> overflow l = RejectNew ->
  T0 <= T -> in_order mono (capacity l) T calls T' -> account mono l key T0 T G n ->
  (G + inject_Z (granted range key l calls).1
   <= inject_Z (capacity l) + (earned l (T' - T0) + inject_Z (n + Z.of_nat (length calls)) * call_slack))%Q.
Proof.
  intros Hp. revert l T G n. induction calls as [|[[now k] cost] rest IH]; intros l T G n Hinv Httl Hrej HT Hord Hacc.
  - cbn in *. subst T'. rewrite Z.add_0_r. change (inject_Z 0) with 0%Q. pose proof Hinv as [[Hl _ Hb] _].
    assert (0 <= inject_Z (capacity l))%Q
      by (pose proof (lk_capacity _ Hl); change 0%Q with (inject_Z 0); rewrite <- Zle_Qle; lia).
    unfold account in Hacc. destruct (buckets l !! key) as [b|] eqn:E; [|lra].
    destruct Hacc as (L & _ & HL & Hacc). destruct (Hb _ _ E) as (_ & Hn & _). pose proof (nonneg_fval _ Hn).
    replace (T - T0) with (L - T0 + (T - L)) by lia. rewrite earned_add.
    pose proof (earned_nonneg l (T - L) Hl ltac:(lia)). lra.
  - destruct Hord as (m & Hm & HTm & Hk & Hcost & Hord).
    pose proof (account_step range mono l key T0 T G n now m k cost Hp Hinv Httl Hrej Hm ltac:(lia) Hk Hcost Hacc) as Hacc'.
    destruct (admission_inv mono l now m k cost _ Hinv Hm Hk Hcost (admit_admission range Hp mono l now k cost Hinv)) as [Hinv' _].
    destruct (admit_config range l now k cost) as [bs Ebs]. cbn [granted].
    destruct (allowLocked range l now k cost) as [d l'] eqn:E. cbn [fst snd] in *. subst l'.
    specialize (IH (set_buckets l bs) m _ (n + 1) Hinv' Httl Hrej ltac:(lia) Hord Hacc').
    destruct (granted range key (set_buckets l bs) rest) as [total l'']. cbn [fst] in *.
    cbn [length]. replace (n + Z.of_nat (S (length rest))) with (n + 1 + Z.of_nat (length rest)) by lia.
    cbn [capacity set_buckets] in IH. change (earned (set_buckets l bs)) with (earned l) in IH.
    unfold grant in IH. destruct (_ && _); [rewrite inject_Z_plus|]; lra.
Qed.

(** C9: the token bucket keeps its rate. Over any sequence of calls in the order of
    their readings, a key is granted at most [Capacity] plus [RefillRate] tokens per
    second elapsed, whatever other keys do, up to 2^-31 of a token of rounding per
    call; provided new keys are rejected at the cap and buckets are not dropped
    before they would be full. *)
Theorem Rate_bound range mono sysnow cfg l0 key calls T0 T1 :
  (forall m, range m ≡ₚ map_to_list m) -> valid_binary prec emax (RefillRate cfg) = true ->
  New sysnow cfg = inl l0 -> Overflow cfg = RejectNew -> ttl_ok l0 ->
  in_order mono (Capacity cfg) T0 calls T1 ->
  (inject_Z (granted range key l0 calls).1
   <= inject_Z (Capacity cfg) + fval (RefillRate cfg) * nanos (T1 - T0)
      + inject_Z (Z.of_nat (length calls)) * (1 # 2147483648))%Q.
Proof.
  intros Hp Hv HN Hrej Httl Hord. pose proof (New_read_inv mono sysnow cfg l0 Hv HN) as Hinv.
  destruct (New_inv sysnow cfg l0 Hv HN) as (_ & Eb & Ec & Er & _ & _ & Eo).
  rewrite <- Ec in Hord. assert (overflow l0 = RejectNew) as Hrej' by congruence.
  pose proof (granted_account range mono key T0 calls l0 T0 T1 0 0 Hp Hinv Httl Hrej' ltac:(lia) Hord) as H.
  rewrite <- Ec, <- Er. unfold earned in H. rewrite Z.add_0_l in H.
  assert (call_slack == (1 # 2147483648))%Q as Es by reflexivity. rewrite <- Es.
  assert (0 <= inject_Z 0 * call_slack)%Q as H0 by (change (inject_Z 0) with 0%Q; lra).
  unfold account in H. rewrite Eb, lookup_empty in H. unfold earned in H.
  rewrite Z.sub_diag in H. assert (nanos 0 == 0)%Q as Hz by reflexivity. rewrite Hz in H. lra.
Qed.

(** ** Whole tokens *)

Lemma nano_near : near (1 # 1000000000) nano.
Proof.
  unfold nano. eapply near_ext; [|apply fdiv_near; try by apply of_int_nonneg].
  - by rewrite !of_int_exact.
  - by rewrite of_int_exact.
  - right. rewrite !of_int_exact by done. apply Qle_trans with (pw (-30)); [apply pw_mono; lia|by vm_compute].
  - rewrite !of_int_exact by done. apply Qlt_le_trans with (pw 1); [by vm_compute|apply pw_mono; lia].
Qed.

(** A bucket of whole tokens reports them. *)
Lemma wholeTokens_exact x k cap :
  nonneg x -> (fval x == inject_Z k)%Q -> 0 <= k <= cap -> cap <= MaxCapacity -> wholeTokens x cap = k.
Proof.
  intros Hx Ek Hk Hcap. unfold wholeTokens.
  assert (inject_Z k <= 100000)%Q as Hk1
    by (change 100000%Q with (inject_Z 100000); rewrite <- Zle_Qle; unfold MaxCapacity in *; lia).
  assert (0 <= inject_Z k)%Q as Hk0 by (change 0%Q with (inject_Z 0); rewrite <- Zle_Qle; lia).
  destruct (fle x f_zero) eqn:E0.
  { apply fle_spec in E0; [|done|apply nonneg_zero]. rewrite Ek in E0. change (fval f_zero) with (inject_Z 0) in E0.
    rewrite <- Zle_Qle in E0. lia. }
  pose proof nano_near as NN. pose proof (near_upper _ _ NN) as UN. pose proof (near_pos _ _ NN) as PN.
  rewrite unit_value in UN. pose proof tiny_pos as (Te & Tt & Tb).
  assert (pw 17 <= pw 900)%Q as Hbig by (apply pw_mono; lia). assert (pw 17 == 131072)%Q as E17 by reflexivity.
  assert (near (fval x + fval nano) (fadd x nano)) as NS
    by (apply fadd_near; [done|by eapply near_nonneg|lra]).
  pose proof (near_upper _ _ NS) as US. rewrite unit_value in US.
  rewrite (Floor_between _ k); [|by eapply near_nonneg| |].
  - unfold to_int64. unfold MaxCapacity in *. rewrite (proj2 (Z.leb_le _ _)), (proj2 (Z.ltb_lt _ (2 ^ 63))) by lia.
    cbn [andb]. destruct (Z.ltb_spec k 0), (Z.ltb_spec cap k); lia.
  - apply (near_ge _ _ NS); [unfold MaxCapacity in *; lia|]. lra.
  - rewrite inject_Z_plus. change (inject_Z 1) with 1%Q. lra.
Qed.

Lemma refill_early l now b :
  After now (lastRefill b) = false -> refill l now b = b.
Proof. intros E. unfold refill. by rewrite E. Qed.

(** A call whose reading is not later than the last refill. *)
Lemma admit_early range mono l t m key cost b L :
  limiter_ok l -> bucket_ok l b -> reading mono t m -> reading mono (lastRefill b) L -> m <= L ->
  buckets l !! key = Some b ->
  allowLocked range l t key cost
  = let '(d, b') := take_tokens l (if m <? L then lastRefill b else t) cost b in
    (d, set_buckets l (<[key := b']> (buckets l))).
Proof.
  intros Hl Hok Hm HL Hle Hkey. pose proof Hok as (_ & _ & Hsame). pose proof (lk_ttl _ Hl).
  unfold allowLocked. rewrite Hkey, (isExpired_reading mono l t m b L Hl Hok Hm HL).
  replace ((0 <? idleTTL l) && (L + idleTTL l <=? m)) with false
    by (destruct (Z.ltb_spec 0 (idleTTL l)), (Z.leb_spec (L + idleTTL l) m); cbn; lia).
  unfold serve, effective. rewrite (stamp_Before mono t (lastRefill b) m L) by auto.
  set (eff := if m <? L then lastRefill b else t).
  assert (After eff (lastRefill b) = false) as Hafter.
  { unfold After, eff. destruct (Z.ltb_spec m L).
    - rewrite (stamp_Before mono _ _ L L) by auto. apply Z.ltb_irrefl.
    - rewrite (stamp_Before mono _ _ L m) by auto. apply Z.ltb_ge. lia. }
  rewrite refill_early by done. unfold touch. by rewrite Hsame, Hafter.
Qed.

(** A clock that goes back mints nothing, and a burst is counted exactly. A call
    that carries a reading before the last refill of its bucket behaves as at that
    refill. At any reading not after it, a bucket of [k] whole tokens grants exactly
    the costs up to [k], reports the whole tokens left, and keeps exactly those. *)
Theorem Instant_burst range mono l now n key cost b L k :
  read_inv mono l -> reading mono now n -> 1 <= cost <= capacity l ->
  buckets l !! key = Some b -> reading mono (lastRefill b) L -> n <= L ->
  (fval (tokens b) == inject_Z k)%Q ->
  let left := if cost <=? k then k - cost else k in
  (n < L -> allowLocked range l now key cost = allowLocked range l (lastRefill b) key cost)
  /\ exists d b', allowLocked range l now key cost = (d, set_buckets l (<[key := b']> (buckets l)))
    /\ Allowed d = (cost <=? k) /\ Remaining d = left /\ (fval (tokens b') == inject_Z left)%Q
    /\ lastRefill b' = lastRefill b.
Proof.
  intros [[Hl _ Hb] _] Hn Hcost Hkey HL Hle Ek. cbv zeta. destruct (Hb _ _ Hkey) as [_ Hok].
  pose proof Hok as (Hnb & Hcap & Hsame).
  rewrite (admit_early range mono l now n key cost b L) by done. split.
  - intros Hlt. rewrite (admit_early range mono l (lastRefill b) L key cost b L) by (done || lia).
    by rewrite (proj2 (Z.ltb_lt n L)), Z.ltb_irrefl by done.
  - set (eff := if n <? L then lastRefill b else now).
    pose proof (take_spec l eff cost b Hl Hnb Hcap Hcost) as Ht. pose proof (lk_capacity _ Hl) as Hcl.
    assert (0 <= k <= capacity l) as Hk.
    { pose proof (nonneg_fval _ Hnb) as H0. rewrite Ek in H0, Hcap.
      change 0%Q with (inject_Z 0) in H0. rewrite <- Zle_Qle in H0, Hcap. lia. }
    assert (Remaining (take_tokens l eff cost b).1 = wholeTokens (tokens (take_tokens l eff cost b).2) (capacity l)) as Erem
      by (unfold take_tokens; by destruct (fle _ _)).
    destruct (take_tokens l eff cost b) as [d b']. cbn [fst snd] in Erem. exists d, b'.
    destruct Ht as (El & _ & Hn' & _ & Hiff & _ & Hno & Hyes). rewrite Ek in Hiff. rewrite <- Zle_Qle in Hiff.
    assert (fval (tokens b') == inject_Z (if cost <=? k then k - cost else k))%Q as Eleft.
    { destruct (Z.leb_spec cost k) as [Hc|Hc].
      - destruct (Hyes (proj2 Hiff Hc)) as (_ & _ & NS & _). apply (near_exact _ _ _ NS).
        + apply (capacity_range l); [done|lia].
        + rewrite Ek. unfold Z.sub. by rewrite inject_Z_plus, inject_Z_opp.
      - destruct (Allowed d); [exfalso; assert (cost <= k) by (by apply Hiff); lia|].
        by destruct (Hno eq_refl) as [-> _]. }
    split_and!; [done| | |done|done].
    + destruct (Z.leb_spec cost k) as [Hc|Hc]; [by apply Hiff|].
      apply not_true_is_false. intros Ha%Hiff. lia.
    + rewrite Erem. apply wholeTokens_exact; try done; [|lia]. destruct (cost <=? k) eqn:?; bool_simpl; lia.
Qed.

(** ** Operations *)

(** Every outcome of [AllowN]. A nil limiter, an invalid key and an invalid cost
    are refused without a look at the clock and without effect; any other call runs
    the locked section once, at the time it read. *)
Theorem AllowN_outcomes range key cost (w : world (option Limiter)) :
  AllowN range key cost w =
  match w_store w with
  | None => (Ok (rejected ReasonUnavailable), w)
  | Some l =>
    if negb (validKey key) then (Ok (rejected ReasonInvalidKey), w)
    else if bool_decide (1 <= cost <= capacity l) then
      let r := allowLocked range l (clock l (w_tick w)) key cost in
      (Ok r.1, World (Datatypes.S (w_tick w)) (Some r.2))
    else (Ok (rejected ReasonInvalidCost), w)
  end.
Proof.
  unfold AllowN. m_unfold. destruct (w_store w) as [l|]; [|done].
  destruct (validKey key); [|done]. cbn [negb].
  destruct (Z.ltb_spec cost 1), (Z.ltb_spec (capacity l) cost); cbn [orb];
    ((rewrite bool_decide_false by lia) || (rewrite bool_decide_true by lia)); try done.
  cbn [w_store w_tick]. by destruct (allowLocked _ _ _ _ _) as [d l'].
Qed.
