(* ===== verification/RateLimitScenario.v ===== *)
(** * Limiters at work

    Concrete limiters and clocks: the limiter's theorems evaluated, and two
    behaviours that its documentation does not describe. *)
From S2P Require Import Prelude GoText GoTime GoFloat GoFloatFacts Errors World RateLimit RateLimitFacts.
From Stdlib Require Import QArith.
#[local] Open Scope Z_scope.

Section RateLimitScenario.
Definition rl_clock (tick : nat) : time := zero_time.
Definition rl_range (m : gmap bytes bucket) : list (bytes * bucket) := map_to_list m.
Definition rl_range' (m : gmap bytes bucket) : list (bytes * bucket) := reverse (map_to_list m).

(** The reading [n] nanoseconds after the start of the process. *)
Definition rl_time (n : Z) : time := Time (wallToInternal + 4000000000) 0 (Some n) UTC.

Definition rl_config (cap : Z) (rate : float64) (clients ttl : Z) : Config :=
  mkConfig cap rate clients ttl RejectNew None.
Definition rl_limiter (cap : Z) (rate : float64) (clients ttl : Z) : Limiter :=
  mkLimiter cap rate clients ttl RejectNew rl_clock ∅.

Definition rl_cfg : Config := rl_config 10 (of_int 5) 2 0.
Definition rl_start : Limiter := rl_limiter 10 (of_int 5) 2 0.
Definition rl_a : bytes := &"203.0.113.7".
Definition rl_b : bytes := &"203.0.113.8".
Definition rl_one : Limiter := (allowLocked rl_range rl_start (rl_time 0) rl_a 1).2.

Lemma rl_reading n : 0 <= n < 2 ^ 62 -> reading true (rl_time n) n.
Proof. intros Hn. split; [by repeat split|]. by split. Qed.

Lemma rl_perm m : rl_range m ≡ₚ map_to_list m.
Proof. done. Qed.

Lemma rl_perm' m : rl_range' m ≡ₚ map_to_list m.
Proof. unfold rl_range'. by rewrite reverse_Permutation. Qed.

Lemma rl_start_inv : read_inv true rl_start.
Proof. by apply (New_read_inv true rl_clock rl_cfg). Qed.

Lemma rl_reaches_one : rtc (lstep rl_range true) rl_start rl_one.
Proof. apply rtc_once, (lstep_admit _ _ _ _ 0); [by apply rl_reading|reflexivity|done]. Qed.

Lemma rl_one_inv : read_inv true rl_one.
Proof. eapply lsteps_inv; [exact rl_perm|exact rl_start_inv|exact rl_reaches_one]. Qed.

(** Two decisions of one key in a row. *)
Definition rl_twice (l : Limiter) (key : bytes) (t1 t2 t3 : Z) : Decision * Decision :=
  let '(_, l1) := allowLocked rl_range l (rl_time t1) key 1 in
  let '(d2, l2) := allowLocked rl_range l1 (rl_time t2) key 1 in
  let '(d3, _) := allowLocked rl_range l2 (rl_time t3) key 1 in
  (d2, d3).
End RateLimitScenario.

(** ** Findings *)

(** Waiting [RetryAfter] may not be enough. A limiter of one token that refills
    at half a token per second denies a call at 0.482702939 s and reports that the
    next can be admitted 1.517297061 s later; that call is denied as well, because
    the two refills are rounded separately. *)
Theorem RetryAfter_can_be_short :
  let '(first, second) :=
    rl_twice (rl_limiter 1 (fdiv (of_int 1) (of_int 2)) 1000 0) rl_a 0 482702939 (482702939 + 1517297061) in
  Allowed first = false /\ RetryAfter first = 1517297061 /\ Allowed second = false.
Proof. vm_compute. split_and!; reflexivity. Qed.

(** Idle expiry can exceed the rate. With a TTL shorter than the time a bucket
    needs to fill, a key that pauses for the TTL starts over with a full bucket: ten
    tokens of capacity at one per second grant twenty within one second. *)
Theorem Idle_expiry_refills :
  (granted rl_range rl_a (rl_limiter 10 (of_int 1) 1000 Second)
     [(rl_time 0, rl_a, 10); (rl_time Second, rl_a, 10)]).1 = 20.
Proof. vm_compute. reflexivity. Qed.

(** ** Witnesses *)

Example Limiter_invariant_witness :
  Z.of_nat (size (buckets rl_one)) <= maxClients rl_one
  /\ decision_ok rl_one (allowLocked rl_range rl_one (rl_time 5) rl_b 3).1.
Proof.
  pose proof (Limiter_invariant rl_range rl_perm true rl_clock rl_cfg rl_start rl_one (rl_time 5) 5 rl_b 3) as H.
  destruct H as (Hs & _ & Hd).
  - vm_compute. reflexivity.
  - reflexivity.
  - exact rl_reaches_one.
  - apply rl_reading. done.
  - vm_compute. reflexivity.
  - done.
  - split; [exact Hs|exact Hd].
Defined.

Example Limiter_isolation_witness :
  exists b, buckets rl_one !! rl_a = Some b
    /\ let l' := (allowLocked rl_range rl_one (rl_time 5) rl_b 1).2 in
       buckets l' !! rl_a = Some b
       \/ buckets l' !! rl_a = None /\ maxClients rl_one <= Z.of_nat (size (buckets rl_one))
          /\ forgotten true rl_one (rl_time 5) rl_a b.
Proof.
  assert (exists b, buckets rl_one !! rl_a = Some b) as [b Hb]
    by (destruct (buckets rl_one !! rl_a) eqn:E; [by eexists|vm_compute in E; discriminate]).
  exists b. split; [exact Hb|].
  apply (Limiter_isolation rl_range rl_perm true rl_one (rl_time 5) 5 rl_b 1 rl_a b rl_one_inv).
  - apply rl_reading. done.
  - vm_compute. reflexivity.
  - done.
  - discriminate.
  - exact Hb.
Defined.

Example Limiter_order_independent_witness :
  allowLocked rl_range rl_one (rl_time 5) rl_b 1 = allowLocked rl_range' rl_one (rl_time 5) rl_b 1.
Proof. exact (Limiter_order_independent true rl_range rl_range' rl_one (rl_time 5) rl_b 1 rl_perm rl_perm' rl_one_inv). Defined.

Definition rl_calls : list (time * bytes * Z) :=
  [(rl_time 0, rl_a, 10); (rl_time 1000, rl_b, 4); (rl_time Second, rl_a, 5); (rl_time Second, rl_a, 1)].

Example Rate_bound_witness :
  (inject_Z (granted rl_range rl_a rl_start rl_calls).1
   <= 10 + fval (of_int 5) * nanos Second + 4 * (1 # 2147483648))%Q
  /\ (granted rl_range rl_a rl_start rl_calls).1 = 15.
Proof.
  split; [|vm_compute; reflexivity].
  apply (Rate_bound rl_range true rl_clock rl_cfg rl_start rl_a rl_calls 0 Second rl_perm).
  - vm_compute. reflexivity.
  - reflexivity.
  - reflexivity.
  - left. reflexivity.
  - exists 0. split; [by apply rl_reading|]. split; [done|]. split; [reflexivity|]. split; [done|].
    exists 1000. split; [by apply rl_reading|]. split; [done|]. split; [reflexivity|]. split; [done|].
    exists Second. split; [by apply rl_reading|]. split; [done|]. split; [reflexivity|]. split; [done|].
    exists Second. split; [by apply rl_reading|]. split; [done|]. split; [reflexivity|]. by split.
Defined.

Example Instant_burst_witness :
  exists d b', allowLocked rl_range rl_one (rl_time 0) rl_a 9 = (d, set_buckets rl_one (<[rl_a := b']> (buckets rl_one)))
    /\ Allowed d = true /\ Remaining d = 0.
Proof.
  set (b := mkBucket (of_int 9) (rl_time 0) (rl_time 0)).
  assert (buckets rl_one !! rl_a = Some b) as Hb by (vm_compute; reflexivity).
  destruct (Instant_burst rl_range true rl_one (rl_time 0) 0 rl_a 9 b 0 9 rl_one_inv) as (_ & d & b' & E & Ha & Hr & _).
  - by apply rl_reading.
  - done.
  - exact Hb.
  - by apply rl_reading.
  - done.
  - by apply of_int_exact.
  - exists d, b'. split; [exact E|]. split; [exact Ha|exact Hr].
Defined.
