(* ===== verification/Postgres.v ===== *)
(** * The PostgreSQL store (internal/item/postgres/store.go)

    The store over a driver: pgx is a parameter, as the operations that the store
    calls on a pool and on a transaction. A row that is scanned at once is the value
    of its destination; a result set is the finite list of what scanning its rows
    gives, and the error after them. The SQL texts are data that is sent to the
    driver. *)
From S2P Require Import Prelude GoText GoEncoding GoTime Sha256 Errors World Trace Item Idempotency Cursor Order Store.

(** ** Statements *)

Definition createQuery : bytes := &"
		INSERT INTO items (id, name, description, created_at)
		VALUES ($1, $2, $3, $4)
		RETURNING id, name, description, created_at".
Definition getQuery : bytes := &"
		SELECT id, name, description, created_at
		FROM items
		WHERE id = $1".
Definition listQuery : bytes := &"
		SELECT id, name, description, created_at
		FROM items
		ORDER BY created_at DESC, id DESC
		LIMIT $1 OFFSET $2".
Definition cursorListFirstQuery : bytes := &"
		SELECT id, name, description, created_at
		FROM items
		ORDER BY created_at DESC, id DESC
		LIMIT $1".
Definition cursorListAfterQuery : bytes := &"
		SELECT id, name, description, created_at
		FROM items
		WHERE (created_at, id) < ($1, $2)
		ORDER BY created_at DESC, id DESC
		LIMIT $3".
Definition idempotencyCleanupQuery : bytes := &"
		WITH expired AS (
			SELECT key_hash
			FROM item_idempotency_keys
			WHERE expires_at <= clock_timestamp()
			ORDER BY expires_at
			LIMIT 100
			FOR UPDATE SKIP LOCKED
		)
		DELETE FROM item_idempotency_keys AS keys
		USING expired
		WHERE keys.key_hash = expired.key_hash".
Definition idempotencyLockQuery : bytes := &"SELECT pg_try_advisory_xact_lock($1::bigint)".
Definition idempotencyLookupQuery : bytes := &"
		SELECT request_hash, item_id
		FROM item_idempotency_keys
		WHERE key_hash = $1
		FOR UPDATE".
Definition idempotencyInsertQuery : bytes := &"
		INSERT INTO item_idempotency_keys
			(key_hash, request_hash, item_id, created_at, expires_at)
		VALUES ($1, $2, $3, clock_timestamp(),
			clock_timestamp() + ($4::double precision * interval '1 second'))".

(** ** The driver *)

(** Arguments of a statement. *)
Inductive value :=
  | VUuid (u : uuid)
  | VText (s : bytes)
  | VTime (t : time)
  | VInt (n : Z)
  | VBytes (b : bytes).

(** Destinations of [Row.Scan]: an item, a boolean, or a digest and an identifier. *)
Inductive dest := ItemRow | LockRow | KeyRow.
Definition scanned (d : dest) : Type :=
  match d with ItemRow => Item | LockRow => bool | KeyRow => bytes * uuid end.

Record Rows (S : Type) := mkRows {
  rows_scans : list (result Item);
  rows_err : option error;
  rows_close : M S unit;
}.
Arguments rows_scans {S} _.
Arguments rows_err {S} _.
Arguments rows_close {S} _.

(** [querier]. *)
Record Querier (S : Type) := mkQuerier {
  QueryRow : option context -> bytes -> list value -> forall d : dest, M S (scanned d);
  Query : option context -> bytes -> list value -> M S (Rows S);
}.
Arguments QueryRow {S} _ _ _ _ _.
Arguments Query {S} _ _ _ _.

(** [pgx.Tx]. *)
Record Tx (S : Type) := mkTx {
  tx_querier : Querier S;
  tx_exec : option context -> bytes -> list value -> M S unit;
  tx_commit : option context -> M S unit;
  tx_rollback : option context -> M S unit;
}.
Arguments tx_querier {S} _.
Arguments tx_exec {S} _ _ _ _.
Arguments tx_commit {S} _ _.
Arguments tx_rollback {S} _ _.

(** What [store.db] holds: a querier that may be a [txBeginner]. *)
Record Database (S : Type) := mkDatabase {
  db_querier : Querier S;
  db_begin : option (option context -> M S (Tx S));
}.
Arguments db_querier {S} _.
Arguments db_begin {S} _.

(** ** Errors *)

Definition translateError (operation : bytes) (err : error) : error :=
  if Is err ErrNoRows then Sentinel ErrNotFound
  else if bool_decide (pg_code err = Some &"23505")
  then Wrapf (&"item postgres " ++ operation ++ &": ") (Joined [Sentinel ErrConflict; err]) []
  else Wrapf (&"item postgres " ++ operation ++ &": ") err [].

Definition translateCursorError (operation : bytes) (err : error) : error :=
  if Is err Canceled || Is err DeadlineExceeded then err
  else if Is err ErrInvalidInput || Is err ErrCursorState then err
  else
    let translated := translateError operation err in
    Wrapf (&"item postgres cursor " ++ operation ++ &": ") (Joined [Sentinel ErrCursorUnavailable; translated]) [].

(** [idempotencyUnavailable(operation, err)] for an error. *)
Definition idempotencyUnavailable (operation : bytes) (err : error) : error :=
  if Is err Canceled || Is err DeadlineExceeded then err
  else if Is err ErrIdempotencyConflict || Is err ErrConflict then err
  else Wrapf (&"item postgres idempotency " ++ operation ++ &": ") (Joined [Sentinel ErrIdempotencyUnavailable; err]) [].

(** ** Requests *)

Definition decodeDigest (value : bytes) : option (array 32) :=
  if negb (Nat.eqb (length value) 64) then None
  else
    match hex_decode value with
    | None => None
    | Some d => if negb (Nat.eqb (length d) 32) then None else Some (array_of 32 d)
    end.

Definition validateIdempotentRequest (key fingerprint : bytes) (value : Item) : result unit :=
  rbind (ValidateIdempotencyKey key) (fun _ =>
    if bool_decide (ID value = uuid_nil) then Err (Sentinel ErrIdempotencyState)
    else match decodeDigest fingerprint with
         | None => Err (Sentinel ErrIdempotencyState)
         | Some _ => Ok tt
         end).

(** [binary.BigEndian.Uint64]. *)
Definition be_uint64 (b : bytes) : Z := fold_left (fun acc x => acc * 256 + bz x) b 0.

Definition advisoryLockID (hash : array 32) : Z := Z.land (be_uint64 (take 8 (arr_bytes hash))) (2 ^ 63 - 1).

Section Postgres.
Context {H : Hash256} {S : Type}.
(** The context of one second that a rollback gets. *)
Context (rollbackContext : context).
(** A nil receiver and a nil [db] are [None]. *)
Context (store : option (Database S)).

(** A call whose failure is wrapped. *)
Definition wrapping {A} (m : M S A) (wrap : error -> error) : M S A :=
  r <-- attempt m;; match r with Ok a => ret a | Err e => fail (wrap e) end.

Definition with_db {A} (e : sentinel) (k : Database S -> M S A) : M S A :=
  match store with None => fail (Sentinel e) | Some db => k db end.

Definition utc_item (i : Item) : Item := mkItem (ID i) (Name i) (Description i) (to_utc (CreatedAt i)).

(** ** Items *)

Definition createWithQuerier (ctx : option context) (database : Querier S) (value : Item) : M S Item :=
  created <-- QueryRow database ctx createQuery
    [VUuid (ID value); VText (Name value); VText (Description value); VTime (CreatedAt value)] ItemRow;;
  ret (utc_item created).

Definition getWithQuerier (ctx : option context) (database : Querier S) (id : uuid) : M S Item :=
  found <-- wrapping (QueryRow database ctx getQuery [VUuid id] ItemRow) (translateError &"replay get");;
  ret (utc_item found).

Definition Create (ctx : option context) (value : Item) : M S Item :=
  contextError ctx;;;
  with_db ErrStoreUnavailable (fun db =>
    wrapping (createWithQuerier ctx (db_querier db) value) (translateError &"create")).

Definition Get (ctx : option context) (id : uuid) : M S Item :=
  contextError ctx;;;
  with_db ErrStoreUnavailable (fun db =>
    if bool_decide (id = uuid_nil) then fail (ValidationError &"id" &"must not be nil")
    else
      found <-- wrapping (QueryRow (db_querier db) ctx getQuery [VUuid id] ItemRow) (translateError &"get");;
      ret (utc_item found)).

(** The loop over [rows.Next], and [rows.Err] after it. *)
Fixpoint read_rows (scan_error rows_error : error -> error) (scans : list (result Item)) (err : option error)
    (values : list Item) : result (list Item) :=
  match scans with
  | [] => match err with None => Ok values | Some e => Err (rows_error e) end
  | Err e :: _ => Err (scan_error e)
  | Ok value :: scans => read_rows scan_error rows_error scans err (values ++ [utc_item value])
  end.

Definition List (ctx : option context) (params : ListParams) : M S (list Item) :=
  contextError ctx;;;
  with_db ErrStoreUnavailable (fun db =>
    if (lp_limit params <? 0) || (MaxPageSize + 1 <? lp_limit params)
    then fail (ValidationError &"limit" &"is outside the supported range")
    else if lp_offset params <? 0
    then fail (ValidationError &"offset" &"must be zero or positive")
    else if lp_limit params =? 0 then ret []
    else
      rows <-- wrapping (Query (db_querier db) ctx listQuery [VInt (lp_limit params); VInt (lp_offset params)])
                 (translateError &"list");;
      deferred (of_result (read_rows (translateError &"list scan") (translateError &"list rows")
                  (rows_scans rows) (rows_err rows) []))
        (rows_close rows)).

Definition ListAfter (ctx : option context) (params : CursorListParams) : M S (list Item) :=
  contextError ctx;;;
  with_db ErrCursorUnavailable (fun db =>
    if (clp_limit params <? 0) || (MaxPageSize + 1 <? clp_limit params)
    then fail (ValidationError &"limit" &"is outside the supported range")
    else
      of_result (match clp_after params with
                 | None => Ok tt
                 | Some after => match Validate after with
                                 | Err err => Err (Joined [Sentinel ErrCursorState; err])
                                 | Ok _ => Ok tt
                                 end
                 end);;;
      if clp_limit params =? 0 then ret []
      else
        rows <-- wrapping (match clp_after params with
                           | None => Query (db_querier db) ctx cursorListFirstQuery [VInt (clp_limit params)]
                           | Some after => Query (db_querier db) ctx cursorListAfterQuery
                               [VTime (to_utc (cp_created_at after)); VUuid (cp_id after); VInt (clp_limit params)]
                           end)
                   (translateCursorError &"list after");;
        deferred (of_result (read_rows (translateCursorError &"list after scan") (translateCursorError &"list after rows")
                    (rows_scans rows) (rows_err rows) []))
          (rows_close rows)).

(** ** Idempotent creates *)

(** The record of the key was found: replay its item, if the request is the same. *)
Definition replay (ctx : option context) (tx : Tx S) (requestHash : array 32) (stored : bytes * uuid) : M S (Item * bool) :=
  let '(storedHash, storedID) := stored in
  if negb (Nat.eqb (length storedHash) 32) then fail (Sentinel ErrIdempotencyState)
  else if negb (bool_decide (storedHash = arr_bytes requestHash)) then fail (Sentinel ErrIdempotencyConflict)
  else
    replayed <-- wrapping (getWithQuerier ctx (tx_querier tx) storedID)
      (fun getErr => if Is getErr ErrNotFound then Sentinel ErrIdempotencyState
                     else idempotencyUnavailable &"replay" getErr);;
    wrapping (tx_commit tx ctx) (idempotencyUnavailable &"replay commit");;;
    ret (replayed, true).

Definition seconds (d : Z) : Z := d ÷ Second.

(** What a failed insertion is reported as. *)
Definition insert_error (translation operation : bytes) (err : error) : error :=
  let translated := translateError translation err in
  if Is translated ErrConflict then translated else idempotencyUnavailable operation translated.

(** The key is new: insert the item and its record. *)
Definition insert_both (ctx : option context) (tx : Tx S) (keyHash requestHash : array 32) (value : Item)
    : M S (Item * bool) :=
  created <-- wrapping (createWithQuerier ctx (tx_querier tx) value) (insert_error &"idempotent create" &"create");;
  wrapping (tx_exec tx ctx idempotencyInsertQuery
      [VBytes (arr_bytes keyHash); VBytes (arr_bytes requestHash); VUuid (ID created);
       VInt (seconds IdempotencyRecordRetention)])
    (insert_error &"idempotency insert" &"insert");;;
  wrapping (tx_commit tx ctx) (idempotencyUnavailable &"commit");;;
  ret (created, false).

(** Everything between [Begin] and the deferred [Rollback]. *)
Definition in_transaction (ctx : option context) (tx : Tx S) (value : Item) (key fingerprint : bytes)
    : M S (Item * bool) :=
  let keyHash := Sum256 key in
  let requestHash := default (zero_array 32) (decodeDigest fingerprint) in
  locked <-- wrapping (QueryRow (tx_querier tx) ctx idempotencyLockQuery [VInt (advisoryLockID keyHash)] LockRow)
               (idempotencyUnavailable &"advisory lock");;
  if negb locked then fail (Sentinel ErrIdempotencyInProgress)
  else
    wrapping (tx_exec tx ctx idempotencyCleanupQuery []) (idempotencyUnavailable &"cleanup");;;
    looked <-- attempt (QueryRow (tx_querier tx) ctx idempotencyLookupQuery [VBytes (arr_bytes keyHash)] KeyRow);;
    match looked with
    | Ok stored => replay ctx tx requestHash stored
    | Err lookupErr =>
      if Is lookupErr ErrNoRows then insert_both ctx tx keyHash requestHash value
      else fail (idempotencyUnavailable &"lookup" lookupErr)
    end.

Definition CreateIdempotent (ctx : option context) (value : Item) (key fingerprint : bytes) : M S (Item * bool) :=
  contextError ctx;;;
  of_result (validateIdempotentRequest key fingerprint value);;;
  with_db ErrIdempotencyUnavailable (fun db =>
    match db_begin db with
    | None => fail (Sentinel ErrIdempotencyUnavailable)
    | Some begin =>
      tx <-- wrapping (begin ctx) (idempotencyUnavailable &"begin");;
      deferred (in_transaction ctx tx value key fingerprint) (tx_rollback tx (Some rollbackContext))
    end).

(** The methods of [*Store] behind the service's interfaces. *)
Definition postgres_ops : StoreOps S := mkStoreOps Create Get List (Some ListAfter) (Some CreateIdempotent).
End Postgres.

(** [NewStore]: a nil pool gives a store without a database. *)
Definition NewStore {S} (pool : option (Database S)) : option (Database S) :=
  match pool with None => None | Some db => Some db end.
