(* ===== verification/PostgresFacts.v ===== *)
(** * The PostgreSQL store over any driver

    What holds whatever the driver answers: how its errors are classified at the
    optional seams, and how a transaction begins and ends. *)
From S2P Require Import Prelude GoText GoTime Sha256 Errors World Trace Item Idempotency Cursor Order Store Postgres.

(** ** The errors of a program *)

Section Failures.
Context {S : Type}.

(** Every error with which [m] can fail satisfies [P]. *)
Definition fails_with {A} (P : error -> Prop) (m : M S A) : Prop :=
  forall w e w', m w = (Err e, w') -> P e.

Lemma fails_bind {A B} P (m : M S A) (k : A -> M S B) :
  fails_with P m -> (forall a, fails_with P (k a)) -> fails_with P (bind m k).
Proof.
  intros Hm Hk w e w'. unfold bind. destruct (m w) as [[a|e'] w1] eqn:E; [apply Hk|].
  intros [= <- <-]. by eapply Hm.
Qed.

Lemma fails_ret {A} P (a : A) : fails_with P (ret a : M S A).
Proof. by intros w e w'. Qed.
Lemma fails_fail {A} (P : error -> Prop) e : P e -> fails_with P (fail e : M S A).
Proof. by intros He w e' w' [= <- <-]. Qed.
Lemma fails_of_result {A} (P : error -> Prop) (r : result A) :
  (forall e, r = Err e -> P e) -> fails_with P (of_result r : M S A).
Proof. intros Hr w e w' [= -> <-]. by apply Hr. Qed.
Lemma fails_attempt {A} P (m : M S A) : fails_with P (attempt m).
Proof. intros w e w'. unfold attempt. by destruct (m w). Qed.

Lemma fails_wrapping {A} (P : error -> Prop) (m : M S A) wrap : (forall e, P (wrap e)) -> fails_with P (wrapping m wrap).
Proof. intros H. apply fails_bind; [apply fails_attempt|]. intros [a|e]; [apply fails_ret|by apply fails_fail]. Qed.

Lemma fails_deferred {A} P (m : M S A) c : fails_with P m -> fails_with P (deferred m c).
Proof.
  intros Hm w e w'. unfold deferred, bind, attempt, of_result.
  destruct (m w) as [r w1] eqn:E. destruct (c w1) as [? w2]. intros [= -> <-]. by eapply Hm.
Qed.

(** What [contextError] reports: a missing context, or the error of a done one. *)
Definition context_failure (ctx : option context) (e : error) : Prop :=
  (ctx = None /\ e = ValidationError &"context" &"must not be nil")
  \/ exists c tick, ctx = Some c /\ ctx_err c tick = Some e.

Lemma fails_contextError (P : error -> Prop) ctx :
  (forall e, context_failure ctx e -> P e) -> fails_with P (contextError ctx : M S unit).
Proof.
  intros H w e w'. unfold contextError. destruct ctx as [c|]; [|intros [= <- _]; apply H; by left].
  m_unfold. destruct (ctx_err c (w_tick w)) as [e'|] eqn:E; [|done]. intros [= <- _].
  apply H. right. by exists c, (w_tick w).
Qed.
End Failures.

(** ** Classification *)

(** [errors.Is] finds one of the sentinels. *)
Definition is_one_of (l : list sentinel) (e : error) : Prop := exists s, s ∈ l /\ Is e s = true.

Definition idempotent_sentinels : list sentinel :=
  [ErrIdempotencyState; ErrIdempotencyConflict; ErrIdempotencyInProgress; ErrIdempotencyUnavailable;
   ErrConflict; Canceled; DeadlineExceeded].
Definition cursor_sentinels : list sentinel :=
  [ErrCursorState; ErrCursorUnavailable; ErrInvalidInput; Canceled; DeadlineExceeded].

Lemma is_one_of_here l s e : s ∈ l -> Is e s = true -> is_one_of l e.
Proof. intros. by exists s. Qed.

Lemma Is_wrapped_join pre s e post : Is (Wrapf pre (Joined [Sentinel s; e]) post) s = true.
Proof. cbn. by rewrite bool_decide_eq_true_2. Qed.

Lemma idempotencyUnavailable_class operation e : is_one_of idempotent_sentinels (idempotencyUnavailable operation e).
Proof.
  unfold idempotencyUnavailable. destruct (Is e Canceled) eqn:E1; [eapply is_one_of_here; [|exact E1]; set_solver|].
  destruct (Is e DeadlineExceeded) eqn:E2; [eapply is_one_of_here; [|exact E2]; set_solver|].
  destruct (Is e ErrIdempotencyConflict) eqn:E3; [eapply is_one_of_here; [|exact E3]; set_solver|].
  destruct (Is e ErrConflict) eqn:E4; [eapply is_one_of_here; [|exact E4]; set_solver|]. cbn [orb].
  eapply is_one_of_here; [|apply Is_wrapped_join]. set_solver.
Qed.

Lemma insert_error_class translation operation e : is_one_of idempotent_sentinels (insert_error translation operation e).
Proof.
  unfold insert_error. case_match eqn:E; [|apply idempotencyUnavailable_class].
  eapply is_one_of_here; [|exact E]. set_solver.
Qed.

Lemma translateCursorError_class operation e : is_one_of cursor_sentinels (translateCursorError operation e).
Proof.
  unfold translateCursorError. destruct (Is e Canceled) eqn:E1; [eapply is_one_of_here; [|exact E1]; set_solver|].
  destruct (Is e DeadlineExceeded) eqn:E2; [eapply is_one_of_here; [|exact E2]; set_solver|].
  destruct (Is e ErrInvalidInput) eqn:E3; [eapply is_one_of_here; [|exact E3]; set_solver|].
  destruct (Is e ErrCursorState) eqn:E4; [eapply is_one_of_here; [|exact E4]; set_solver|]. cbn [orb].
  eapply is_one_of_here; [|apply Is_wrapped_join]. set_solver.
Qed.

Lemma read_rows_error (P : error -> Prop) f g scans err values e :
  (forall e, P (f e)) -> (forall e, P (g e)) -> read_rows f g scans err values = Err e -> P e.
Proof.
  intros Hf Hg. revert values. induction scans as [|[i|e'] scans IH]; intros values; cbn [read_rows].
  - destruct err; [|done]. by intros [= <-].
  - apply IH.
  - by intros [= <-].
Qed.

Section Errors.
Context {H : Hash256} {S : Type} (rollbackContext : context) (store : option (Database S)).

Lemma in_transaction_fails ctx tx value key fp :
  fails_with (is_one_of idempotent_sentinels) (in_transaction (S := S) ctx tx value key fp).
Proof.
  assert (forall s, s ∈ idempotent_sentinels -> is_one_of idempotent_sentinels (Sentinel s)) as Hs.
  { intros s Hs. exists s. split; [done|]. cbn. by rewrite bool_decide_eq_true_2. }
  unfold in_transaction. apply fails_bind; [apply fails_wrapping, idempotencyUnavailable_class|]. intros locked.
  case_match; [apply fails_fail, Hs; set_solver|].
  apply fails_bind; [apply fails_wrapping, idempotencyUnavailable_class|]. intros _.
  apply fails_bind; [apply fails_attempt|]. intros [[storedHash storedID]|lookupErr].
  - unfold replay. case_match; [apply fails_fail, Hs; set_solver|]. case_match; [apply fails_fail, Hs; set_solver|].
    apply fails_bind; [apply fails_wrapping; intros e; case_match; [apply Hs; set_solver|apply idempotencyUnavailable_class]|].
    intros replayed. apply fails_bind; [apply fails_wrapping, idempotencyUnavailable_class|]. intros _. apply fails_ret.
  - case_match; [|apply fails_fail, idempotencyUnavailable_class]. unfold insert_both.
    apply fails_bind; [apply fails_wrapping, insert_error_class|]. intros created.
    apply fails_bind; [apply fails_wrapping, insert_error_class|]. intros _.
    apply fails_bind; [apply fails_wrapping, idempotencyUnavailable_class|]. intros _. apply fails_ret.
Qed.

Lemma sentinel_class l s : s ∈ l -> is_one_of l (Sentinel s).
Proof. intros Hs. exists s. split; [done|]. cbn. by rewrite bool_decide_eq_true_2. Qed.

Definition idempotent_failure ctx key e : Prop :=
  context_failure ctx e \/ ValidateIdempotencyKey key = Err e \/ is_one_of idempotent_sentinels e.
Definition cursor_failure ctx e : Prop := context_failure ctx e \/ is_one_of cursor_sentinels e.

Lemma validateIdempotentRequest_fails key fp value e :
  validateIdempotentRequest key fp value = Err e -> ValidateIdempotencyKey key = Err e \/ is_one_of idempotent_sentinels e.
Proof.
  unfold validateIdempotentRequest. destruct (ValidateIdempotencyKey key) as [[]|e']; cbn [rbind]; [|auto].
  case_match; [intros [= <-]; right; apply sentinel_class; set_solver|].
  case_match; [done|]. intros [= <-]. right; apply sentinel_class; set_solver.
Qed.

Lemma CreateIdempotent_fails ctx value key fp :
  fails_with (idempotent_failure ctx key) (CreateIdempotent rollbackContext store ctx value key fp).
Proof.
  assert (forall s, s ∈ idempotent_sentinels -> idempotent_failure ctx key (Sentinel s)) as Hs
    by (intros s Hs; right; right; by apply sentinel_class).
  unfold CreateIdempotent. apply fails_bind; [apply fails_contextError; by left|]. intros _.
  apply fails_bind; [apply fails_of_result; intros e He; right; by eapply validateIdempotentRequest_fails|]. intros _.
  unfold with_db. destruct store as [db|]; [|apply fails_fail, Hs; set_solver].
  destruct (db_begin db) as [begin|]; [|apply fails_fail, Hs; set_solver].
  apply fails_bind; [apply fails_wrapping; intros e; right; right; apply idempotencyUnavailable_class|]. intros tx.
  apply fails_deferred. intros w e w' E. right; right. by eapply in_transaction_fails.
Qed.

Lemma ListAfter_fails ctx params : fails_with (cursor_failure ctx) (ListAfter store ctx params).
Proof.
  unfold ListAfter. apply fails_bind; [apply fails_contextError; by left|]. intros _.
  unfold with_db. destruct store as [db|]; [|apply fails_fail; right; apply sentinel_class; set_solver].
  case_match; [apply fails_fail; right; by exists ErrInvalidInput; split; [set_solver|]|].
  apply fails_bind; [apply fails_of_result; intros e|intros _].
  { destruct (clp_after params) as [after|]; [|done]. destruct (Validate after); [done|]. intros [= <-].
    right. exists ErrCursorState. split; [set_solver|]. cbn. by rewrite bool_decide_eq_true_2. }
  case_match; [apply fails_ret|].
  apply fails_bind; [apply fails_wrapping; intros e; right; apply translateCursorError_class|]. intros rows.
  apply fails_deferred, fails_of_result. intros e He. right.
  eapply (read_rows_error (is_one_of cursor_sentinels)); [| |exact He]; intros; apply translateCursorError_class.
Qed.

(** C37: The errors of the optional seams of the PostgreSQL store, whatever the driver
    reports: an idempotent create fails with the error of its context, the rejection
    of its key, or an error that is one of the idempotency sentinels, a conflict or a
    cancellation; a keyset listing fails with the error of its context or an error
    that is a cursor sentinel, invalid input or a cancellation. No failure of the
    driver is left unclassified. *)
Theorem Postgres_seam_errors ctx w :
  (forall value key fp e w', CreateIdempotent rollbackContext store ctx value key fp w = (Err e, w') ->
     idempotent_failure ctx key e)
  /\ (forall params e w', ListAfter store ctx params w = (Err e, w') -> cursor_failure ctx e).
Proof.
  split; intros; [by eapply CreateIdempotent_fails|by eapply ListAfter_fails].
Qed.
End Errors.

(** ** Transactions *)

(** The calls of a database that admits transactions. *)
Inductive db_call :=
  | OnPool (sql : bytes) (args : list value) (d : dest)
  | PoolRows (sql : bytes) (args : list value)
  | Begin
  | InTx (sql : bytes) (args : list value) (d : dest)
  | TxRows (sql : bytes) (args : list value)
  | Exec (sql : bytes) (args : list value)
  | Commit
  | Rollback.

Definition db_answer (c : db_call) : Type :=
  match c with
  | OnPool _ _ d | InTx _ _ d => result (scanned d)
  | PoolRows _ _ | TxRows _ _ => result (list (result Item) * option error)
  | Begin | Exec _ _ | Commit | Rollback => result unit
  end.

Abbreviation db_event := (Trace.event db_answer).

Section Transactions.
Context {H : Hash256} (rollbackContext : context).
Context (oracle : list db_event -> forall c, db_answer c).

Abbreviation ask := (Trace.call oracle).

Definition as_rows (m : M (list db_event) (result (list (result Item) * option error))) : M (list db_event) (Rows (list db_event)) :=
  r <-- plainly m;; ret (mkRows _ (fst r) (snd r) (ret tt)).

(** A driver that answers anything at any time, and whose calls are recorded. *)
Definition traced_tx : Tx (list db_event) :=
  mkTx _ (mkQuerier _ (fun _ sql args d => plainly (ask (InTx sql args d))) (fun _ sql args => as_rows (ask (TxRows sql args))))
    (fun _ sql args => plainly (ask (Exec sql args))) (fun _ => plainly (ask Commit)) (fun _ => plainly (ask Rollback)).
Definition traced_db : Database (list db_event) :=
  mkDatabase _ (mkQuerier _ (fun _ sql args d => plainly (ask (OnPool sql args d))) (fun _ sql args => as_rows (ask (PoolRows sql args))))
    (Some (fun _ => plainly (ask Begin) ;;; ret traced_tx)).

(** The event of a commit that succeeded. *)
Definition committed (ev : db_event) : bool :=
  match ev_call ev as c return db_answer c -> bool with
  | Commit => fun a => is_ok a
  | _ => fun _ => false
  end (ev_answer ev).

(** The statements of a successful body before its commit: the lock on the key, the
    cleanup and the lookup; then either the same request was recorded and its item is
    read, or the key is new and the item and the record are inserted. *)
Inductive performed (value : Item) (keyHash requestHash : array 32) : Item -> bool -> list db_event -> Prop :=
  | performed_replay id j :
    performed value keyHash requestHash (utc_item j) true
      [Event (InTx idempotencyLockQuery [VInt (advisoryLockID keyHash)] LockRow) (Ok true);
       Event (Exec idempotencyCleanupQuery []) (Ok tt);
       Event (InTx idempotencyLookupQuery [VBytes (arr_bytes keyHash)] KeyRow) (Ok (arr_bytes requestHash, id));
       Event (InTx getQuery [VUuid id] ItemRow) (Ok j)]
  | performed_create e created :
    Is e ErrNoRows = true ->
    performed value keyHash requestHash (utc_item created) false
      [Event (InTx idempotencyLockQuery [VInt (advisoryLockID keyHash)] LockRow) (Ok true);
       Event (Exec idempotencyCleanupQuery []) (Ok tt);
       Event (InTx idempotencyLookupQuery [VBytes (arr_bytes keyHash)] KeyRow) (Err e);
       Event (InTx createQuery
         [VUuid (ID value); VText (Name value); VText (Description value); VTime (CreatedAt value)] ItemRow) (Ok created);
       Event (Exec idempotencyInsertQuery
         [VBytes (arr_bytes keyHash); VBytes (arr_bytes requestHash); VUuid (ID (utc_item created)); VInt 86400]) (Ok tt)].

(** How a failed commit is reported. *)
Definition commit_error (replayed : bool) (cause : error) : error :=
  idempotencyUnavailable (if replayed then &"replay commit" else &"commit") cause.

(** The body of a transaction with its outcome: a success is exactly the commit of the
    statements above; a failure has asked for no commit, or is that of the commit of
    those statements, which the server may have done all the same. *)
Definition transaction (value : Item) (keyHash requestHash : array 32) (r : result (Item * bool)) (body : list db_event) : Prop :=
  Forall (fun ev => ev_call ev <> Begin /\ ev_call ev <> Rollback) body
  /\ match r with
     | Ok (i, replayed) => exists work, body = work ++ [Event Commit (Ok tt)] /\ performed value keyHash requestHash i replayed work
     | Err e =>
       Forall (fun ev => ev_call ev <> Commit) body
       \/ exists i replayed work cause, body = work ++ [Event Commit (Err cause)]
            /\ performed value keyHash requestHash i replayed work /\ e = commit_error replayed cause
     end.

Lemma in_transaction_emits ctx value key fp :
  emits [] (in_transaction ctx traced_tx value key fp)
    (fun r evs => transaction value (Sum256 key) (default (zero_array 32) (decodeDigest fp)) r evs).
Proof.
  unfold in_transaction, replay, insert_both, createWithQuerier, getWithQuerier, wrapping.
  cbn [traced_tx tx_querier tx_exec tx_commit QueryRow]. emit; subst; bool_simpl; subst;
    repeat match goal with a : unit |- _ => destruct a end; (split; [by repeat constructor|]);
    try (by left; repeat constructor).
  - eexists. split; [rewrite app_nil_l; done|]. by constructor.
  - right. eexists _, true, _, _. split; [rewrite app_nil_l; done|]. split; [by constructor|done].
  - eexists. split; [rewrite app_nil_l; done|]. by constructor.
  - right. eexists _, false, _, _. split; [rewrite app_nil_l; done|]. split; [by constructor|done].
Qed.

(** How a keyed create ends, with the events that it leaves. *)
Definition create_trace (value : Item) (key fp : bytes) (r : result (Item * bool)) (evs : list db_event) : Prop :=
  is_ok r = false /\ (evs = [] \/ exists e, evs = [Event Begin (Err e)])
  \/ exists body a, evs = Event Begin (Ok tt) :: body ++ [Event Rollback a]
        /\ transaction value (Sum256 key) (default (zero_array 32) (decodeDigest fp)) r body.

Lemma CreateIdempotent_emits ctx value key fp :
  emits [] (CreateIdempotent rollbackContext (Some traced_db) ctx value key fp) (create_trace value key fp).
Proof.
  unfold CreateIdempotent. apply emits_bind.
  apply (emits_weaken _ _ (fun _ evs => evs = [])).
  { intros w1. exists []. rewrite app_nil_r. split; [|done]. unfold contextError. destruct ctx; [|done].
    m_unfold. by destruct (ctx_err _ _). }
  intros [[]|e] evs ->; [|left; eauto]. apply emits_bind. eapply emits_return; [done|].
  destruct (validateIdempotentRequest key fp value) as [[]|e]; [|left; eauto].
  cbn [with_db traced_db db_begin]. unfold wrapping. apply emits_bind, emits_bind, emits_attempt, emits_bind.
  unfold plainly, checked. apply emits_bind; emit_call. intros [[]|e]; (eapply emits_return; [done|]); cbn beta iota.
  2: { eapply emits_return; [done|]. left. eauto. }
  do 2 (eapply emits_return; [done|]; cbn beta iota). cbn [app].
  unfold deferred. apply emits_bind, emits_attempt. intros w1.
  destruct (in_transaction_emits ctx value key fp w1) as (body & Hs & Ht). exists body. split; [done|].
  cbn beta iota. cbn [traced_tx tx_rollback]. unfold plainly, checked.
  apply emits_bind, emits_attempt, emits_bind; emit_call. intros a.
  destruct a as [[]|e]; (eapply emits_return; [done|]); cbn beta iota; (eapply emits_return; [done|]);
    right; eexists body, _; (split; [done|exact Ht]).
Qed.

(** C17: An idempotent create is one transaction, whatever the driver answers and
    whenever: it stops before the transaction with an error, or begins it and ends
    with exactly one rollback. It succeeds exactly when a commit, its last statement,
    succeeds, after the statements of a replay or of the insertion of both the item
    and its record under the digest of the key. When it fails, either no commit was
    ever sent, or the commit of those statements was its last one and failed: the error
    is then the one that reports that commit, whose outcome only the server knows. *)
Theorem Postgres_transaction ctx value key fp w :
  exists evs,
    w_store (snd (CreateIdempotent rollbackContext (Some traced_db) ctx value key fp w)) = w_store w ++ evs
    /\ (is_ok (fst (CreateIdempotent rollbackContext (Some traced_db) ctx value key fp w)) = false
          /\ (evs = [] \/ exists e, evs = [Event Begin (Err e)])
       \/ exists body a, evs = Event Begin (Ok tt) :: body ++ [Event Rollback a]
          /\ transaction value (Sum256 key) (default (zero_array 32) (decodeDigest fp))
               (fst (CreateIdempotent rollbackContext (Some traced_db) ctx value key fp w)) body).
Proof. exact (CreateIdempotent_emits ctx value key fp w). Qed.
End Transactions.
