(* ===== verification/Sql.v ===== *)
(** * The database behind the store (db/migrations)

    The two tables as values, the constraints of the migrations, and what the store
    relies on PostgreSQL and pgx for, statement by statement: [SqlDatabase] states the
    documented meaning of the SQL texts of postgres/store.go for the successful cases
    and the failures that the store tells apart, of transactions, advisory locks and
    the precision of timestamps. [reference_database] is a database of that kind that
    can be run. *)
From S2P Require Import Prelude GoText GoEncoding GoTime Errors World Item Idempotency Cursor Order Store Postgres.

(** ** Tables *)

(** A row of [item_idempotency_keys]; times are microseconds. *)
Record key_row := mkKeyRow { kr_request : bytes; kr_item : uuid; kr_created : Z; kr_expires : Z }.

Record tables := mkTables { tb_items : gmap uuid Item; tb_keys : gmap bytes key_row }.

Definition set_tb_items (tb : tables) (items : gmap uuid Item) : tables := mkTables items (tb_keys tb).
Definition set_tb_keys (tb : tables) (keys : gmap bytes key_row) : tables := mkTables (tb_items tb) keys.

(** Timestamps are kept to the microsecond. *)
Definition whole_micros (t : time) : Prop := t_nsec t mod 1000 = 0.
Definition to_micros (t : time) : time := Time (t_sec t) (t_nsec t - t_nsec t mod 1000) None UTC.
Definition stored_item (i : Item) : Item := mkItem (ID i) (Name i) (Description i) (to_micros (CreatedAt i)).

(** ** Constraints *)

(** Texts hold characters, and no zero byte. *)
Definition pg_text (s : bytes) : bool := ValidString s && negb (bool_decide (zb 0 ∈ s)).

(** [btrim(s)]. *)
Definition btrim (s : bytes) : bytes := trim_both (fun b => bool_decide (b = zb 32)) s.

(** [VARCHAR(120)] and the CHECK constraints of [items]. *)
Definition row_allowed (name description : bytes) : bool :=
  pg_text name && pg_text description
  && (RuneCountInString name <=? 120)
  && (1 <=? RuneCountInString (btrim name)) && (RuneCountInString (btrim name) <=? 120)
  && (RuneCountInString description <=? 2000).

(** The range of [TIMESTAMPTZ], in seconds of year 1. *)
Definition pg_time (t : time) : bool := (-148731206400 <=? t_sec t) && (t_sec t <=? 9286453612799).

Definition insertable (i : Item) : bool := row_allowed (Name i) (Description i) && pg_time (CreatedAt i).

Definition unique_violation : bytes := &"23505".

(** An error that the driver reports for a failed statement: no sentinel of this
    program, and a SQLSTATE. *)
Definition pg_failure (violation : bool) (e : error) : Prop :=
  bool_decide (pg_code e = Some unique_violation) = violation /\ forall s, Is e s = false.

(** ** What the store relies on *)

Section Laws.
Context {S : Type}.
Implicit Types (w : world S) (inv after_error : S -> Prop) (view : S -> tables).

(** A statement that only reads. *)
Definition reads {A} inv view (m : M S A) w (P : result A -> Prop) : Prop :=
  exists r w', m w = (r, w') /\ inv (w_store w') /\ view (w_store w') = view (w_store w) /\ P r.

(** The statements on [items], where [inv] holds and [view] is what they see. *)
Record item_statements inv after_error view (q : Querier S) : Prop := {
  law_insert ctx i w :
    live ctx -> inv (w_store w) -> canonical_item i ->
    exists r w', QueryRow q (Some ctx) createQuery
        [VUuid (ID i); VText (Name i); VText (Description i); VTime (CreatedAt i)] ItemRow w = (r, w')
      /\ if insertable i then
           match tb_items (view (w_store w)) !! ID i with
           | None => (exists j, r = Ok j /\ utc_item j = stored_item i) /\ inv (w_store w')
               /\ view (w_store w') = set_tb_items (view (w_store w)) (<[ID i := stored_item i]> (tb_items (view (w_store w))))
           | Some _ => (exists e, r = Err e /\ pg_failure true e) /\ after_error (w_store w')
               /\ view (w_store w') = view (w_store w)
           end
         else (exists e, r = Err e /\ pg_failure false e) /\ after_error (w_store w')
              /\ view (w_store w') = view (w_store w);
  law_get ctx id w :
    live ctx -> inv (w_store w) ->
    reads inv view (QueryRow q (Some ctx) getQuery [VUuid id] ItemRow) w (fun r =>
      match tb_items (view (w_store w)) !! id with
      | Some i => exists j, r = Ok j /\ utc_item j = i
      | None => r = Err (Sentinel ErrNoRows)
      end);
}.

(** A result set without errors. *)
Definition rows_are inv view w (items : list Item) (r : result (Rows S)) : Prop :=
  exists rows js, r = Ok rows /\ rows_scans rows = Ok <$> js /\ rows_err rows = None /\ utc_item <$> js = items
    /\ forall w', inv (w_store w') ->
         exists r w'', rows_close rows w' = (r, w'') /\ inv (w_store w'') /\ view (w_store w'') = view (w_store w').

(** The listings: ORDER BY created_at DESC, id DESC with LIMIT, OFFSET, and the
    comparison of rows. *)
Record listing_statements inv view (q : Querier S) : Prop := {
  law_list ctx limit offset w :
    live ctx -> inv (w_store w) -> 0 <= limit -> 0 <= offset ->
    reads inv view (Query q (Some ctx) listQuery [VInt limit; VInt offset]) w
      (rows_are inv view w (take (Z.to_nat limit) (drop (Z.to_nat offset) (newest (tb_items (view (w_store w)))))));
  law_first ctx limit w :
    live ctx -> inv (w_store w) -> 0 <= limit ->
    reads inv view (Query q (Some ctx) cursorListFirstQuery [VInt limit]) w
      (rows_are inv view w (take (Z.to_nat limit) (newest (tb_items (view (w_store w))))));
  law_after ctx limit t id w :
    live ctx -> inv (w_store w) -> 0 <= limit -> canonical_time t -> whole_micros t ->
    reads inv view (Query q (Some ctx) cursorListAfterQuery [VTime t; VUuid id; VInt limit]) w
      (rows_are inv view w
        (take (Z.to_nat limit) (List.filter (beyond (mkPosition t id)) (newest (tb_items (view (w_store w)))))));
}.

(** The microseconds that a record is kept. *)
Definition retention_micros : Z := 86400 * 1000000.

(** The statements of a transaction over the committed tables [base]; [working] is
    what it sees. [idle] holds outside of transactions, [opened base] inside,
    and [begun base] inside also after a failed statement; [unlocked] says that no
    other session holds the advisory lock of a key. *)
Record transaction_statements (idle : S -> Prop) (committed : S -> tables) (opened begun : tables -> S -> Prop)
    (working : S -> tables) (unlocked : Prop) (server : nat -> Z) (base : tables) (tx : Tx S) : Prop := {
  law_tx_items : item_statements (opened base) (begun base) working (tx_querier tx);
  law_lock ctx id w :
    live ctx -> opened base (w_store w) ->
    exists b, reads (opened base) working (QueryRow (tx_querier tx) (Some ctx) idempotencyLockQuery [VInt id] LockRow) w
      (fun r => r = Ok b) /\ (unlocked -> b = true);
  law_cleanup ctx w :
    live ctx -> opened base (w_store w) ->
    exists w' (removed : gset bytes), tx_exec tx (Some ctx) idempotencyCleanupQuery [] w = (Ok tt, w') /\ opened base (w_store w')
      /\ working (w_store w') = set_tb_keys (working (w_store w)) (filter (fun p => fst p ∉ removed) (tb_keys (working (w_store w))))
      /\ forall key row, key ∈ removed -> tb_keys (working (w_store w)) !! key = Some row ->
           exists tick, kr_expires row <= server tick;
  law_lookup ctx key w :
    live ctx -> opened base (w_store w) ->
    reads (opened base) working (QueryRow (tx_querier tx) (Some ctx) idempotencyLookupQuery [VBytes key] KeyRow) w
      (fun r => r = match tb_keys (working (w_store w)) !! key with
                    | Some row => Ok (kr_request row, kr_item row)
                    | None => Err (Sentinel ErrNoRows)
                    end);
  law_insert_key ctx key request id w :
    live ctx -> opened base (w_store w) -> length key = 32%nat -> length request = 32%nat ->
    is_Some (tb_items (working (w_store w)) !! id) -> tb_keys (working (w_store w)) !! key = None ->
    exists w' t t', tx_exec tx (Some ctx) idempotencyInsertQuery [VBytes key; VBytes request; VUuid id; VInt 86400] w
        = (Ok tt, w') /\ opened base (w_store w')
      /\ working (w_store w') = set_tb_keys (working (w_store w))
           (<[key := mkKeyRow request id (server t) (server t' + retention_micros)]> (tb_keys (working (w_store w))));
  law_commit ctx w :
    live ctx -> opened base (w_store w) ->
    exists w', tx_commit tx (Some ctx) w = (Ok tt, w') /\ idle (w_store w') /\ committed (w_store w') = working (w_store w);
  law_rollback ctx w :
    opened base (w_store w) \/ begun base (w_store w) ->
    exists r w', tx_rollback tx (Some ctx) w = (r, w') /\ idle (w_store w') /\ committed (w_store w') = base;
  law_rollback_done ctx w :
    idle (w_store w) ->
    exists r w', tx_rollback tx (Some ctx) w = (r, w') /\ idle (w_store w')
      /\ committed (w_store w') = committed (w_store w);
}.
End Laws.

Class SqlDatabase {S : Type} (db : Database S) := {
  sq_idle : S -> Prop;
  sq_committed : S -> tables;
  sq_opened : tables -> S -> Prop;
  sq_begun : tables -> S -> Prop;
  sq_working : S -> tables;
  sq_unlocked : Prop;
  sq_server : nat -> Z;
  sq_pool_items : item_statements sq_idle sq_idle sq_committed (db_querier db);
  sq_pool_lists : listing_statements sq_idle sq_committed (db_querier db);
  sq_begin : option context -> M S (Tx S);
  sq_begin_capable : db_begin db = Some sq_begin;
  sq_begin_law ctx w :
    live ctx -> sq_idle (w_store w) ->
    exists tx w', sq_begin (Some ctx) w = (Ok tx, w')
      /\ transaction_statements sq_idle sq_committed sq_opened sq_begun sq_working sq_unlocked sq_server
           (sq_committed (w_store w)) tx
      /\ sq_opened (sq_committed (w_store w)) (w_store w') /\ sq_working (w_store w') = sq_committed (w_store w);
}.

(** ** Lemmas *)

Lemma to_micros_canonical t : canonical_time t -> canonical_time (to_micros t).
Proof.
  intros ([Hs Hn] & _). split; [|done]. split; [done|]. cbn [to_micros t_nsec].
  pose proof (Z.mod_pos_bound (t_nsec t) 1000). pose proof (Z.mod_le (t_nsec t) 1000). lia.
Qed.

Lemma to_micros_whole t : whole_micros (to_micros t).
Proof.
  unfold whole_micros, to_micros. cbn [t_nsec].
  rewrite Zminus_mod, Zmod_mod, Z.sub_diag. done.
Qed.

Lemma stored_item_canonical i : canonical_item i -> canonical_item (stored_item i).
Proof. apply to_micros_canonical. Qed.

Lemma pg_failure_not violation e s : pg_failure violation e -> Is e s = false.
Proof. intros [_ H]. apply H. Qed.
