(* ===== verification/SqlReference.v ===== *)
(** * A database that runs

    The tables in memory with one transaction at a time, interpreting the SQL texts of
    the store: it satisfies [SqlDatabase], so the laws that the store relies on can be
    met together. Timestamps come back in the zone of the session, as pgx gives them. *)
From S2P Require Import Prelude GoText GoEncoding GoTime Errors World Item Idempotency Cursor Order Store Postgres Sql.

Record sql_state := mkSqlState { ss_committed : tables; ss_working : option (tables * bool) }.

(** ** Statements *)

Inductive statement := SInsert | SGet | SList | SFirst | SAfter | SCleanup | SLock | SLookup | SInsertKey.

Definition statements : list (bytes * statement) :=
  [(createQuery, SInsert); (getQuery, SGet); (listQuery, SList); (cursorListFirstQuery, SFirst);
   (cursorListAfterQuery, SAfter); (idempotencyCleanupQuery, SCleanup); (idempotencyLockQuery, SLock);
   (idempotencyLookupQuery, SLookup); (idempotencyInsertQuery, SInsertKey)].

Definition parse (sql : bytes) : option statement :=
  snd <$> List.find (fun p => bool_decide (fst p = sql)) statements.

Definition syntax_error : error := PgError &"42601" &"syntax error".
Definition aborted_error : error := PgError &"25P02" &"current transaction is aborted".

(** An item as pgx returns it, in a zone of its own. *)
Definition session_item (i : Item) : Item :=
  mkItem (ID i) (Name i) (Description i) (Time (t_sec (CreatedAt i)) (t_nsec (CreatedAt i)) None (Zone 3600)).

Definition run_insert (i : Item) (tb : tables) : result Item * tables :=
  if insertable i then
    match tb_items tb !! ID i with
    | None => (Ok (session_item (stored_item i)), set_tb_items tb (<[ID i := stored_item i]> (tb_items tb)))
    | Some _ => (Err (PgError unique_violation &"duplicate key value violates unique constraint"), tb)
    end
  else (Err (PgError &"23514" &"new row violates check constraint"), tb).

Definition run_row (sql : bytes) (args : list value) (d : dest) (tb : tables) : result (scanned d) * tables :=
  match d return result (scanned d) * tables with
  | ItemRow =>
    match parse sql, args with
    | Some SInsert, [VUuid id; VText name; VText description; VTime t] => run_insert (mkItem id name description t) tb
    | Some SGet, [VUuid id] =>
      (match tb_items tb !! id with Some i => Ok (session_item i) | None => Err (Sentinel ErrNoRows) end, tb)
    | _, _ => (Err syntax_error, tb)
    end
  | LockRow => match parse sql with Some SLock => (Ok true, tb) | _ => (Err syntax_error, tb) end
  | KeyRow =>
    match parse sql, args with
    | Some SLookup, [VBytes key] =>
      (match tb_keys tb !! key with
       | Some row => Ok (kr_request row, kr_item row)
       | None => Err (Sentinel ErrNoRows)
       end, tb)
    | _, _ => (Err syntax_error, tb)
    end
  end.

Definition run_rows (sql : bytes) (args : list value) (tb : tables) : result (list Item) :=
  match parse sql, args with
  | Some SList, [VInt limit; VInt offset] =>
    Ok (take (Z.to_nat limit) (drop (Z.to_nat offset) (newest (tb_items tb))))
  | Some SFirst, [VInt limit] => Ok (take (Z.to_nat limit) (newest (tb_items tb)))
  | Some SAfter, [VTime t; VUuid id; VInt limit] =>
    Ok (take (Z.to_nat limit) (List.filter (beyond (mkPosition t id)) (newest (tb_items tb))))
  | _, _ => Err syntax_error
  end.

(** The server's clock, stopped. *)
Definition server_time (tick : nat) : Z := 1700000000000000.

(** At most a hundred expired keys. *)
Definition expired_keys (tb : tables) : gset bytes :=
  list_to_set (take 100 (fst <$> List.filter (fun p => kr_expires (snd p) <=? server_time 0) (map_to_list (tb_keys tb)))).

(** The CHECK constraints of [item_idempotency_keys]: two digests, and an expiry after
    the creation. *)
Definition key_row_allowed (key request : bytes) (seconds : Z) : bool :=
  (length key =? 32)%nat && (length request =? 32)%nat && (0 <? seconds).

Definition run_exec (sql : bytes) (args : list value) (tb : tables) : result unit * tables :=
  match parse sql, args with
  | Some SCleanup, [] => (Ok tt, set_tb_keys tb (filter (fun p => fst p ∉ expired_keys tb) (tb_keys tb)))
  | Some SInsertKey, [VBytes key; VBytes request; VUuid id; VInt seconds] =>
    if negb (key_row_allowed key request seconds)
    then (Err (PgError &"23514" &"new row violates check constraint"), tb)
    else match tb_keys tb !! key, tb_items tb !! id with
    | None, Some _ =>
      (Ok tt, set_tb_keys tb (<[key := mkKeyRow request id (server_time 0) (server_time 0 + seconds * 1000000)]> (tb_keys tb)))
    | Some _, _ => (Err (PgError unique_violation &"duplicate key value violates unique constraint"), tb)
    | None, None => (Err (PgError &"23503" &"insert violates foreign key constraint"), tb)
    end
  | _, _ => (Err syntax_error, tb)
  end.

(** ** The driver *)

(** A statement outside of a transaction commits by itself. *)
Definition on_committed {A} (f : tables -> result A * tables) : M sql_state A := fun w =>
  let '(r, tb) := f (ss_committed (w_store w)) in (r, World (w_tick w) (mkSqlState tb (ss_working (w_store w)))).

(** A statement of the open transaction; a failure of the server aborts it. *)
Definition on_working {A} (f : tables -> result A * tables) : M sql_state A := fun w =>
  match ss_working (w_store w) with
  | Some (tb, false) =>
    let '(r, tb') := f tb in
    let failed := match r with Ok _ => false | Err e => negb (Is e ErrNoRows) end in
    (r, World (w_tick w) (mkSqlState (ss_committed (w_store w)) (Some (tb', failed))))
  | _ => (Err aborted_error, w)
  end.

Definition result_set (r : result (list Item)) : result (Rows sql_state) :=
  match r with Ok l => Ok (mkRows _ (Ok <$> (session_item <$> l)) None (ret tt)) | Err e => Err e end.

Definition ref_tx : Tx sql_state :=
  mkTx _
    (mkQuerier _ (fun _ sql args d => on_working (run_row sql args d))
       (fun _ sql args => on_working (fun tb => (result_set (run_rows sql args tb), tb))))
    (fun _ sql args => on_working (run_exec sql args))
    (fun _ w => match ss_working (w_store w) with
                | Some (tb, false) => (Ok tt, World (w_tick w) (mkSqlState tb None))
                | _ => (Err aborted_error, World (w_tick w) (mkSqlState (ss_committed (w_store w)) None))
                end)
    (fun _ w => (Ok tt, World (w_tick w) (mkSqlState (ss_committed (w_store w)) None))).

Definition ref_begin (ctx : option context) : M sql_state (Tx sql_state) := fun w =>
  (Ok ref_tx, World (w_tick w) (mkSqlState (ss_committed (w_store w)) (Some (ss_committed (w_store w), false)))).

Definition reference_database : Database sql_state :=
  mkDatabase _
    (mkQuerier _ (fun _ sql args d => on_committed (run_row sql args d))
       (fun _ sql args => on_committed (fun tb => (result_set (run_rows sql args tb), tb))))
    (Some ref_begin).

(** ** The laws *)

Definition items_valid (tb : tables) : Prop := items_ok (tb_items tb).
Definition ref_opened (base : tables) (s : sql_state) : Prop :=
  items_valid base /\ ss_committed s = base /\ exists tb, ss_working s = Some (tb, false) /\ items_valid tb.
Definition ref_begun (base : tables) (s : sql_state) : Prop := items_valid base /\ ss_committed s = base.
Definition ref_working (s : sql_state) : tables :=
  match ss_working s with Some (tb, _) => tb | None => ss_committed s end.
Definition ref_idle (s : sql_state) : Prop := ss_working s = None /\ items_valid (ss_committed s).

Lemma utc_session_item i : canonical_time (CreatedAt i) -> utc_item (session_item i) = i.
Proof. destruct i as [id n d [sec nsec mono loc]]. unfold canonical_time. cbn. by intros (_ & -> & ->). Qed.

Lemma parsed : Forall (fun p => parse (fst p) = Some (snd p)) statements.
Proof. repeat constructor. Qed.

Ltac parse_as n := pose proof (proj1 (Forall_lookup _ _) parsed n _ eq_refl) as Hparse; cbn [fst snd] in Hparse.

Lemma utc_session_items l : Forall canonical_item l -> utc_item <$> (session_item <$> l) = l.
Proof.
  induction 1 as [|i l Hi Hl IH]; [done|]. cbn [fmap list_fmap]. by rewrite IH, utc_session_item.
Qed.

(** *** Statements on tables *)

Lemma run_insert_valid i tb r tb' : canonical_item i -> items_valid tb -> run_insert i tb = (r, tb') -> items_valid tb'.
Proof.
  intros Hc Hv. unfold run_insert. case_match; [case_match|]; intros [= <- <-]; [done| |done].
  apply map_Forall_insert_2; [|done]. split; [done|]. by apply stored_item_canonical.
Qed.

Lemma run_insert_outcome i tb r tb' :
  canonical_item i -> run_insert i tb = (r, tb') ->
  if insertable i then
    match tb_items tb !! ID i with
    | None => (exists j, r = Ok j /\ utc_item j = stored_item i) /\ tb' = set_tb_items tb (<[ID i := stored_item i]> (tb_items tb))
    | Some _ => (exists e, r = Err e /\ pg_failure true e) /\ tb' = tb
    end
  else (exists e, r = Err e /\ pg_failure false e) /\ tb' = tb.
Proof.
  intros Hc. unfold run_insert. destruct (insertable i); [destruct (tb_items tb !! ID i)|]; intros [= <- <-].
  - split; [|done]. eexists. split; [done|]. split; [by rewrite bool_decide_true|done].
  - split; [|done]. eexists. split; [done|]. apply utc_session_item. by apply stored_item_canonical.
  - split; [|done]. eexists. split; [done|]. split; [by rewrite bool_decide_false|done].
Qed.

Lemma run_row_insert i tb :
  run_row createQuery [VUuid (ID i); VText (Name i); VText (Description i); VTime (CreatedAt i)] ItemRow tb = run_insert i tb.
Proof. unfold run_row. parse_as 0%nat. rewrite Hparse. by destruct i. Qed.

Lemma run_row_get id tb :
  run_row getQuery [VUuid id] ItemRow tb
  = (match tb_items tb !! id with Some i => Ok (session_item i) | None => Err (Sentinel ErrNoRows) end, tb).
Proof. unfold run_row. parse_as 1%nat. by rewrite Hparse. Qed.

Lemma ref_pool_items : item_statements ref_idle ref_idle ss_committed (db_querier reference_database).
Proof.
  split; cbn [db_querier reference_database QueryRow]; unfold on_committed, reads.
  - intros ctx i w _ [Hw Hv] Hc. rewrite run_row_insert. destruct (run_insert i (ss_committed (w_store w))) as [r tb'] eqn:E.
    pose proof (run_insert_outcome _ _ _ _ Hc E) as Ho. pose proof (run_insert_valid _ _ _ _ Hc Hv E) as Hv'.
    eexists r, _. split; [done|]. unfold ref_idle. cbn [w_store ss_working ss_committed].
    destruct (insertable i); [destruct (tb_items (ss_committed (w_store w)) !! ID i)|]; destruct Ho as [He ->]; (split; [exact He|]; split; [by split|done]).
  - intros ctx id w _ [Hw Hv]. rewrite run_row_get. eexists _, _. split; [done|]. split; [done|]. split; [done|].
    destruct (tb_items (ss_committed (w_store w)) !! id) as [i|] eqn:E; [|done].
    eexists. split; [done|]. apply utc_session_item. by apply (Hv id i E).
Qed.

Lemma result_set_are l w inv view :
  Forall canonical_item l -> rows_are inv view w l (result_set (Ok l)).
Proof.
  intros Hl. eexists _, (session_item <$> l). split; [done|]. split; [done|]. split; [done|].
  split; [by apply utc_session_items|]. intros w' Hi. by eexists _, w'.
Qed.

Lemma newest_all_canonical tb : items_valid tb -> Forall canonical_item (newest (tb_items tb)).
Proof. intros Hv. rewrite Forall_forall. intros i. by apply newest_canonical. Qed.

Lemma ref_pool_lists : listing_statements ref_idle ss_committed (db_querier reference_database).
Proof.
  split; cbn [db_querier reference_database Query]; unfold on_committed, reads, run_rows.
  - intros ctx limit offset w _ [Hw Hv] _ _. parse_as 2%nat. rewrite Hparse. eexists _, _. split; [done|].
    split; [done|]. split; [done|]. apply result_set_are, Forall_take, Forall_drop. by apply newest_all_canonical.
  - intros ctx limit w _ [Hw Hv] _. parse_as 3%nat. rewrite Hparse. eexists _, _. split; [done|].
    split; [done|]. split; [done|]. apply result_set_are, Forall_take. by apply newest_all_canonical.
  - intros ctx limit t id w _ [Hw Hv] _ _ _. parse_as 4%nat. rewrite Hparse. eexists _, _. split; [done|].
    split; [done|]. split; [done|]. apply result_set_are, Forall_take.
    rewrite Forall_forall. intros i [Hi _]%elem_of_bfilter. by eapply newest_canonical.
Qed.

Lemma ref_tx_items base : item_statements (ref_opened base) (ref_begun base) ref_working (tx_querier ref_tx).
Proof.
  split; cbn [tx_querier ref_tx QueryRow]; unfold on_working, ref_working, reads.
  - intros ctx i w _ (Hb & Hbase & tb & Hw & Hv) Hc. rewrite Hw, run_row_insert. destruct (run_insert i tb) as [r tb'] eqn:E.
    pose proof (run_insert_outcome _ _ _ _ Hc E) as Ho. pose proof (run_insert_valid _ _ _ _ Hc Hv E) as Hv'.
    eexists r, _. split; [done|]. unfold ref_opened, ref_begun. cbn [w_store ss_working ss_committed].
    destruct (insertable i); [destruct (tb_items tb !! ID i)|]; destruct Ho as [He ->]; split; try done.
    split; [|done]. destruct He as (j & -> & _). eauto 6.
  - intros ctx id w _ (Hb & Hbase & tb & Hw & Hv). rewrite Hw, run_row_get. eexists _, _. split; [done|].
    unfold ref_opened. cbn [w_store ss_working ss_committed].
    destruct (tb_items tb !! id) as [i|] eqn:E; (split; [by eauto 6|]; split; [done|]); [|done].
    eexists. split; [done|]. apply utc_session_item. by apply (Hv id i E).
Qed.

Lemma ref_transaction base :
  transaction_statements ref_idle ss_committed ref_opened ref_begun ref_working True server_time base ref_tx.
Proof.
  split.
  - apply ref_tx_items.
  - intros ctx id w _ (Hb & Hbase & tb & Hw & Hv). exists true. split; [|done].
    cbn [tx_querier ref_tx QueryRow]. unfold on_working, run_row, ref_working, reads. rewrite Hw. parse_as 6%nat. rewrite Hparse.
    eexists _, _. split; [done|]. unfold ref_opened. cbn [w_store ss_working ss_committed]. eauto 8.
  - intros ctx w _ (Hb & Hbase & tb & Hw & Hv). cbn [tx_exec ref_tx]. unfold on_working, run_exec, ref_working. rewrite Hw.
    parse_as 5%nat. rewrite Hparse. eexists _, (expired_keys tb). split; [done|].
    unfold ref_opened. cbn [w_store ss_working ss_committed]. split; [by eauto 7|]. split; [done|].
    intros key row Hk Hrow. exists 0%nat. unfold expired_keys in Hk.
    apply elem_of_list_to_set, elem_of_take_weaken, list_elem_of_fmap in Hk as ((k & row') & -> & Hk).
    apply elem_of_bfilter in Hk as [Hk%elem_of_map_to_list He]. cbn [fst snd] in *.
    rewrite Hk in Hrow. injection Hrow as ->. by apply Z.leb_le.
  - intros ctx key w _ (Hb & Hbase & tb & Hw & Hv). cbn [tx_querier ref_tx QueryRow].
    unfold on_working, run_row, ref_working, reads. rewrite Hw. parse_as 7%nat. rewrite Hparse.
    eexists _, _. split; [done|]. unfold ref_opened. cbn [w_store ss_working ss_committed].
    destruct (tb_keys tb !! key); eauto 8.
  - intros ctx key request id w _ (Hb & Hbase & tb & Hw & Hv) Lk Lr. unfold ref_working at 1 2. rewrite Hw.
    intros [i Hi] Hk. cbn [tx_exec ref_tx]. unfold on_working, run_exec, ref_working. rewrite Hw.
    parse_as 8%nat. rewrite Hparse. unfold key_row_allowed. rewrite Lk, Lr. cbn [Nat.eqb negb andb Z.ltb Z.compare]. rewrite Hk, Hi. eexists _, 0%nat, 0%nat. split; [done|].
    unfold ref_opened. cbn [w_store ss_working ss_committed]. eauto 8.
  - intros ctx w _ (Hb & Hbase & tb & Hw & Hv). cbn [tx_commit ref_tx]. unfold ref_working. rewrite Hw.
    eexists. split; [done|]. by split.
  - intros ctx w Ho. cbn [tx_rollback ref_tx]. eexists _, _. split; [done|].
    destruct Ho as [(Hb & Hbase & _)|[Hb Hbase]]; unfold ref_idle; cbn; by rewrite Hbase.
  - intros ctx w [Hw Hv]. cbn [tx_rollback ref_tx]. eexists _, _. split; [done|]. by split.
Qed.

#[export, refine] Instance reference_sql : SqlDatabase reference_database := {|
  sq_idle := ref_idle;
  sq_committed := ss_committed;
  sq_opened := ref_opened;
  sq_begun := ref_begun;
  sq_working := ref_working;
  sq_unlocked := True;
  sq_server := server_time;
  sq_pool_items := ref_pool_items;
  sq_pool_lists := ref_pool_lists;
  sq_begin := ref_begin;
|}.
Proof.
  - done.
  - intros ctx w _ [Hw Hv]. eexists _, _. split; [done|]. split; [apply ref_transaction|].
    unfold ref_opened. cbn [w_store ss_working ss_committed]. split; [|done]. eauto 7.
Defined.
