(* ===== verification/PostgresSpec.v ===== *)
(** * The PostgreSQL store keeps the store's promise

    Over any database that gives the SQL statements their meaning, the store is a
    [StoreSpec] and an [IdempotentSpec], like the memory store: the service and the
    HTTP adapter behave the same on either. *)
From S2P Require Import Prelude GoText GoEncoding GoTime Sha256 Errors World Trace Item Idempotency Cursor Order Store Memory MemoryFacts Postgres Sql.

Section Spec.
Context {H : Hash256} {S : Type} (db : Database S) `{!SqlDatabase db} (rollbackContext : context).
Implicit Types (w : world S) (ctx : context).

Abbreviation pg := (Some db).
Abbreviation items w := (tb_items (sq_committed (w_store w))).

Lemma wrapping_Ok {A} (m : M S A) f w a w' : m w = (Ok a, w') -> wrapping m f w = (Ok a, w').
Proof. unfold wrapping. m_unfold. by intros ->. Qed.

Lemma wrapping_Err {A} (m : M S A) f w e w' : m w = (Err e, w') -> wrapping m f w = (Err (f e), w').
Proof. unfold wrapping. m_unfold. by intros ->. Qed.

(** A violation of uniqueness is a conflict. *)
Lemma translate_violation operation e :
  pg_failure true e -> Is (translateError operation e) ErrConflict = true.
Proof.
  intros [Hc Hs]. unfold translateError. rewrite Hs. unfold unique_violation in Hc. rewrite Hc.
  cbn. by rewrite bool_decide_eq_true_2.
Qed.

(** The insertion of an item that the table can hold, on a pool or in a transaction. *)
Section Insert.
Context (inv after_error : S -> Prop) (view : S -> tables) (q : Querier S) (Hq : item_statements inv after_error view q).

Lemma create_new ctx i w :
  live ctx -> inv (w_store w) -> canonical_item i -> insertable i = true -> tb_items (view (w_store w)) !! ID i = None ->
  exists w', createWithQuerier (Some ctx) q i w = (Ok (stored_item i), w') /\ inv (w_store w')
    /\ view (w_store w') = set_tb_items (view (w_store w)) (<[ID i := stored_item i]> (tb_items (view (w_store w)))).
Proof.
  intros Hl Hi Hc Hins Hn. destruct (law_insert _ _ _ _ Hq ctx i w Hl Hi Hc) as (r & w' & E & Hr).
  rewrite Hins, Hn in Hr. destruct Hr as ((j & -> & Hj) & Hi' & Hv).
  exists w'. unfold createWithQuerier, bind. by rewrite E, Hj.
Qed.

Lemma create_duplicate ctx i w :
  live ctx -> inv (w_store w) -> canonical_item i -> insertable i = true -> is_Some (tb_items (view (w_store w)) !! ID i) ->
  exists e w', createWithQuerier (Some ctx) q i w = (Err e, w') /\ pg_failure true e /\ after_error (w_store w')
    /\ view (w_store w') = view (w_store w).
Proof.
  intros Hl Hi Hc Hins [j Hn]. destruct (law_insert _ _ _ _ Hq ctx i w Hl Hi Hc) as (r & w' & E & Hr).
  rewrite Hins, Hn in Hr. destruct Hr as ((e & -> & He) & Hi' & Hv).
  exists e, w'. unfold createWithQuerier, bind. by rewrite E.
Qed.
End Insert.

(** ** The invariant *)

Record pg_inv (s : S) : Prop := {
  pi_idle : sq_idle s;
  pi_items : items_ok (tb_items (sq_committed s));
  pi_micros : map_Forall (fun _ i => whole_micros (CreatedAt i)) (tb_items (sq_committed s));
  pi_keys : map_Forall (fun _ row => length (kr_request row) = 32%nat /\ forall tick, sq_server tick < kr_expires row)
              (tb_keys (sq_committed s));
}.

Lemma pg_inv_same s s' : sq_idle s' -> sq_committed s' = sq_committed s -> pg_inv s -> pg_inv s'.
Proof. intros Hs E []. split; [done|by rewrite E..]. Qed.

Lemma pg_inv_insert s s' i keys :
  sq_idle s' -> canonical_item i -> pg_inv s ->
  sq_committed s' = mkTables (<[ID i := stored_item i]> (tb_items (sq_committed s))) keys ->
  map_Forall (fun _ row => length (kr_request row) = 32%nat /\ forall tick, sq_server tick < kr_expires row) keys ->
  pg_inv s'.
Proof.
  intros Hs Hc [] E Hk. split; rewrite ?E; cbn [tb_items tb_keys]; [done| | |done].
  - apply map_Forall_insert_2; [|done]. split; [done|]. by apply stored_item_canonical.
  - apply map_Forall_insert_2; [|done]. apply to_micros_whole.
Qed.

(** ** Items *)

Lemma pg_Create_new ctx i w :
  live ctx -> pg_inv (w_store w) -> canonical_item i -> insertable i = true -> items w !! ID i = None ->
  exists w', Create pg (Some ctx) i w = (Ok (stored_item i), w') /\ pg_inv (w_store w')
    /\ sq_committed (w_store w') = set_tb_items (sq_committed (w_store w)) (<[ID i := stored_item i]> (items w)).
Proof.
  intros Hl Hi Hc Hins Hn. unfold Create, with_db. unfold bind at 1. rewrite contextError_live by done.
  set (w1 := World _ _).
  destruct (create_new _ _ _ _ sq_pool_items ctx i w1 Hl (pi_idle _ Hi) Hc Hins Hn) as (w' & E & Hi' & Hv).
  exists w'. rewrite (wrapping_Ok _ _ _ _ _ E). split; [done|]. split; [|exact Hv].
  eapply pg_inv_insert; [done|exact Hc|exact Hi|exact Hv|apply Hi].
Qed.

Lemma pg_Create_duplicate ctx i w :
  live ctx -> pg_inv (w_store w) -> canonical_item i -> insertable i = true -> is_Some (items w !! ID i) ->
  exists e w', Create pg (Some ctx) i w = (Err e, w') /\ Is e ErrConflict = true /\ pg_inv (w_store w')
    /\ sq_committed (w_store w') = sq_committed (w_store w).
Proof.
  intros Hl Hi Hc Hins Hn. unfold Create, with_db. unfold bind at 1. rewrite contextError_live by done.
  set (w1 := World _ _).
  destruct (create_duplicate _ _ _ _ sq_pool_items ctx i w1 Hl (pi_idle _ Hi) Hc Hins Hn) as (e & w' & E & He & Hi' & Hv).
  eexists _, w'. rewrite (wrapping_Err _ _ _ _ _ E), Hv. split; [done|]. split; [by apply translate_violation|].
  split; [|done]. eapply pg_inv_same; [done|exact Hv|exact Hi].
Qed.

Lemma pg_Get_run ctx id w :
  live ctx -> pg_inv (w_store w) -> id <> uuid_nil ->
  exists r w', Get pg (Some ctx) id w = (r, w') /\ pg_inv (w_store w') /\ sq_committed (w_store w') = sq_committed (w_store w)
    /\ match items w !! id with
       | Some i => r = Ok i
       | None => r = Err (Sentinel ErrNotFound)
       end.
Proof.
  intros Hl Hi Hid. unfold Get, with_db. unfold bind at 1. rewrite contextError_live by done.
  rewrite bool_decide_false by done. set (w1 := World _ _).
  destruct (law_get _ _ _ _ sq_pool_items ctx id w1 Hl (pi_idle _ Hi)) as (r & w' & E & Hi' & Hv & Hr).
  change (items w1) with (items w) in Hr. unfold bind.
  assert (pg_inv (w_store w')) as Hinv by (eapply pg_inv_same; [done|exact Hv|exact Hi]).
  destruct (items w !! id) as [i|].
  - destruct Hr as (j & -> & Hj). rewrite (wrapping_Ok _ _ _ _ _ E), Hj. eexists _, w'. by rewrite Hv.
  - subst r. rewrite (wrapping_Err _ _ _ _ _ E). eexists _, w'. by rewrite Hv.
Qed.

(** ** Listings *)

Lemma read_rows_all f g js values :
  read_rows f g (Ok <$> js) None values = Ok (values ++ (utc_item <$> js)).
Proof.
  revert values. induction js as [|j js IH]; intros values; cbn [read_rows fmap list_fmap]; [by rewrite app_nil_r|].
  rewrite IH, <- app_assoc. done.
Qed.

(** A query whose result set is read to the end. *)
Lemma query_run (m : M S (Rows S)) f g h w l :
  pg_inv (w_store w) -> reads sq_idle sq_committed m w (rows_are sq_idle sq_committed w l) ->
  exists w', (rows <-- wrapping m f;;
       deferred (of_result (read_rows g h (rows_scans rows) (rows_err rows) [])) (rows_close rows)) w = (Ok l, w')
    /\ pg_inv (w_store w') /\ sq_committed (w_store w') = sq_committed (w_store w).
Proof.
  intros Hi (r & w1 & E & Hi1 & Hv1 & rows & js & -> & Hs & He & Hl & Hclose).
  destruct (Hclose w1 Hi1) as (rc & w2 & Ec & Hi2 & Hv2). exists w2.
  unfold bind. rewrite (wrapping_Ok _ _ _ _ _ E), Hs, He, read_rows_all, Hl. cbn [app].
  unfold deferred, bind, attempt, of_result. rewrite Ec, Hv2, Hv1. split; [done|]. split; [|done].
  eapply pg_inv_same; [done| |exact Hi]. by rewrite Hv2.
Qed.

Lemma pg_List_run ctx limit offset w :
  live ctx -> pg_inv (w_store w) -> 0 <= limit <= MaxPageSize + 1 -> 0 <= offset ->
  exists w', List pg (Some ctx) (mkListParams limit offset) w
      = (Ok (take (Z.to_nat limit) (drop (Z.to_nat offset) (newest (items w)))), w')
    /\ pg_inv (w_store w') /\ sq_committed (w_store w') = sq_committed (w_store w).
Proof.
  intros Hl Hi Hlim Hoff. unfold List, with_db. unfold bind at 1. rewrite contextError_live by done.
  cbn [lp_limit lp_offset]. rewrite !(proj2 (Z.ltb_ge _ _)) by lia. cbn [orb]. set (w1 := World _ _).
  destruct (Z.eqb_spec limit 0) as [->|Hz]; [by exists w1|].
  edestruct query_run as (w' & -> & Hi' & Hv); [|apply (law_list _ _ _ sq_pool_lists); [done|apply Hi|lia|done]|].
  - exact Hi.
  - exists w'. by rewrite Hv.
Qed.

Lemma pg_ListAfter_run ctx limit after w :
  live ctx -> pg_inv (w_store w) -> 0 <= limit <= MaxPageSize + 1 -> after_ok after ->
  (forall p, after = Some p -> whole_micros (cp_created_at p)) ->
  exists w', ListAfter pg (Some ctx) (mkCursorListParams limit after) w
      = (Ok (take (Z.to_nat limit) (rows_after after (newest (items w)))), w')
    /\ pg_inv (w_store w') /\ sq_committed (w_store w') = sq_committed (w_store w).
Proof.
  intros Hl Hi Hlim Ha Hm. unfold ListAfter, with_db. unfold bind at 1. rewrite contextError_live by done.
  cbn [clp_limit clp_after]. rewrite !(proj2 (Z.ltb_ge _ _)) by lia. cbn [orb]. set (w1 := World _ _).
  unfold bind at 1, of_result at 1. destruct after as [p|].
  - destruct Ha as [Hc Hval]. rewrite Hval. destruct (Z.eqb_spec limit 0) as [->|Hz]; [by exists w1|].
    rewrite to_utc_id by done.
    edestruct query_run as (w' & -> & Hi' & Hv);
      [|apply (law_after _ _ _ sq_pool_lists); [done|apply Hi|lia|done|by apply Hm]|].
    + exact Hi.
    + exists w'. rewrite Hv. by destruct p.
  - destruct (Z.eqb_spec limit 0) as [->|Hz]; [by exists w1|].
    edestruct query_run as (w' & -> & Hi' & Hv); [|apply (law_first _ _ _ sq_pool_lists); [done|apply Hi|lia]|].
    + exact Hi.
    + exists w'. by rewrite Hv.
Qed.

#[refine] Instance postgres_store_spec : StoreSpec (postgres_ops rollbackContext pg) := {|
  st_inv := pg_inv;
  st_view s := tb_items (sq_committed s);
  st_storable i := canonical_item i /\ insertable i = true;
  st_keep := stored_item;
  st_seekable p := whole_micros (cp_created_at p);
|}.
Proof.
  - intros s Hi. apply Hi.
  - intros i [Hc Hins] _. split; [done|]. by apply stored_item_canonical.
  - intros s i Hi Hl. exact (pi_micros _ Hi _ _ Hl).
  - intros ctx i w Hl Hi Hc [_ Hins] Hn. destruct (pg_Create_new ctx i w) as (w' & E & Hi' & V); [done..|]. exists w'. by rewrite V.
  - intros ctx i w Hl Hi [Hc Hins] Hn. destruct (pg_Create_duplicate ctx i w) as (e & w' & E & He & Hi' & V); [done..|].
    exists e, w'. by rewrite V.
  - intros ctx id w Hl Hi Hid. destruct (pg_Get_run ctx id w Hl Hi Hid) as (r & w' & E & Hi' & Hv & Hr).
    exists r, w'. rewrite Hv. split; [done|]. split; [done|]. split; [done|]. case_match; [done|]. by eexists.
  - intros ctx limit offset w Hl Hi Hlim Hoff. destruct (pg_List_run ctx limit offset w) as (w' & E & Hi' & V); [done..|].
    exists w'. by rewrite V.
  - intros list_after ctx limit after w [= <-] Hl Hi Hlim Ha Hs.
    destruct (pg_ListAfter_run ctx limit after w) as (w' & E & Hi' & V); [done..|]. exists w'. by rewrite V.
Defined.

(** ** Idempotent creates *)

(** Records outlive the period that the laws speak of: no two readings of the
    server's clock are the retention apart. *)
Context (Hwindow : forall t t', sq_server t' < sq_server t + retention_micros).

Lemma decodeDigest_of (d : array 32) : decodeDigest (hex_encode (arr_bytes d)) = Some d.
Proof. apply decodeDigest_encode. Qed.

Section Transaction.
Context (base : tables) (tx : Tx S).
Context (T : transaction_statements sq_idle sq_committed sq_opened sq_begun sq_working sq_unlocked sq_server base tx).
Context (Hkept : map_Forall (fun _ row => length (kr_request row) = 32%nat /\ forall tick, sq_server tick < kr_expires row)
  (tb_keys base)).

(** The lock is free and the cleanup finds nothing to remove. *)
Lemma in_transaction_run ctx i key (d : array 32) w :
  live ctx -> sq_opened base (w_store w) -> sq_working (w_store w) = base -> sq_unlocked ->
  exists w', sq_opened base (w_store w') /\ sq_working (w_store w') = base /\
    in_transaction (Some ctx) tx i key (hex_encode (arr_bytes d)) w
    = match tb_keys base !! arr_bytes (Sum256 key) with
      | Some row => replay (Some ctx) tx d (kr_request row, kr_item row) w'
      | None => insert_both (Some ctx) tx (Sum256 key) d i w'
      end.
Proof.
  intros Hl Ho Hw Hu. unfold in_transaction. rewrite decodeDigest_of. change (default (zero_array 32) (Some d)) with d.
  destruct (law_lock _ _ _ _ _ _ _ _ _ T ctx (advisoryLockID (Sum256 key)) w Hl Ho)
    as (b & (r & w1 & E1 & Ho1 & Hw1 & ->) & Hb). rewrite (Hb Hu) in E1. rewrite Hw in Hw1.
  unfold bind at 1. rewrite (wrapping_Ok _ _ _ _ _ E1). cbn [negb].
  destruct (law_cleanup _ _ _ _ _ _ _ _ _ T ctx w1 Hl Ho1) as (w2 & removed & E2 & Ho2 & Hw2 & Hrem).
  rewrite Hw1 in Hw2, Hrem.
  assert (sq_working (w_store w2) = base) as Hb2.
  { rewrite Hw2. unfold set_tb_keys. rewrite map_filter_id; [by destruct base|].
    intros k row Hk Hin. destruct (Hrem k row Hin Hk) as [tick Ht]. destruct (Hkept k row Hk) as [_ Hk']. specialize (Hk' tick). lia. }
  unfold bind at 1. rewrite (wrapping_Ok _ _ _ _ _ E2).
  destruct (law_lookup _ _ _ _ _ _ _ _ _ T ctx (arr_bytes (Sum256 key)) w2 Hl Ho2) as (r & w3 & E3 & Ho3 & Hw3 & ->).
  rewrite Hb2 in E3, Hw3. exists w3. split; [done|]. split; [done|].
  unfold bind, attempt. rewrite E3. by destruct (tb_keys base !! arr_bytes (Sum256 key)).
Qed.

Lemma insert_both_new ctx i key (d : array 32) w :
  live ctx -> sq_opened base (w_store w) -> sq_working (w_store w) = base -> canonical_item i -> insertable i = true ->
  tb_items base !! ID i = None -> tb_keys base !! arr_bytes (Sum256 key) = None ->
  exists w' t t', insert_both (Some ctx) tx (Sum256 key) d i w = (Ok (stored_item i, false), w')
    /\ sq_idle (w_store w')
    /\ sq_committed (w_store w') = mkTables (<[ID i := stored_item i]> (tb_items base))
         (<[arr_bytes (Sum256 key) := mkKeyRow (arr_bytes d) (ID i) (sq_server t) (sq_server t' + retention_micros)]> (tb_keys base)).
Proof.
  intros Hl Ho Hw Hc Hins Hn Hk. unfold insert_both.
  destruct (create_new _ _ _ _ (law_tx_items _ _ _ _ _ _ _ _ _ T) ctx i w Hl Ho Hc Hins) as (w1 & E1 & Ho1 & Hw1);
    [by rewrite Hw|]. rewrite Hw in Hw1.
  unfold bind at 1. rewrite (wrapping_Ok _ _ _ _ _ E1). change (ID (stored_item i)) with (ID i).
  destruct (law_insert_key _ _ _ _ _ _ _ _ _ T ctx (arr_bytes (Sum256 key)) (arr_bytes d) (ID i) w1 Hl Ho1)
    as (w2 & t & t' & E2 & Ho2 & Hw2).
  { apply arr_length. } { apply arr_length. } { rewrite Hw1. cbn. by rewrite lookup_insert_eq. } { by rewrite Hw1. }
  change (VInt (seconds IdempotencyRecordRetention)) with (VInt 86400).
  unfold bind at 1. rewrite (wrapping_Ok _ _ _ _ _ E2). rewrite Hw1 in Hw2.
  destruct (law_commit _ _ _ _ _ _ _ _ _ T ctx w2 Hl Ho2) as (w3 & E3 & Hi3 & Hc3).
  unfold bind. rewrite (wrapping_Ok _ _ _ _ _ E3). exists w3, t, t'. split; [done|]. split; [done|].
  by rewrite Hc3, Hw2.
Qed.

Lemma insert_both_taken ctx i key (d : array 32) w :
  live ctx -> sq_opened base (w_store w) -> sq_working (w_store w) = base -> canonical_item i -> insertable i = true ->
  is_Some (tb_items base !! ID i) ->
  exists e w', insert_both (Some ctx) tx (Sum256 key) d i w = (Err e, w') /\ Is e ErrConflict = true
    /\ sq_begun base (w_store w').
Proof.
  intros Hl Ho Hw Hc Hins Hn. unfold insert_both.
  destruct (create_duplicate _ _ _ _ (law_tx_items _ _ _ _ _ _ _ _ _ T) ctx i w Hl Ho Hc Hins) as (e & w1 & E1 & He & Hb1 & _);
    [by rewrite Hw|].
  unfold bind. rewrite (wrapping_Err _ _ _ _ _ E1). unfold insert_error.
  pose proof (translate_violation &"idempotent create" e He) as Hconf. rewrite Hconf. by eexists _, w1.
Qed.

Lemma replay_known ctx (d : array 32) row w :
  live ctx -> sq_opened base (w_store w) -> sq_working (w_store w) = base -> length (kr_request row) = 32%nat ->
  exists r w', replay (Some ctx) tx d (kr_request row, kr_item row) w = (r, w')
    /\ (sq_opened base (w_store w') \/ sq_idle (w_store w') /\ sq_committed (w_store w') = base)
    /\ if decide (kr_request row = arr_bytes d) then
         match tb_items base !! kr_item row with
         | Some j => r = Ok (j, true)
         | None => r = Err (Sentinel ErrIdempotencyState)
         end
       else r = Err (Sentinel ErrIdempotencyConflict).
Proof.
  intros Hl Ho Hw Hlen. unfold replay. rewrite Hlen. cbn [Nat.eqb negb].
  destruct (decide (kr_request row = arr_bytes d)) as [E|E].
  2: { rewrite bool_decide_false by done. cbn [negb]. eexists _, w. by auto. }
  rewrite bool_decide_true by done. cbn [negb].
  destruct (law_get _ _ _ _ (law_tx_items _ _ _ _ _ _ _ _ _ T) ctx (kr_item row) w Hl Ho) as (r & w1 & E1 & Ho1 & Hw1 & Hr).
  rewrite Hw in Hr, Hw1. unfold bind at 1, getWithQuerier. destruct (tb_items base !! kr_item row) as [j|].
  - destruct Hr as (j' & -> & Hj).
    erewrite (wrapping_Ok _ _ w); [|unfold bind; rewrite (wrapping_Ok _ _ _ _ _ E1); done].
    destruct (law_commit _ _ _ _ _ _ _ _ _ T ctx w1 Hl Ho1) as (w2 & E2 & Hi2 & Hc2).
    unfold bind. rewrite (wrapping_Ok _ _ _ _ _ E2), Hj. eexists _, w2. split; [done|]. split; [|done]. right.
    by rewrite Hc2, Hw1.
  - subst r. erewrite (wrapping_Err _ _ w); [|unfold bind; rewrite (wrapping_Err _ _ _ _ _ E1); done].
    eexists _, w1. by auto.
Qed.
End Transaction.

(** What follows the body: the deferred rollback. *)
Lemma CreateIdempotent_body ctx i key (d : array 32) w :
  live ctx -> pg_inv (w_store w) -> sq_unlocked -> ID i <> uuid_nil -> ValidateIdempotencyKey key = Ok tt ->
  exists tx w1,
    transaction_statements sq_idle sq_committed sq_opened sq_begun sq_working sq_unlocked sq_server
      (sq_committed (w_store w)) tx
    /\ sq_opened (sq_committed (w_store w)) (w_store w1) /\ sq_working (w_store w1) = sq_committed (w_store w)
    /\ CreateIdempotent rollbackContext pg (Some ctx) i key (hex_encode (arr_bytes d)) w
      = deferred (match tb_keys (sq_committed (w_store w)) !! arr_bytes (Sum256 key) with
                  | Some row => replay (Some ctx) tx d (kr_request row, kr_item row)
                  | None => insert_both (Some ctx) tx (Sum256 key) d i
                  end) (tx_rollback tx (Some rollbackContext)) w1.
Proof.
  intros Hl Hi Hu Hid Hk. unfold CreateIdempotent. unfold bind at 1. rewrite contextError_live by done.
  unfold bind at 1, of_result at 1. unfold validateIdempotentRequest. rewrite Hk. cbn [rbind].
  rewrite bool_decide_false, decodeDigest_of by done. unfold with_db. rewrite sq_begin_capable.
  set (w0 := World _ _).
  destruct (sq_begin_law ctx w0 Hl (pi_idle _ Hi)) as (tx & w1 & E1 & T & Ho & Hw).
  unfold bind at 1. rewrite (wrapping_Ok _ _ _ _ _ E1).
  destruct (in_transaction_run _ tx T (pi_keys _ Hi) ctx i key d w1 Hl Ho Hw Hu) as (w2 & Ho2 & Hw2 & E2).
  exists tx, w2. split; [done|]. split; [done|]. split; [done|].
  unfold deferred, bind at 1 4, attempt at 1 3. rewrite E2. cbn [w_store w0]. by destruct (_ !! arr_bytes (Sum256 key)).
Qed.

Lemma deferred_run {A} (m : M S A) c w r w' rc w'' :
  m w = (r, w') -> c w' = (rc, w'') -> deferred m c w = (r, w'').
Proof. intros E Ec. unfold deferred, bind, attempt, of_result. by rewrite E, Ec. Qed.

Definition pg_record (s : S) (key : bytes) : option (bytes * uuid) :=
  row ← tb_keys (sq_committed s) !! arr_bytes (Sum256 key); Some (hex_encode (kr_request row), kr_item row).

Lemma pg_idem_fresh ctx i key (d : array 32) w :
  live ctx -> pg_inv (w_store w) -> canonical_item i -> insertable i = true -> ID i <> uuid_nil ->
  ValidateIdempotencyKey key = Ok tt -> sq_unlocked -> items w !! ID i = None ->
  tb_keys (sq_committed (w_store w)) !! arr_bytes (Sum256 key) = None ->
  exists w' t t', CreateIdempotent rollbackContext pg (Some ctx) i key (hex_encode (arr_bytes d)) w = (Ok (stored_item i, false), w')
    /\ pg_inv (w_store w')
    /\ sq_committed (w_store w') = mkTables (<[ID i := stored_item i]> (items w))
         (<[arr_bytes (Sum256 key) := mkKeyRow (arr_bytes d) (ID i) (sq_server t) (sq_server t' + retention_micros)]>
            (tb_keys (sq_committed (w_store w)))).
Proof.
  intros Hl Hi Hc Hins Hid Hk Hu Hn Ek.
  destruct (CreateIdempotent_body ctx i key d w) as (tx & w1 & T & Ho & Hw & ->); [done..|]. rewrite Ek.
  destruct (insert_both_new _ tx T ctx i key d w1) as (w2 & t & t' & E2 & Hi2 & Hc2); [done..|].
  destruct (law_rollback_done _ _ _ _ _ _ _ _ _ T rollbackContext w2 Hi2) as (rc & w3 & E3 & Hi3 & Hc3).
  exists w3, t, t'. rewrite (deferred_run _ _ _ _ _ _ _ E2 E3). rewrite Hc2 in Hc3. split_and!; [done| |done].
  eapply pg_inv_insert; [done|exact Hc|exact Hi|exact Hc3|].
  apply map_Forall_insert_2; [|apply Hi]. cbn [kr_request kr_expires]. split; [apply arr_length|auto].
Qed.

Lemma pg_idem_taken ctx i key (d : array 32) w :
  live ctx -> pg_inv (w_store w) -> canonical_item i -> insertable i = true -> ID i <> uuid_nil ->
  ValidateIdempotencyKey key = Ok tt -> sq_unlocked -> is_Some (items w !! ID i) ->
  tb_keys (sq_committed (w_store w)) !! arr_bytes (Sum256 key) = None ->
  exists e w', CreateIdempotent rollbackContext pg (Some ctx) i key (hex_encode (arr_bytes d)) w = (Err e, w')
    /\ Is e ErrConflict = true /\ pg_inv (w_store w') /\ sq_committed (w_store w') = sq_committed (w_store w).
Proof.
  intros Hl Hi Hc Hins Hid Hk Hu Hn Ek.
  destruct (CreateIdempotent_body ctx i key d w) as (tx & w1 & T & Ho & Hw & ->); [done..|]. rewrite Ek.
  destruct (insert_both_taken _ tx T ctx i key d w1) as (e & w2 & E2 & He & Hb2); [done..|].
  destruct (law_rollback _ _ _ _ _ _ _ _ _ T rollbackContext w2) as (rc & w3 & E3 & Hi3 & Hc3); [by right|].
  exists e, w3. rewrite (deferred_run _ _ _ _ _ _ _ E2 E3). split_and!; [done|done|by eapply pg_inv_same|done].
Qed.

Lemma pg_idem_known ctx i key (d : array 32) row w :
  live ctx -> pg_inv (w_store w) -> sq_unlocked -> ID i <> uuid_nil -> ValidateIdempotencyKey key = Ok tt ->
  tb_keys (sq_committed (w_store w)) !! arr_bytes (Sum256 key) = Some row ->
  exists r w', CreateIdempotent rollbackContext pg (Some ctx) i key (hex_encode (arr_bytes d)) w = (r, w')
    /\ pg_inv (w_store w') /\ sq_committed (w_store w') = sq_committed (w_store w)
    /\ if decide (kr_request row = arr_bytes d) then
         match items w !! kr_item row with
         | Some j => r = Ok (j, true)
         | None => r = Err (Sentinel ErrIdempotencyState)
         end
       else r = Err (Sentinel ErrIdempotencyConflict).
Proof.
  intros Hl Hi Hu Hid Hk Ek.
  destruct (CreateIdempotent_body ctx i key d w) as (tx & w1 & T & Ho & Hw & ->); [done..|]. rewrite Ek.
  destruct (pi_keys _ Hi _ _ Ek) as [Hlen _].
  destruct (replay_known _ tx T ctx d row w1) as (r & w2 & E2 & Hend & Hcase); [done..|].
  assert (exists rc w3, tx_rollback tx (Some rollbackContext) w2 = (rc, w3) /\ sq_idle (w_store w3)
    /\ sq_committed (w_store w3) = sq_committed (w_store w)) as (rc & w3 & E3 & Hi3 & Hc3).
  { destruct Hend as [Ho2|[Hi2 Hc2]].
    - by apply (law_rollback _ _ _ _ _ _ _ _ _ T); left.
    - rewrite <- Hc2. by apply (law_rollback_done _ _ _ _ _ _ _ _ _ T). }
  exists r, w3. rewrite (deferred_run _ _ _ _ _ _ _ E2 E3). split_and!; [done|by eapply pg_inv_same|done|done].
Qed.

Lemma pg_record_row (s : S) key :
  pg_record s key = (fun row => (hex_encode (kr_request row), kr_item row)) <$> tb_keys (sq_committed s) !! arr_bytes (Sum256 key).
Proof. unfold pg_record. by destruct (tb_keys _ !! _). Qed.

Lemma pg_record_None (s : S) key :
  pg_record s key = None -> tb_keys (sq_committed s) !! arr_bytes (Sum256 key) = None.
Proof. rewrite pg_record_row. apply fmap_None. Qed.

#[refine] Instance postgres_idempotent_spec : IdempotentSpec (postgres_ops rollbackContext pg) := {|
  st_idem := CreateIdempotent rollbackContext pg;
  st_record := pg_record;
  st_free _ := sq_unlocked;
  st_calm _ := sq_unlocked;
|}.
Proof.
  - done.
  - intros ctx i key fp w Hl Hi Hc [_ Hins] Hid Hk [d ->] Hu Hn Hr%pg_record_None.
    destruct (pg_idem_fresh ctx i key d w) as (w' & t & t' & E & Hi' & V); [done..|]. exists w'.
    cbn [st_view postgres_store_spec]. rewrite pg_record_row, V. cbn [tb_items tb_keys]. by rewrite lookup_insert_eq.
  - intros ctx i key fp w Hl Hi [Hc Hins] Hid Hk [d ->] Hu Hn Hr%pg_record_None.
    destruct (pg_idem_taken ctx i key d w) as (e & w' & E & He & Hi' & V); [done..|]. exists e, w'.
    cbn [st_view postgres_store_spec]. by rewrite pg_record_row, V, Hr.
  - intros ctx i key fp fp' id w Hl Hi Hu Hid Hk [d ->] Hr. rewrite pg_record_row in Hr.
    apply fmap_Some in Hr as (row & Ek & [= -> ->]).
    destruct (pg_idem_known ctx i key d row w) as (r & w' & E & Hi' & V & Hr); [done..|]. exists r, w'.
    cbn [st_view postgres_store_spec]. rewrite V. split_and!; [done..|].
    destruct (decide (kr_request row = arr_bytes d)) as [Ed|Ed], (decide (hex_encode _ = _)) as [Eh|Eh]; try done.
    + by rewrite Ed in Eh.
    + exfalso. apply Ed. by apply hex_encode_inj in Eh.
Defined.

(** ** The records *)

Definition pg_keys (s : S) : gmap bytes (bytes * uuid) :=
  (fun row => (kr_request row, kr_item row)) <$> tb_keys (sq_committed s).
Definition pg_room (n : nat) (s : S) : Prop := sq_unlocked.

Lemma pg_unmoved s s' : tb_keys (sq_committed s') = tb_keys (sq_committed s) -> unmoved pg_keys pg_room s s'.
Proof. intros E. split; [|done]. unfold pg_keys. by rewrite E. Qed.

#[refine] Instance postgres_records_spec : RecordsSpec (postgres_ops rollbackContext pg) := {|
  rs_keys := pg_keys;
  rs_room := pg_room;
|}.
Proof.
  - done.
  - done.
  - done.
  - intros s key. cbn [st_record postgres_idempotent_spec]. rewrite pg_record_row. unfold pg_keys. rewrite lookup_fmap.
    by destruct (tb_keys _ !! _).
  - intros ctx i w r w' Hl Hi [Hc Hins] E. cbn in *. apply pg_unmoved. destruct (items w !! ID i) eqn:Ei.
    + destruct (pg_Create_duplicate ctx i w) as (e & w1 & E1 & _ & _ & V); [done..|]. injection (eq_trans (eq_sym E) E1) as _ <-. by rewrite V.
    + destruct (pg_Create_new ctx i w) as (w1 & E1 & _ & V); [done..|]. injection (eq_trans (eq_sym E) E1) as _ <-. by rewrite V.
  - intros ctx id w r w' Hl Hi Hid E. apply pg_unmoved.
    destruct (pg_Get_run ctx id w Hl Hi Hid) as (r1 & w1 & E1 & _ & V & _). injection (eq_trans (eq_sym E) E1) as _ <-. by rewrite V.
  - intros ctx limit offset w r w' Hl Hi Hlim Hoff E. apply pg_unmoved.
    destruct (pg_List_run ctx limit offset w) as (w1 & E1 & _ & V); [done..|]. injection (eq_trans (eq_sym E) E1) as _ <-. by rewrite V.
  - intros list_after ctx limit after w r w' [= <-] Hl Hi Hlim Ha Hs E. apply pg_unmoved.
    destruct (pg_ListAfter_run ctx limit after w) as (w1 & E1 & _ & V); [done..|]. injection (eq_trans (eq_sym E) E1) as _ <-. by rewrite V.
  - intros ctx i key d n w r w' Hl Hi Hc [_ Hins] Hid Hk Hu Hn Hr%pg_record_None E.
    destruct (pg_idem_fresh ctx i key d w) as (w1 & t & t' & E1 & Hi' & V); [done..|].
    injection (eq_trans (eq_sym E) E1) as _ <-. split; [|exact Hu]. unfold pg_keys. rewrite V. cbn [tb_keys]. by rewrite fmap_insert.
  - intros ctx i key d w r w' Hl Hi [Hc Hins] Hid Hk Hu Ho E. apply pg_unmoved.
    destruct (tb_keys (sq_committed (w_store w)) !! arr_bytes (Sum256 key)) as [row|] eqn:Ek.
    + destruct (pg_idem_known ctx i key d row w) as (r1 & w1 & E1 & _ & V & _); [done..|].
      injection (eq_trans (eq_sym E) E1) as _ <-. by rewrite V.
    + destruct Ho as [Ho|[p Ho]]; [|cbn [st_record postgres_idempotent_spec] in Ho; by rewrite pg_record_row, Ek in Ho].
      destruct (pg_idem_taken ctx i key d w) as (e & w1 & E1 & _ & _ & V); [done..|].
      injection (eq_trans (eq_sym E) E1) as _ <-. by rewrite V.
Defined.
End Spec.
