(* ===== verification/PostgresConcurrent.v ===== *)
(** * Keyed creates over one PostgreSQL server

    Any number of processes share a server, each with its own sessions. What a server
    may do with a statement of the store, while other sessions are in the middle of
    their transactions, is [effect]: the documented behaviour of READ COMMITTED, of
    unique and foreign keys and of commits, failures and lost connections included. A
    history is what the sessions asked and were answered, in the order of the server; a
    served create is a session whose part of the history is the trace of
    [CreateIdempotent], a request that a process answered one whose part is that of the
    handler. Nothing is assumed of the other sessions. *)
From S2P Require Import Prelude GoText GoEncoding GoJsonParse GoTime Sha256 Errors World Trace Item Idempotency Cursor Order Store Service HttpApi.
From S2P Require Import MemoryFacts Postgres PostgresFacts Sql.

(** ** What a server does *)

(** What an open transaction has written and not committed. *)
Record uncommitted := mkUncommitted { u_items : gmap uuid Item; u_keys : gmap bytes key_row; u_removed : gset bytes }.
Definition nothing : uncommitted := mkUncommitted ∅ ∅ ∅.

(** What a statement of the transaction sees, and what a commit publishes. *)
Definition seen_items (c : tables) (u : uncommitted) : gmap uuid Item := u_items u ∪ tb_items c.
Definition seen_keys (c : tables) (u : uncommitted) : gmap bytes key_row :=
  u_keys u ∪ filter (fun p => fst p ∉ u_removed u) (tb_keys c).
Definition published (c : tables) (u : uncommitted) : tables := mkTables (seen_items c u) (seen_keys c u).

Definition own_item (i : Item) (u : uncommitted) : uncommitted :=
  mkUncommitted (<[ID i := i]> (u_items u)) (u_keys u) (u_removed u).
Definition own_key (k : bytes) (row : key_row) (u : uncommitted) : uncommitted :=
  mkUncommitted (u_items u) (<[k := row]> (u_keys u)) (u_removed u).
Definition own_removed (removed : gset bytes) (u : uncommitted) : uncommitted :=
  mkUncommitted (u_items u) (u_keys u) (u_removed u ∪ removed).

(** An answer that ends the transaction: every error but that of an empty result. *)
Definition failure (ev : db_event) : bool :=
  match ev_call ev as c return db_answer c -> bool with
  | Begin | Exec _ _ | Commit => fun a => negb (is_ok a)
  | InTx _ _ d => fun a => match a with Ok _ => false | Err e => negb (Is e ErrNoRows) end
  | TxRows _ _ => fun a => negb (is_ok a)
  | _ => fun _ => false
  end (ev_answer ev).

(** A statement outside of a transaction that writes nothing. *)
Definition pool_read (ev : db_event) : Prop :=
  match ev_call ev with OnPool sql _ _ => sql <> createQuery | PoolRows _ _ => True | _ => False end.

Section Effects.
Context (clock : nat -> Z).

(** An identifier that no row has, committed or not. *)
Definition free_id (c : tables) (us : nat -> option uncommitted) (id : uuid) : Prop :=
  tb_items c !! id = None /\ forall j u, us j = Some u -> u_items u !! id = None.
Definition insert_args (i : Item) : list value := [VUuid (ID i); VText (Name i); VText (Description i); VTime (CreatedAt i)].

(** [effect c us i ev c' u']: over the committed tables [c] and the open transactions
    [us], the event [ev] of session [i] leaves the tables [c'] and the transaction [u'].
    No event is a connection that the server gave up. *)
Inductive effect (c : tables) (us : nat -> option uncommitted) (i : nat)
  : option db_event -> tables -> option uncommitted -> Prop :=
  | ef_begin : effect c us i (Some (Event Begin (Ok tt))) c (Some nothing)
  | ef_lock u id b :
    us i = Some u -> effect c us i (Some (Event (InTx idempotencyLockQuery [VInt id] LockRow) (Ok b))) c (Some u)
  | ef_cleanup u removed :
    us i = Some u ->
    (forall k, k ∈ removed -> exists row t, tb_keys c !! k = Some row /\ kr_expires row <= clock t) ->
    effect c us i (Some (Event (Exec idempotencyCleanupQuery []) (Ok tt))) c (Some (own_removed removed u))
  | ef_lookup u k row :
    us i = Some u -> seen_keys c u !! k = Some row ->
    effect c us i (Some (Event (InTx idempotencyLookupQuery [VBytes k] KeyRow) (Ok (kr_request row, kr_item row)))) c (Some u)
  | ef_no_key u k e :
    us i = Some u -> seen_keys c u !! k = None -> Is e ErrNoRows = true ->
    effect c us i (Some (Event (InTx idempotencyLookupQuery [VBytes k] KeyRow) (Err e))) c (Some u)
  | ef_get u id it j :
    us i = Some u -> seen_items c u !! id = Some it -> utc_item j = it ->
    effect c us i (Some (Event (InTx getQuery [VUuid id] ItemRow) (Ok j))) c (Some u)
  | ef_no_item u id e :
    us i = Some u -> seen_items c u !! id = None -> Is e ErrNoRows = true ->
    effect c us i (Some (Event (InTx getQuery [VUuid id] ItemRow) (Err e))) c (Some u)
  | ef_insert u it j :
    us i = Some u -> free_id c us (ID it) -> insertable it = true -> utc_item j = stored_item it ->
    effect c us i (Some (Event (InTx createQuery (insert_args it) ItemRow) (Ok j))) c (Some (own_item (stored_item it) u))
  | ef_insert_key u k r id t t' :
    us i = Some u -> seen_keys c u !! k = None -> (forall j v, us j = Some v -> u_keys v !! k = None) ->
    is_Some (seen_items c u !! id) -> length k = 32%nat -> length r = 32%nat ->
    effect c us i (Some (Event (Exec idempotencyInsertQuery [VBytes k; VBytes r; VUuid id; VInt 86400]) (Ok tt)))
      c (Some (own_key k (mkKeyRow r id (clock t) (clock t' + retention_micros)) u))
  | ef_commit u :
    us i = Some u -> effect c us i (Some (Event Commit (Ok tt))) (published c u) None
  | ef_commit_unknown u e :
    us i = Some u -> effect c us i (Some (Event Commit (Err e))) (published c u) None
  | ef_failure ev : failure ev = true -> effect c us i (Some ev) c None
  | ef_rollback a : effect c us i (Some (Event Rollback a)) c None
  | ef_lost : effect c us i None c None
  | ef_pool_read ev : pool_read ev -> effect c us i (Some ev) c (us i)
  | ef_pool_insert it a :
    free_id c us (ID it) -> insertable it = true ->
    effect c us i (Some (Event (OnPool createQuery (insert_args it) ItemRow) a))
      (mkTables (<[ID it := stored_item it]> (tb_items c)) (tb_keys c)) (us i)
  | ef_pool_refused args d e : effect c us i (Some (Event (OnPool createQuery args d) (Err e))) c (us i).
End Effects.

(** A server that behaves as documented. *)
Class SqlServer (T : Type) := {
  ss_step : T -> nat -> option db_event -> T -> Prop;
  ss_committed : T -> tables;
  ss_open : T -> nat -> option uncommitted;
  ss_clock : nat -> Z;
  ss_documented s i ev s' :
    ss_step s i ev s' ->
    effect ss_clock (ss_committed s) (ss_open s) i ev (ss_committed s') (ss_open s' i)
    /\ forall j, j <> i -> ss_open s' j = ss_open s j;
}.

(** ** Histories *)

Section Histories.
Context {H : Hash256} {T : Type} `{!SqlServer T}.
Implicit Types (s : T) (h : list (nat * option db_event)).

Inductive history (s0 : T) : list (nat * option db_event) -> T -> Prop :=
  | history_nil : history s0 [] s0
  | history_snoc h s i ev s' : history s0 h s -> ss_step s i ev s' -> history s0 (h ++ [(i, ev)]) s'.

(** What one session asked and was answered. *)
Definition events_of (i : nat) (h : list (nat * option db_event)) : list db_event :=
  omap (fun p => if bool_decide (fst p = i) then snd p else None) h.

(** Session [i] is a keyed create that returned [r]. *)
Definition served (rollbackContext : context) h (i : nat) (ctx : option context) (value : Item) (key fp : bytes)
    (r : result (Item * bool)) : Prop :=
  exists oracle w, let run := CreateIdempotent rollbackContext (Some (traced_db oracle)) ctx value key fp w in
    w_store w = [] /\ fst run = r /\ w_store (snd run) = events_of i h.

Lemma events_of_app i h h' : events_of i (h ++ h') = events_of i h ++ events_of i h'.
Proof. apply omap_app. Qed.

Lemma events_of_other i j ev : j <> i -> events_of i [(j, ev)] = [].
Proof. intros Hne. unfold events_of. cbn. by rewrite bool_decide_eq_false_2. Qed.

Lemma events_of_own i ev : events_of i [(i, Some ev)] = [ev].
Proof. unfold events_of. cbn. by rewrite bool_decide_eq_true_2. Qed.

(** A step in the middle of a history. *)
Lemma history_split s0 h s A i ev B :
  history s0 h s -> h = A ++ (i, ev) :: B -> exists s1 s2, history s0 A s1 /\ ss_step s1 i ev s2 /\ history s2 B s.
Proof.
  intros Hh. revert A B. induction Hh as [|h s j e s' Hh IH Hs]; intros A B E; [by destruct A|].
  destruct B as [|b B _] using rev_ind.
  - apply app_inj_tail in E as [-> [= -> ->]]. exists s, s'. split; [done|]. split; [done|constructor].
  - rewrite app_comm_cons, app_assoc in E. apply app_inj_tail in E as [E <-].
    destruct (IH A B E) as (s1 & s2 & H1 & H2 & H3). exists s1, s2. split; [done|]. split; [done|]. by econstructor.
Qed.

(** The last event of a session. *)
Lemma events_of_last i h l ev :
  events_of i h = l ++ [ev] -> exists A B, h = A ++ (i, Some ev) :: B /\ events_of i A = l /\ events_of i B = [].
Proof.
  induction h as [|[j e] h IH] using rev_ind; [intros E; by apply (f_equal length) in E; rewrite length_app in E; simpl in E; lia|].
  rewrite events_of_app. destruct (decide (j = i)) as [->|Hne].
  2: { rewrite events_of_other, app_nil_r by done. intros E. destruct (IH E) as (A & B & -> & HA & HB).
       exists A, (B ++ [(j, e)]). rewrite <- app_assoc. split; [done|]. split; [done|].
       by rewrite events_of_app, events_of_other, HB. }
  destruct e as [e|].
  - rewrite events_of_own. intros [E ->]%app_inj_tail. by exists h, [].
  - unfold events_of at 2. cbn. rewrite bool_decide_eq_true_2, app_nil_r by done. intros E.
    destruct (IH E) as (A & B & -> & HA & HB). exists A, (B ++ [(i, None)]). rewrite <- app_assoc. split; [done|]. split; [done|].
    rewrite events_of_app, HB. cbn. by rewrite bool_decide_eq_true_2.
Qed.

(** ** The invariant *)

(** Within a retention period: no row expires. *)
Context (Hwindow : forall t t', ss_clock t < ss_clock t' + retention_micros).

Definition lasting (row : key_row) : Prop := forall t, ss_clock t < kr_expires row.

(** A row that refers to an item. *)
Definition row_ok (items : gmap uuid Item) (row : key_row) : Prop := lasting row /\ is_Some (items !! kr_item row).

Record pending_ok (c : tables) (u : uncommitted) : Prop := {
  po_removed : u_removed u = ∅;
  po_items : map_Forall (fun id it => ID it = id /\ tb_items c !! id = None) (u_items u);
  po_keys : map_Forall (fun k row => row_ok (seen_items c u) row /\ tb_keys c !! k = None) (u_keys u);
}.

Record shared_ok (c : tables) (us : nat -> option uncommitted) : Prop := {
  so_items : map_Forall (fun id it => ID it = id) (tb_items c);
  so_keys : map_Forall (fun _ row => row_ok (tb_items c) row) (tb_keys c);
  so_open i u : us i = Some u -> pending_ok c u;
  so_apart i j u v : i <> j -> us i = Some u -> us j = Some v -> u_items u ##ₘ u_items v /\ u_keys u ##ₘ u_keys v;
}.

(** Tables only grow. *)
Definition grown (c c' : tables) : Prop := tb_items c ⊆ tb_items c' /\ tb_keys c ⊆ tb_keys c'.

Lemma grown_refl c : grown c c.
Proof. done. Qed.
Lemma grown_trans a b c : grown a b -> grown b c -> grown a c.
Proof. intros [] []. split; by etransitivity. Qed.

Lemma seen_keys_all c u : u_removed u = ∅ -> seen_keys c u = u_keys u ∪ tb_keys c.
Proof.
  intros E. unfold seen_keys. f_equal. apply map_filter_id. intros k row _. rewrite E. cbn [fst]. set_solver.
Qed.

Lemma pending_published c u : pending_ok c u -> grown c (published c u).
Proof.
  intros [Hr Hi Hk]. unfold published. split; cbn [tb_items tb_keys].
  - apply map_union_subseteq_r. intros id. destruct (u_items u !! id) as [it|] eqn:E; [|by destruct (tb_items c !! id)].
    destruct (Hi id it E) as [_ ->]. done.
  - rewrite seen_keys_all by done. apply map_union_subseteq_r. intros k.
    destruct (u_keys u !! k) as [row|] eqn:E; [|by destruct (tb_keys c !! k)]. destruct (Hk k row E) as [_ ->]. done.
Qed.

Definition apart (u v : uncommitted) : Prop := u_items u ##ₘ u_items v /\ u_keys u ##ₘ u_keys v.
Definition outside (c : tables) (v : uncommitted) : Prop := u_items v ##ₘ tb_items c /\ u_keys v ##ₘ tb_keys c.

Lemma apart_sym u v : apart u v -> apart v u.
Proof. by intros []. Qed.

Lemma row_ok_mono items items' row : items ⊆ items' -> row_ok items row -> row_ok items' row.
Proof. intros Hsub [Hl [it E]]. split; [done|]. exists it. by eapply lookup_weaken. Qed.

Lemma disjoint_None {K A} `{Countable K} (m n : gmap K A) k a : m ##ₘ n -> m !! k = Some a -> n !! k = None.
Proof. intros Hd E. by apply (map_disjoint_Some_l _ _ _ _ Hd E). Qed.

Lemma pending_outside c u : pending_ok c u -> outside c u.
Proof.
  intros [_ Hi Hk]. split; apply map_disjoint_spec; intros k x y E E'.
  - destruct (Hi k x E) as [_ ?]. congruence.
  - destruct (Hk k x E) as [_ ?]. congruence.
Qed.

Lemma seen_items_grown c c' u : pending_ok c u -> grown c c' -> outside c' u -> seen_items c u ⊆ seen_items c' u.
Proof. intros Hp [Hi _] [Ho _]. by apply map_union_mono_l. Qed.

Lemma pending_grown c c' u : pending_ok c u -> grown c c' -> outside c' u -> pending_ok c' u.
Proof.
  intros Hp Hg Ho. destruct (Hp) as [Hr Hi Hk]. split; [done|..].
  - intros id it E. destruct (Hi id it E). split; [done|]. by apply (disjoint_None _ _ _ _ (proj1 Ho) E).
  - intros k row E. destruct (Hk k row E) as [Hok _].
    split; [by eapply row_ok_mono, Hok; apply seen_items_grown|]. by apply (disjoint_None _ _ _ _ (proj2 Ho) E).
Qed.

(** The committed tables grow, away from the other transactions. *)
Lemma shared_step c us c' us' i :
  shared_ok c us -> grown c c' ->
  map_Forall (fun id it => ID it = id) (tb_items c') -> map_Forall (fun _ row => row_ok (tb_items c') row) (tb_keys c') ->
  (forall j v, j <> i -> us j = Some v -> outside c' v) -> (forall j, j <> i -> us' j = us j) ->
  (forall u', us' i = Some u' -> pending_ok c' u' /\ forall j v, j <> i -> us j = Some v -> apart u' v) ->
  shared_ok c' us'.
Proof.
  intros [Hi Hk Ho Ha] Hg Hi' Hk' Hout Hf Hu. split; [done|done|..].
  - intros j v E. destruct (decide (j = i)) as [->|Hne]; [by apply Hu|]. rewrite Hf in E by done.
    eapply pending_grown; [by eapply Ho|done|by eapply Hout].
  - intros a b u v Hab Ea Eb. destruct (decide (a = i)) as [->|Hai], (decide (b = i)) as [->|Hbi]; [done|..].
    + rewrite Hf in Eb by done. by apply (proj2 (Hu u Ea) b v).
    + rewrite Hf in Ea by done. apply apart_sym. by apply (proj2 (Hu v Eb) a u).
    + rewrite Hf in Ea, Eb by done. by apply (Ha a b).
Qed.

(** Nothing is committed. *)
Lemma shared_write c us us' i :
  shared_ok c us -> (forall j, j <> i -> us' j = us j) ->
  (forall u', us' i = Some u' -> pending_ok c u' /\ forall j v, j <> i -> us j = Some v -> apart u' v) ->
  shared_ok c us'.
Proof.
  intros Hs Hf Hu. destruct (Hs) as [Hi Hk Ho Ha]. apply (shared_step c us c us' i); try done.
  intros j v _ E. by eapply pending_outside, Ho.
Qed.

Lemma pending_nothing c : pending_ok c nothing.
Proof. split; [done|apply map_Forall_empty|apply map_Forall_empty]. Qed.

(** In the window a cleanup removes nothing. *)
Lemma nothing_expires (c : tables) (us : nat -> option uncommitted) (removed : gset bytes) :
  shared_ok c us -> (forall k, k ∈ removed -> exists row t, tb_keys c !! k = Some row /\ kr_expires row <= ss_clock t) ->
  removed = ∅.
Proof.
  intros [_ Hk _ _] Hrem. apply set_eq. intros k. split; [|set_solver]. intros Hin.
  destruct (Hrem k Hin) as (row & t & E & Ht). destruct (Hk k row E) as [Hl _]. specialize (Hl t). lia.
Qed.

Lemma own_nothing_removed u : u_removed u = ∅ -> own_removed ∅ u = u.
Proof. intros E. unfold own_removed. rewrite E, (left_id_L ∅ (∪)). destruct u. cbn in *. by subst. Qed.

Lemma pending_own_item c u it : pending_ok c u -> tb_items c !! ID it = None -> pending_ok c (own_item (stored_item it) u).
Proof.
  intros Hp Hn. destruct (Hp) as [Hr Hi Hk]. split; cbn [own_item u_removed u_items u_keys]; [done|..].
  - by apply map_Forall_insert_2.
  - intros k row E. destruct (Hk k row E) as [Hok ?]. split; [|done]. destruct Hok as [? [x Ex]]. split; [done|].
    unfold seen_items in *. cbn [own_item u_items]. destruct (decide (kr_item row = ID it)) as [->|Hne].
    + exists (stored_item it). apply lookup_union_Some_l. apply lookup_insert_eq.
    + exists x. rewrite <- insert_union_l, lookup_insert_ne; done.
Qed.

Lemma pending_own_key c u k row :
  pending_ok c u -> row_ok (seen_items c u) row -> tb_keys c !! k = None -> pending_ok c (own_key k row u).
Proof. intros [Hr Hi Hk] Hok Hn. split; cbn [own_key u_removed u_items u_keys]; [done|done|]. by apply map_Forall_insert_2. Qed.

Lemma apart_own_item (us : nat -> option uncommitted) i u it :
  (forall j v, j <> i -> us j = Some v -> apart u v) -> (forall j v, us j = Some v -> u_items v !! ID it = None) ->
  forall j v, j <> i -> us j = Some v -> apart (own_item (stored_item it) u) v.
Proof.
  intros Ha Hn j v Hj E. destruct (Ha j v Hj E) as [Hi Hk]. split; [|done]. cbn [own_item u_items].
  apply map_disjoint_insert_l_2; [by eapply Hn|done].
Qed.

Lemma apart_own_key (us : nat -> option uncommitted) i u k row :
  (forall j v, j <> i -> us j = Some v -> apart u v) -> (forall j v, us j = Some v -> u_keys v !! k = None) ->
  forall j v, j <> i -> us j = Some v -> apart (own_key k row u) v.
Proof.
  intros Ha Hn j v Hj E. destruct (Ha j v Hj E) as [Hi Hk]. split; [done|]. cbn [own_key u_keys].
  apply map_disjoint_insert_l_2; [by eapply Hn|done].
Qed.

Lemma published_ok c us i u us' :
  shared_ok c us -> us i = Some u -> (forall j, j <> i -> us' j = us j) -> us' i = None ->
  shared_ok (published c u) us' /\ grown c (published c u).
Proof.
  intros Hs E Hf En. destruct (Hs) as [Hi Hk Ho Ha]. destruct (Ho i u E) as [Hr Hui Huk].
  assert (grown c (published c u)) as Hg by (eapply pending_published, Ho, E). split; [|done].
  eapply (shared_step c us _ us' i); [done|done| | | |done|by rewrite En].
  - apply map_Forall_union_2; [|done]. intros id it Hit. by apply (Hui id it Hit).
  - unfold published. cbn [tb_keys tb_items]. rewrite seen_keys_all by done. apply map_Forall_union_2.
    + intros k row Hrow. by apply (Huk k row Hrow).
    + intros k row Hrow. eapply row_ok_mono; [apply Hg|by eapply Hk].
  - intros j v Hj Ej. destruct (pending_outside c v (Ho j v Ej)). destruct (Ha i j u v (not_eq_sym Hj) E Ej).
    split; [by apply map_disjoint_union_r_2|]. unfold published. cbn [tb_keys]. rewrite seen_keys_all by done.
    by apply map_disjoint_union_r_2.
Qed.

Lemma inserted_ok c us it us' :
  shared_ok c us -> free_id c us (ID it) -> (forall j, us' j = us j) ->
  let c' := mkTables (<[ID it := stored_item it]> (tb_items c)) (tb_keys c) in shared_ok c' us' /\ grown c c'.
Proof.
  intros Hs [Hn Hfree] Hf c'. destruct (Hs) as [Hi Hk Ho Ha].
  assert (grown c c') as Hg by (split; [by apply insert_subseteq|done]). split; [|done].
  assert (forall j v, us j = Some v -> outside c' v) as Hout.
  { intros j v E. destruct (pending_outside c v (Ho j v E)). split; [|done]. apply map_disjoint_insert_r_2; [by eapply Hfree|done]. }
  eapply (shared_step c us c' us' 0%nat); [done|done| | |by eauto|by auto|].
  - by apply map_Forall_insert_2.
  - intros k row E. eapply row_ok_mono; [apply Hg|by eapply Hk].
  - rewrite Hf. intros u E. split; [eapply pending_grown; eauto|]. intros j v Hj Ej. by apply (Ha 0%nat j).
Qed.

(** Every step keeps the invariant, and the tables grow. *)
Lemma effect_ok c us i ev c' us' :
  shared_ok c us -> effect ss_clock c us i ev c' (us' i) -> (forall j, j <> i -> us' j = us j) ->
  shared_ok c' us' /\ grown c c'.
Proof.
  intros Hs He Hf. destruct (Hs) as [Hi Hk Ho Ha].
  assert (forall u, us i = Some u -> pending_ok c u /\ forall j v, j <> i -> us j = Some v -> apart u v) as Hown.
  { intros u E. split; [by eapply Ho|]. intros j v Hj Ej. by eapply (Ha i j). }
  assert ((forall u', us' i = Some u' -> pending_ok c u' /\ forall j v, j <> i -> us j = Some v -> apart u' v) ->
    shared_ok c us' /\ grown c c) as Hwrite by (intros; split; [by eapply shared_write|apply grown_refl]).
  remember (us' i) as own eqn:Eown.
  destruct He as [| |u removed E Hrem| | | | |u it j E [Hn Hfree] _ _|u k r id t t' E Hkn Hfree Hid _ _|u E|u E e| | | |
    |it a Hfree _|]; try (apply Hwrite; congruence || (intros u' [= <-]; by auto) || exact Hown).
  - apply Hwrite. intros u' [= <-]. split; [apply pending_nothing|]. intros j v _ _. split; apply map_disjoint_empty_l.
  - apply Hwrite. intros u' [= <-]. rewrite (nothing_expires c us removed Hs Hrem), own_nothing_removed by apply (Hown u E). by apply Hown.
  - apply Hwrite. intros u' [= <-]. destruct (Hown u E). split; [by apply pending_own_item|by apply (apart_own_item us i)].
  - destruct (Hown u E) as [Hp Hap]. apply Hwrite. intros u' [= <-]. split; [|by apply (apart_own_key us i)].
    apply pending_own_key; [done| |].
    + split; [|done]. intros tick. apply Hwindow.
    + rewrite seen_keys_all in Hkn by apply Hp. by apply lookup_union_None in Hkn as [_ Hkn].
  - by eapply published_ok.
  - by eapply published_ok.
  - eapply inserted_ok; [done|done|]. intros j. destruct (decide (j = i)) as [->|]; [done|by apply Hf].
Qed.

(** ** What a session knows *)

Lemma history_keeps s h s' :
  shared_ok (ss_committed s) (ss_open s) -> history s h s' ->
  shared_ok (ss_committed s') (ss_open s') /\ grown (ss_committed s) (ss_committed s').
Proof.
  intros Hs Hh. induction Hh as [|h s1 i ev s2 Hh [Hok Hg] Hst]; [split; [done|apply grown_refl]|].
  destruct (ss_documented _ _ _ _ Hst) as [He Hf]. destruct (effect_ok _ _ _ _ _ _ Hok He Hf) as [Hok2 Hg2].
  split; [done|by eapply grown_trans].
Qed.

Context (s0 : T) (Hstart : shared_ok (ss_committed s0) (ss_open s0)).

Implicit Types (Q R : tables -> uncommitted -> Prop).

(** While session [i] has been answered [l], its open transaction satisfies [Q]. *)
Definition knows (i : nat) (l : list db_event) Q : Prop :=
  forall h s, history s0 h s -> events_of i h = l -> forall u, ss_open s i = Some u -> Q (ss_committed s) u.

(** What the other sessions may do keeps [Q]. *)
Definition stable Q : Prop := forall c c' u, grown c c' -> Q c u -> Q c' u.

Lemma knows_snoc i l ev Q R :
  knows i l Q -> stable R ->
  (forall c us u' c', shared_ok c us -> (forall u, us i = Some u -> Q c u) ->
     effect ss_clock c us i (Some ev) c' (Some u') -> R c' u') ->
  knows i (l ++ [ev]) R.
Proof.
  intros Hq Hst Hstep h s Hh. induction Hh as [|h s j e s' Hh IH Hs]; intros El u' Eu'.
  { apply (f_equal length) in El. rewrite length_app in El. simpl in El. lia. }
  destruct (history_keeps _ _ _ Hstart Hh) as [Hok _]. destruct (ss_documented _ _ _ _ Hs) as [He Hf].
  destruct (effect_ok _ _ _ _ _ _ Hok He Hf) as [_ Hg]. rewrite events_of_app in El.
  destruct (decide (j = i)) as [->|Hne].
  - destruct e as [e|]; [|rewrite Eu' in He; by inversion He].
    rewrite events_of_own in El. apply app_inj_tail in El as [El ->]. rewrite Eu' in He.
    eapply Hstep; [done| |done]. intros u Eu. by eapply Hq.
  - rewrite events_of_other, app_nil_r in El by done. rewrite (Hf i) in Eu' by done. eapply Hst, IH; eauto.
Qed.

Lemma knows_weaken i l Q R : knows i l Q -> (forall c u, Q c u -> R c u) -> knows i l R.
Proof. intros Hq Himp h s Hh El u Eu. by eapply Himp, Hq. Qed.

Lemma knows_true i l : knows i l (fun _ _ => True).
Proof. done. Qed.

(** What the event scanned. *)
Definition scanned_key (ev : db_event) : option (bytes * uuid) :=
  match ev_call ev as c return db_answer c -> option (bytes * uuid) with
  | InTx _ _ KeyRow => fun a => match a with Ok x => Some x | Err _ => None end
  | _ => fun _ => None
  end (ev_answer ev).
Definition scanned_item (ev : db_event) : option Item :=
  match ev_call ev as c return db_answer c -> option Item with
  | InTx _ _ ItemRow => fun a => match a with Ok x => Some x | Err _ => None end
  | _ => fun _ => None
  end (ev_answer ev).

Ltac invert_effect :=
  let c := fresh "c" in let us := fresh "us" in let u' := fresh "u'" in let c' := fresh "c'" in
  let oe := fresh "oe" in let Hok := fresh "Hok" in let Hq := fresh "Hq" in let He := fresh "He" in
  let E := fresh "E" in let Ec := fresh "Ec" in let Ek := fresh "Ek" in let Ei := fresh "Ei" in
  intros c us u' c' Hok Hq He;
  match type of He with effect _ _ _ _ ?ev _ _ => remember ev as oe eqn:E end;
  pose proof (f_equal (option_map (fun e => ev_call e)) E) as Ec;
  pose proof (f_equal (option_map scanned_key) E) as Ek; pose proof (f_equal (option_map scanned_item) E) as Ei;
  clear E; cbn in Ec, Ek, Ei;
  inversion He; clear He; subst; cbn in Ec; unfold scanned_key, scanned_item in Ek, Ei; simplify_eq/=;
  try match goal with P : pool_read ?e, C : ev_call ?e = _ |- _ => unfold pool_read in P; rewrite C in P; destruct P end;
  try match goal with E : us _ = Some _ |- _ => specialize (Hq _ E) end.

(** Before it inserts, a transaction has written nothing. *)
Definition wrote_nothing : tables -> uncommitted -> Prop := fun _ u => u = nothing.

Lemma wrote_nothing_stable : stable wrote_nothing.
Proof. by intros c c' u _ ->. Qed.

Lemma knows_begin i l : knows i (l ++ [Event Begin (Ok tt)]) wrote_nothing.
Proof. eapply knows_snoc; [apply knows_true|apply wrote_nothing_stable|]. by invert_effect. Qed.

Lemma knows_lock i l id b :
  knows i l wrote_nothing -> knows i (l ++ [Event (InTx idempotencyLockQuery [VInt id] LockRow) (Ok b)]) wrote_nothing.
Proof. intros Hl. eapply knows_snoc; [exact Hl|apply wrote_nothing_stable|]. by invert_effect. Qed.

Lemma knows_cleanup i l :
  knows i l wrote_nothing -> knows i (l ++ [Event (Exec idempotencyCleanupQuery []) (Ok tt)]) wrote_nothing.
Proof.
  intros Hl. eapply knows_snoc; [exact Hl|apply wrote_nothing_stable|]. invert_effect.
  assert (removed = ∅) as -> by (by eapply nothing_expires). by rewrite Hq.
Qed.

(** The record of the request is committed, with its item. *)
Definition holds (c : tables) (key request : bytes) (it : Item) : Prop :=
  (exists row, tb_keys c !! key = Some row /\ kr_request row = request /\ kr_item row = ID it) /\ tb_items c !! ID it = Some it.

Lemma holds_grown c c' key request it : grown c c' -> holds c key request it -> holds c' key request it.
Proof.
  intros [Hi Hk] [(row & Hrow & E1 & E2) Hit]. split; [exists row; split; [|done]|]; by eapply lookup_weaken.
Qed.

Definition found (key request : bytes) (id : uuid) : tables -> uncommitted -> Prop := fun c u =>
  u = nothing /\ exists row, tb_keys c !! key = Some row /\ kr_request row = request /\ kr_item row = id.

Lemma knows_lookup i l key request id :
  knows i l wrote_nothing ->
  knows i (l ++ [Event (InTx idempotencyLookupQuery [VBytes key] KeyRow) (Ok (request, id))]) (found key request id).
Proof.
  intros Hl. eapply knows_snoc; [exact Hl| |].
  { intros c c' u [_ Hk] [-> (row & Hrow & E)]. split; [done|]. exists row. split; [by eapply lookup_weaken|done]. }
  invert_effect. red in Hq. subst. split; [done|].
  match goal with E : seen_keys _ _ !! key = Some ?row |- _ =>
    exists row; rewrite seen_keys_all in E by done; cbn [nothing u_keys] in E; rewrite (left_id_L ∅ (∪)) in E end.
  done.
Qed.

Lemma knows_get i l key request id j :
  knows i l (found key request id) ->
  knows i (l ++ [Event (InTx getQuery [VUuid id] ItemRow) (Ok j)]) (fun c _ => holds c key request (utc_item j)).
Proof.
  intros Hl. eapply knows_snoc; [exact Hl| |]. { intros c c' u Hg. by apply holds_grown. }
  invert_effect. destruct Hq as [-> (row & Hrow & E & Eid)].
  match goal with E : seen_items _ _ !! id = _ |- _ => unfold seen_items in E; cbn [nothing u_items] in E; rewrite (left_id_L ∅ (∪)) in E;
    pose proof (so_items _ _ Hok _ _ E) as Hid; cbv beta in Hid end.
  split; [exists row; split_and!; congruence|congruence].
Qed.

(** The item, and with it the record, that a transaction is about to commit. *)
Definition inserted (value it : Item) : tables -> uncommitted -> Prop := fun _ u =>
  it = stored_item value /\ u_items u !! ID it = Some it.
Definition recorded (value : Item) (key request : bytes) (it : Item) : tables -> uncommitted -> Prop := fun c u =>
  inserted value it c u /\ exists row, u_keys u !! key = Some row /\ kr_request row = request /\ kr_item row = ID it.

Lemma knows_insert i l value j :
  knows i (l ++ [Event (InTx createQuery [VUuid (ID value); VText (Name value); VText (Description value); VTime (CreatedAt value)] ItemRow) (Ok j)])
    (inserted value (utc_item j)).
Proof.
  eapply knows_snoc; [apply knows_true|by intros c c' u _|]. invert_effect.
  match goal with E : utc_item _ = stored_item ?x |- _ => destruct x, value; cbn in *; simplify_eq; split; [done|]; rewrite E end.
  apply lookup_insert_eq.
Qed.

Lemma knows_insert_key i l value it key request id n :
  id = ID it -> knows i l (inserted value it) ->
  knows i (l ++ [Event (Exec idempotencyInsertQuery [VBytes key; VBytes request; VUuid id; VInt n]) (Ok tt)])
    (recorded value key request it).
Proof.
  intros -> Hl. eapply knows_snoc; [exact Hl|by intros c c' u _|]. invert_effect. split; [done|].
  eexists. split; [apply lookup_insert_eq|done].
Qed.

(** What a transaction that is about to commit and to return [it] knows. *)
Definition decided (value : Item) (key request : bytes) (it : Item) (replayed : bool) : tables -> uncommitted -> Prop :=
  if replayed then fun c _ => holds c key request it else recorded value key request it.

Lemma knows_work i value (keyHash requestHash : array 32) it replayed work :
  performed value keyHash requestHash it replayed work ->
  knows i (Event Begin (Ok tt) :: work) (decided value (arr_bytes keyHash) (arr_bytes requestHash) it replayed).
Proof.
  intros [id j|e created _].
  - apply (knows_get i [_; _; _; _] _ _ id), (knows_lookup i [_; _; _]), (knows_cleanup i [_; _]), (knows_lock i [_]), (knows_begin i []).
  - eapply (knows_insert_key i [_; _; _; _; _]); [done|]. apply (knows_insert i [_; _; _; _]).
Qed.

(** ** Served creates *)

Abbreviation commit := (Event (Commit : db_call) (Ok tt : db_answer Commit)).

Lemma commit_effect c us i c' own :
  effect ss_clock c us i (Some commit) c' own -> exists u, us i = Some u /\ c' = published c u.
Proof.
  intros He. remember (Some commit) as oe eqn:E.
  pose proof (f_equal (option_map (fun e => ev_call e)) E) as Ec. pose proof (f_equal (option_map committed) E) as Eo.
  pose proof (f_equal (option_map failure) E) as Ef. clear E. cbn in Ec, Eo, Ef.
  inversion He; subst; simplify_eq/=; eauto; [congruence|].
  match goal with P : pool_read ?e, C : ev_call ?e = _ |- _ => unfold pool_read in P; rewrite C in P; destruct P end.
Qed.

Lemma decided_holds c u value key request it replayed :
  pending_ok c u -> decided value key request it replayed c u -> holds (published c u) key request it.
Proof.
  intros Hp. destruct replayed; [by apply holds_grown, pending_published|].
  intros [[_ Hit] (row & Hrow & E)]. split; [exists row; split; [|done]|]; unfold published; cbn [tb_keys tb_items]; by apply lookup_union_Some_l.
Qed.

Lemma CreateIdempotent_valid {S} rollbackContext (store : option (Database S)) ctx value key fp w r :
  fst (CreateIdempotent rollbackContext store ctx value key fp w) = Ok r -> is_Some (decodeDigest fp).
Proof.
  unfold CreateIdempotent, bind at 1. destruct (contextError ctx w) as [[[]|e] w1]; [|done].
  unfold bind at 1, of_result at 1, validateIdempotentRequest. destruct (ValidateIdempotencyKey key) as [[]|e]; [|done].
  cbn [rbind]. destruct (bool_decide (ID value = uuid_nil)); [done|]. by destruct (decodeDigest fp) as [d|]; [eauto|].
Qed.

(** [A] is what preceded the commit of a create that returned [it]. *)
Definition commits (value : Item) (key fp : bytes) (it : Item) (replayed : bool) (i : nat) (A : list (nat * option db_event)) : Prop :=
  is_Some (decodeDigest fp) /\ exists work, events_of i A = Event Begin (Ok tt) :: work
    /\ performed value (Sum256 key) (default (zero_array 32) (decodeDigest fp)) it replayed work.

Abbreviation key_of key := (arr_bytes (Sum256 key)) (only parsing).
Abbreviation request_of fp := (arr_bytes (default (zero_array 32) (decodeDigest fp))) (only parsing).

Lemma served_commits rollbackContext h i ctx value key fp it replayed :
  served rollbackContext h i ctx value key fp (Ok (it, replayed)) ->
  exists A B, h = A ++ (i, Some commit) :: B /\ commits value key fp it replayed i A.
Proof.
  intros (oracle & w & Hw & Hr & Hev). pose proof (CreateIdempotent_valid _ _ _ _ _ _ _ _ Hr) as Hfp.
  destruct (CreateIdempotent_emits rollbackContext oracle ctx value key fp w) as (evs & Hs & Ht).
  rewrite Hw in Hs. cbn [app] in Hs. rewrite Hs in Hev. subst evs. rewrite Hr in Ht.
  destruct Ht as [[? _]|(body & a & Ee & _ & work & -> & Hwork)]; [done|].
  rewrite app_comm_cons in Ee. apply events_of_last in Ee as (A0 & B0 & -> & Ee & _).
  rewrite app_comm_cons in Ee. apply events_of_last in Ee as (A & B & -> & Ee & _).
  exists A, (B ++ (i, Some (Event Rollback a)) :: B0). rewrite <- app_assoc. split; [done|]. split; [done|]. by exists work.
Qed.

(** Before its commit a create has decided, and from then on its record holds. *)
Lemma commits_run value key fp it replayed i A B s :
  commits value key fp it replayed i A -> history s0 (A ++ (i, Some commit) :: B) s ->
  holds (ss_committed s) (key_of key) (request_of fp) it
  /\ exists s1 u, history s0 A s1 /\ pending_ok (ss_committed s1) u
       /\ decided value (key_of key) (request_of fp) it replayed (ss_committed s1) u.
Proof.
  intros (_ & work & Ee & Hwork) Hh. destruct (history_split _ _ _ _ _ _ _ Hh eq_refl) as (s1 & s2 & H1 & Hst & H2).
  destruct (history_keeps _ _ _ Hstart H1) as [Hok _]. destruct (ss_documented _ _ _ _ Hst) as [He Hf].
  destruct (effect_ok _ _ _ _ _ _ Hok He Hf) as [Hok2 _]. destruct (commit_effect _ _ _ _ _ He) as (u & Eu & Ec).
  pose proof (so_open _ _ Hok _ _ Eu) as Hp. pose proof (knows_work i _ _ _ _ _ _ Hwork A s1 H1 Ee u Eu) as Hd.
  split; [|by exists s1, u]. eapply holds_grown; [by eapply history_keeps|]. rewrite Ec. by eapply decided_holds.
Qed.

(** After the commit of its key, a create inserts nothing. *)
Lemma commits_again value key fp it replayed i A X value' key' fp' it' replayed' j B s :
  commits value key fp it replayed i A -> commits value' key' fp' it' replayed' j (A ++ (i, Some commit) :: X) ->
  Sum256 key = Sum256 key' -> history s0 ((A ++ (i, Some commit) :: X) ++ (j, Some commit) :: B) s -> replayed' = true.
Proof.
  intros Hi Hj Ek Hh. destruct (commits_run _ _ _ _ _ _ _ _ _ Hj Hh) as (_ & s1 & u & H1 & Hp & Hd).
  destruct (commits_run _ _ _ _ _ _ _ _ _ Hi H1) as [[(row & Hrow & _) _] _]. destruct replayed'; [done|].
  destruct Hd as [_ (row' & Hrow' & _)]. destruct (po_keys _ _ Hp _ _ Hrow') as [_ Hn]. rewrite <- Ek in Hn. congruence.
Qed.

(** Two commits of one history, one of which is first. *)
Lemma commit_order h i A B j A' B' :
  h = A ++ (i, Some commit) :: B -> h = A' ++ (j, Some commit) :: B' ->
  i = j \/ (exists X, A' = A ++ (i, Some commit) :: X) \/ (exists X, A = A' ++ (j, Some commit) :: X).
Proof.
  intros -> E. apply app_eq_inv in E as [(k & -> & E)|(k & -> & E)]; destruct k as [|x k]; simplify_eq/=; eauto.
Qed.

(** Creates under one key agree, however the sessions interleave. Whatever any
    number of sessions ask of one server within a retention period, and whatever the
    server answers them as documented, with failures, lost connections and commits of
    unknown outcome, and whether or not the advisory lock excludes anyone: two creates
    that succeed under the same key return the same item, for the same fingerprint; the
    store has that item, and the record that ties it to the key; one of them at most
    inserted it, and returned what its caller gave. *)
Lemma sessions_agree rollbackContext h s i ctx value key fp it replayed j ctx' value' key' fp' it' replayed' :
  history s0 h s ->
  served rollbackContext h i ctx value key fp (Ok (it, replayed)) ->
  served rollbackContext h j ctx' value' key' fp' (Ok (it', replayed')) ->
  Sum256 key = Sum256 key' ->
  it' = it /\ decodeDigest fp' = decodeDigest fp
  /\ tb_items (ss_committed s) !! ID it = Some it
  /\ (exists row, tb_keys (ss_committed s) !! key_of key = Some row /\ kr_request row = request_of fp /\ kr_item row = ID it)
  /\ (replayed = false -> replayed' = false -> i = j)
  /\ (replayed = false -> it = stored_item value).
Proof.
  intros Hh Hi Hj Ek. apply served_commits in Hi as (A & B & Eh & Hi), Hj as (A' & B' & Eh' & Hj).
  assert (history s0 (A ++ (i, Some commit) :: B) s) as Hhi by congruence.
  assert (history s0 (A' ++ (j, Some commit) :: B') s) as Hhj by congruence.
  destruct (commits_run _ _ _ _ _ _ _ _ _ Hi Hhi) as [[(row & Hrow & Er & Ei) Hit] (s1 & u & _ & _ & Hd)].
  destruct (commits_run _ _ _ _ _ _ _ _ _ Hj Hhj) as [[(row' & Hrow' & Er' & Ei') Hit'] _].
  rewrite <- Ek in Hrow'. assert (row' = row) as -> by congruence.
  split_and!; [congruence| |done|by exists row| |intros ->; apply Hd].
  { destruct (proj1 Hi) as [d Ed], (proj1 Hj) as [d' Ed']. rewrite Ed, Ed' in *. f_equal. apply arr_eq. cbn in *. congruence. }
  intros -> ->. destruct (commit_order _ _ _ _ _ _ _ Eh Eh') as [->|[[X ->]|[X ->]]]; [done|..].
  - by pose proof (commits_again _ _ _ _ _ _ _ _ _ _ _ _ _ _ _ _ Hi Hj Ek Hhj).
  - by pose proof (commits_again _ _ _ _ _ _ _ _ _ _ _ _ _ _ _ _ Hj Hi (eq_sym Ek) Hhi).
Qed.
End Histories.

(** ** Requests to any process *)

Section Replicas.
Context {H : Hash256} {T : Type} `{!SqlServer T}.
Context (Hwindow : forall t t', ss_clock t < ss_clock t' + retention_micros).
Context (s0 : T) (Hstart : shared_ok (ss_committed s0) (ss_open s0)).
Context (rollbackContext : context) (maxBodyBytes : Z).

(** Some process served the post [c] as session [i], and answered [r]: processes have
    their own clocks and identifiers, over one server. *)
Definition answered (h : list (nat * option db_event)) (i : nat) (c : request) (r : response) : Prop :=
  exists oracle sysnow sv w,
    let service := service_ops sysnow (Some sv) in
    let run := HttpApi.Create (mkHandler (Some service) maxBodyBytes) c w in
    sv_store sv = Some (postgres_ops rollbackContext (Some (traced_db oracle)))
    /\ w_store w = [] /\ fst run = Ok r /\ w_store (snd run) = events_of i h.

(** The fields that a request asks for. *)
Definition asks (c : request) (input : CreateInput) : Prop :=
  exists q, decodeStrictJSON c maxBodyBytes = Ok (Some q) /\ ValidateCreateInput (create_input q) = Ok input.

Lemma contextError_store {S} ctx (w : world S) : w_store (snd (contextError ctx w)) = w_store w.
Proof. unfold contextError. destruct ctx as [c|]; [|done]. m_unfold. by destruct (ctx_err c _). Qed.

Lemma new_item_store {S} sysnow (sv : Service (S := S)) input w r w' :
  new_item sysnow sv input w = (r, w') ->
  w_store w' = w_store w /\ forall it, r = Ok it -> Name it = in_name input /\ Description it = in_description input.
Proof.
  unfold new_item. m_unfold. destruct (sv_generateID sv _) as [id|e]; [|by intros [= <- <-]].
  destruct (_ || _ || _); [by intros [= <- <-]|]. destruct (IsZero _); intros [= <- <-]; (split; [done|]); by intros it [= <-].
Qed.

(** What a service that answered with an item asked of its store. *)
Lemma Service_create {S} sysnow (sv : Service (S := S)) ctx input key create p w w' :
  service_store (Some sv) = Some (sv, create) ->
  Service.CreateIdempotent sysnow (Some sv) ctx input key w = (Ok p, w') ->
  exists f canonical fp value k, st_create_idempotent create = Some f /\ ValidateCreateInput input = Ok canonical
    /\ FingerprintCreateInput canonical = Ok fp /\ Name value = in_name canonical /\ Description value = in_description canonical
    /\ f ctx value (storageIdempotencyKey ctx key) fp (World k (w_store w)) = (Ok p, w').
Proof.
  intros Est. unfold Service.CreateIdempotent. unfold bind at 1. pose proof (contextError_store ctx w) as Es.
  destruct (contextError ctx w) as [[[]|e] w1]; [|done]. cbn in Es. unfold bind at 1, of_result at 1.
  destruct (ValidateIdempotencyKey key); [|done]. unfold bind at 1, of_result at 1.
  destruct (ValidateCreateInput input) as [canonical|]; [|done]. rewrite Est. cbn [mbind option_bind snd fst].
  destruct (st_create_idempotent create) as [f|]; [|done]. cbn [mbind option_bind fst snd]. unfold bind at 1, of_result at 1.
  destruct (FingerprintCreateInput canonical) as [fp|] eqn:Ef; [|done]. unfold bind at 1.
  destruct (new_item sysnow sv canonical w1) as [[value|] w2] eqn:En; [|done].
  apply new_item_store in En as [Es2 Hv]. destruct (Hv value eq_refl). unfold bind at 1.
  destruct (f ctx value _ fp w2) as [[p'|] w3] eqn:E; [|done]. case_bool_decide; [done|]. intros [= <- <-].
  exists f, canonical, fp, value, (w_tick w2). split_and!; try done. rewrite <- E. f_equal. destruct w2. cbn in *. congruence.
Qed.
Lemma answered_served h i c r key it :
  answered h i c r -> parseIdempotencyKey (Some c) = Ok (Some key) -> rs_body r = ItemBody it ->
  exists value fp replayed input,
    served rollbackContext h i (rq_context c) value (storageIdempotencyKey (rq_context c) key) fp (Ok (it, replayed))
    /\ (rs_status r = 201 -> replayed = false) /\ asks c input /\ FingerprintCreateInput input = Ok fp
    /\ Name value = in_name input /\ Description value = in_description input.
Proof.
  intros (oracle & sysnow & sv & w & Hsv & Hw & Hr & Hev) Hk Hb. unfold HttpApi.Create in Hr, Hev.
  rewrite Hk in Hr, Hev. cbn [hd_maxBodyBytes hd_service service_ops so_create_idempotent] in Hr, Hev.
  assert (forall e, rs_body (writeServiceError e) <> ItemBody it) as Hno
    by (intros e; unfold writeServiceError; repeat case_match; done).
  destruct (decodeStrictJSON c maxBodyBytes) as [[q|]|e] eqn:Ed; [|by injection Hr as <-..].
  unfold or_service_error, bind, attempt in Hr, Hev.
  destruct (Service.CreateIdempotent sysnow (Some sv) (rq_context c) (create_input q) key w) as [[p|e] w'] eqn:E.
  2: { injection Hr as <-. by destruct (Hno e). }
  cbn beta iota zeta in Hr, Hev. destruct p as [created replayed]. injection Hr as <-. cbn [snd ret w_store] in Hev.
  destruct (Service_create sysnow sv (rq_context c) (create_input q) key _ _ w w' (f_equal _ Hsv) E)
    as (f & canonical & fp & value & k & [= <-] & Hv & Hfp & Hn & Hd & Ef).
  revert Hb. unfold created_response. case_bool_decide; [done|]. cbn [rs_body rs_status]. intros [= ->].
  exists value, fp, replayed, canonical. split_and!; try done.
  - exists oracle, (World k (w_store w)). cbn [w_store]. rewrite Ef. by split_and!.
  - by destruct replayed.
  - by exists q.
Qed.

Lemma asks_same a b fpa fpb ca cb :
  asks a ca -> asks b cb -> FingerprintCreateInput ca = Ok fpa -> FingerprintCreateInput cb = Ok fpb ->
  decodeDigest fpa = decodeDigest fpb -> ca = cb \/ collision.
Proof.
  intros (qa & _ & [Ea Ha]%ValidateCreateInput_Ok) (qb & _ & [Eb Hb]%ValidateCreateInput_Ok).
  rewrite (Fingerprint_Ok ca ca), (Fingerprint_Ok cb cb) by (by apply ValidateCreateInput_canonical).
  intros [= <-] [= <-]. rewrite !decodeDigest_encode. intros [= E]. apply Sum256_inj in E as [E|?]; [|by right].
  left. by apply fingerprint_payload_inj.
Qed.

(** C7: Replicas agree. Any number of processes serve requests over one PostgreSQL server,
    within a retention period, and the server does whatever is documented, statement by
    statement, with failures, lost connections and commits of unknown outcome. Two posts
    with the same scope and key that are answered with an item are answered with the same
    item, which the store has; they asked for the same fields, short of a collision of
    the digest; at most one of them is answered 201, and its item has those fields. *)
Theorem Replicas_agree h s i j c d r r' key it it' input input' :
  history s0 h s -> answered h i c r -> answered h j d r' ->
  parseIdempotencyKey (Some c) = Ok (Some key) -> parseIdempotencyKey (Some d) = Ok (Some key) ->
  IdempotencyScopeFromContext (rq_context c) = IdempotencyScopeFromContext (rq_context d) ->
  asks c input -> asks d input' -> rs_body r = ItemBody it -> rs_body r' = ItemBody it' ->
  it' = it /\ tb_items (ss_committed s) !! ID it = Some it /\ (input = input' \/ collision)
  /\ (rs_status r = 201 -> Name it = in_name input /\ Description it = in_description input)
  /\ (rs_status r = 201 -> rs_status r' = 201 -> i = j).
Proof.
  intros Hh Hi Hj Hk Hk' Hs Hc Hd Hb Hb'.
  destruct (answered_served _ _ _ _ _ _ Hi Hk Hb) as (v & fp & b & ci & Si & Sb & Ai & Fi & Ni & Di).
  destruct (answered_served _ _ _ _ _ _ Hj Hk' Hb') as (v' & fp' & b' & cj & Sj & Sb' & Aj & Fj & _).
  assert (forall c x y, asks c x -> asks c y -> x = y) as Hfun by (intros ? ? ? (? & ? & ?) (? & ? & ?); congruence).
  rewrite (Hfun _ _ _ Hc Ai), (Hfun _ _ _ Hd Aj).
  assert (storageIdempotencyKey (rq_context c) key = storageIdempotencyKey (rq_context d) key) as Ekey
    by (unfold storageIdempotencyKey; by rewrite Hs). rewrite Ekey in Si.
  destruct (sessions_agree Hwindow _ Hstart _ _ _ _ _ _ _ _ _ _ _ _ _ _ _ _ _ Hh Si Sj eq_refl) as (-> & Efp & Hit & _ & Hone & Hv).
  split_and!; [done|done|by eapply asks_same|intros E; rewrite (Hv (Sb E)); by split|intros E E'; apply Hone; auto].
Qed.
End Replicas.

(** ** A server of that kind *)

(** One open transaction replaced. *)
Definition with_open (us : nat -> option uncommitted) (i : nat) (u : option uncommitted) : nat -> option uncommitted :=
  fun j => if decide (j = i) then u else us j.

Definition shared_tables : Type := tables * (nat -> option uncommitted).

(** Every behaviour that is documented, with a clock that stays within one second. *)
Definition shared_clock (tick : nat) : Z := Z.of_nat (tick mod 1000).
Definition shared_effect (s : shared_tables) (i : nat) (ev : option db_event) (s' : shared_tables) : Prop :=
  exists u, effect shared_clock (fst s) (snd s) i ev (fst s') u /\ snd s' = with_open (snd s) i u.

#[refine] Instance shared_server : SqlServer shared_tables := {|
  ss_step := shared_effect;
  ss_committed := fst;
  ss_open := snd;
  ss_clock := shared_clock;
|}.
Proof.
  intros s i ev s' (u & He & ->). unfold with_open. rewrite decide_True by done. split; [done|].
  intros j Hj. by rewrite decide_False.
Defined.

Lemma shared_window t t' : shared_clock t < shared_clock t' + retention_micros.
Proof. unfold shared_clock, retention_micros. pose proof (Nat.mod_upper_bound t 1000). lia. Qed.

Definition no_sessions : shared_tables := (mkTables ∅ ∅, fun _ => None).

Lemma no_sessions_ok : shared_ok (ss_committed no_sessions) (ss_open no_sessions).
Proof. split; [apply map_Forall_empty..|done|done]. Qed.

Lemma shared_run c us i ev c' u h s :
  effect shared_clock c us i ev c' u -> history (c', with_open us i u) h s -> history (c, us) ((i, ev) :: h) s.
Proof.
  intros He Hh. assert (history (c, us) [(i, ev)] (c', with_open us i u)) as H1.
  { apply (history_snoc _ [] (c, us)); [constructor|]. by exists u. }
  remember (c', with_open us i u) as s1 eqn:Es. clear Es.
  induction Hh as [|h s j e s' Hh IH Hs]; [done|]. by apply (history_snoc _ ((i, ev) :: h) s).
Qed.

Lemma with_open_all (P : uncommitted -> Prop) us i u :
  (forall j v, us j = Some v -> P v) -> (forall v, u = Some v -> P v) -> forall j v, with_open us i u j = Some v -> P v.
Proof. intros Hus Hu j v. unfold with_open. case_decide; [apply Hu|apply Hus]. Qed.

Lemma with_open_eq us i u : with_open us i u i = u.
Proof. unfold with_open. by rewrite decide_True. Qed.
Lemma with_open_ne us i u j : j <> i -> with_open us i u j = us j.
Proof. intros. unfold with_open. by rewrite decide_False. Qed.

Ltac open_lookup := repeat first [rewrite with_open_eq; reflexivity|rewrite with_open_ne by lia].
