(* ===== verification/Collection.v ===== *)
(** * What the service promises, abstractly

    A collection of items and of the records of keyed creates, as a state machine: the
    replies that each operation may get and what it leaves. The service over any store
    that keeps its promise refines it, operation by operation ([serve_all_refines]); the
    PostgreSQL store and the memory store are such stores. *)
From S2P Require Import Prelude GoText GoEncoding GoTime Sha256 Errors World Item Idempotency Cursor Order Store Memory MemoryFacts Postgres Sql PostgresSpec Service ServiceFacts.

(** ** The abstract machine *)

(** The items, and the records of keyed creates: the digest of the request and the item. *)
Record collection := mkCollection { c_items : gmap uuid Item; c_records : gmap bytes (bytes * uuid) }.

Inductive operation :=
  | CreateItem (input : CreateInput) | CreateKeyed (input : CreateInput) (key : bytes)
  | GetItem (id : uuid) | ListItems (params : ListParams) | FollowItems (request : CursorRequest).
Inductive reply :=
  | Created (r : result Item) | CreatedKeyed (r : result (Item * bool))
  | Found (r : result Item) | Listed (r : result Page) | Followed (r : result CursorPage).

Section Machine.
Context {H : Hash256} (decodes : bytes -> CursorPosition -> Prop).

(** Under which digest the record of a caller's key is kept, and the digest of an input. *)
Definition record_key (ctx : context) (key : bytes) : bytes := arr_bytes (Sum256 (storageIdempotencyKey (Some ctx) key)).
Definition request_digest (c : CreateInput) : bytes := arr_bytes (Sum256 (fingerprint_payload c)).

(** The token of a page: of its last item, when rows remain. *)
Definition continued (more : bool) (items : list Item) (next : bytes) : Prop :=
  if more then exists i, last items = Some i /\ next <> [] /\ decodes next (item_position i) else next = [].

Definition page_of (m : gmap uuid Item) (q : ListParams) (next : bytes) : Page :=
  mkPage (take (Z.to_nat (lp_limit q)) (drop (Z.to_nat (lp_offset q)) (newest m)))
    (lp_limit q) (lp_offset q) (bool_decide (lp_offset q + lp_limit q < Z.of_nat (size m))) next.
Definition page_after (m : gmap uuid Item) (limit : Z) (after : option CursorPosition) (next : bytes) : CursorPage :=
  let rows := rows_after after (newest m) in
  mkCursorPage (take (Z.to_nat limit) rows) limit (limit <? Z.of_nat (length rows)) next.

Definition following_limit (request : CursorRequest) : Z :=
  if cr_limit request =? 0 then DefaultPageSize else cr_limit request.

Inductive collection_step (m : collection) (ctx : context) : operation -> reply -> collection -> Prop :=
  | step_created input c i :
    ValidateCreateInput input = Ok c -> built_from c i -> c_items m !! ID i = None ->
    collection_step m ctx (CreateItem input) (Created (Ok i)) (mkCollection (<[ID i := i]> (c_items m)) (c_records m))
  | step_rejected input e :
    ValidateCreateInput input = Err e ->
    collection_step m ctx (CreateItem input) (Created (Err e)) m
  | step_not_created input e :
    is_ok (ValidateCreateInput input) = true -> Is e ErrIDGeneration = true \/ Is e ErrConflict = true ->
    collection_step m ctx (CreateItem input) (Created (Err e)) m
  | step_keyed input key c i :
    ValidateIdempotencyKey key = Ok tt -> ValidateCreateInput input = Ok c -> built_from c i ->
    c_records m !! record_key ctx key = None -> c_items m !! ID i = None ->
    collection_step m ctx (CreateKeyed input key) (CreatedKeyed (Ok (i, false)))
      (mkCollection (<[ID i := i]> (c_items m)) (<[record_key ctx key := (request_digest c, ID i)]> (c_records m)))
  | step_replayed input key c i :
    ValidateIdempotencyKey key = Ok tt -> ValidateCreateInput input = Ok c ->
    c_records m !! record_key ctx key = Some (request_digest c, ID i) -> c_items m !! ID i = Some i ->
    collection_step m ctx (CreateKeyed input key) (CreatedKeyed (Ok (i, true))) m
  | step_other_request input key c digest id :
    ValidateIdempotencyKey key = Ok tt -> ValidateCreateInput input = Ok c ->
    c_records m !! record_key ctx key = Some (digest, id) -> digest <> request_digest c ->
    collection_step m ctx (CreateKeyed input key) (CreatedKeyed (Err (Sentinel ErrIdempotencyConflict))) m
  | step_keyed_rejected input key e :
    ValidateIdempotencyKey key = Err e \/ ValidateIdempotencyKey key = Ok tt /\ ValidateCreateInput input = Err e ->
    collection_step m ctx (CreateKeyed input key) (CreatedKeyed (Err e)) m
  | step_not_keyed input key e :
    is_ok (ValidateCreateInput input) = true ->
    Is e ErrIDGeneration = true \/ c_records m !! record_key ctx key = None /\ Is e ErrConflict = true ->
    collection_step m ctx (CreateKeyed input key) (CreatedKeyed (Err e)) m
  | step_found id i :
    id <> uuid_nil -> c_items m !! id = Some i -> collection_step m ctx (GetItem id) (Found (Ok i)) m
  | step_missing id e :
    id <> uuid_nil -> c_items m !! id = None -> Is e ErrNotFound = true ->
    collection_step m ctx (GetItem id) (Found (Err e)) m
  | step_nil e :
    Is e ErrInvalidInput = true -> collection_step m ctx (GetItem uuid_nil) (Found (Err e)) m
  | step_listed params q next :
    NormalizeListParams params = Ok q ->
    continued (pg_has_more (page_of (c_items m) q next)) (pg_items (page_of (c_items m) q next)) next ->
    collection_step m ctx (ListItems params) (Listed (Ok (page_of (c_items m) q next))) m
  | step_not_listed params e :
    NormalizeListParams params = Err e -> collection_step m ctx (ListItems params) (Listed (Err e)) m
  | step_followed request after next :
    0 < following_limit request <= MaxPageSize ->
    match after with None => cr_cursor request = [] | Some p => decodes (cr_cursor request) p end ->
    let page := page_after (c_items m) (following_limit request) after next in
    continued (cpg_has_more page) (cpg_items page) next ->
    collection_step m ctx (FollowItems request) (Followed (Ok page)) m
  | step_not_followed request e :
    ~ 0 < following_limit request <= MaxPageSize -> Is e ErrInvalidInput = true ->
    collection_step m ctx (FollowItems request) (Followed (Err e)) m.

Inductive collection_run : collection -> list (context * operation) -> list reply -> collection -> Prop :=
  | run_nil m : collection_run m [] [] m
  | run_cons m m' m'' ctx req rep reqs reps :
    collection_step m ctx req rep m' -> collection_run m' reqs reps m'' ->
    collection_run m ((ctx, req) :: reqs) (rep :: reps) m''.
End Machine.

(** ** The service *)

Section Serve.
Context {H : Hash256} {S : Type} (sysnow : nat -> time).

(** One operation, and a list of them, each with its context. *)
Definition serve_one (sv : Service (S := S)) (ctx : context) (req : operation) : M S reply :=
  match req with
  | CreateItem input => r <-- attempt (Create sysnow (Some sv) (Some ctx) input);; ret (Created r)
  | CreateKeyed input key => r <-- attempt (CreateIdempotent sysnow (Some sv) (Some ctx) input key);; ret (CreatedKeyed r)
  | GetItem id => r <-- attempt (Get (Some sv) (Some ctx) id);; ret (Found r)
  | ListItems params => r <-- attempt (List (Some sv) (Some ctx) params);; ret (Listed r)
  | FollowItems request => r <-- attempt (ListCursor (Some sv) (Some ctx) request);; ret (Followed r)
  end.

Fixpoint serve_all (sv : Service (S := S)) (reqs : list (context * operation)) : M S (list reply) :=
  match reqs with
  | [] => ret []
  | (ctx, req) :: reqs =>
    rep <-- serve_one sv ctx req;;
    reps <-- serve_all sv reqs;;
    ret (rep :: reps)
  end.

Context (ops : StoreOps S) `{!StoreSpec ops, !IdempotentSpec ops, !RecordsSpec ops} (sv : Service (S := S)).
Context (codec : CodecOps S) `{!CodecSpec codec} (list_after : option context -> CursorListParams -> M S (list Item)).
Context (Hstore : sv_store sv = Some ops) (Hcodec : sv_cursorCodec sv = Some codec).
Context (Hafter : st_list_after ops = Some list_after).
Context (Hsys : clock_wf sysnow) (Hclock : clock_wf (sv_clock sv)).

Abbreviation abs s := (mkCollection (st_view s) (rs_keys s)).

(** The store as a store whose records stay what they are: what a theorem about a store
    says of its invariant, it says of the records. *)
#[refine] Local Instance pinned (K : gmap bytes (bytes * uuid)) (n : nat) : StoreSpec ops | 1000 := {|
  st_inv s := st_inv s /\ rs_keys s = K /\ rs_room n s;
  st_view := st_view;
  st_storable := st_storable;
  st_keep := st_keep;
  st_seekable := st_seekable;
|}.
Proof.
  - intros s [Hi _]. by apply st_items_ok.
  - exact st_keep_ok.
  - intros s i [Hi _]. by apply st_seek_item.
  - intros ctx i w Hl (Hi & <- & Hr) Hc Hs Hn. destruct (st_create_new ctx i w Hl Hi Hc Hs Hn) as (w' & E & Hi' & V).
    destruct (rs_create ctx i w _ w' Hl Hi Hs E) as [Hk Hm]. exists w'. split_and!; auto.
  - intros ctx i w Hl (Hi & <- & Hr) Hs Hn. destruct (st_create_duplicate ctx i w Hl Hi Hs Hn) as (e & w' & E & He & Hi' & V).
    destruct (rs_create ctx i w _ w' Hl Hi Hs E) as [Hk Hm]. exists e, w'. split_and!; auto.
  - intros ctx id w Hl (Hi & <- & Hr) Hid. destruct (st_get_spec ctx id w Hl Hi Hid) as (r & w' & E & Hi' & V & Hc).
    destruct (rs_get ctx id w r w' Hl Hi Hid E) as [Hk Hm]. exists r, w'. split_and!; auto.
  - intros ctx limit offset w Hl (Hi & <- & Hr) Hlim Hoff.
    destruct (st_list_spec ctx limit offset w Hl Hi Hlim Hoff) as (w' & E & Hi' & V).
    destruct (rs_list ctx limit offset w _ w' Hl Hi Hlim Hoff E) as [Hk Hm]. exists w'. split_and!; auto.
  - intros la ctx limit after w Hla Hl (Hi & <- & Hr) Hlim Ha Hs.
    destruct (st_after_spec la ctx limit after w Hla Hl Hi Hlim Ha Hs) as (w' & E & Hi' & V).
    destruct (rs_after la ctx limit after w _ w' Hla Hl Hi Hlim Ha Hs E) as [Hk Hm]. exists w'. split_and!; auto.
Defined.

(** Every record names an item of the store. *)
Definition linked (m : collection) : Prop :=
  map_Forall (fun _ p => snd p <> uuid_nil /\ is_Some (c_items m !! snd p)) (c_records m).

(** A state that can serve [n] operations. *)
Record serving (n : nat) (s : S) : Prop := {
  sg_inv : st_inv s;
  sg_servable : servable codec (st_view s);
  sg_linked : linked (abs s);
  sg_room : rs_room n s;
}.

(** The store can hold what an input validates to, and the codec its position. *)
Definition holds_input (input : CreateInput) : Prop :=
  forall c, ValidateCreateInput input = Ok c ->
    accepted sysnow ops sv c
    /\ forall i, kept_by sysnow ops sv c i -> position_ok (item_position i) /\ cs_ok (item_position i).

(** An input that the store can hold, a token that the codec issued. *)
Definition fits (req : operation) : Prop :=
  match req with
  | CreateItem input | CreateKeyed input _ => holds_input input
  | FollowItems request => 0 < following_limit request <= MaxPageSize -> exists after, request_after ops codec (cr_cursor request) after
  | _ => True
  end.

Lemma serving_pinned n s : serving (Datatypes.S n) s -> st_inv (StoreSpec := pinned (rs_keys s) n) s.
Proof. intros []. split; [done|]. split; [done|by apply rs_room_less]. Qed.

Lemma room_one n s : rs_room (Datatypes.S n) s -> rs_room 1 s.
Proof. induction n as [|n IH]; [done|]. intros Hr. by apply IH, rs_room_less. Qed.

(** The state after an operation that only read. *)
Lemma serving_same n s s' :
  serving (Datatypes.S n) s -> st_inv (StoreSpec := pinned (rs_keys s) n) s' -> st_view s' = st_view s ->
  serving n s' /\ abs s' = abs s.
Proof.
  intros [Hi Hs Hl Hr] (Hi' & Hk & Hr') V. rewrite Hk, V. split; [|done]. split; rewrite ?V, ?Hk; done.
Qed.

Lemma linked_insert m i K :
  linked m -> ID i <> uuid_nil ->
  K = c_records m \/ (exists k d, K = <[k := (d, ID i)]> (c_records m)) ->
  linked (mkCollection (<[ID i := i]> (c_items m)) K).
Proof.
  intros Hl Hid HK. assert (map_Forall (fun _ p => snd p <> uuid_nil /\ is_Some (<[ID i := i]> (c_items m) !! snd p)) (c_records m)) as H0.
  { intros k p Hp. destruct (Hl k p Hp) as [Hn Hsome]. split; [done|]. by apply lookup_insert_is_Some'; right. }
  unfold linked. cbn [c_records c_items]. destruct HK as [-> | (k & d & ->)]; [done|].
  apply map_Forall_insert_2; [|done]. cbn [snd]. split; [done|]. by rewrite lookup_insert_eq.
Qed.

(** The state after an operation that added an item. *)
Lemma serving_insert n s s' i c :
  serving (Datatypes.S n) s -> st_inv s' -> rs_room n s' -> st_view s' = <[ID i := i]> (st_view s) ->
  uuid_v4 (ID i) -> kept_by sysnow ops sv c i ->
  (forall i, kept_by sysnow ops sv c i -> position_ok (item_position i) /\ cs_ok (item_position i)) ->
  rs_keys s' = rs_keys s \/ (exists k d, rs_keys s' = <[k := (d, ID i)]> (rs_keys s)) -> serving n s'.
Proof.
  intros [Hi Hs Hl Hr] Hi' Hr' V Hid Hb Hp HK. split; [done| | |done].
  - rewrite V. apply map_Forall_insert_2; [by apply Hp|done].
  - rewrite V. apply (linked_insert (abs s)); [done|apply Hid|exact HK].
Qed.


(** *** One operation *)

Abbreviation decodes := (cs_decodes_to (codec := codec)).
Abbreviation serves n ctx req w :=
  (exists rep w', serve_one sv ctx req w = (Ok rep, w') /\ serving n (w_store w')
    /\ collection_step decodes (abs (w_store w)) ctx req rep (abs (w_store w'))).

Lemma create_step n ctx input (w : world S) :
  live ctx -> serving (Datatypes.S n) (w_store w) -> holds_input input -> serves n ctx (CreateItem input) w.
Proof.
  intros Hl Hg Hf. pose proof (serving_pinned _ _ Hg) as Hp. cbn [serve_one]. unfold bind, attempt, ret.
  destruct (Create_cases sysnow ops (StoreSpec0 := pinned (rs_keys (w_store w)) n) sv ctx input w Hstore Hl Hp Hsys Hclock
    (fun c E => proj1 (Hf c E)))
    as [(i & w' & c & -> & Hv & Hb & (Hi' & Hk & Hr) & Hn & V & Hkept)|(e & w' & -> & Hi' & V & He)];
    (eexists _, w'; split; [done|]).
  - cbn [st_view pinned] in V, Hn. split.
    + eapply serving_insert; [exact Hg|done|done|exact V|apply Hb|exact Hkept|apply (Hf c Hv)|by left].
    + rewrite Hk, V. by econstructor.
  - destruct (serving_same _ _ _ Hg Hi' V) as [Hg' ->]. split; [done|]. destruct He as [He|[Hok He]]; by constructor.
Qed.

Lemma get_step n ctx id (w : world S) :
  live ctx -> serving (Datatypes.S n) (w_store w) -> serves n ctx (GetItem id) w.
Proof.
  intros Hl Hg. pose proof (serving_pinned _ _ Hg) as Hp. cbn [serve_one]. unfold bind, attempt, ret.
  destruct (decide (id = uuid_nil)) as [->|Hid].
  - unfold Get. unfold bind at 1. rewrite contextError_live by done. rewrite bool_decide_true by done.
    destruct (serving_same _ _ _ Hg Hp eq_refl) as [Hg' _]. eexists _, _. split; [done|]. split; [done|]. by constructor.
  - destruct (Get_run ops (StoreSpec0 := pinned (rs_keys (w_store w)) n) sv ctx id w Hstore Hl Hp Hid)
      as (w' & r & -> & Hi' & V & Hr). eexists _, w'. split; [done|].
    destruct (serving_same _ _ _ Hg Hi' V) as [Hg' ->]. split; [done|]. cbn [st_view pinned] in Hr.
    destruct (st_view (w_store w) !! id) eqn:E; [subst r; by constructor|].
    destruct Hr as (e & -> & He). by constructor.
Qed.

(** A page that continues after its last item carries a token of that item. *)
Lemma continues_continued (more : bool) items next :
  (if more then continues codec next items else next = []) -> continued decodes more items next.
Proof.
  unfold continued. destruct more; [|done]. intros (i & Hl & Hlen & Hd). exists i. split_and!; [done| |done].
  intros ->. simpl in Hlen. lia.
Qed.

Lemma list_step n ctx params (w : world S) :
  live ctx -> serving (Datatypes.S n) (w_store w) -> serves n ctx (ListItems params) w.
Proof.
  intros Hl Hg. pose proof (serving_pinned _ _ Hg) as Hp. cbn [serve_one]. unfold bind, attempt, ret.
  destruct (NormalizeListParams params) as [q|e] eqn:Eq.
  - destruct (List_run ops (StoreSpec0 := pinned (rs_keys (w_store w)) n) codec sv ctx params q w Hstore (or_intror Hcodec) Hl Hp
      (sg_servable _ _ Hg) Eq) as (next & w' & -> & Hi' & V & Hc).
    eexists _, w'. split; [done|]. destruct (serving_same _ _ _ Hg Hi' V) as [Hg' ->]. split; [done|].
    cbn [st_view pinned] in Hc |- *. destruct (NormalizeListParams_Ok _ _ Eq) as (Hlim & Hoff & _).
    assert ((lp_limit q <? Z.of_nat (length (drop (Z.to_nat (lp_offset q)) (newest (st_view (w_store w))))))
            = bool_decide (lp_offset q + lp_limit q < Z.of_nat (size (st_view (w_store w))))) as Em.
    { rewrite length_drop, newest_length. apply Bool.eq_iff_eq_true. rewrite Z.ltb_lt, bool_decide_eq_true. lia. }
    rewrite Em in *. rewrite Hcodec, Hafter, (bool_decide_true (is_Some (Some codec))), (bool_decide_true (is_Some (Some list_after))), !andb_true_r in Hc by done.
    apply (step_listed decodes (abs (w_store w)) ctx params q next Eq). by apply continues_continued.
  - destruct (serving_same _ _ _ Hg Hp eq_refl) as [Hg' _].
    unfold List. unfold bind at 1. rewrite contextError_live by done. unfold bind, of_result. rewrite Eq.
    eexists _, _. split; [done|]. split; [done|]. by constructor.
Qed.

Lemma follow_step n ctx request (w : world S) :
  live ctx -> serving (Datatypes.S n) (w_store w) -> fits (FollowItems request) -> serves n ctx (FollowItems request) w.
Proof.
  intros Hl Hg Hf. pose proof (serving_pinned _ _ Hg) as Hp. cbn [serve_one fits] in *. unfold bind, attempt, ret.
  destruct (decide (0 < following_limit request <= MaxPageSize)) as [Hlim|Hlim].
  - destruct (Hf Hlim) as [after Ha].
    assert (ListCursor (Some sv) (Some ctx) request
            = ListCursor (Some sv) (Some ctx) (mkCursorRequest (following_limit request) (cr_cursor request))) as ->.
    { unfold ListCursor. cbn [cr_limit cr_cursor]. rewrite (proj2 (Z.eqb_neq (following_limit request) 0)) by lia. done. }
    destruct (ListCursor_run ops (StoreSpec0 := pinned (rs_keys (w_store w)) n) codec sv ctx list_after (following_limit request)
      (cr_cursor request) after w Hstore Hcodec Hafter Hl Hp (sg_servable _ _ Hg)) as (next & w' & -> & Hi' & V & Hc); [lia|exact Ha|].
    eexists _, w'. split; [done|]. destruct (serving_same _ _ _ Hg Hi' V) as [Hg' ->]. split; [done|].
    apply (step_followed decodes (abs (w_store w)) ctx request after next Hlim).
    + destruct after; [apply Ha|done].
    + by apply continues_continued.
  - destruct (serving_same _ _ _ Hg Hp eq_refl) as [Hg' _].
    unfold ListCursor. unfold bind at 1. rewrite contextError_live by done. fold (following_limit request).
    assert ((following_limit request <? 0) || (MaxPageSize <? following_limit request) = true) as ->.
    { unfold following_limit in *. destruct (Z.eqb_spec (cr_limit request) 0); [by destruct Hlim|].
      apply orb_true_iff. rewrite !Z.ltb_lt. lia. }
    eexists _, _. split; [done|]. split; [done|]. apply step_not_followed; [exact Hlim|reflexivity].
Qed.

(** The service's part of a keyed create, over the store's. *)
Lemma keyed_new n ctx input key c i (w : world S) :
  live ctx -> serving (Datatypes.S n) (w_store w) -> holds_input input ->
  ValidateIdempotencyKey key = Ok tt -> ValidateCreateInput input = Ok c -> made_by sysnow sv c i ->
  rs_keys (w_store w) !! record_key ctx key = None ->
  exists r w', st_idem (Some ctx) i (storageIdempotencyKey (Some ctx) key) (hex_encode (request_digest c)) w = (r, w')
    /\ serving n (w_store w')
    /\ match r with
       | Ok created => ID (fst created) <> uuid_nil
       | Err e => True
       end
    /\ collection_step decodes (abs (w_store w)) ctx (CreateKeyed input key) (CreatedKeyed r) (abs (w_store w')).
Proof.
  intros Hl Hg Hf Hk Hv Hm Hnone. destruct (Hf c Hv) as [Hacc Hpos]. pose proof (Hacc i Hm) as Hs.
  destruct (built_from_keep sysnow ops sv c i Hacc Hm) as [Hb Eid].
  pose proof Hg as [Hi _ _ Hr]. pose proof Hm as [(Hid & _ & _ & Hcan) _].
  assert (st_record (w_store w) (storageIdempotencyKey (Some ctx) key) = None) as Hrec.
  { rewrite rs_record. unfold record_key in Hnone. by rewrite Hnone. }
  pose proof (storageIdempotencyKey_valid (Some ctx) key) as Hkv.
  destruct (st_view (w_store w) !! ID i) as [j|] eqn:Ej.
  - destruct (st_idem_taken ctx i (storageIdempotencyKey (Some ctx) key) (hex_encode (request_digest c)) w)
      as (e & w' & E & He & Hi' & V & _); [done|done|done|apply Hid|done|by eexists|by eapply rs_room_free|by eexists|done|].
    destruct (rs_idem_other ctx i (storageIdempotencyKey (Some ctx) key) (Sum256 (fingerprint_payload c)) w _ w' Hl Hi Hs
      (proj1 Hid) Hkv (room_one _ _ Hr) (or_introl (mk_is_Some _ _ Ej)) E) as [HK HR].
    exists (Err e), w'. split; [exact E|].
    destruct (serving_same n _ (w_store w') Hg) as [Hg' ->]; [split; [done|]; split; [done|by apply HR, rs_room_less]|exact V|].
    split; [done|]. split; [done|]. apply step_not_keyed; [by rewrite Hv|by right].
  - destruct (st_idem_fresh ctx i (storageIdempotencyKey (Some ctx) key) (hex_encode (request_digest c)) w)
      as (w' & E & Hi' & V & _ & _); [done..|apply Hid|done|by eexists|by eapply rs_room_free|done|done|].
    destruct (rs_idem_fresh ctx i (storageIdempotencyKey (Some ctx) key) (Sum256 (fingerprint_payload c)) n w _ w' Hl Hi Hcan Hs
      (proj1 Hid) Hkv Hr Ej Hrec E) as [HK HR].
    rewrite <- Eid in V, HK, Ej. exists (Ok (st_keep i, false)), w'. split; [exact E|]. split; [|split].
    + eapply (serving_insert n _ _ _ c Hg Hi' HR V); [apply Hb|by exists i|exact Hpos|]. right. eauto.
    + apply Hb.
    + rewrite HK, V. by apply (step_keyed decodes (abs (w_store w)) ctx input key c).
Qed.

Lemma keyed_known n ctx input key c i p (w : world S) :
  live ctx -> serving (Datatypes.S n) (w_store w) -> holds_input input ->
  ValidateIdempotencyKey key = Ok tt -> ValidateCreateInput input = Ok c -> made_by sysnow sv c i ->
  rs_keys (w_store w) !! record_key ctx key = Some p ->
  exists r w', st_idem (Some ctx) i (storageIdempotencyKey (Some ctx) key) (hex_encode (request_digest c)) w = (r, w')
    /\ serving n (w_store w')
    /\ match r with
       | Ok created => ID (fst created) <> uuid_nil
       | Err e => True
       end
    /\ collection_step decodes (abs (w_store w)) ctx (CreateKeyed input key) (CreatedKeyed r) (abs (w_store w')).
Proof.
  intros Hl Hg Hf Hk Hv Hm Hp. destruct (Hf c Hv) as [Hacc _]. pose proof (Hacc i Hm) as Hs.
  pose proof Hg as [Hi _ Hlk Hr]. pose proof Hm as [(Hid & _ & _ & Hcan) _]. destruct p as [digest id].
  assert (st_record (w_store w) (storageIdempotencyKey (Some ctx) key) = Some (hex_encode digest, id)) as Hrec.
  { rewrite rs_record. unfold record_key in Hp. by rewrite Hp. }
  pose proof (storageIdempotencyKey_valid (Some ctx) key) as Hkv.
  destruct (st_idem_known ctx i (storageIdempotencyKey (Some ctx) key) (hex_encode (request_digest c)) (hex_encode digest) id w Hl Hi
    (rs_room_calm _ _ Hr) (proj1 Hid) Hkv) as (r & w' & E & Hi' & V & Hc); [by eexists|exact Hrec|].
  destruct (rs_idem_other ctx i (storageIdempotencyKey (Some ctx) key) (Sum256 (fingerprint_payload c)) w _ w' Hl Hi Hs
    (proj1 Hid) Hkv (room_one _ _ Hr) (or_intror (mk_is_Some _ _ Hrec)) E) as [HK HR].
  exists r, w'. split; [exact E|].
  destruct (serving_same n _ (w_store w') Hg) as [Hg' ->]; [split; [done|]; split; [done|by apply HR, rs_room_less]|exact V|].
  split; [done|]. destruct (Hlk _ _ Hp) as [Hidn [j Hj]]. cbn [snd c_items] in Hidn, Hj. rewrite Hj in Hc.
  assert (ID j = id) as Ej by apply (st_items_ok _ Hi id j Hj).
  destruct (decide _) as [Ed|Ed]; subst r.
  - apply hex_encode_inj in Ed as <-. split; [cbn [fst]; congruence|]. subst id. by eapply step_replayed.
  - split; [done|]. eapply step_other_request; [done|done|exact Hp|]. by intros ->.
Qed.

Lemma keyed_step n ctx input key (w : world S) :
  live ctx -> serving (Datatypes.S n) (w_store w) -> holds_input input -> serves n ctx (CreateKeyed input key) w.
Proof.
  intros Hl Hg Hf. cbn [serve_one]. unfold bind at 1, attempt, ret.
  destruct (serving_same n _ _ Hg (serving_pinned _ _ Hg) eq_refl) as [Hg0 _].
  destruct (ValidateIdempotencyKey key) as [[]|e] eqn:Hk; [destruct (ValidateCreateInput input) as [c|e] eqn:Hv|].
  2,3: unfold CreateIdempotent; unfold bind at 1; rewrite contextError_live by done; unfold bind, of_result; rewrite Hk, ?Hv;
    eexists _, _; (split; [done|]); (split; [done|]); apply step_keyed_rejected; auto.
  destruct (CreateIdempotent_run sysnow ops sv ctx input key c w Hstore Hl Hsys Hclock Hk Hv)
    as [(i & w1 & E1 & Hm & ->)|(e & w1 & -> & E1 & He & _)].
  - rewrite <- E1 in *. unfold bind.
    assert (exists r w', st_idem (Some ctx) i (storageIdempotencyKey (Some ctx) key) (hex_encode (request_digest c)) w1 = (r, w')
      /\ serving n (w_store w') /\ match r with Ok created => ID (fst created) <> uuid_nil | Err e => True end
      /\ collection_step decodes (abs (w_store w1)) ctx (CreateKeyed input key) (CreatedKeyed r) (abs (w_store w')))
      as (r & w' & E & Hg' & Hn & Hstep).
    { destruct (rs_keys (w_store w1) !! record_key ctx key) as [p|] eqn:Ek; [by eapply keyed_known|by eapply keyed_new]. }
    unfold request_digest in E. rewrite E. exists (CreatedKeyed r), w'. split; [|done].
    destruct r as [created|e]; [|done]. by rewrite bool_decide_false.
  - rewrite <- E1 in Hg0 |- *. eexists _, w1. split; [done|]. split; [done|]. apply step_not_keyed; [by rewrite Hv|by left].
Qed.

(** *** Sequences of operations *)

Lemma serve_one_step n ctx req (w : world S) :
  live ctx -> serving (Datatypes.S n) (w_store w) -> fits req -> serves n ctx req w.
Proof.
  intros Hl Hg Hf. destruct req; [by apply create_step|by apply keyed_step|by apply get_step|by apply list_step|by apply follow_step].
Qed.

Lemma serve_all_refines reqs (w : world S) :
  Forall (fun p => live (fst p) /\ fits (snd p)) reqs -> serving (length reqs) (w_store w) ->
  exists reps w', serve_all sv reqs w = (Ok reps, w') /\ serving 0 (w_store w')
    /\ collection_run decodes (abs (w_store w)) reqs reps (abs (w_store w')).
Proof.
  revert w. induction reqs as [|[ctx req] reqs IH]; intros w Hreqs Hi.
  - exists [], w. split; [done|]. split; [done|]. constructor.
  - inversion_clear Hreqs as [|?? [Hl Hf] Hreqs']. cbn [fst snd] in *.
    destruct (serve_one_step (length reqs) ctx req w Hl Hi Hf) as (rep & w1 & E1 & Hi1 & Hs).
    destruct (IH w1 Hreqs' Hi1) as (reps & w2 & E2 & Hi2 & Hr).
    exists (rep :: reps), w2. cbn [serve_all]. unfold bind. rewrite E1, E2. split; [done|]. split; [done|].
    by econstructor.
Qed.
End Serve.

(** ** Validated input fits the table *)

Lemma trim_both_tight {A} (f : A -> bool) l :
  match l with x :: _ => f x = false | [] => True end ->
  match rev l with x :: _ => f x = false | [] => True end -> trim_both f l = l.
Proof. intros Hh Ht. unfold trim_both. rewrite (drop_while_fixed f l Hh), drop_while_fixed by done. apply rev_involutive. Qed.

Lemma btrim_trimmed s : TrimSpace s = s -> btrim s = s.
Proof.
  intros Ht. assert (trim_both space_rune (runes s) = runes s) as Hr by (by rewrite <- runes_TrimSpace, Ht).
  apply trim_both_tight.
  - destruct s as [|b s]; [done|]. apply bool_decide_eq_false. intros ->.
    pose proof (trim_both_head space_rune (runes (zb 32 :: s))) as Hh. rewrite Hr in Hh.
    rewrite runes_cons_ascii in Hh by done. done.
  - destruct (rev s) as [|b r] eqn:E; [done|]. apply bool_decide_eq_false. intros ->.
    assert (s = rev r ++ [zb 32]) as -> by (rewrite <- (rev_involutive s), E; done).
    rewrite runes_snoc_ascii in Hr by done. rewrite trim_both_snoc in Hr by done.
    apply (f_equal length) in Hr. rewrite length_app in Hr. cbn in Hr.
    destruct (trim_both_sub space_rune (runes (rev r))) as (j & k & Ej). rewrite Ej, length_take, length_drop in Hr. lia.
Qed.

Lemma canonical_allowed c :
  canonical_input c -> zb 0 ∉ in_name c -> zb 0 ∉ in_description c -> row_allowed (in_name c) (in_description c) = true.
Proof.
  intros (Tn & Td & Vn & Vd & Ln & Ld) Zn Zd. unfold row_allowed, pg_text.
  rewrite Vn, Vd, (btrim_trimmed _ Tn), !bool_decide_false by done.
  unfold MinNameLength, MaxNameLength, MaxDescriptionLength in *. cbn [negb andb].
  by rewrite !(proj2 (Z.leb_le _ _)) by lia.
Qed.

(** ** Properties *)

(** Every input that the service validates meets the constraints of the table,
    provided its texts hold no zero byte: PostgreSQL stores exactly the validated
    names and descriptions without one. *)
Theorem Validated_input_storable input c :
  ValidateCreateInput input = Ok c ->
  (row_allowed (in_name c) (in_description c) = true <-> zb 0 ∉ in_name c /\ zb 0 ∉ in_description c).
Proof.
  intros [_ Hc]%ValidateCreateInput_Ok. split; [|intros []; by apply canonical_allowed].
  unfold row_allowed, pg_text. intros Hr. bool_simpl. done.
Qed.

(** A concrete input. *)
Lemma Validated_input_storable_witness :
  row_allowed &"green tea" &"loose" = true <-> zb 0 ∉ &"green tea" /\ zb 0 ∉ &"loose".
Proof. apply (Validated_input_storable (mkCreateInput &" green tea " &"loose") (mkCreateInput &"green tea" &"loose")). vm_compute. reflexivity. Defined.

(** The requests that PostgreSQL can hold: no zero byte in the texts. *)
Definition zero_free (req : operation) : Prop :=
  match req with
  | CreateItem input | CreateKeyed input _ => zb 0 ∉ TrimSpace (in_name input) /\ zb 0 ∉ TrimSpace (in_description input)
  | _ => True
  end.

(** A clock whose readings the table can hold. *)
Definition clock_pg (clock : nat -> time) : Prop := forall tick, pg_time (clock tick) = true.

Section Stores.
Context {H : Hash256} (sysnow : nat -> time) (Hsys : clock_wf sysnow).

(** A request that follows a token follows one of the codec, to a place that the store
    can seek. *)
Definition known_token {S} (codec : CodecOps S) `{!CodecSpec codec} (seekable : CursorPosition -> Prop) (req : operation) : Prop :=
  match req with
  | FollowItems request =>
    cr_cursor request = []
    \/ exists p, 0 < Z.of_nat (length (cr_cursor request)) <= MaxCursorBytes
         /\ cs_decodes_to (cr_cursor request) p /\ position_ok p /\ seekable p
  | _ => True
  end.

Lemma known_token_after {S} (ops : StoreOps S) `{!StoreSpec ops} (codec : CodecOps S) `{!CodecSpec codec} request :
  known_token codec st_seekable (FollowItems request) -> exists after, request_after ops codec (cr_cursor request) after.
Proof. intros [Hnil|(p & Hp)]; [by exists None|by exists (Some p)]. Qed.

(** The codec can encode the items that a service makes, as the store keeps them. *)
Definition encodable {S} (codec : CodecOps S) `{!CodecSpec codec} (keep : Item -> Item) (sv : Service (S := S)) : Prop :=
  forall c i, made_by sysnow sv c i -> position_ok (item_position (keep i)) /\ cs_ok (item_position (keep i)).

Lemma zero_free_accepted {S} (db : Database S) `{!SqlDatabase db} rollbackContext sv input c :
  clock_pg sysnow -> clock_pg (sv_clock sv) ->
  zb 0 ∉ TrimSpace (in_name input) /\ zb 0 ∉ TrimSpace (in_description input) -> ValidateCreateInput input = Ok c ->
  accepted sysnow (postgres_ops rollbackContext (Some db)) (StoreSpec0 := postgres_store_spec db rollbackContext) sv c.
Proof.
  intros Hs Hc [Hz1 Hz2] Hv i [(Hid & Hn & Hd & Hcan) (tick & Ht)].
  split; [done|]. unfold insertable. rewrite Hn, Hd.
  pose proof Hv as [Ec Hci]%ValidateCreateInput_Ok.
  rewrite canonical_allowed; [|done|by rewrite Ec..]. cbn [andb].
  destruct Ht as [-> | ->]; [apply (Hc tick)|apply (Hs tick)].
Qed.

(** The collection that the tables hold. *)
Definition pg_collection {S} (db : Database S) `{!SqlDatabase db} (s : S) : collection :=
  mkCollection (tb_items (sq_committed s)) (pg_keys db s).

(** C6: The service over PostgreSQL refines the abstract collection. Any sequence of
    creates, keyed creates, reads, offset pages and pages that follow a token, with live
    contexts, within the retention of a record and with no other session at work, is
    answered; each reply is one that the collection allows; and the tables afterwards are
    the collection afterwards. The creates have names and descriptions without a zero
    byte, which PostgreSQL's text cannot hold, and a page follows no token or one that the
    codec issued, still valid, for a position of whole microseconds, as stored items
    have. *)
Theorem Postgres_refines_collection {S} (db : Database S) `{!SqlDatabase db} rollbackContext sv
    (codec : CodecOps S) `{!CodecSpec codec} reqs (w : world S) :
  sv_store sv = Some (postgres_ops rollbackContext (Some db)) -> sv_cursorCodec sv = Some codec ->
  clock_wf (sv_clock sv) -> clock_pg sysnow -> clock_pg (sv_clock sv) -> encodable codec stored_item sv ->
  (forall t t', sq_server t' < sq_server t + retention_micros) -> sq_unlocked ->
  Forall (fun p => live (fst p) /\ zero_free (snd p)
    /\ known_token codec (fun p => whole_micros (cp_created_at p)) (snd p)) reqs ->
  pg_inv db (w_store w) -> servable codec (tb_items (sq_committed (w_store w))) -> linked (pg_collection db (w_store w)) ->
  exists reps w', serve_all sysnow sv reqs w = (Ok reps, w') /\ pg_inv db (w_store w')
    /\ collection_run cs_decodes_to (pg_collection db (w_store w)) reqs reps (pg_collection db (w_store w')).
Proof.
  intros Hst Hco Hcl Hps Hpc Henc Hwin Hun Hreqs Hi Hsv Hlk.
  pose (store_spec := postgres_store_spec db rollbackContext).
  pose (idem_spec := postgres_idempotent_spec db rollbackContext Hwin).
  destruct (serve_all_refines sysnow (postgres_ops rollbackContext (Some db)) (StoreSpec0 := store_spec)
    (IdempotentSpec0 := idem_spec) (RecordsSpec0 := postgres_records_spec db rollbackContext Hwin) sv codec _ Hst Hco eq_refl Hsys Hcl reqs w)
    as (reps & w' & E & [Hi' _ _ _] & Hr); [|by split|by exists reps, w'].
  eapply Forall_impl; [exact Hreqs|]. intros [ctx req] (Hl & Hz & Ht). split; [done|]. cbn [snd] in *.
  assert (forall input, zb 0 ∉ TrimSpace (in_name input) /\ zb 0 ∉ TrimSpace (in_description input) ->
    holds_input sysnow (postgres_ops rollbackContext (Some db)) (StoreSpec0 := store_spec) sv codec input) as Hin.
  { intros input Hzf c Hv. split; [by eapply zero_free_accepted|]. intros i (j & Hj & ->). by eapply Henc. }
  destruct req; [by apply Hin|by apply Hin|done|done|]. intros _. by apply (known_token_after _ (StoreSpec0 := store_spec)).
Qed.

(** The collection that the memory store holds. *)
Definition memory_collection (s : option MemoryStore) : collection := mkCollection (state_view s) (memory_keys s).

(** C39: The service over the memory store refines the same abstract collection, while
    the records of the new keys fit. A page follows no token or one that the codec issued,
    still valid. *)
Theorem Memory_refines_collection range_items clock sv (codec : CodecOps (option MemoryStore)) `{!CodecSpec codec} reqs st k :
  (forall tick m, range_items tick m ≡ₚ (map_to_list m).*2) ->
  (forall t, time_wf (store_clock sysnow clock t) /\ 0 <= t_sec (store_clock sysnow clock t) < 2 ^ 62
     /\ IsZero (store_clock sysnow clock t) = false) ->
  (forall t t', instant (to_utc (store_clock sysnow clock t'))
     < instant (to_utc (store_clock sysnow clock t)) + IdempotencyRecordRetention) ->
  sv_store sv = Some (memory_ops sysnow range_items) -> sv_cursorCodec sv = Some codec ->
  clock_wf (sv_clock sv) -> encodable codec (fun i => i) sv ->
  Forall (fun p => live (fst p) /\ known_token codec (fun _ => True) (snd p)) reqs ->
  memory_inv sysnow clock st -> servable codec (ms_items st) -> linked (memory_collection (Some st)) ->
  memory_room (length reqs) (Some st) ->
  exists reps k' st', serve_all sysnow sv reqs (World k (Some st)) = (Ok reps, World k' (Some st'))
    /\ memory_inv sysnow clock st'
    /\ collection_run cs_decodes_to (memory_collection (Some st)) reqs reps (memory_collection (Some st')).
Proof.
  intros Hperm Hclk Hwin Hst Hco Hcl Henc Hreqs Hi Hsv Hlk Hroom.
  pose (store_spec := memory_store_spec sysnow range_items Hperm clock).
  pose (idem_spec := memory_idempotent_spec sysnow range_items Hperm clock Hclk Hwin).
  destruct (serve_all_refines sysnow (memory_ops sysnow range_items) (StoreSpec0 := store_spec)
    (IdempotentSpec0 := idem_spec) (RecordsSpec0 := memory_records_spec sysnow range_items Hperm clock Hclk Hwin) sv codec _
    Hst Hco eq_refl Hsys Hcl reqs (World k (Some st)))
    as (reps & [k' [st'|]] & E & [Hi' _ _ _] & Hr); [|by split|by exists reps, k', st'|done].
  eapply Forall_impl; [exact Hreqs|]. intros [ctx req] (Hl & Ht). split; [done|]. cbn [snd] in *.
  assert (forall input, holds_input sysnow (memory_ops sysnow range_items) (StoreSpec0 := store_spec) sv codec input) as Hin.
  { intros input c Hv. split; [done|]. intros i (j & Hj & ->). by eapply Henc. }
  destruct req; [by apply Hin|by apply Hin|done|done|]. intros _. by apply (known_token_after _ (StoreSpec0 := store_spec)).
Qed.
End Stores.
