(* ===== verification/PostgresScenario.v ===== *)
(** * A running service over PostgreSQL

    The service over the PostgreSQL store and the reference database, with the signed
    codec: operations are evaluated, on it and on the memory store, and the refinements
    of the abstract collection are applied to them. Then two processes serve one request
    over one server. *)
From S2P Require Import Prelude GoText GoEncoding GoTime Sha256 Errors World Trace Item Idempotency Cursor CursorFacts Order Store.
From S2P Require Import GoJson GoJsonParse Memory MemoryFacts Postgres PostgresFacts Sql SqlReference PostgresSpec PostgresConcurrent Service ServiceFacts Scenario Collection GoUrl HttpApi.

#[local] Existing Instance sha256_hash.

Section PostgresScenario.
Definition ps_clock (tick : nat) : time := Time 63800000000 1500 (Some 77) (Zone 7200).
Definition ps_uuid (n : nat) : uuid :=
  array_of 16 (replicate 6 (zb 1) ++ [zb 0x4f; zb 2; zb 0x8f] ++ replicate 6 (zb 3) ++ [zb (Z.of_nat n)]).

Definition ps_ops : StoreOps sql_state := postgres_ops background (Some reference_database).
Definition ps_codec : SignedCursorCodec := mkCodec (Sum256 (replicate 32 (zb 9))) 0 (Some ps_clock) cursorPurpose.
Definition ps_codec_ops : CodecOps sql_state := signed_codec ps_clock (Some ps_codec).
Definition ps_service : Service :=
  NewService ps_clock (fun tick => Ok (ps_uuid tick)) (Some ps_ops) [Some (WithCursorCodec (Some ps_codec_ops))].
Definition ps_world : world sql_state := World 0 (mkSqlState (mkTables ∅ ∅) None).

(** The token after an item of these names. *)
Definition ps_token (n : nat) : bytes :=
  issued_token ps_codec (mkPosition (to_micros (to_utc (ps_clock 0))) (ps_uuid n)) (now_at ps_clock ps_codec 0).

Definition ps_requests : list (context * operation) :=
  [(background, CreateItem (mkCreateInput &" green tea " &"loose"));
   (background, CreateItem (mkCreateInput &"   " &"nothing"));
   (background, CreateKeyed (mkCreateInput &"black tea" &"") &"k-1");
   (background, CreateKeyed (mkCreateInput &" black tea" &"") &"k-1");
   (background, CreateKeyed (mkCreateInput &"white tea" &"") &"k-1");
   (background, ListItems (mkListParams 1 0));
   (background, FollowItems (mkCursorRequest 0 (ps_token 6)))].

Lemma ps_world_inv : pg_inv reference_database (w_store ps_world).
Proof. split; [by split| | |]; by apply map_Forall_empty. Qed.

Lemma ps_sane : clock_sane ps_clock ps_codec.
Proof. intros t. by repeat split. Qed.
Lemma ps_ttl : ttl_ok ps_codec.
Proof. done. Qed.
#[export] Instance ps_codec_spec : CodecSpec ps_codec_ops :=
  signed_codec_spec ps_clock ps_codec ps_sane ps_ttl (fun t t' => or_introl eq_refl).
End PostgresScenario.

(** ** Evaluation *)

Definition ps_created (n : nat) (name description : bytes) : Item := mkItem (ps_uuid n) name description (to_micros (ps_clock 0)).

Example ps_replies :
  fst (serve_all ps_clock ps_service ps_requests ps_world)
  = Ok [Created (Ok (ps_created 1 &"green tea" &"loose")); Created (Err (ValidationError &"name" &"is required"));
        CreatedKeyed (Ok (ps_created 6 &"black tea" &"", false)); CreatedKeyed (Ok (ps_created 6 &"black tea" &"", true));
        CreatedKeyed (Err (Sentinel ErrIdempotencyConflict));
        Listed (Ok (mkPage [ps_created 6 &"black tea" &""] 1 0 true (ps_token 6)));
        Followed (Ok (mkCursorPage [ps_created 1 &"green tea" &"loose"] 20 false []))].
Proof. vm_compute. reflexivity. Qed.

(** A keyed create is replayed on PostgreSQL as well. *)
Definition ps_after_first : world sql_state :=
  snd (Service.CreateIdempotent ps_clock (Some ps_service) (Some background) (mkCreateInput &" green tea " &"loose") &"k-1" ps_world).
Example ps_retry :
  match Service.CreateIdempotent ps_clock (Some ps_service) (Some background) (mkCreateInput &"green tea" &"loose") &"k-1" ps_after_first with
  | (Ok (i, replayed), _) => replayed && bool_decide (Name i = &"green tea")
  | _ => false
  end = true.
Proof. vm_compute. reflexivity. Qed.

(** ** Witnesses *)

Lemma ps_uuid_not_nil k : ps_uuid k <> uuid_nil.
Proof. intros E. apply (f_equal (fun u => nth 0 (arr_bytes u) (zb 0))) in E. discriminate. Qed.

Lemma ps_position_ok id : id <> uuid_nil -> position_ok (mkPosition (to_micros (to_utc (ps_clock 0))) id).
Proof. intros Hid. split; [by repeat split|]. apply Validate_Ok; [by repeat split|]. by split. Qed.

Lemma ps_encodable : encodable ps_clock ps_codec_ops stored_item ps_service.
Proof.
  intros c [id n d t] [([Hid _] & _) (tick & Ht)]. cbn [ID CreatedAt] in *.
  assert (t = to_utc (ps_clock 0)) as -> by by destruct Ht. split; [by apply ps_position_ok|by left].
Qed.

Lemma ps_tokens : Forall (fun p => live (fst p) /\ zero_free (snd p)
  /\ known_token ps_codec_ops (fun p => whole_micros (cp_created_at p)) (snd p)) ps_requests.
Proof.
  assert (forall s, forallb (fun b => negb (bool_decide (b = zb 0))) s = true -> zb 0 ∉ s) as Hz.
  { intros s Hs Hin. rewrite forallb_forall in Hs. by apply list_elem_of_In, Hs in Hin. }
  repeat (apply Forall_cons; split; [split; [exact live_background|]; split; [first [exact I|split; apply Hz; vm_compute; reflexivity]|try exact I]|]);
    [|apply Forall_nil; exact I].
  right. exists (mkPosition (to_micros (to_utc (ps_clock 0))) (ps_uuid 6)).
  cbn [snd cr_cursor]. unfold ps_token. rewrite issued_token_length.
  split; [done|]. split; [|split; [apply ps_position_ok, ps_uuid_not_nil|done]].
  split; [apply ps_position_ok, ps_uuid_not_nil|]. by exists 0%nat.
Qed.

Lemma linked_nothing m : linked (mkCollection m ∅).
Proof. intros k p Hk. cbn [c_records] in Hk. by rewrite lookup_empty in Hk. Qed.

Lemma Postgres_refines_collection_witness :
  exists reps w', serve_all ps_clock ps_service ps_requests ps_world = (Ok reps, w')
    /\ collection_run (cs_decodes_to (codec := ps_codec_ops)) (mkCollection ∅ ∅) ps_requests reps
         (pg_collection reference_database (w_store w')).
Proof.
  assert (clock_wf ps_clock) as Hc by by repeat split.
  assert (clock_pg ps_clock) as Hp by done.
  destruct (Postgres_refines_collection ps_clock Hc reference_database background ps_service ps_codec_ops ps_requests ps_world)
    as (reps & w' & E & _ & Hr).
  - reflexivity.
  - reflexivity.
  - exact Hc.
  - exact Hp.
  - exact Hp.
  - exact ps_encodable.
  - intros t t'. vm_compute. reflexivity.
  - exact I.
  - exact ps_tokens.
  - exact ps_world_inv.
  - apply map_Forall_empty.
  - exact (linked_nothing _).
  - exists reps, w'. split; [exact E|exact Hr].
Defined.

(** The same operations but the last one over the memory store. *)
Definition ms_requests : list (context * operation) := take 6 ps_requests.

Lemma Memory_refines_collection_witness :
  exists reps k' st', serve_all sc_clock sc_service ms_requests (sc_world 3) = (Ok reps, World k' (Some st'))
    /\ collection_run (cs_decodes_to (codec := sc_codec_ops)) (mkCollection (sc_items 3) ∅) ms_requests reps
         (memory_collection (Some st')).
Proof.
  assert (clock_wf sc_clock) as Hc by by repeat split.
  destruct (Memory_refines_collection sc_clock Hc sc_range None sc_service sc_codec_ops ms_requests (set_items New (sc_items 3)) 200)
    as (reps & k' & st' & E & _ & Hr).
  - exact sc_range_perm.
  - exact sc_clock_ok.
  - exact sc_window.
  - reflexivity.
  - reflexivity.
  - exact Hc.
  - intros c [id n d t] [([Hid _] & _) (tick & Ht)]. cbn [ID CreatedAt] in *.
    assert (t = to_utc (sc_clock 0)) as -> by by destruct Ht. split; [|by left].
    split; [by repeat split|]. apply Validate_Ok; [by repeat split|]. by split.
  - repeat (apply Forall_cons; split; [split; [exact live_background|exact I]|]). apply Forall_nil. exact I.
  - exact (sc_world_inv 3).
  - exact (sc_servable 3).
  - exact (linked_nothing _).
  - split; [reflexivity|]. vm_compute. discriminate.
  - exists reps, k', st'. split; [exact E|exact Hr].
Defined.

(** ** Texts that PostgreSQL cannot hold *)

(** A name with a zero byte passes the validation of the service, and PostgreSQL
    refuses it: the error is not a validation error, and the client is answered 500
    for an input that it could correct. *)
Theorem Zero_byte_is_500 {S} (db : Database S) `{!SqlDatabase db} input c i ctx (w : world S) :
  ValidateCreateInput input = Ok c -> zb 0 ∈ in_name c -> built_from c i ->
  live ctx -> pg_inv db (w_store w) ->
  exists e w', Postgres.Create (Some db) (Some ctx) i w = (Err e, w') /\ writeServiceError e = internal_error.
Proof.
  intros Hv Hz (_ & Hn & _ & Hc) Hl Hi. unfold Postgres.Create, with_db. unfold bind at 1.
  rewrite contextError_live by done. set (w1 := World _ _).
  destruct (law_insert _ _ _ _ sq_pool_items ctx i w1 Hl (pi_idle _ _ Hi) Hc) as (r & w' & E & Hr).
  assert (insertable i = false) as Hins.
  { unfold insertable, row_allowed, pg_text. rewrite Hn, (bool_decide_true (zb 0 ∈ _)) by done. cbn. by rewrite !andb_false_r. }
  rewrite Hins in Hr. destruct Hr as ((e & -> & Hcode & He) & _). eexists _, w'.
  unfold wrapping, createWithQuerier. m_unfold. rewrite E. split; [done|].
  unfold translateError. rewrite He. unfold unique_violation in Hcode. rewrite Hcode.
  unfold writeServiceError. cbn [Is]. by rewrite !He.
Qed.

(** A concrete input. *)
Lemma Zero_byte_is_500_witness :
  exists e w', Postgres.Create (Some reference_database) (Some background)
      (mkItem (ps_uuid 1) (&"a" ++ [zb 0] ++ &"b") [] (to_utc (ps_clock 0))) ps_world = (Err e, w')
    /\ writeServiceError e = internal_error.
Proof.
  apply (Zero_byte_is_500 reference_database (mkCreateInput (&"a" ++ [zb 0] ++ &"b") [])
    (mkCreateInput (&"a" ++ [zb 0] ++ &"b") [])).
  - vm_compute. reflexivity.
  - right. left.
  - split; [|by repeat split]. split; [|by repeat split].
    intros E. apply (f_equal (fun u => nth 0 (arr_bytes u) (zb 0))) in E. discriminate.
  - exact live_background.
  - exact ps_world_inv.
Defined.

(** ** Two processes over one server *)

(** A driver that finds this record, and an item for every other question. *)
Definition tea : Item := mkItem (ps_uuid 7) &"tea" &"" (Time 63800000000 1000 None UTC).
Definition tea_input : CreateInput := mkCreateInput &"tea" &"".
Definition tea_hash : array 32 := Sum256 (storageIdempotencyKey (Some background) &"k-1").
Definition tea_key : bytes := arr_bytes tea_hash.
Definition tea_request : bytes := arr_bytes (Sum256 (fingerprint_payload tea_input)).
Definition tea_driver (record : result (bytes * uuid)) (_ : list db_event) (c : db_call) : db_answer c :=
  match c with
  | OnPool _ _ d | InTx _ _ d =>
    match d with ItemRow => Ok tea | LockRow => Ok true | KeyRow => record end
  | PoolRows _ _ | TxRows _ _ => Ok ([], None)
  | Begin | Exec _ _ | Commit | Rollback => Ok tt
  end.

(** Session 1 begins while session 0 creates, and replays its item; session 2 loses its
    connection. *)
Definition tea_history : list (nat * option db_event) :=
  let stored : scanned KeyRow := (tea_request, ID tea) in
  [(0, Some (Event Begin (Ok tt))); (1, Some (Event Begin (Ok tt))); (2, Some (Event Begin (Ok tt)));
   (0, Some (Event (InTx idempotencyLockQuery [VInt (advisoryLockID tea_hash)] LockRow) (Ok true)));
   (0, Some (Event (Exec idempotencyCleanupQuery []) (Ok tt)));
   (0, Some (Event (InTx idempotencyLookupQuery [VBytes tea_key] KeyRow) (Err (Sentinel ErrNoRows))));
   (0, Some (Event (InTx createQuery (insert_args tea) ItemRow) (Ok tea)));
   (0, Some (Event (Exec idempotencyInsertQuery [VBytes tea_key; VBytes tea_request; VUuid (ID tea); VInt 86400]) (Ok tt)));
   (2, None);
   (0, Some (Event Commit (Ok tt)));
   (1, Some (Event (InTx idempotencyLockQuery [VInt (advisoryLockID tea_hash)] LockRow) (Ok true)));
   (0, Some (Event Rollback (Ok tt)));
   (1, Some (Event (Exec idempotencyCleanupQuery []) (Ok tt)));
   (1, Some (Event (InTx idempotencyLookupQuery [VBytes tea_key] KeyRow) (Ok stored)));
   (1, Some (Event (InTx getQuery [VUuid (ID tea)] ItemRow) (Ok tea)));
   (1, Some (Event Commit (Ok tt))); (1, Some (Event Rollback (Ok tt)))]%nat.

(** A process whose identifiers are this one, and the request that both serve. *)
Definition tea_service (record : result (bytes * uuid)) (id : uuid) : Service :=
  NewService (fun _ => CreatedAt tea) (fun _ => Ok id) (Some (postgres_ops background (Some (traced_db (tea_driver record))))) [].
Definition tea_post : HttpApi.request :=
  let raw := json_object2 &"name" &" tea " &"description" &"" in
  mkRequest (Some background) [(&"Idempotency-Key", [&"k-1"])] (Some (&"/v1/items", [])) [] (Some raw) (Z.of_nat (length raw)).

Lemma tea_answered_0 :
  answered background defaultMaxBodyBytes tea_history 0 tea_post (created_response tea_post (Some &"k-1") tea false).
Proof.
  exists (tea_driver (Err (Sentinel ErrNoRows))), (fun _ => CreatedAt tea), (tea_service (Err (Sentinel ErrNoRows)) (ID tea)), (World 0 []).
  split; [done|]. split; [done|]. split; vm_compute; reflexivity.
Qed.

Lemma tea_answered_1 :
  answered background defaultMaxBodyBytes tea_history 1 tea_post (created_response tea_post (Some &"k-1") tea true).
Proof.
  exists (tea_driver (Ok (tea_request, ID tea))), (fun _ => CreatedAt tea), (tea_service (Ok (tea_request, ID tea)) (ps_uuid 8)), (World 0 []).
  split; [done|]. split; [done|]. split; vm_compute; reflexivity.
Qed.

Lemma tea_asks : asks defaultMaxBodyBytes tea_post tea_input.
Proof. exists (mkCreateRequest &" tea " &""). split; vm_compute; reflexivity. Qed.

Lemma tea_history_runs : exists s, history no_sessions tea_history s.
Proof.
  eexists. unfold no_sessions, tea_history.
  do 3 (eapply shared_run; [apply ef_begin|]).
  eapply shared_run; [eapply ef_lock; open_lookup|].
  eapply shared_run; [eapply (ef_cleanup _ _ _ _ _ ∅); [open_lookup|by intros k ?%not_elem_of_empty]|].
  eapply shared_run; [eapply ef_no_key; [open_lookup|reflexivity|reflexivity]|].
  eapply shared_run; [eapply ef_insert; [open_lookup|split; [reflexivity|]|reflexivity|reflexivity]|].
  { repeat apply with_open_all; intros; by simplify_eq. }
  eapply shared_run; [eapply (ef_insert_key _ _ _ _ _ _ _ _ 0 0); [open_lookup|reflexivity| |by eexists|reflexivity|reflexivity]|].
  { repeat apply with_open_all; intros; by simplify_eq. }
  eapply shared_run; [apply ef_lost|]. eapply shared_run; [eapply ef_commit; open_lookup|].
  eapply shared_run; [eapply ef_lock; open_lookup|]. eapply shared_run; [apply ef_rollback|].
  eapply shared_run; [eapply (ef_cleanup _ _ _ _ _ ∅); [open_lookup|by intros k ?%not_elem_of_empty]|].
  eapply shared_run; [eapply (ef_lookup _ _ _ _ _ _ (mkKeyRow tea_request (ID tea) _ _)); [open_lookup|vm_compute; reflexivity]|].
  eapply shared_run; [eapply ef_get; [open_lookup|vm_compute; reflexivity|reflexivity]|].
  eapply shared_run; [eapply ef_commit; open_lookup|].
  eapply shared_run; [apply ef_rollback|]. constructor.
Qed.

Example Replicas_agree_witness :
  exists s : shared_tables, tb_items (fst s) !! ID tea = Some tea /\ Name tea = &"tea".
Proof.
  destruct tea_history_runs as [s Hs]. exists s.
  destruct (@Replicas_agree _ _ shared_server shared_window no_sessions no_sessions_ok background defaultMaxBodyBytes tea_history s 0 1 tea_post tea_post _ _
    &"k-1" tea tea tea_input tea_input Hs tea_answered_0 tea_answered_1) as (_ & Hit & _ & Hn & _);
    try first [exact tea_asks|vm_compute; reflexivity].
  split; [exact Hit|]. by apply Hn.
Defined.
