(* ===== verification/Exchange.v ===== *)
(** * HTTP exchanges

    What a middleware sees: the request, the response so far, and the state that the
    requests of a process share. A handler runs in [M engine], where a failure is a
    panic; a middleware is a function of what [c.Next()] runs, and one that does not
    run it has aborted the chain. *)
From S2P Require Import Prelude GoText GoTime GoJsonParse Errors World HttpApi Responses RateLimit Metrics.

(** ** Requests and responses *)

(** [c.Request]: the parts the item handlers read, and the others. *)
Record http_request := mkHttpRequest {
  hr_method : bytes;
  hr_remote_addr : bytes;
  hr_request : HttpApi.request;
}.

Inductive payload :=
  | ApiBody (b : HttpApi.body)
  | HealthBody (status : bytes)
  | MetricsBody
  | NotFoundBody.

(** The bytes of a payload that is a document of the application, when it has a text; the
    metrics page and Gin's default body are not. *)
Definition payload_bytes (p : payload) : option bytes :=
  match p with
  | ApiBody b => body_bytes b
  | HealthBody status => Some (json_render (JObject [(&"status", JString status)]))
  | MetricsBody | NotFoundBody => None
  end.

(** [gin.Context]: [x_request_id] is the value kept under [requestIDKey]; the body is
    [None] as long as nothing is written. *)
Record exchange := mkExchange {
  x_request : option http_request;
  x_full_path : bytes;
  x_request_id : option bytes;
  x_status : Z;
  x_headers : list (bytes * bytes);
  x_body : option payload;
}.

Definition set_request (r : option http_request) (x : exchange) : exchange :=
  mkExchange r (x_full_path x) (x_request_id x) (x_status x) (x_headers x) (x_body x).
Definition set_request_id (id : bytes) (x : exchange) : exchange :=
  mkExchange (x_request x) (x_full_path x) (Some id) (x_status x) (x_headers x) (x_body x).
Definition set_headers (hs : list (bytes * bytes)) (x : exchange) : exchange :=
  mkExchange (x_request x) (x_full_path x) (x_request_id x) (x_status x) hs (x_body x).
Definition set_response (status : Z) (body : option payload) (x : exchange) : exchange :=
  mkExchange (x_request x) (x_full_path x) (x_request_id x) status (x_headers x) body.

(** [c.Request.WithContext(ctx)]. *)
Definition with_context (ctx : option context) (r : http_request) : http_request :=
  let q := hr_request r in
  mkHttpRequest (hr_method r) (hr_remote_addr r)
    (mkRequest ctx (rq_headers q) (rq_url q) (rq_param_id q) (rq_body q) (rq_content_length q)).

(** [c.Header(key, value)]: it replaces the values of the key, and an empty value deletes
    them. *)
Definition put_header (key value : bytes) (hs : list (bytes * bytes)) : list (bytes * bytes) :=
  let others := List.filter (fun h => negb (bool_decide (fst h = key))) hs in
  if bool_decide (value = []) then others else others ++ [(key, value)].

(** The value of a response header. *)
Definition header_value (key : bytes) (hs : list (bytes * bytes)) : option bytes :=
  snd <$> List.find (fun h => bool_decide (fst h = key)) hs.

(** [c.Request.Header.Values(key)] for a canonical key. *)
Definition header_values (key : bytes) (hs : list (bytes * list bytes)) : list bytes :=
  match List.find (fun h => bool_decide (fst h = key)) hs with Some (_, vs) => vs | None => [] end.

(** ** The shared state *)

Inductive level := InfoLevel | WarnLevel | ErrorLevel.

(** One access log entry; the span is there when its context is valid. *)
Record access_event := mkAccess {
  ae_level : level;
  ae_request_id : bytes;
  ae_method : bytes;
  ae_route : bytes;
  ae_status : Z;
  ae_bytes : Z;
  ae_duration : Z;
  ae_span : option (bytes * bytes);
}.

(** What is done to the span of a request. *)
Inductive span_event :=
  | SpanStart (name method : bytes)
  | SpanName (name : bytes)
  | SpanAttributes (route : bytes) (status : Z) (request_id : bytes)
  | SpanError
  | SpanEnd.

(** [en_items] is the state behind the item service; a nil limiter is [None]. *)
Record engine (S : Type) := mkEngine {
  en_items : S;
  en_limiter : option Limiter;
  en_metrics : list metric_event;
  en_log : list access_event;
  en_spans : list span_event;
  en_exchange : exchange;
}.
Arguments mkEngine {S} _ _ _ _ _ _.
Arguments en_items {S} _.
Arguments en_limiter {S} _.
Arguments en_metrics {S} _.
Arguments en_log {S} _.
Arguments en_spans {S} _.
Arguments en_exchange {S} _.

Section Engine.
Context {S : Type}.
Implicit Types e : engine S.

Definition set_items (i : S) e := mkEngine i (en_limiter e) (en_metrics e) (en_log e) (en_spans e) (en_exchange e).
Definition set_limiter l e := mkEngine (en_items e) l (en_metrics e) (en_log e) (en_spans e) (en_exchange e).
Definition set_metrics m e := mkEngine (en_items e) (en_limiter e) m (en_log e) (en_spans e) (en_exchange e).
Definition set_log l e := mkEngine (en_items e) (en_limiter e) (en_metrics e) l (en_spans e) (en_exchange e).
Definition set_spans s e := mkEngine (en_items e) (en_limiter e) (en_metrics e) (en_log e) s (en_exchange e).
Definition set_exchange x e := mkEngine (en_items e) (en_limiter e) (en_metrics e) (en_log e) (en_spans e) x.

Definition on_items {A} : M S A -> M (engine S) A := zoom en_items set_items.
Definition on_limiter {A} : M (option Limiter) A -> M (engine S) A := zoom en_limiter set_limiter.
Definition on_metrics {A} : M (list metric_event) A -> M (engine S) A := zoom en_metrics set_metrics.

(** A component with a state of its own, which no other code sees. *)
Definition on_outside {A} : M unit A -> M (engine S) A := zoom (fun _ => tt) (fun _ e => e).

Definition get_x : M (engine S) exchange := e <-- load;; ret (en_exchange e).
Definition change_x (f : exchange -> exchange) : M (engine S) unit := e <-- load;; save (set_exchange (f (en_exchange e)) e).
Definition append_log (a : access_event) : M (engine S) unit := e <-- load;; save (set_log (en_log e ++ [a]) e).
Definition append_span (a : span_event) : M (engine S) unit := e <-- load;; save (set_spans (en_spans e ++ [a]) e).

Definition Header (key value : bytes) : M (engine S) unit := change_x (fun x => set_headers (put_header key value (x_headers x)) x).
(** [c.JSON], and [c.AbortWithStatusJSON] for a handler that returns after it. *)
Definition JSON (status : Z) (body : payload) : M (engine S) unit := change_x (set_response status (Some body)).

Definition middleware : Type := M (engine S) unit -> M (engine S) unit.
End Engine.
