(* ===== verification/Observability.v ===== *)
(** * Observability (internal/controller/http/observability.go and telemetry.go)

    The correlation identifier and the access log, the recovery from panics, and the
    metrics and tracing middlewares. *)
From S2P Require Import Prelude GoText GoTime GoUnicode Errors World Item Order HttpApi Metrics Exchange.

Definition requestIDHeader : bytes := &"X-Request-ID".
(** The key under which [net/http] keeps the request header. *)
Definition canonicalRequestID : bytes := &"X-Request-Id".
Definition maxRequestIDBytes : Z := 128.
Definition defaultRouteName : bytes := &"unmatched".
Definition InstrumentationName : bytes := &"github.com/AJackTi/go-clean-architecture/internal/controller/http".

Definition request_id_char (b : byte) : bool := is_alnum b || in_set &"!#$%&'*+-.^_`|~" b.

Definition validRequestID (value : bytes) : bool :=
  if bool_decide (value = []) || (maxRequestIDBytes <? Z.of_nat (length value)) then false
  else forallb request_id_char value.

(** ** Readers of an exchange *)

Definition matchedRoute (x : exchange) : bytes :=
  if bool_decide (x_full_path x = []) then defaultRouteName else x_full_path x.

Definition requestMethod (x : exchange) : bytes :=
  match x_request x with Some r => hr_method r | None => [] end.

Definition responseStatus (x : exchange) : Z := if x_status x <=? 0 then 200 else x_status x.

Definition requestIDFromContext (x : exchange) : bytes := default [] (x_request_id x).

Fixpoint lookup_span (vs : list ctx_value) : option (bytes * bytes) :=
  match vs with
  | [] => None
  | SpanValue valid trace span :: _ => if valid then Some (trace, span) else None
  | _ :: rest => lookup_span rest
  end.

(** The valid span context of the request, if any. *)
Definition request_span (x : exchange) : option (bytes * bytes) :=
  r ← x_request x; c ← rq_context (hr_request r); lookup_span (ctx_values c).

Definition access_level (status : Z) : level :=
  if 500 <=? status then ErrorLevel else if 400 <=? status then WarnLevel else InfoLevel.

Section Middleware.
Context {U : Unicode} {S : Type}.
(** [time.Now], [uuid.NewString], the size of the bodies that others write and whether a
    panic value is a broken connection. *)
Context (sysnow : nat -> time) (new_uuid : nat -> uuid) (body_size : payload -> Z) (broken_pipe : error -> bool).

Abbreviation M_ := (M (engine S)).

(** [c.Writer.Size()], zero before anything is written. *)
Definition response_bytes (x : exchange) : Z :=
  match x_body x with
  | Some b =>
    let size := match payload_bytes b with Some raw => Z.of_nat (length raw) | None => body_size b end in
    if size <? 0 then 0 else size
  | None => 0
  end.

Definition requestIDFor (x : exchange) : M_ bytes :=
  let fresh := id <-- observe new_uuid;; ret (uuid_string id) in
  match x_request x with
  | Some r =>
    match header_values canonicalRequestID (rq_headers (hr_request r)) with
    | [value] => if validRequestID value then ret value else fresh
    | _ => fresh
    end
  | None => fresh
  end.

Definition observabilityMiddleware : middleware (S := S) := fun next =>
  started <-- observe sysnow;;
  x <-- get_x;;
  requestID <-- requestIDFor x;;
  change_x (set_request_id requestID);;;
  Header requestIDHeader requestID;;;
  next;;;
  x <-- get_x;;
  finished <-- observe sysnow;;
  let status := responseStatus x in
  append_log (mkAccess (access_level status) requestID (requestMethod x) (matchedRoute x) status (response_bytes x)
                (Sub finished started) (request_span x)).

(** [gin.CustomRecoveryWithWriter] with the sanitized handler: a broken connection is
    not answered. *)
Definition sanitizedRecovery : middleware (S := S) := fun next =>
  outcome <-- attempt next;;
  match outcome with
  | Ok _ => ret tt
  | Err panic =>
    if broken_pipe panic then ret tt
    else JSON 500 (ApiBody (ErrorBody &"internal_error" &"internal server error"))
  end.

Definition metricsMiddleware (metricSet : option Metrics) : middleware (S := S) := fun next =>
  started <-- observe sysnow;;
  x <-- get_x;;
  let method := requestMethod x in
  done <-- on_metrics (Track metricSet method (matchedRoute x));;
  outcome <-- attempt
    (next;;;
     x <-- get_x;;
     finished <-- observe sysnow;;
     on_metrics (Observe metricSet method (matchedRoute x) (responseStatus x) (Sub finished started)));;
  on_metrics (complete done);;;
  of_result outcome.

(** A propagator reads the parent out of the headers; a tracer makes the span context of
    a new span. *)
Definition propagator : Type := context -> list (bytes * list bytes) -> context.
Definition tracer : Type := context -> nat -> ctx_value.
(** [propagation.TraceContext{}]. *)
Context (TraceContext : propagator).

Definition tracingMiddleware (start : tracer) (propagate : option propagator) : middleware (S := S) := fun next =>
  let extract := default TraceContext propagate in
  x <-- get_x;;
  match x_request x with
  | None => next
  | Some r =>
    let method := requestMethod x in
    let parent := (fun c => extract c (rq_headers (hr_request r))) <$> rq_context (hr_request r) in
    span <-- observe (fun tick => (fun c => with_value c (start c tick)) <$> parent);;
    append_span (SpanStart method method);;;
    change_x (set_request (Some (with_context span r)));;;
    next;;;
    x <-- get_x;;
    append_span (SpanName (TrimSpace (method ++ &" " ++ matchedRoute x)));;;
    append_span (SpanAttributes (matchedRoute x) (responseStatus x) (requestIDFromContext x));;;
    (if 500 <=? responseStatus x then append_span SpanError else ret tt);;;
    append_span SpanEnd
  end.
End Middleware.
