(* ===== verification/Security.v ===== *)
(** * Security (internal/controller/http/security.go)

    Authentication, the keys of the limiter and of the idempotency scopes, and the
    headers of a limited response. *)
From S2P Require Import Prelude GoText GoEncoding GoTime GoNet GoUnicode Sha256 Errors World Idempotency Auth RateLimit HttpApi Metrics Exchange.

Definition challengeHeaderValue : bytes := &"Bearer realm=" ++ [zb 34] ++ &"api" ++ [zb 34].
Definition anonymousRateKey : bytes := &"anonymous".
Definition principalKeyPrefix : bytes := &"principal:".
Definition addressKeyPrefix : bytes := &"address:".
Definition idempotencyScopePrefix : bytes := &"items:create:".

Definition isVersionedAPIPath (path : bytes) : bool := bool_decide (path = &"/api/v1") || has_prefix path &"/api/v1/".

(** Whole seconds, rounded up, at least one; the arithmetic of [int64] truncates. *)
Definition retryAfterSeconds (value : Z) : Z :=
  if value <=? 0 then 1
  else
    let seconds := Z.quot value Second in
    let seconds := if negb (Z.rem value Second =? 0) then wrap64 (seconds + 1) else seconds in
    if seconds <? 1 then 1 else seconds.

Definition clientRateKey (x : exchange) : bytes :=
  match x_request x with
  | None => anonymousRateKey
  | Some r =>
    let address := TrimSpace (hr_remote_addr r) in
    let address := match SplitHostPort address with Some (host, _) => host | None => address end in
    match ip_string address with
    | Some text => addressKeyPrefix ++ text
    | None => anonymousRateKey
    end
  end.

Section Security.
Context {U : Unicode} {H : Hash256} {S : Type}.
Context (range : gmap bytes bucket -> list (bytes * bucket)).

Abbreviation M_ := (M (engine S)).

Definition principalRateKey (subject : bytes) : bytes :=
  principalKeyPrefix ++ hex_encode (arr_bytes (Sum256 subject)).

Definition writeSecurityError (status : Z) (code message : bytes) : M_ unit :=
  Header &"Cache-Control" &"no-store";;;
  JSON status (ApiBody (ErrorBody code message)).

Definition writeUnauthorized : M_ unit :=
  Header &"WWW-Authenticate" challengeHeaderValue;;;
  writeSecurityError 401 &"unauthorized" &"valid bearer credentials are required".

Definition reset_header (decision : Decision) : M_ unit :=
  if IsZero (Reset_ decision) then ret tt else Header &"RateLimit-Reset" (Itoa (Unix (Reset_ decision))).

(** The limiter of the process; a nil one allows. *)
Definition allowSecurityRequest (key : bytes) : M_ bool :=
  e <-- load;;
  match en_limiter e with
  | None => ret true
  | Some _ =>
    decision <-- on_limiter (Allow range key);;
    if Allowed decision then
      Header &"RateLimit-Remaining" (Itoa (Remaining decision));;;
      reset_header decision;;;
      ret true
    else
      Header &"Retry-After" (Itoa (retryAfterSeconds (RetryAfter decision)));;;
      Header &"RateLimit-Remaining" &"0";;;
      reset_header decision;;;
      writeSecurityError 429 &"rate_limited" &"request rate limit exceeded";;;
      ret false
  end.

(** [auth.Authenticator]: it knows nothing of the exchange but its arguments, and its
    failure is the error it returns. *)
Definition Authenticator : Type := option context -> option headers -> M unit Principal.

(** An allowed request goes on with [k]. *)
Definition if_allowed (key : bytes) (k : M_ unit) : M_ unit :=
  allowed <-- allowSecurityRequest key;; if allowed : bool then k else ret tt.

(** The request goes on under [key]: its idempotency scope is attached first. *)
Definition admission (key : bytes) (next : M_ unit) : M_ unit :=
  x <-- get_x;;
  match x_request x with
  | Some r =>
    change_x (set_request (Some (with_context
      (WithIdempotencyScope (rq_context (hr_request r)) (idempotencyScopePrefix ++ key)) r)))
  | None => ret tt
  end;;;
  if_allowed key next.

Definition securityMiddleware (authenticator : option Authenticator) : middleware (S := S) := fun next =>
  x <-- get_x;;
  match authenticator with
  | None => admission (clientRateKey x) next
  | Some authenticate =>
    match x_request x with
    | None => if_allowed anonymousRateKey writeUnauthorized
    | Some r =>
      let ctx := rq_context (hr_request r) in
      verified <-- attempt (on_outside (authenticate ctx (Some (rq_headers (hr_request r)))));;
      match verified with
      | Err _ => if_allowed anonymousRateKey writeUnauthorized
      | Ok principal =>
        match ContextWithPrincipal ctx principal with
        | Err _ => writeSecurityError 500 &"internal_error" &"internal server error"
        | Ok requestContext =>
          change_x (set_request (Some (with_context (Some requestContext) r)));;;
          admission (principalRateKey (Subject principal)) next
        end
      end
    end
  end.

(** As everywhere, a request has a URL: the case without one, which net/http never
    serves, goes to the next handler here, where the code would panic. *)
Definition apiSecurityMiddleware (authenticator : option Authenticator) : middleware (S := S) := fun next =>
  x <-- get_x;;
  match (r ← x_request x; rq_url (hr_request r)) with
  | Some (path, _) => if isVersionedAPIPath path then securityMiddleware authenticator next else next
  | None => next
  end.
End Security.
