(* ===== verification/Router.v ===== *)
(** * The router (internal/controller/http/router.go)

    The chain of middlewares, the operational endpoints and the versioned API. Gin's
    matching of a path against the registered patterns is a parameter: it gives the
    pattern and the value of the placeholder. *)
From S2P Require Import Prelude GoText GoTime GoUnicode GoJson Sha256 Errors World Item Auth RateLimit HttpApi Metrics Exchange Observability Security.

Definition livenessPath : bytes := &"/api/health".
Definition readinessPath : bytes := &"/api/healthz".
Definition metricsPath : bytes := &"/metrics".
Definition readinessTimeout : Z := 2 * Second.

Inductive endpoint := Liveness | Readiness | MetricsPage | CreateItem | ListItems | GetItem.

(** [RegisterRoutes] below a group. *)
Definition RegisterRoutes (group : bytes) : list (bytes * bytes * endpoint) :=
  let items := group ++ &"/items" in
  [(&"POST", items, CreateItem); (&"GET", items, ListItems); (&"GET", items ++ &"/:id", GetItem)].

Definition Mount := RegisterRoutes.

Section Router.
Context {U : Unicode} {H : Hash256} {S : Type}.

(** ** Configuration *)

Record routerConfig := mkRouterConfig {
  rc_metrics : option Metrics;
  rc_tracer : option tracer;
  rc_propagator : option propagator;
  rc_auth : option Authenticator;
  rc_limiter : option Limiter;
}.

Definition RouterOption : Type := routerConfig -> routerConfig.

Definition WithMetrics (value : option Metrics) : RouterOption := fun c =>
  mkRouterConfig value (rc_tracer c) (rc_propagator c) (rc_auth c) (rc_limiter c).
Definition WithTracing (t : option tracer) (p : option propagator) : RouterOption := fun c =>
  mkRouterConfig (rc_metrics c) t p (rc_auth c) (rc_limiter c).
Definition WithAuthenticator (value : option Authenticator) : RouterOption := fun c =>
  mkRouterConfig (rc_metrics c) (rc_tracer c) (rc_propagator c) value (rc_limiter c).
Definition WithRateLimiter (value : option Limiter) : RouterOption := fun c =>
  mkRouterConfig (rc_metrics c) (rc_tracer c) (rc_propagator c) (rc_auth c) value.

Definition configure (options : list (option RouterOption)) : routerConfig :=
  fold_left (fun c o => match o with Some f => f c | None => c end) options (mkRouterConfig None None None None None).

(** The registered routes: method, pattern and endpoint. *)
Definition routes (config : routerConfig) : list (bytes * bytes * endpoint) :=
  [(&"GET", livenessPath, Liveness); (&"GET", readinessPath, Readiness)]
  ++ match rc_metrics config with Some _ => [(&"GET", metricsPath, MetricsPage)] | None => [] end
  ++ RegisterRoutes &"/api/v1".

(** ** Handling a request *)

Context (range : gmap bytes bucket -> list (bytes * bucket)).
Context (sysnow : nat -> time) (new_uuid : nat -> uuid) (body_size : payload -> Z) (broken_pipe : error -> bool).
Context (TraceContext : propagator) (with_timeout : Z -> context -> context).
Context (uuid_parse : bytes -> option uuid).
Context (match_route : list (bytes * bytes * endpoint) -> bytes -> bytes -> option (bytes * bytes)).

Abbreviation M_ := (M (engine S)).

(** [ReadinessCheck]. *)
Context (readiness : option (option context -> M unit unit)).
Context (items : HttpApi.Handler (S := S)).

(** What an item handler answers, written to the exchange. *)
Definition write_response (r : response) (x : exchange) : exchange :=
  set_response (rs_status r) (Some (ApiBody (rs_body r)))
    (set_headers (fold_left (fun hs h => put_header h.1 h.2 hs) (rs_headers r) (x_headers x)) x).

Definition item_handler (handle : request -> M S response) : M_ unit :=
  x <-- get_x;;
  match x_request x with
  | None => ret tt
  | Some r =>
    answer <-- on_items (handle (hr_request r));;
    change_x (write_response answer)
  end.

Definition healthy : M_ unit := JSON 200 (HealthBody &"ok").

Definition readiness_handler : M_ unit :=
  x <-- get_x;;
  let ctx := r ← x_request x; rq_context (hr_request r) in
  let ctx := with_timeout readinessTimeout <$> ctx in
  match readiness with
  | None => JSON 503 (HealthBody &"unavailable")
  | Some check =>
    outcome <-- attempt (on_outside (check ctx));;
    match outcome with Err _ => JSON 503 (HealthBody &"unavailable") | Ok _ => healthy end
  end.

Definition handle (config : routerConfig) (e : endpoint) : M_ unit :=
  match e with
  | Liveness => healthy
  | Readiness => readiness_handler
  | MetricsPage =>
    match Metrics.Handler (rc_metrics config) with
    | Some _ => JSON 200 MetricsBody
    | None => JSON 404 NotFoundBody
    end
  | CreateItem => item_handler (HttpApi.Create items)
  | ListItems => item_handler (HttpApi.List items)
  | GetItem => item_handler (HttpApi.Get uuid_parse items)
  end.

(** The middlewares, the outermost first. *)
Definition chain (config : routerConfig) (next : M_ unit) : M_ unit :=
  observabilityMiddleware sysnow new_uuid body_size
    (match rc_tracer config with Some t => tracingMiddleware TraceContext t (rc_propagator config) | None => fun next => next end
      (match rc_metrics config with Some m => metricsMiddleware sysnow (Some m) | None => fun next => next end
        (sanitizedRecovery broken_pipe
          (apiSecurityMiddleware range (rc_auth config) next)))).

(** The endpoint registered under a pattern. *)
Definition find_endpoint (config : routerConfig) (method pattern : bytes) : option endpoint :=
  snd <$> List.find (fun r => bool_decide (r.1 = (method, pattern))) (routes config).

(** [ServeHTTP]: a path that matches no pattern goes through the middlewares with status
    404, and gets Gin's default body if nobody answered. *)
Definition ServeHTTP (config : routerConfig) (r : http_request) : M_ unit :=
  let q := hr_request r in
  let path := match rq_url q with Some (path, _) => path | None => [] end in
  let start request full status := change_x (fun _ => mkExchange (Some request) full None status [] None) in
  match match_route (routes config) (hr_method r) path with
  | Some (pattern, id) =>
    let q := mkRequest (rq_context q) (rq_headers q) (rq_url q) id (rq_body q) (rq_content_length q) in
    start (mkHttpRequest (hr_method r) (hr_remote_addr r) q) pattern 200;;;
    chain config (match find_endpoint config (hr_method r) pattern with Some e => handle config e | None => ret tt end)
  | None =>
    start r [] 404;;;
    chain config (ret tt);;;
    x <-- get_x;;
    match x_body x with
    | Some _ => ret tt
    | None => if x_status x =? 404 then JSON 404 NotFoundBody else ret tt
    end
  end.

(** [NewRouter] over a limiter: the limiter of the options becomes the state. *)
Definition NewRouter (options : list (option RouterOption)) (r : http_request) : M_ unit :=
  ServeHTTP (configure options) r.
End Router.
