(* ===== verification/Frames.v ===== *)
(** * Frames

    What a piece of the request chain leaves alone, and that it returns: [keeps f m]
    says that a run of [m] does not change what [f] sees of the state, and [safe m]
    that it does not panic. *)
From S2P Require Import Prelude Errors World HttpApi Exchange.

Section Generic.
Context {T : Type}.

Definition keeps {A X} (f : T -> X) (m : M T A) : Prop := forall w, f (w_store (m w).2) = f (w_store w).
Definition safe {A} (m : M T A) : Prop := forall w, exists a, (m w).1 = Ok a.

Lemma keeps_bind {A B X} (f : T -> X) (m : M T A) (k : A -> M T B) :
  keeps f m -> (forall a, keeps f (k a)) -> keeps f (bind m k).
Proof.
  intros Hm Hk w. unfold bind. specialize (Hm w). destruct (m w) as [[a|e] w']; [|done]. cbn [snd] in Hm. by rewrite Hk.
Qed.
Lemma keeps_ret {A X} (f : T -> X) (a : A) : keeps f (ret a).
Proof. done. Qed.
Lemma keeps_fail {A X} (f : T -> X) e : keeps f (fail e : M T A).
Proof. done. Qed.
Lemma keeps_of_result {A X} (f : T -> X) (r : result A) : keeps f (of_result r).
Proof. done. Qed.
Lemma keeps_load {X} (f : T -> X) : keeps f load.
Proof. done. Qed.
Lemma keeps_observe {A X} (f : T -> X) (o : nat -> A) : keeps f (observe o).
Proof. done. Qed.
Lemma keeps_attempt {A X} (f : T -> X) (m : M T A) : keeps f m -> keeps f (attempt m).
Proof. intros Hm w. unfold attempt. specialize (Hm w). by destruct (m w). Qed.
Lemma keeps_zoom {S A X} (f : T -> X) get put (m : M S A) :
  (forall s t, f (put s t) = f t) -> keeps f (zoom get put m).
Proof. intros Hf w. unfold zoom. destruct (m _) as [r w']. apply Hf. Qed.

Lemma safe_bind {A B} (m : M T A) (k : A -> M T B) : safe m -> (forall a, safe (k a)) -> safe (bind m k).
Proof.
  intros Hm Hk w. unfold bind. destruct (Hm w) as [a Ha]. destruct (m w) as [r w']. cbn [fst] in Ha. rewrite Ha. apply Hk.
Qed.
Lemma safe_ret {A} (a : A) : safe (ret a).
Proof. intros w. by exists a. Qed.
Lemma safe_load : safe load.
Proof. intros w. by eexists. Qed.
Lemma safe_save t : safe (save t).
Proof. intros w. by eexists. Qed.
Lemma safe_observe {A} (o : nat -> A) : safe (observe o).
Proof. intros w. by eexists. Qed.
Lemma safe_attempt {A} (m : M T A) : safe (attempt m).
Proof. intros w. unfold attempt. destruct (m w). by eexists. Qed.
Lemma safe_zoom {S A} get put (m : M S A) : (forall w, exists a, (m w).1 = Ok a) -> safe (zoom get put m).
Proof.
  intros Hm w. unfold zoom. destruct (Hm (World (w_tick w) (get (w_store w)))) as [a Ha].
  destruct (m _) as [r w']. cbn [fst] in *. eauto.
Qed.
(** A result that was safe to reach. *)
Lemma safe_attempt_bind {A B} (m : M T A) (k : result A -> M T B) :
  safe m -> (forall a, safe (k (Ok a))) -> safe (bind (attempt m) k).
Proof.
  intros Hm Hk w. unfold bind, attempt. destruct (Hm w) as [a Ha]. destruct (m w) as [r w']. cbn [fst] in Ha. rewrite Ha. apply Hk.
Qed.
End Generic.

(** ** Triples *)

Section Triples.
Context {T : Type}.

(** From a state in [P], [m] returns, in a state in [Q]. *)
Definition triple {A} (P : T -> Prop) (m : M T A) (Q : T -> Prop) : Prop :=
  forall w, P (w_store w) -> (exists a, (m w).1 = Ok a) /\ Q (w_store (m w).2).

Lemma triple_bind {A B} (P R Q : T -> Prop) (m : M T A) (k : A -> M T B) :
  triple P m R -> (forall a, triple R (k a) Q) -> triple P (bind m k) Q.
Proof.
  intros Hm Hk w Hw. unfold bind. destruct (Hm w Hw) as [[a Ha] Hr]. destruct (m w) as [r w']. cbn [fst snd] in *.
  subst r. by apply Hk.
Qed.

(** A part that keeps what the condition looks at. *)
Lemma triple_keeps {A X} (f : T -> X) (P : X -> Prop) (m : M T A) :
  safe m -> keeps f m -> triple (fun t => P (f t)) m (fun t => P (f t)).
Proof. intros Hs Hk w Hw. split; [apply Hs|]. by rewrite Hk. Qed.

Lemma triple_weaken {A} (P P' Q Q' : T -> Prop) (m : M T A) :
  (forall t, P t -> P' t) -> (forall t, Q' t -> Q t) -> triple P' m Q' -> triple P m Q.
Proof. intros HP HQ Hm w Hw. destruct (Hm w (HP _ Hw)). auto. Qed.

Lemma triple_attempt {A} (P Q : T -> Prop) (m : M T A) :
  triple P m Q -> forall w, P (w_store w) -> exists a, (attempt m w).1 = Ok (Ok a) /\ Q (w_store (attempt m w).2).
Proof.
  intros Hm w Hw. destruct (Hm w Hw) as [[a Ha] Hq]. unfold attempt. destruct (m w) as [r w']. cbn [fst snd] in *.
  subst r. eauto.
Qed.

Lemma triple_attempt_bind {A B} (P R Q : T -> Prop) (m : M T A) (k : result A -> M T B) :
  triple P m R -> (forall a, triple R (k (Ok a)) Q) -> triple P (bind (attempt m) k) Q.
Proof.
  intros Hm Hk w Hw. unfold bind, attempt. destruct (Hm w Hw) as [[a Ha] Hr]. destruct (m w) as [r w']. cbn [fst snd] in *.
  subst r. by apply Hk.
Qed.
End Triples.

(** ** The parts of an engine *)

Section Engine.
Context {S : Type}.

Lemma keeps_change_x {X} (f : engine S -> X) g :
  (forall e, f (set_exchange (g (en_exchange e)) e) = f e) -> keeps f (change_x g).
Proof. intros Hf w. apply Hf. Qed.
Lemma keeps_append_log {X} (f : engine S -> X) a : (forall l e, f (set_log l e) = f e) -> keeps f (append_log a).
Proof. intros Hf w. apply Hf. Qed.
Lemma keeps_append_span {X} (f : engine S -> X) a : (forall l e, f (set_spans l e) = f e) -> keeps f (append_span a).
Proof. intros Hf w. apply Hf. Qed.
Lemma keeps_outside {A X} (f : engine S -> X) (m : M unit A) : keeps f (on_outside m).
Proof. by apply keeps_zoom. Qed.

(** A program that reads the exchange first knows that it is the current one. *)
Lemma triple_get_x (P Q : engine S -> Prop) (k : exchange -> M (engine S) unit) :
  (forall x, triple (fun e => P e /\ en_exchange e = x) (k x) Q) -> triple P (bind get_x k) Q.
Proof.
  intros Hk w Hw. unfold get_x, bind, load, ret. destruct w. by apply Hk.
Qed.

Lemma triple_change_x (P Q : engine S -> Prop) g :
  (forall e, P e -> Q (set_exchange (g (en_exchange e)) e)) -> triple P (change_x g) Q.
Proof. intros H w Hw. split; [by eexists|]. by apply H. Qed.

Lemma safe_change_x g : safe (change_x (S := S) g).
Proof. intros w. by eexists. Qed.
Lemma safe_append_log a : safe (append_log (S := S) a).
Proof. intros w. by eexists. Qed.
Lemma safe_append_span a : safe (append_span (S := S) a).
Proof. intros w. by eexists. Qed.
End Engine.

Create HintDb frame discriminated.
#[export] Hint Resolve keeps_ret keeps_fail keeps_of_result keeps_load keeps_observe keeps_outside : frame.
#[export] Hint Resolve safe_ret safe_load safe_save safe_observe safe_attempt safe_change_x safe_append_log safe_append_span : frame.

(** Go through a program: what is left is about its parts. *)
Ltac frame :=
  repeat first
    [ solve [auto with frame nocore]
    | match goal with
      | |- keeps _ (bind _ _) => apply keeps_bind; [|intros ?]
      | |- keeps _ (attempt _) => apply keeps_attempt
      | |- keeps _ (change_x _) => apply keeps_change_x; intros ?; done
      | |- keeps _ (append_log _) => apply keeps_append_log; intros ? ?; done
      | |- keeps _ (append_span _) => apply keeps_append_span; intros ? ?; done
      | |- keeps _ (on_limiter _) => apply keeps_zoom; intros ? ?; done
      | |- keeps _ (on_metrics _) => apply keeps_zoom; intros ? ?; done
      | |- keeps _ (on_items _) => apply keeps_zoom; intros ? ?; done
      | |- keeps _ get_x => unfold get_x
      | |- safe (bind _ _) => apply safe_bind; [|intros ?]
      | |- safe get_x => unfold get_x
      end
    | progress case_match ].
