(* ===== verification/RouterFacts.v ===== *)
(** * The router: facts

    What every request leaves in the access log, and what it takes to reach the items. *)
From S2P Require Import Prelude GoText GoEncoding GoTime GoUnicode GoJson Sha256 Errors World Item Order Idempotency Auth RateLimit HttpApi.
From S2P Require Import HttpFacts Metrics Exchange Observability Security Router Frames.

(** ** Response headers *)

Lemma header_value_app key hs k v :
  header_value key (hs ++ [(k, v)]) = match header_value key hs with
    | Some found => Some found | None => if bool_decide (k = key) then Some v else None end.
Proof.
  unfold header_value. induction hs as [|[k' v'] hs IH]; cbn [app List.find fst].
  - by destruct (bool_decide (k = key)).
  - by destruct (bool_decide (k' = key)).
Qed.

Lemma header_value_others key k hs :
  header_value key (List.filter (fun h => negb (bool_decide (fst h = k))) hs)
  = if bool_decide (k = key) then None else header_value key hs.
Proof.
  unfold header_value. induction hs as [|[k' v'] hs IH]; cbn [List.filter List.find fst]; [by case_bool_decide|].
  destruct (decide (k' = k)) as [->|Hk].
  - rewrite bool_decide_true by done. cbn [negb]. rewrite IH. by case_bool_decide.
  - rewrite (bool_decide_false (k' = k)) by done. cbn [negb List.find fst]. destruct (decide (k' = key)) as [->|Hk'].
    + rewrite bool_decide_true, bool_decide_false by done. done.
    + by rewrite (bool_decide_false (k' = key)).
Qed.

Lemma put_header_same key value hs : value <> [] -> header_value key (put_header key value hs) = Some value.
Proof.
  intros Hv. unfold put_header. rewrite (bool_decide_false (value = [])) by done.
  by rewrite header_value_app, header_value_others, !bool_decide_true.
Qed.

Lemma put_header_other key k value hs : k <> key -> header_value key (put_header k value hs) = header_value key hs.
Proof.
  intros Hk. unfold put_header. destruct (bool_decide (value = [])); rewrite ?header_value_app, header_value_others, bool_decide_false by done;
    [done|]. by destruct (header_value key hs).
Qed.

(** ** What the handlers leave alone *)

Section Facts.
Context {U : Unicode} {H : Hash256} {S : Type}.

(** What the access log says of a request, and the log before it. *)
Definition logged_view (e : engine S) : list access_event * option bytes * bytes * option bytes :=
  (en_log e, header_value requestIDHeader (x_headers (en_exchange e)), x_full_path (en_exchange e),
   hr_method <$> x_request (en_exchange e)).

Lemma keeps_Header key value : key <> requestIDHeader -> keeps logged_view (Header key value).
Proof.
  intros Hk. apply keeps_change_x. intros e. unfold logged_view. do 3 f_equal. by apply put_header_other.
Qed.

Lemma keeps_with_context ctx r e :
  x_request (en_exchange e) = Some r ->
  logged_view (set_exchange (set_request (Some (with_context ctx r)) (en_exchange e)) e) = logged_view e.
Proof. intros E. unfold logged_view. cbn. by rewrite E. Qed.

Lemma writeSecurityError_keeps status code message : keeps logged_view (writeSecurityError status code message).
Proof. unfold writeSecurityError, JSON. frame. by apply keeps_Header. Qed.

Lemma reset_header_keeps d : keeps logged_view (reset_header d).
Proof. unfold reset_header. frame. by apply keeps_Header. Qed.
Hint Resolve writeSecurityError_keeps reset_header_keeps : frame.

Context (range : gmap bytes bucket -> list (bytes * bucket)).

Lemma allowSecurityRequest_keeps key : keeps logged_view (allowSecurityRequest range key).
Proof. unfold allowSecurityRequest. frame; by apply keeps_Header. Qed.
Hint Resolve allowSecurityRequest_keeps : frame.

Lemma writeUnauthorized_keeps : keeps logged_view writeUnauthorized.
Proof. unfold writeUnauthorized. frame. by apply keeps_Header. Qed.
Hint Resolve writeUnauthorized_keeps : frame.

(** A program that reads the exchange first. *)
Lemma keeps_get_x {X} (f : engine S -> X) (k : exchange -> M (engine S) unit) :
  (forall w, f (w_store (k (en_exchange (w_store w)) w).2) = f (w_store w)) -> keeps f (bind get_x k).
Proof. intros Hk w. unfold get_x, bind, load, ret. destruct w. apply Hk. Qed.

Lemma change_x_run g (w : world (engine S)) :
  change_x g w = (Ok tt, World (w_tick w) (set_exchange (g (en_exchange (w_store w))) (w_store w))).
Proof. done. Qed.

(** Replacing the context of the request on the way. *)
Lemma keeps_with_context_then ctx r (m : M (engine S) unit) w :
  x_request (en_exchange (w_store w)) = Some r -> keeps logged_view m ->
  logged_view (w_store ((change_x (set_request (Some (with_context ctx r)));;; m)%m w).2) = logged_view (w_store w).
Proof. intros Hr Hm. unfold bind. rewrite change_x_run, Hm. by apply keeps_with_context. Qed.

Section Next.
Context (next : M (engine S) unit) (next_keeps : keeps logged_view next).

Lemma admit_keeps key : keeps logged_view (admission range key next).
Proof.
  apply keeps_get_x. intros w. assert (keeps logged_view (if_allowed range key next)) as Hm.
  { unfold if_allowed. frame. }
  destruct (x_request (en_exchange (w_store w))) as [r|] eqn:Er; [|apply Hm].
  by apply keeps_with_context_then.
Qed.

Lemma securityMiddleware_keeps auth : keeps logged_view (securityMiddleware range auth next).
Proof.
  assert (keeps logged_view (if_allowed range anonymousRateKey writeUnauthorized)) as Hu by (unfold if_allowed; frame).
  apply keeps_get_x. intros w. destruct auth as [authenticate|]; [|apply admit_keeps].
  destruct (x_request (en_exchange (w_store w))) as [r|] eqn:Er; [|apply Hu].
  unfold bind at 1, attempt, on_outside, zoom. destruct (authenticate _ _ _) as [verified w1]. cbn [fst snd].
  destruct verified as [principal|e]; [|apply (Hu (World (w_tick w1) (w_store w)))].
  destruct (ContextWithPrincipal _ principal) as [ctx|e];
    [|apply (writeSecurityError_keeps _ _ _ (World (w_tick w1) (w_store w)))].
  apply (keeps_with_context_then (Some ctx) r _ (World (w_tick w1) (w_store w)) Er). apply admit_keeps.
Qed.

Lemma apiSecurityMiddleware_keeps auth : keeps logged_view (apiSecurityMiddleware range auth next).
Proof.
  apply keeps_get_x. intros w. case_match; [|apply next_keeps]. case_match. case_match; [apply securityMiddleware_keeps|apply next_keeps].
Qed.
End Next.

(** ** Correlation identifiers *)

Lemma hex_request_id l : forallb request_id_char (hex_encode l) = true.
Proof.
  apply forallb_forall. intros b Hb%list_elem_of_In. pose proof (hex_encode_chars l) as Hc.
  rewrite Forall_forall in Hc. apply Hc in Hb as (z & Hz & ->). clear Hc. revert z Hz.
  apply (range_forall 0 16 (fun z => request_id_char (hex_digit z))). vm_compute. reflexivity.
Qed.

(** A fresh identifier is a valid one. *)
Lemma uuid_request_id u : validRequestID (uuid_string u) = true.
Proof.
  assert (length (uuid_string u) = 36%nat) as Hl.
  { unfold uuid_string. rewrite !length_app, !hex_encode_length, !length_take, !length_drop, arr_length. done. }
  unfold validRequestID. rewrite bool_decide_false by (intros E; by rewrite E in Hl). rewrite Hl. cbn [orb].
  change (maxRequestIDBytes <? Z.of_nat 36) with false. cbn.
  unfold uuid_string. by rewrite !forallb_app, !hex_request_id.
Qed.

Lemma validRequestID_nonempty id : validRequestID id = true -> id <> [].
Proof. by intros Hv ->. Qed.

Context (sysnow : nat -> time) (new_uuid : nat -> uuid) (body_size : payload -> Z) (broken_pipe : error -> bool).
Context (TraceContext : propagator).

(** The identifier of a request: the client's, when there is exactly one and it is valid. *)
Definition proposed_id (x : exchange) : option bytes :=
  r ← x_request x;
  match header_values canonicalRequestID (rq_headers (hr_request r)) with
  | [value] => if validRequestID value then Some value else None
  | _ => None
  end.

Lemma requestIDFor_run x w :
  exists id tick, requestIDFor (S := S) new_uuid x w = (Ok id, World tick (w_store w)) /\ validRequestID id = true
    /\ (forall v, proposed_id x = Some v -> id = v).
Proof.
  unfold requestIDFor, proposed_id.
  assert (forall o : option bytes, o = None -> exists id tick,
    (id <-- observe new_uuid;; ret (uuid_string id))%m w = (Ok id, World tick (w_store w)) /\ validRequestID id = true
    /\ (forall v, o = Some v -> id = v)) as Hf.
  { intros o ->. eexists _, _. split; [done|]. split; [apply uuid_request_id|done]. }
  destruct (x_request x) as [r|]; [|by apply Hf]. cbn [mbind option_bind].
  destruct (header_values _ _) as [|value [|? ?]]; [by apply Hf| |by apply Hf].
  destruct (validRequestID value) eqn:Ev; [|by apply Hf].
  exists value, (w_tick w). destruct w. split_and!; [done|done|]. by intros v [= ->].
Qed.

(** ** The access log *)

(** The outer middleware logs a request that it hands on to a part of the chain that
    returns and keeps the view of the log. *)
Lemma observability_logs next w :
  safe next -> keeps logged_view next ->
  let x := en_exchange (w_store w) in
  exists w' ev,
    observabilityMiddleware sysnow new_uuid body_size next w = (Ok tt, w')
    /\ en_log (w_store w') = en_log (w_store w) ++ [ev]
    /\ header_value requestIDHeader (x_headers (en_exchange (w_store w'))) = Some (ae_request_id ev)
    /\ validRequestID (ae_request_id ev) = true /\ (forall v, proposed_id x = Some v -> ae_request_id ev = v)
    /\ ae_status ev = responseStatus (en_exchange (w_store w')) /\ ae_level ev = access_level (ae_status ev)
    /\ ae_method ev = requestMethod x /\ ae_route ev = matchedRoute x.
Proof.
  intros Hs Hk x. unfold observabilityMiddleware, bind at 1, observe at 1, get_x, bind at 1, bind at 1, load at 1, ret at 1.
  cbn [w_store w_tick]. fold x. unfold bind at 1.
  destruct (requestIDFor_run x (World (Datatypes.S (w_tick w)) (w_store w))) as (id & tick & -> & Hv & Hp).
  unfold bind at 1. rewrite change_x_run. unfold bind at 1, Header. rewrite change_x_run. cbn [w_store w_tick].
  match goal with |- context [(bind next _) ?w0] => set (w1 := w0) end. unfold bind at 1.
  destruct (Hs w1) as [[] Hn]. specialize (Hk w1). destruct (next w1) as [r w2]. cbn [fst snd] in Hn, Hk. subst r.
  eexists _, _. split; [reflexivity|]. cbn [w_store en_log set_log en_exchange ae_request_id ae_status ae_level ae_method ae_route].
  unfold logged_view in Hk. injection Hk as Hlog Hhd Hfp Hm.
  split_and!; [by rewrite Hlog| |done|done|done|done| |].
  - rewrite Hhd. unfold w1. cbn. by apply put_header_same, validRequestID_nonempty.
  - unfold requestMethod. unfold w1 in Hm. cbn in Hm. fold x in Hm.
    destruct (x_request x), (x_request (en_exchange (w_store w2))); by simplify_eq/=.
  - unfold matchedRoute. by rewrite Hfp.
Qed.

(** ** The middlewares in between *)

Lemma sanitizedRecovery_ok next :
  keeps logged_view next -> safe (sanitizedRecovery broken_pipe next) /\ keeps logged_view (sanitizedRecovery broken_pipe next).
Proof. intros Hk. unfold sanitizedRecovery, JSON. split; frame. Qed.

Lemma record_safe e : safe (record e).
Proof. unfold record. frame. Qed.
Hint Resolve record_safe : frame.

Lemma Track_safe m method route : safe (Track m method route).
Proof. unfold Track. frame. Qed.
Lemma Observe_safe m method route status d : safe (Observe m method route status d).
Proof. unfold Observe. frame. Qed.
Lemma complete_safe c : safe (complete c).
Proof. unfold complete. frame. Qed.

Lemma on_metrics_safe {A} (m : M (list metric_event) A) : safe m -> safe (on_metrics (S := S) m).
Proof. apply safe_zoom. Qed.
Hint Resolve Track_safe Observe_safe complete_safe on_metrics_safe : frame.

Lemma metricsMiddleware_ok m next :
  safe next -> keeps logged_view next ->
  safe (metricsMiddleware sysnow m next) /\ keeps logged_view (metricsMiddleware sysnow m next).
Proof.
  intros Hs Hk. unfold metricsMiddleware. split; [|frame].
  apply safe_bind; [frame|intros started]. apply safe_bind; [frame|intros x]. apply safe_bind; [frame|intros done_].
  apply safe_attempt_bind; [frame|]. intros []. unfold of_result. apply safe_bind; [frame|intros _]. apply (safe_ret tt).
Qed.

Lemma tracingMiddleware_ok start propagate next :
  safe next -> keeps logged_view next ->
  safe (tracingMiddleware TraceContext start propagate next) /\ keeps logged_view (tracingMiddleware TraceContext start propagate next).
Proof.
  intros Hs Hk. unfold tracingMiddleware. split; [frame|].
  apply keeps_get_x. intros w. destruct (x_request (en_exchange (w_store w))) as [r|] eqn:Er; [|apply Hk].
  unfold bind at 1, observe at 1. unfold bind at 1, append_span at 1, bind at 1, load at 1, save at 1.
  cbn [w_store w_tick].
  match goal with |- context [(bind (change_x (set_request (Some (with_context ?c r)))) ?k) ?w0] =>
    rewrite (keeps_with_context_then c r (k tt) w0) end; [done|done|].
  frame.
Qed.

Lemma chain_ok auth tracing metrics next :
  keeps logged_view next ->
  let inner := match tracing with Some (t, p) => tracingMiddleware TraceContext t p | None => fun next => next end
    (match metrics with Some m => metricsMiddleware sysnow (Some m) | None => fun next => next end
      (sanitizedRecovery broken_pipe (apiSecurityMiddleware range auth next))) in
  safe inner /\ keeps logged_view inner.
Proof.
  intros Hk inner. unfold inner.
  destruct (sanitizedRecovery_ok _ (apiSecurityMiddleware_keeps next Hk auth)) as [Hs1 Hk1].
  destruct metrics as [m|]; [destruct (metricsMiddleware_ok (Some m) _ Hs1 Hk1) as [Hs2 Hk2]|];
    (destruct tracing as [[t p]|]; [by apply tracingMiddleware_ok|done]).
Qed.

(** ** The item handlers *)

(** The handlers leave the correlation header alone. *)
Definition plain_headers (r : response) : Prop := Forall (fun h => fst h <> requestIDHeader) (rs_headers r).

Lemma error_plain r : r ∈ error_responses -> plain_headers r.
Proof.
  assert (Forall plain_headers error_responses) as Hf; [|by rewrite Forall_forall in Hf; apply Hf].
  unfold plain_headers. apply (bool_decide_eq_true_1 _). vm_compute. reflexivity.
Qed.

Lemma created_plain c key created replayed : plain_headers (created_response c key created replayed).
Proof.
  unfold created_response. case_match; [by apply error_plain; pick 12%nat|]. unfold plain_headers. cbn [rs_headers].
  repeat apply Forall_app_2; [destruct key; by repeat constructor|by repeat constructor|destruct replayed; by repeat constructor].
Qed.

Context (uuid_parse : bytes -> option uuid).
Lemma refuse_plain r : r ∈ error_responses -> responds (S := S) (ret r) plain_headers.
Proof. intros Hr. by apply responds_ret, error_plain. Qed.

Lemma Create_plain (h : HttpApi.Handler (S := S)) c : responds (HttpApi.Create h c) plain_headers.
Proof.
  unfold HttpApi.Create. destruct (parseIdempotencyKey _) as [key|]; [|apply refuse_plain; pick 0%nat].
  destruct (decodeStrictJSON _ _) as [[input|]|]; [|apply refuse_plain; pick 1%nat..].
  destruct (hd_service h) as [service|], key as [k|].
  - destruct (so_create_idempotent service); [|apply refuse_plain, writeServiceError_closed].
    apply responds_or_service_error; [apply error_plain|]. intros [created replayed]. apply responds_ret, created_plain.
  - apply responds_or_service_error; [apply error_plain|]. intros created. apply responds_ret, created_plain.
  - apply refuse_plain, writeServiceError_closed.
  - apply refuse_plain. pick 12%nat.
Qed.

Lemma Get_plain (h : HttpApi.Handler (S := S)) c : responds (HttpApi.Get uuid_parse h c) plain_headers.
Proof.
  unfold HttpApi.Get. destruct (uuid_parse _) as [id|]; [|apply refuse_plain; pick 2%nat].
  case_match; [apply refuse_plain; pick 2%nat|].
  destruct (hd_service h) as [service|]; [|apply refuse_plain; pick 12%nat].
  apply responds_or_service_error; [apply error_plain|]. intros found. apply responds_ret. constructor.
Qed.

Lemma List_answers_plain (h : HttpApi.Handler (S := S)) c : responds (HttpApi.List h c) plain_headers.
Proof.
  unfold HttpApi.List. destruct (parseListRequest _) as [[params|cursor]|]; [| |apply refuse_plain; pick 3%nat];
    (destruct (hd_service h) as [service|]).
  - apply responds_or_service_error; [apply error_plain|]. intros page. apply responds_ret. constructor.
  - apply refuse_plain. pick 12%nat.
  - destruct (so_list_cursor service); [|apply refuse_plain, writeServiceError_closed].
    apply responds_or_service_error; [apply error_plain|]. intros page. apply responds_ret. constructor.
  - apply refuse_plain, writeServiceError_closed.
Qed.

Lemma plain_fold hs0 hs :
  Forall (fun h => fst h <> requestIDHeader) hs ->
  header_value requestIDHeader (fold_left (fun hs h => put_header h.1 h.2 hs) hs hs0) = header_value requestIDHeader hs0.
Proof.
  intros Hf. revert hs0. induction Hf as [|[k v] hs Hk Hf IH]; intros hs0; [done|]. cbn [fold_left fst snd].
  by rewrite IH, put_header_other.
Qed.

Lemma item_handler_ok (handle : request -> M S response) :
  (forall c, responds (handle c) plain_headers) -> safe (item_handler handle) /\ keeps logged_view (item_handler handle).
Proof.
  intros Hh. unfold item_handler. split.
  - frame. apply safe_zoom. intros w.
    match goal with |- context [handle ?c w] => destruct (Hh c w) as (answer & w' & -> & _); by exists answer end.
  - apply keeps_get_x. intros w. destruct (x_request (en_exchange (w_store w))) as [r|]; [|done].
    unfold bind, on_items, zoom. destruct (Hh (hr_request r) (World (w_tick w) (en_items (w_store w)))) as (a & w' & -> & Ha).
    rewrite change_x_run. unfold logged_view. do 3 f_equal. by apply plain_fold.
Qed.

Context (with_timeout : Z -> context -> context).
Context (match_route : list (bytes * bytes * endpoint) -> bytes -> bytes -> option (bytes * bytes)).
Context (readiness : option (option context -> M unit unit)) (items : HttpApi.Handler (S := S)).

Abbreviation handle := (handle with_timeout uuid_parse readiness items).
Abbreviation ServeHTTP :=
  (ServeHTTP range sysnow new_uuid body_size broken_pipe TraceContext with_timeout uuid_parse match_route readiness items).

Lemma handle_keeps config e : keeps logged_view (handle config e).
Proof.
  destruct e; unfold Router.handle, healthy, readiness_handler, healthy, JSON; try solve [frame];
    apply item_handler_ok; intros c; [apply Create_plain|apply List_answers_plain|apply Get_plain].
Qed.

Definition route_of (config : routerConfig) (r : http_request) : option (bytes * bytes) :=
  match_route (routes config) (hr_method r) (match rq_url (hr_request r) with Some (path, _) => path | None => [] end).

(** The exchange that the chain starts with, and what is at its end. *)
Definition start_exchange (config : routerConfig) (r : http_request) : exchange :=
  match route_of config r with
  | Some (pattern, id) =>
    let q := hr_request r in
    mkExchange (Some (mkHttpRequest (hr_method r) (hr_remote_addr r)
      (mkRequest (rq_context q) (rq_headers q) (rq_url q) id (rq_body q) (rq_content_length q)))) pattern None 200 [] None
  | None => mkExchange (Some r) [] None 404 [] None
  end.

Definition final_handler (config : routerConfig) (r : http_request) : M (engine S) unit :=
  match route_of config r with
  | Some (pattern, _) =>
    match find_endpoint config (hr_method r) pattern with Some e => handle config e | None => ret tt end
  | None => ret tt
  end.

Abbreviation chain := (chain range sysnow new_uuid body_size broken_pipe TraceContext).

(** A request is the chain on its first exchange, and at most the default body of an
    unmatched path. *)
Lemma ServeHTTP_run config r w :
  let w0 := World (w_tick w) (set_exchange (start_exchange config r) (w_store w)) in
  forall w', chain config (final_handler config r) w0 = (Ok tt, w') ->
  exists w'', ServeHTTP config r w = (Ok tt, w'') /\ (w'' = w'
    \/ (route_of config r = None /\ x_body (en_exchange (w_store w')) = None /\ x_status (en_exchange (w_store w')) = 404
        /\ w_store w'' = set_exchange (set_response 404 (Some NotFoundBody) (en_exchange (w_store w'))) (w_store w'))).
Proof.
  intros w0 w' Hc. unfold Router.ServeHTTP. unfold start_exchange, final_handler, route_of in w0, Hc |- *.
  destruct (match_route _ _ _) as [[pattern id]|] eqn:Em.
  - unfold bind at 1. rewrite change_x_run. exists w'. split; [exact Hc|by left].
  - unfold bind at 1. rewrite change_x_run. unfold bind at 1. fold w0. rewrite Hc.
    unfold bind, get_x, bind, load, ret. destruct (x_body (en_exchange (w_store w'))) eqn:Eb; [exists w'; auto|].
    destruct (x_status (en_exchange (w_store w')) =? 404) eqn:Es; [|exists w'; auto].
    eexists. split; [reflexivity|]. right. bool_simpl. auto.
Qed.

(** C18: Every request is served without a panic and leaves exactly one entry in the access
    log: its identifier is the client's when it sent exactly one valid identifier, is
    always a valid one, and is the one in the response; its status is that of the
    response, which decides its level; its method is the request's, and its route is
    the matched pattern or a constant, never the path. *)
Theorem Every_request_logged config r w :
  exists w' ev,
    ServeHTTP config r w = (Ok tt, w') /\ en_log (w_store w') = en_log (w_store w) ++ [ev]
    /\ header_value requestIDHeader (x_headers (en_exchange (w_store w'))) = Some (ae_request_id ev)
    /\ validRequestID (ae_request_id ev) = true
    /\ (forall id, header_values canonicalRequestID (rq_headers (hr_request r)) = [id] -> validRequestID id = true -> ae_request_id ev = id)
    /\ ae_status ev = responseStatus (en_exchange (w_store w')) /\ ae_level ev = access_level (ae_status ev)
    /\ ae_method ev = hr_method r
    /\ ae_route ev = match route_of config r with Some ((_ :: _) as pattern, _) => pattern | _ => &"unmatched" end.
Proof.
  assert (keeps logged_view (final_handler config r)) as Hk.
  { unfold final_handler. destruct (route_of config r) as [[pattern id]|]; [|done]. case_match; [apply handle_keeps|done]. }
  set (w0 := World (w_tick w) (set_exchange (start_exchange config r) (w_store w))).
  assert (exists tracing, match rc_tracer config with Some t => tracingMiddleware TraceContext t (rc_propagator config) | None => fun next => next end
    = match tracing with Some (t, p) => tracingMiddleware (S := S) TraceContext t p | None => fun next => next end) as [tracing Et].
  { destruct (rc_tracer config) as [t|]; [by exists (Some (t, rc_propagator config))|by exists None]. }
  destruct (chain_ok (rc_auth config) tracing (rc_metrics config) _ Hk) as [Hs Hi]. rewrite <- Et in Hs, Hi.
  destruct (observability_logs _ w0 Hs Hi) as (w' & ev & Hr & Hlog & Hh & Hv & Hp & Hst & Hl & Hm & Hro).
  destruct (ServeHTTP_run config r w w' Hr) as (w'' & Hrun & Hw).
  assert (proposed_id (start_exchange config r)
      = match header_values canonicalRequestID (rq_headers (hr_request r)) with
        | [value] => if validRequestID value then Some value else None | _ => None end) as Hprop.
  { unfold start_exchange. by destruct (route_of config r) as [[? ?]|]. }
  exists w'', ev.
  assert (en_log (w_store w'') = en_log (w_store w') /\ x_headers (en_exchange (w_store w'')) = x_headers (en_exchange (w_store w'))
    /\ x_status (en_exchange (w_store w'')) = x_status (en_exchange (w_store w'))) as (E1 & E2 & E3).
  { destruct Hw as [->|(_ & _ & E404 & ->)]; [done|]. by rewrite E404. }
  rewrite E1, E2. unfold responseStatus in *. rewrite E3. split_and!; try done.
  - intros id Eid Hid. apply Hp. change (en_exchange (w_store w0)) with (start_exchange config r). by rewrite Hprop, Eid, Hid.
  - rewrite Hm. change (en_exchange (w_store w0)) with (start_exchange config r). unfold start_exchange.
    by destruct (route_of config r) as [[? ?]|].
  - rewrite Hro. change (en_exchange (w_store w0)) with (start_exchange config r). unfold start_exchange, matchedRoute.
    by destruct (route_of config r) as [[[|? ?] ?]|].
Qed.
End Facts.
