(* ===== verification/GuardFacts.v ===== *)
(** * The guard of the API: facts

    What it takes for a request to reach the items, what a refused one is told, and
    whom the handlers see. *)
From S2P Require Import Prelude GoText GoEncoding GoTime GoNet GoUnicode GoJson Sha256 Errors World Item Order Idempotency Auth RateLimit HttpApi.
From S2P Require Import HttpFacts Metrics Exchange Observability Security Router Frames RouterFacts.

(** ** Keys *)

Section Keys.
Context {H : Hash256}.

Definition key_char (b : byte) : bool := is_alnum b || in_set &":." b.

(** A key of the limiter: short and plain. *)
Definition plain_key (key : bytes) : Prop := key <> [] /\ (length key <= 100)%nat /\ forallb key_char key = true.

Lemma key_char_facts b :
  key_char b = true -> bz b < 0x80 /\ (is_control (bz b) || is_space (bz b)) = false.
Proof.
  revert b. apply (Forall_bytes_forall (fun b => key_char b = true -> bz b < 0x80 /\ (is_control (bz b) || is_space (bz b)) = false)).
  vm_compute. reflexivity.
Qed.

Lemma address_key_char b : address_char b = true -> key_char b = true.
Proof. revert b. apply (Forall_bytes_forall (fun b => address_char b = true -> key_char b = true)). vm_compute. reflexivity. Qed.

Lemma anonymous_key_plain : plain_key anonymousRateKey.
Proof. split; [done|]. split; [vm_compute; lia|by vm_compute]. Qed.

Lemma client_key_plain x : plain_key (clientRateKey x).
Proof.
  unfold clientRateKey. destruct (x_request x) as [r|]; [|apply anonymous_key_plain].
  destruct (ip_string _) as [text|] eqn:E; [|apply anonymous_key_plain]. apply ip_string_short in E as [[Hl Hc] _].
  split; [done|]. split; [rewrite length_app; vm_compute (length addressKeyPrefix); lia|].
  rewrite forallb_app. apply andb_true_iff. split; [by vm_compute|]. revert Hc. rewrite !forallb_forall.
  intros Hc b Hb. by apply address_key_char, Hc.
Qed.

(** Printable ASCII without spaces. *)
Lemma plain_text s : forallb key_char s = true -> ascii s /\ has_rune (fun r => is_control r || is_space r) s = false.
Proof.
  intros Hc. rewrite forallb_forall in Hc.
  assert (ascii s) as Ha by (apply Forall_forall; intros b Hb%list_elem_of_In%Hc; by apply key_char_facts in Hb as [? _]).
  split; [done|]. unfold has_rune. rewrite runes_ascii by done. apply not_true_is_false. rewrite existsb_exists.
  intros (rc & Hin%list_elem_of_In & Hf). apply list_elem_of_fmap in Hin as (b & -> & Hb%list_elem_of_In%Hc).
  apply key_char_facts in Hb as [_ Hb]. cbn [fst] in Hf. by rewrite Hf in Hb.
Qed.

Lemma has_rune_weaken (f g : Z -> bool) s : (forall r, f r = true -> g r = true) -> has_rune g s = false -> has_rune f s = false.
Proof.
  intros Hfg Hg. apply not_true_is_false. unfold has_rune in *. rewrite existsb_exists. intros (rc & Hin & Hf).
  assert (existsb (fun rc => g rc.1) (runes s) = true) as Ht; [|by rewrite Hg in Ht]. apply existsb_exists. eauto.
Qed.

(** The limiter accepts the key. *)
Lemma plain_key_valid key : plain_key key -> validKey key = true.
Proof.
  intros (Hne & Hl & Hc). destruct (plain_text key Hc) as [Ha Hr]. unfold validKey.
  rewrite bool_decide_false, (proj2 (Z.ltb_ge _ _)), ValidString_ascii, Hr by (done || (unfold MaxKeyBytes; lia)). done.
Qed.

(** The scope of a key is stored as it is. *)
Lemma plain_scope key c :
  plain_key key ->
  WithIdempotencyScope (Some c) (idempotencyScopePrefix ++ key) = Some (with_value c (ScopeValue (idempotencyScopePrefix ++ key))).
Proof.
  intros (Hne & Hl & Hc).
  assert (ascii (idempotencyScopePrefix ++ key) /\ has_rune (fun r => is_control r || is_space r) (idempotencyScopePrefix ++ key) = false)
    as [Ha Hr] by (apply plain_text; by rewrite forallb_app, Hc).
  unfold WithIdempotencyScope. rewrite bool_decide_false by done. cbn [orb].
  rewrite (proj2 (Z.ltb_ge _ _)) by (rewrite length_app; vm_compute (length idempotencyScopePrefix); lia). cbn [orb].
  rewrite ValidString_ascii by done. cbn [orb negb].
  rewrite (has_rune_weaken is_control (fun r => is_control r || is_space r)) by (done || by intros r ->). done.
Qed.

Lemma principal_key_plain subject : plain_key (principalRateKey subject).
Proof.
  unfold principalRateKey. set (d := arr_bytes (Sum256 subject)).
  assert (length d = 32%nat) as Hd by apply arr_length. split; [done|]. split.
  - rewrite length_app, hex_encode_length, Hd. vm_compute. lia.
  - rewrite forallb_app. apply andb_true_iff. split; [by vm_compute|]. apply forallb_forall. intros b Hb%list_elem_of_In.
    pose proof (hex_encode_chars d) as Hc. rewrite Forall_forall in Hc. apply Hc in Hb as (z & Hz & ->). clear -Hz. revert z Hz.
    apply (range_forall 0 16 (fun z => key_char (hex_digit z))). vm_compute. reflexivity.
Qed.
End Keys.

(** ** Views *)

Section Facts.
Context {U : Unicode} {H : Hash256} {S : Type}.

(** What the guard reads of a request, its context apart. *)
Definition request_facts (r : http_request) : bytes * list (bytes * list bytes) * option (bytes * bytes) :=
  (hr_remote_addr r, rq_headers (hr_request r), rq_url (hr_request r)).

(** What the middlewares around the guard leave alone on the way in. *)
Definition inner_state : Type := option (bytes * list (bytes * list bytes) * option (bytes * bytes)) * S * option Limiter.
Definition inner_view (e : engine S) : inner_state :=
  (request_facts <$> x_request (en_exchange e), en_items e, en_limiter e).

(** What they leave alone on the way out. *)
Definition outer_state : Type := Z * option payload * list (bytes * bytes) * S * option Limiter.
Definition outer_view (e : engine S) : outer_state :=
  (x_status (en_exchange e), x_body (en_exchange e), x_headers (en_exchange e), en_items e, en_limiter e).

Lemma inner_with_context ctx r e :
  x_request (en_exchange e) = Some r ->
  inner_view (set_exchange (set_request (Some (with_context ctx r)) (en_exchange e)) e) = inner_view e.
Proof. intros E. unfold inner_view. cbn. by rewrite E. Qed.

Context (range : gmap bytes bucket -> list (bytes * bucket)).
Context (sysnow : nat -> time) (new_uuid : nat -> uuid) (body_size : payload -> Z) (broken_pipe : error -> bool).
Context (TraceContext : propagator).

(** The chain around the guard: conditions on the views pass through it. *)
Section Chain.
Context (P : inner_state -> Prop) (Q : outer_state -> Prop) (guarded : M (engine S) unit).
Context (Hg : triple (fun e => P (inner_view e)) guarded (fun e => Q (outer_view e))).

Lemma recovery_triple : triple (fun e => P (inner_view e)) (sanitizedRecovery broken_pipe guarded) (fun e => Q (outer_view e)).
Proof.
  unfold sanitizedRecovery. eapply triple_attempt_bind; [exact Hg|]. intros []. apply (triple_keeps outer_view Q); frame.
Qed.

Lemma metrics_triple m next :
  triple (fun e => P (inner_view e)) next (fun e => Q (outer_view e)) ->
  triple (fun e => P (inner_view e)) (metricsMiddleware sysnow m next) (fun e => Q (outer_view e)).
Proof.
  intros Hn. unfold metricsMiddleware.
  eapply triple_bind; [apply (triple_keeps inner_view P); frame|intros started].
  eapply triple_bind; [apply (triple_keeps inner_view P); frame|intros x].
  eapply triple_bind; [apply (triple_keeps inner_view P); [apply on_metrics_safe, Track_safe|frame]|intros completion].
  eapply (triple_attempt_bind _ (fun e => Q (outer_view e))).
  - eapply triple_bind; [exact Hn|intros []]. apply (triple_keeps outer_view Q); [|frame].
    apply safe_bind; [frame|intros ?]. apply safe_bind; [frame|intros ?]. apply on_metrics_safe, Observe_safe.
  - intros []. unfold of_result. apply (triple_keeps outer_view Q).
    + apply safe_bind; [apply on_metrics_safe, complete_safe|intros ?; apply (safe_ret tt)].
    + apply keeps_bind; [frame|done].
Qed.

Lemma tracing_triple start propagate next :
  triple (fun e => P (inner_view e)) next (fun e => Q (outer_view e)) ->
  triple (fun e => P (inner_view e)) (tracingMiddleware TraceContext start propagate next) (fun e => Q (outer_view e)).
Proof.
  intros Hn. unfold tracingMiddleware. apply triple_get_x. intros x.
  destruct (x_request x) as [r|] eqn:Er; [|eapply triple_weaken; [| |exact Hn]; [by intros e [? _]|done]].
  eapply triple_bind; [|intros span].
  { apply (triple_keeps (fun e => (inner_view e, en_exchange e)) (fun v => P v.1 /\ v.2 = x)); frame. }
  eapply triple_bind; [apply (triple_keeps (fun e => (inner_view e, en_exchange e)) (fun v => P v.1 /\ v.2 = x)); frame|intros _].
  eapply triple_bind; [apply (triple_change_x _ (fun e => P (inner_view e)))|intros _].
  { cbn [fst snd]. intros e [Hp <-]. by rewrite inner_with_context. }
  eapply triple_bind; [exact Hn|intros []]. apply (triple_keeps outer_view Q); frame.
Qed.

Lemma observability_triple next :
  triple (fun e => P (inner_view e)) next (fun e => Q (outer_view e)) ->
  triple (fun e => P (inner_view e)) (observabilityMiddleware sysnow new_uuid body_size next) (fun e => Q (outer_view e)).
Proof.
  intros Hn. unfold observabilityMiddleware.
  eapply triple_bind; [apply (triple_keeps inner_view P); frame|intros started].
  eapply triple_bind; [apply (triple_keeps inner_view P); frame|intros x].
  eapply triple_bind; [apply (triple_keeps inner_view P)|intros id].
  { intros w. destruct (requestIDFor_run new_uuid x w) as (id & tick & -> & _). by exists id. }
  { intros w. by destruct (requestIDFor_run new_uuid x w) as (id & tick & -> & _). }
  eapply triple_bind; [apply (triple_keeps inner_view P); frame|intros _].
  eapply triple_bind; [apply (triple_keeps inner_view P); unfold Header; frame|intros _].
  eapply triple_bind; [exact Hn|intros []]. apply (triple_keeps outer_view Q); frame.
Qed.
End Chain.

Lemma chain_triple P Q auth metrics tracing propagate limiter next :
  triple (fun e => P (inner_view e)) (apiSecurityMiddleware range auth next) (fun e => Q (outer_view e)) ->
  triple (fun e => P (inner_view e))
    (chain range sysnow new_uuid body_size broken_pipe TraceContext (mkRouterConfig metrics tracing propagate auth limiter) next)
    (fun e => Q (outer_view e)).
Proof.
  intros Hg. unfold chain. cbn [rc_tracer rc_propagator rc_metrics rc_auth].
  apply observability_triple. pose proof (recovery_triple P Q _ Hg) as Hr.
  destruct metrics as [m|]; [apply (metrics_triple P Q (Some m)) in Hr|];
    (destruct tracing as [t|]; [by apply tracing_triple|done]).
Qed.

(** ** The limiter's answer *)

Lemma nat_digits_nonempty fuel n acc : (fuel <> 0%nat \/ acc <> []) -> nat_digits fuel n acc <> [].
Proof.
  revert n acc. induction fuel as [|fuel IH]; intros n acc; cbn [nat_digits]; [by intros [|]|].
  intros _. case_match; [done|]. apply IH. by right.
Qed.

Lemma Itoa_nonempty n : Itoa n <> [].
Proof. unfold Itoa. case_match; [done|]. apply nat_digits_nonempty. by left. Qed.

Lemma Allow_total key w : exists d w', Allow range key w = (Ok d, w').
Proof.
  unfold Allow, AllowN, bind, load, ret. destruct (w_store w) as [l|]; [|by do 2 eexists].
  case_match; [by do 2 eexists|]. case_match; [by do 2 eexists|]. unfold observe.
  destruct (allowLocked range l _ key 1) as [d l']. by do 2 eexists.
Qed.

(** What a limited client is told. *)
Definition limited_response (d : Decision) (x : exchange) : Prop :=
  x_status x = 429 /\ x_body x = Some (ApiBody (ErrorBody &"rate_limited" &"request rate limit exceeded"))
  /\ header_value &"Retry-After" (x_headers x) = Some (Itoa (retryAfterSeconds (RetryAfter d)))
  /\ header_value &"RateLimit-Remaining" (x_headers x) = Some &"0".

Lemma reset_header_run d (w : world (engine S)) :
  exists hs, reset_header d w = (Ok tt, World (w_tick w) (set_exchange (set_headers hs (en_exchange (w_store w))) (w_store w)))
    /\ (forall key, key <> &"RateLimit-Reset" -> header_value key hs = header_value key (x_headers (en_exchange (w_store w)))).
Proof.
  unfold reset_header. destruct (IsZero (Reset_ d)).
  - exists (x_headers (en_exchange (w_store w))). split; [|done]. destruct w as [t [i l m lg sp [r fp id st hs b]]]. done.
  - exists (put_header &"RateLimit-Reset" (Itoa (Unix (Reset_ d))) (x_headers (en_exchange (w_store w)))).
    split; [reflexivity|]. intros key Hk. by apply put_header_other.
Qed.

(** The limiter decides; its answer is all that changes. *)
Lemma allow_run key (w : world (engine S)) l :
  en_limiter (w_store w) = Some l ->
  exists d w1 e', Allow range key (World (w_tick w) (Some l)) = (Ok d, w1)
    /\ allowSecurityRequest range key w = (Ok (Allowed d), World (w_tick w1) e')
    /\ en_limiter e' = w_store w1 /\ en_items e' = en_items (w_store w)
    /\ x_request (en_exchange e') = x_request (en_exchange (w_store w))
    /\ (Allowed d = false -> limited_response d (en_exchange e')).
Proof.
  intros El. destruct (Allow_total key (World (w_tick w) (Some l))) as (d & w1 & Ha). exists d, w1.
  unfold allowSecurityRequest. unfold bind at 1, load at 1. rewrite El.
  unfold bind at 1, on_limiter, zoom. rewrite El, Ha. destruct (Allowed d) eqn:Ed.
  - unfold bind at 1, Header at 1. rewrite change_x_run. cbn [w_tick w_store].
    match goal with |- context [(bind (reset_header d) ?k) ?w2] =>
      destruct (reset_header_run d w2) as (hs & Hr & _); unfold bind at 1; rewrite Hr end.
    eexists. split_and!; [done|reflexivity|done..].
  - unfold bind at 1, Header at 1. rewrite change_x_run. unfold bind at 1, Header at 1. rewrite change_x_run. cbn [w_tick w_store].
    match goal with |- context [(bind (reset_header d) ?k) ?w2] =>
      destruct (reset_header_run d w2) as (hs & Hr & Hh); unfold bind at 1; rewrite Hr end.
    unfold bind at 1, writeSecurityError at 1, bind at 1, Header, JSON. rewrite !change_x_run.
    eexists. split_and!; [done|reflexivity|done|done|done|]. intros _. unfold limited_response.
    cbn [w_store en_exchange set_exchange x_status x_body x_headers set_response set_headers en_limiter set_limiter] in *.
    split_and!; [done|done| |].
    + rewrite put_header_other, Hh by done. rewrite put_header_other by done. by apply put_header_same, Itoa_nonempty.
    + rewrite put_header_other, Hh by done. by apply put_header_same.
Qed.

(** The request on its way, its scope attached. *)
Definition scoped_request (key : bytes) (c : context) (r : http_request) : http_request :=
  with_context (Some (with_value c (ScopeValue (idempotencyScopePrefix ++ key)))) r.

Lemma admission_run key next (w : world (engine S)) r c :
  plain_key key -> x_request (en_exchange (w_store w)) = Some r -> rq_context (hr_request r) = Some c ->
  admission range key next w
  = if_allowed range key next
      (World (w_tick w) (set_exchange (set_request (Some (scoped_request key c r)) (en_exchange (w_store w))) (w_store w))).
Proof.
  intros Hk Hr Hc. unfold admission, bind at 1, get_x, bind at 1, load at 1, ret at 1. cbn [fst snd]. rewrite Hr.
  unfold bind at 1. by rewrite change_x_run, Hc, plain_scope.
Qed.

(** C27: Admission under a key: without a limiter, or when it allows, the handler runs on
    the same request with the key as its idempotency scope; when it denies, the handler
    does not run, the items are untouched, and the client is told 429 with the time to
    wait. In both cases the limiter has made exactly this one decision. *)
Theorem Admission key next (w : world (engine S)) r c :
  plain_key key -> x_request (en_exchange (w_store w)) = Some r -> rq_context (hr_request r) = Some c ->
  match en_limiter (w_store w) with
  | None =>
    exists w', admission range key next w = next w' /\ x_request (en_exchange (w_store w')) = Some (scoped_request key c r)
      /\ en_items (w_store w') = en_items (w_store w)
  | Some l =>
    exists d w1 w', Allow range key (World (w_tick w) (Some l)) = (Ok d, w1)
      /\ en_limiter (w_store w') = w_store w1 /\ en_items (w_store w') = en_items (w_store w)
      /\ x_request (en_exchange (w_store w')) = Some (scoped_request key c r)
      /\ (Allowed d = true -> admission range key next w = next w')
      /\ (Allowed d = false -> admission range key next w = (Ok tt, w') /\ limited_response d (en_exchange (w_store w')))
  end.
Proof.
  intros Hk Hr Hc. rewrite (admission_run key next w r c) by done. set (w0 := World (w_tick w) _). unfold if_allowed, bind.
  destruct (en_limiter (w_store w)) as [l|] eqn:El.
  - destruct (allow_run key w0 l El) as (d & w1 & e' & Ha & Hrun & Hl & Hi & Hx & Hd). rewrite Hrun.
    exists d, w1, (World (w_tick w1) e'). split_and!; [done|done|done|done| |].
    + by intros ->.
    + intros E. rewrite E. auto.
  - exists w0. unfold allowSecurityRequest, bind, load. cbn [w_store]. by replace (en_limiter (w_store w0)) with (@None Limiter).
Qed.

(** ** Refused credentials *)

Lemma bind_run {T A B} (m : M T A) (k : A -> M T B) w a w' : m w = (Ok a, w') -> bind m k w = k a w'.
Proof. unfold bind. by intros ->. Qed.

(** An answer that refuses a request and leaves the items as [I]: 401 with a challenge,
    or 429. *)
Definition refused (I : S) (v : outer_state) : Prop :=
  let '(status, body, hs, items, _) := v in
  items = I
  /\ ((status = 401 /\ body = Some (ApiBody (ErrorBody &"unauthorized" &"valid bearer credentials are required"))
        /\ header_value &"WWW-Authenticate" hs = Some challengeHeaderValue)
      \/ (status = 429 /\ body = Some (ApiBody (ErrorBody &"rate_limited" &"request rate limit exceeded")))).

Lemma writeUnauthorized_triple I :
  triple (fun e => en_items e = I) writeUnauthorized (fun e => refused I (outer_view e)).
Proof.
  intros w Hi. unfold writeUnauthorized, writeSecurityError, Header, JSON, bind. rewrite !change_x_run. split; [by eexists|].
  split; [exact Hi|]. left. split_and!; [done|done|].
  etransitivity; [by apply put_header_other|]. by apply put_header_same.
Qed.

Lemma unauthorized_triple I :
  triple (fun e => en_items e = I) (if_allowed range anonymousRateKey writeUnauthorized) (fun e => refused I (outer_view e)).
Proof.
  intros w Hi. unfold if_allowed, bind. destruct (en_limiter (w_store w)) as [l|] eqn:El.
  - destruct (allow_run anonymousRateKey w l El) as (d & w1 & e' & _ & -> & _ & Hi' & _ & Hd).
    destruct (Allowed d); [apply writeUnauthorized_triple; exact (eq_trans Hi' Hi)|]. split; [by eexists|]. cbn [snd w_store].
    destruct (Hd eq_refl) as (H1 & H2 & _). split; [exact (eq_trans Hi' Hi)|]. by right.
  - unfold allowSecurityRequest, bind, load. rewrite El. cbn. by apply writeUnauthorized_triple.
Qed.

(** An authenticator that does not accept these headers. *)
Definition rejects (authenticate : Authenticator) (hs : list (bytes * list bytes)) : Prop :=
  forall ctx w, exists e, (authenticate ctx (Some hs) w).1 = Err e.

(** The condition of a request that comes with the headers [hs] for [path]. *)
Definition asks (hs : list (bytes * list bytes)) (path : option (bytes * bytes)) (I : S) (v : inner_state) : Prop :=
  let '(r, items, _) := v in (exists addr, r = Some (addr, hs, path)) /\ items = I.

Lemma guard_refuses authenticate hs path I next :
  rejects authenticate hs ->
  triple (fun e => asks hs path I (inner_view e)) (securityMiddleware range (Some authenticate) next)
    (fun e => refused I (outer_view e)).
Proof.
  intros Hrej. unfold securityMiddleware. apply triple_get_x. intros x. destruct (x_request x) as [r|] eqn:Er.
  - intros w [[[addr Hf] Hi] Hx]. cbv zeta. rewrite Hx, Er in Hf. injection Hf as _ Hhs _. rewrite Hhs.
    set (ctx := rq_context (hr_request r)). destruct (Hrej ctx (World (w_tick w) tt)) as [e He].
    assert (exists tick, attempt (on_outside (authenticate ctx (Some hs))) w = (Ok (Err e), World tick (w_store w))) as [tick Hrun].
    { unfold attempt, on_outside, zoom. destruct (authenticate _ _ _) as [verified w1]. cbn [fst] in He. subst verified. by eexists. }
    rewrite (bind_run _ _ _ _ _ Hrun). by apply (unauthorized_triple I (World tick (w_store w))).
  - eapply triple_weaken; [| |apply (unauthorized_triple I)]; [|done]. by intros e [[_ Hi] _].
Qed.

(** The bearer verifier rejects a request without its token, in every context. *)
Lemma bearer_rejects v hs :
  (forall token, ParseBearerToken (Some hs) = Ok token -> Sum256 token <> bs_digest v) ->
  rejects (Auth.Authenticate (Some v)) hs.
Proof.
  intros Ht ctx w. unfold Auth.Authenticate. destruct ctx as [c|]; [|by eexists].
  unfold bind, of_result. destruct (ctx_check c w) as [[[]|e] w1]; [|by eexists].
  match goal with |- context [ParseBearerToken ?h] => destruct (ParseBearerToken h) as [token|e] eqn:Ep; [|by eexists] end.
  destruct (ctx_check c w1) as [[[]|e] w2]; [|by eexists]. cbv zeta. unfold constantTimeDigestEqual.
  rewrite bool_decide_false by (intros ?%arr_eq; by eapply Ht). by eexists.
Qed.

(** ** The guarded router *)

Context (with_timeout : Z -> context -> context).
Context (uuid_parse : bytes -> option uuid).
Context (match_route : list (bytes * bytes * endpoint) -> bytes -> bytes -> option (bytes * bytes)).
Context (readiness : option (option context -> M unit unit)) (items : HttpApi.Handler (S := S)).

Abbreviation ServeHTTP :=
  (ServeHTTP range sysnow new_uuid body_size broken_pipe TraceContext with_timeout uuid_parse match_route readiness items).
Abbreviation final_handler := (final_handler uuid_parse with_timeout match_route readiness items).

Definition path_of (r : http_request) : bytes := match rq_url (hr_request r) with Some (path, _) => path | None => [] end.

(** Gin matches the literal part of a pattern literally: a versioned pattern is matched by
    versioned paths only. *)
Definition literal_prefixes : Prop :=
  forall rs method path pattern id,
    match_route rs method path = Some (pattern, id) -> isVersionedAPIPath pattern = true -> isVersionedAPIPath path = true.

(** The endpoints that touch the items are all registered under versioned patterns. *)
Lemma find_endpoint_versioned config method pattern e :
  find_endpoint config method pattern = Some e -> isVersionedAPIPath pattern = true \/ e ∈ [Liveness; Readiness; MetricsPage].
Proof.
  unfold find_endpoint. destruct (List.find _ (routes config)) as [[[m p] e']|] eqn:E; [|done]. cbn. intros [= <-].
  apply List.find_some in E as [Hin Hp]. cbn in Hp. bool_simpl. injection Hp as <- <-.
  unfold routes in Hin. rewrite !in_app_iff in Hin. destruct Hin as [Hin|[Hin|Hin]].
  - right. destruct Hin as [[= _ _ <-]|[[= _ _ <-]|[]]]; set_solver.
  - right. destruct (rc_metrics config); [|done]. destruct Hin as [[= _ _ <-]|[]]. set_solver.
  - left. destruct Hin as [[= _ <- _]|[[= _ <- _]|[[= _ <- _]|[]]]]; by vm_compute.
Qed.

Lemma operational_keeps config e :
  e ∈ [Liveness; Readiness; MetricsPage] ->
  safe (handle with_timeout uuid_parse readiness items config e)
  /\ keeps en_items (handle with_timeout uuid_parse readiness items config e).
Proof.
  intros He. unfold handle, readiness_handler, healthy, JSON.
  rewrite !elem_of_cons in He. destruct He as [->|[->|[->|[]%elem_of_nil]]]; split; frame.
Qed.

Lemma unversioned_final config r :
  literal_prefixes -> isVersionedAPIPath (path_of r) = false ->
  safe (final_handler config r) /\ keeps en_items (final_handler config r).
Proof.
  intros Hlit Hp. unfold RouterFacts.final_handler. destruct (route_of match_route config r) as [[pattern id]|] eqn:Er; [|split; frame].
  destruct (find_endpoint config (hr_method r) pattern) as [e|] eqn:Ef; [|split; frame].
  apply find_endpoint_versioned in Ef as [Hv|He]; [|by apply operational_keeps].
  pose proof (Hlit _ _ _ _ _ Er Hv) as Ht. unfold path_of in Hp. congruence.
Qed.

Lemma start_asks config r (w : world (engine S)) :
  asks (rq_headers (hr_request r)) (rq_url (hr_request r)) (en_items (w_store w))
    (inner_view (set_exchange (start_exchange match_route config r) (w_store w))).
Proof.
  split; [|done]. exists (hr_remote_addr r). unfold start_exchange. by destruct (route_of match_route config r) as [[? ?]|].
Qed.

(** What becomes of a request without the token. *)
Lemma requests_guarded config v r (w : world (engine S)) :
  literal_prefixes -> rc_auth config = Some (Auth.Authenticate (Some v)) ->
  (forall token, ParseBearerToken (Some (rq_headers (hr_request r))) = Ok token -> Sum256 token <> bs_digest v) ->
  exists w', ServeHTTP config r w = (Ok tt, w') /\ en_items (w_store w') = en_items (w_store w)
    /\ (isVersionedAPIPath (path_of r) = true -> refused (en_items (w_store w)) (outer_view (w_store w'))).
Proof.
  intros Hlit Ha Ht. apply bearer_rejects in Ht. set (I := en_items (w_store w)).
  set (Pre := asks (rq_headers (hr_request r)) (rq_url (hr_request r)) I).
  set (w0 := World (w_tick w) (set_exchange (start_exchange match_route config r) (w_store w))).
  assert (forall Q, triple (fun e => Pre (inner_view e)) (apiSecurityMiddleware range (rc_auth config) (final_handler config r)) (fun e => Q (outer_view e)) ->
    exists w', chain range sysnow new_uuid body_size broken_pipe TraceContext config (final_handler config r) w0 = (Ok tt, w')
      /\ Q (outer_view (w_store w'))) as Hchain.
  { intros Q Hq. destruct config as [m t p a l]. cbn [rc_auth] in Hq.
    destruct (chain_triple Pre Q a m t p l _ Hq w0) as [[[] Hok] Hpost]; [apply start_asks|].
    destruct (chain _ _ _ _ _ _ _ _ w0) as [res w']. cbn in Hok, Hpost. subst res. eauto. }
  destruct (isVersionedAPIPath (path_of r)) eqn:Ev.
  - destruct (Hchain (refused I)) as (w' & Hrun & Hq).
    { unfold apiSecurityMiddleware. apply triple_get_x. intros x. rewrite Ha.
      intros w1 [[[addr Hf] Hi] Hx]. rewrite Hx in Hf. destruct (x_request x) as [q|] eqn:Eq; [|done].
      injection Hf as Haddr Hhs Hurl. cbn [mbind option_bind]. unfold path_of in Ev. rewrite Hurl.
      destruct (rq_url (hr_request r)) as [[path raw]|] eqn:Eu; [|done]. rewrite Ev.
      apply (guard_refuses _ _ (Some (path, raw)) I _ Ht). unfold inner_view. rewrite Hx, Eq.
      split; [|done]. exists addr. unfold request_facts. cbn. by rewrite Haddr, Hhs, Hurl. }
    destruct (ServeHTTP_run range sysnow new_uuid body_size broken_pipe TraceContext uuid_parse with_timeout
      match_route readiness items config r w w' Hrun) as (w'' & Hserve & [->|(_ & Hb & _)]).
    + exists w'. split; [done|]. destruct Hq as [Hi Hq]. split; [done|]. by split.
    + destruct Hq as [_ [(_ & Hb' & _)|(_ & Hb')]]; rewrite Hb in Hb'; done.
  - destruct (Hchain (fun v => v.1.2 = I)) as (w' & Hrun & Hq).
    { unfold apiSecurityMiddleware. apply triple_get_x. intros x.
      destruct (unversioned_final config r Hlit Ev) as [Hs Hk].
      intros w1 [[[addr Hf] Hi] Hx]. rewrite Hx in Hf. destruct (x_request x) as [q|] eqn:Eq; [|done].
      injection Hf as Haddr Hhs Hurl. cbn [mbind option_bind]. unfold path_of in Ev. rewrite Hurl.
      destruct (rq_url (hr_request r)) as [[path raw]|] eqn:Eu; [rewrite Ev|];
        (split; [apply Hs|]; cbn; by rewrite Hk). }
    destruct (ServeHTTP_run range sysnow new_uuid body_size broken_pipe TraceContext uuid_parse with_timeout
      match_route readiness items config r w w' Hrun) as (w'' & Hserve & [->|(_ & _ & _ & Est)]).
    + exists w'. by split_and!.
    + exists w''. split_and!; [done| |done]. by rewrite Est.
Qed.

(** C3: No item is read or changed for a request without the configured bearer token: when
    a verifier is configured and the Authorization header holds no token with its
    digest, the items stay as they are whatever the path, and a request under the
    versioned API, known route or not, is refused with 401 and a challenge, or
    with 429. *)
Theorem Items_guarded config v r (w : world (engine S)) :
  literal_prefixes -> rc_auth config = Some (Auth.Authenticate (Some v)) ->
  (forall token, ParseBearerToken (Some (rq_headers (hr_request r))) = Ok token -> Sum256 token <> bs_digest v) ->
  exists w', ServeHTTP config r w = (Ok tt, w') /\ en_items (w_store w') = en_items (w_store w)
    /\ (isVersionedAPIPath (path_of r) = true -> refused (en_items (w_store w)) (outer_view (w_store w'))).
Proof. apply requests_guarded. Qed.
End Facts.
