(* ===== verification/CallerFacts.v ===== *)
(** * Callers: facts

    Whom a handler sees behind the guard, how callers are kept apart by the keys of the
    limiter and of the idempotency records, and the time a limited client waits. *)
From S2P Require Import Prelude GoText GoEncoding GoTime GoUnicode GoJson Sha256 Errors World Item Order Idempotency Auth AuthFacts RateLimit HttpApi.
From S2P Require Import Metrics Exchange Observability Security Router Frames RouterFacts GuardFacts.

Section Facts.
Context {H : Hash256}.

(** ** Keys of callers *)

(** Who may be behind a request: an authenticated subject, or the peer of a connection. *)
Inductive caller := Subject_of (subject : bytes) | Peer_of (x : exchange).

Definition caller_key (c : caller) : bytes :=
  match c with Subject_of subject => principalRateKey subject | Peer_of x => clientRateKey x end.

Lemma caller_key_plain c : plain_key (caller_key c).
Proof. destruct c; [apply principal_key_plain|apply client_key_plain]. Qed.

Lemma principal_key_inj s1 s2 : principalRateKey s1 = principalRateKey s2 -> s1 = s2 \/ collision.
Proof. unfold principalRateKey. intros E%app_inv_head. by apply digest_hex_inj in E. Qed.

Lemma principal_not_peer s x : principalRateKey s <> clientRateKey x.
Proof. unfold principalRateKey, clientRateKey. repeat case_match; intros E; by injection E. Qed.

(** The storage key of an idempotent create behind the guard. *)
Definition caller_storage_key (c : caller) (ctx : context) (key : bytes) : bytes :=
  storageIdempotencyKey (Some (with_value ctx (ScopeValue (idempotencyScopePrefix ++ caller_key c)))) key.

Lemma caller_scope c ctx :
  IdempotencyScopeFromContext (Some (with_value ctx (ScopeValue (idempotencyScopePrefix ++ caller_key c))))
  = idempotencyScopePrefix ++ caller_key c.
Proof. done. Qed.

(** C22: Callers do not share idempotency records: the storage keys of two creates that came
    through the guard are equal only if the callers have the same key and sent the same
    idempotency key, short of a collision of the digest; and two subjects have the same
    key only if they are equal, a subject and an unauthenticated peer never. *)
Theorem Caller_isolation a b ctx1 ctx2 k1 k2 :
  ValidateIdempotencyKey k1 = Ok tt -> ValidateIdempotencyKey k2 = Ok tt ->
  caller_storage_key a ctx1 k1 = caller_storage_key b ctx2 k2 ->
  collision
  \/ (k1 = k2 /\ match a, b with
                | Subject_of s1, Subject_of s2 => s1 = s2
                | Peer_of x1, Peer_of x2 => clientRateKey x1 = clientRateKey x2
                | _, _ => False
                end).
Proof.
  intros [_ K1]%ValidateIdempotencyKey_Ok [_ K2]%ValidateIdempotencyKey_Ok E.
  unfold caller_storage_key, storageIdempotencyKey in E. rewrite !caller_scope in E.
  apply app_inv_head, digest_hex_inj in E as [E|?]; [|by left].
  assert (forall c, ValidString (idempotencyScopePrefix ++ caller_key c) = true) as Hv.
  { intros c. apply ValidString_ascii. destruct (caller_key_plain c) as (_ & _ & Hc).
    apply plain_text. by rewrite forallb_app, Hc. }
  apply storage_payload_inj in E as [E ->]; [|done..]. apply app_inv_head in E.
  destruct a as [s1|x1], b as [s2|x2]; cbn [caller_key] in E.
  - destruct (principal_key_inj s1 s2 E) as [->|?]; [by right|by left].
  - by apply principal_not_peer in E.
  - by symmetry in E; apply principal_not_peer in E.
  - by right.
Qed.

(** ** Whom the handlers see *)

Section Identity.
Context {S : Type} (range : gmap bytes bucket -> list (bytes * bucket)).

(** C14: An authenticated request reaches the handlers as its caller, and as nobody else:
    once the authenticator accepts the headers as those of a valid principal, the guard
    either runs the handlers on the same request, with that principal and the scope of
    its subject in the context, or answers 429 without running them; the items are
    untouched up to there. *)
Theorem Handler_identity authenticate next (w : world (engine S)) r c p tick :
  x_request (en_exchange (w_store w)) = Some r -> rq_context (hr_request r) = Some c ->
  authenticate (Some c) (Some (rq_headers (hr_request r))) (World (w_tick w) tt) = (Ok p, World tick tt) ->
  Auth.Validate p = Ok tt ->
  exists w' ctx r', x_request (en_exchange (w_store w')) = Some r' /\ rq_context (hr_request r') = Some ctx
    /\ request_facts r' = request_facts r /\ hr_method r' = hr_method r /\ rq_body (hr_request r') = rq_body (hr_request r)
    /\ PrincipalFromContext (Some ctx) = Some (clonePrincipal p)
    /\ IdempotencyScopeFromContext (Some ctx) = &"items:create:principal:" ++ hex_encode (arr_bytes (Sum256 (Subject p)))
    /\ en_items (w_store w') = en_items (w_store w)
    /\ (securityMiddleware range (Some authenticate) next w = next w'
        \/ (securityMiddleware range (Some authenticate) next w = (Ok tt, w') /\ x_status (en_exchange (w_store w')) = 429)).
Proof.
  intros Hr Hc Ha Hv. set (pc := clonePrincipal p). set (c1 := with_value c (PrincipalValue (Subject pc) (Scopes pc))).
  set (r1 := with_context (Some c1) r).
  set (w1 := World tick (set_exchange (set_request (Some r1) (en_exchange (w_store w))) (w_store w))).
  assert (securityMiddleware range (Some authenticate) next w = admission range (principalRateKey (Subject p)) next w1) as Hrun.
  { unfold securityMiddleware. rewrite (bind_run get_x _ w (en_exchange (w_store w)) w) by (by destruct w).
    rewrite Hr. cbv zeta. rewrite Hc.
    rewrite (bind_run (attempt (on_outside _)) _ w (Ok p) (World tick (w_store w))).
    2: { unfold attempt, on_outside, zoom. by rewrite Ha. }
    unfold ContextWithPrincipal. rewrite Hv. cbn [rbind]. by rewrite (bind_run _ _ _ _ _ (change_x_run _ _)). }
  rewrite Hrun. rewrite (admission_run range (principalRateKey (Subject p)) next w1 r1 c1); [|apply principal_key_plain|done|done].
  set (r2 := scoped_request (principalRateKey (Subject p)) c1 r1).
  set (w2 := World (w_tick w1) _).
  assert (PrincipalFromContext (rq_context (hr_request r2)) = Some pc) as Hp.
  { unfold r2, pc. destruct p as [s [[|? ?]|]]; done. }
  unfold if_allowed, bind. destruct (en_limiter (w_store w)) as [l|] eqn:El.
  - destruct (allow_run range (principalRateKey (Subject p)) w2 l El) as (d & w3 & e' & _ & Hallow & _ & Hi & Hx & Hd).
    rewrite Hallow. exists (World (w_tick w3) e'), (with_value c1 (ScopeValue (idempotencyScopePrefix ++ principalRateKey (Subject p)))), r2.
    split_and!; try done. destruct (Allowed d); [by left|]. right. split; [done|]. by apply Hd.
  - exists w2, (with_value c1 (ScopeValue (idempotencyScopePrefix ++ principalRateKey (Subject p)))), r2.
    split_and!; try done. left. unfold allowSecurityRequest, bind, load. cbn [w_store].
    by replace (en_limiter (w_store w2)) with (@None Limiter).
Qed.
End Identity.
End Facts.

(** ** The time to wait *)

(** The seconds of a Retry-After header cover the limiter's delay, by less than a second
    too much, and are at least one; no delay overflows. *)
Theorem Retry_after_covers d :
  d <= maxDuration ->
  1 <= retryAfterSeconds d <= 9223372037 /\ d <= retryAfterSeconds d * Second
  /\ (0 < d -> (retryAfterSeconds d - 1) * Second < d).
Proof.
  intros Hd. unfold retryAfterSeconds, maxDuration, Second in *. destruct (Z.leb_spec d 0); [lia|].
  assert (0 <= Z.quot d 1000000000 <= 9223372036) as Hq.
  { split; [by apply Z.quot_pos; lia|]. apply Z.lt_succ_r. apply Z.quot_lt_upper_bound; lia. }
  pose proof (Z.quot_rem' d 1000000000). pose proof (Z.rem_bound_pos d 1000000000 ltac:(lia) ltac:(lia)).
  destruct (Z.eqb_spec (Z.rem d 1000000000) 0) as [E|E]; cbn [negb].
  - destruct (Z.ltb_spec (Z.quot d 1000000000) 1); lia.
  - rewrite wrap64_small by (unfold int64_range; lia). destruct (Z.ltb_spec (Z.quot d 1000000000 + 1) 1); lia.
Qed.
