(* ===== verification/RouterScenario.v ===== *)
(** * A running router

    The router over the server of [HttpScenario], with a concrete matcher of paths: the
    properties of the chain are evaluated on it. *)
From S2P Require Import Prelude GoText GoEncoding GoUrl GoTime GoFloat GoUnicode Sha256 Errors World Item Idempotency Cursor Order Store Memory Service Scenario.
From S2P Require Import Auth AuthFacts RateLimit HttpApi HttpFacts Responses HttpScenario Metrics Exchange Observability Security Router Frames RouterFacts GuardFacts CallerFacts.

#[local] Existing Instance sha256_hash.
#[local] Instance sc_letters : Unicode := {| lower_letter r := r; upper_letter r := r |}.

Section RouterScenario.
Definition sc_items_path : bytes := &"/api/v1/items".

(** A registered path, or an item of the collection. *)
Definition sc_match (rs : list (bytes * bytes * endpoint)) (method path : bytes) : option (bytes * bytes) :=
  if existsb (fun r => bool_decide (r.1 = (method, path))) rs then Some (path, [])
  else if has_prefix path (sc_items_path ++ &"/") && existsb (fun r => bool_decide (r.1 = (method, sc_items_path ++ &"/:id"))) rs
  then Some (sc_items_path ++ &"/:id", drop 14 path)
  else None.

Lemma sc_literal : literal_prefixes sc_match.
Proof.
  intros rs method path pattern id. unfold sc_match. destruct (existsb _ rs); [by intros [= <- _]|].
  destruct (has_prefix path (sc_items_path ++ &"/")) eqn:Hp; [|done]. intros _ _. unfold isVersionedAPIPath.
  apply has_prefix_spec in Hp as [rest ->]. rewrite <- !app_assoc. apply orb_true_iff. right.
  exact (has_prefix_app &"/api/v1/" (&"items/" ++ rest)).
Qed.

Definition sc_verifier : BearerSHA256 := mkBearer (Sum256 wit_secret) (mkPrincipal &"ci" None).
Definition sc_limiter : Limiter := mkLimiter 5 (of_int 1) 10 0 RejectNew sc_clock ∅.
Definition sc_router : routerConfig :=
  configure [Some (WithMetrics (Some Metrics.New)); None; Some (WithAuthenticator (Some (Authenticate (Some sc_verifier))));
             Some (WithRateLimiter (Some sc_limiter))].

Definition sc_buckets (m : gmap bytes bucket) : list (bytes * bucket) := map_to_list m.
Definition sc_payload_size (p : payload) : Z := 2.
Definition sc_propagator : propagator := fun c _ => c.

(** A request without credentials, and one with the wrong ones. *)
Definition sc_get (authorization : list bytes) : http_request :=
  mkHttpRequest &"GET" &"192.0.2.7:5000"
    (mkRequest (Some background) [(&"Authorization", authorization)] (Some (sc_items_path, [])) [] None 0).

Definition sc_exchange (r : http_request) : exchange := mkExchange (Some r) sc_items_path None 200 [] None.
Definition sc_engine (r : http_request) : world (engine (option MemoryStore)) :=
  World 200 (mkEngine (w_store (sc_world 3)) (Some sc_limiter) [] [] [] (sc_exchange r)).

Definition sc_serve (r : http_request) :=
  ServeHTTP sc_buckets sc_clock sc_uuid sc_payload_size (fun _ => false) sc_propagator (fun _ c => c)
    sc_uuid_parse sc_match None (api sc_clock sc_service 0) sc_router r.
End RouterScenario.

(** With the right token the collection is listed; the fields of the shared state. *)
Example served_listing :
  (fun w => (x_status (en_exchange w), length (en_log w), length (en_metrics w)))
    (w_store (snd (sc_serve (sc_get [&"Bearer s3cr3t-T0ken=="]) (sc_engine (sc_get []))))) = (200, 1%nat, 4%nat).
Proof. vm_compute. reflexivity. Qed.

(** The entry of its access log counts the bytes of the JSON document. *)
Example served_bytes :
  let w := w_store (snd (sc_serve (sc_get [&"Bearer s3cr3t-T0ken=="]) (sc_engine (sc_get [])))) in
  exists raw, (b ← x_body (en_exchange w); payload_bytes b) = Some raw
    /\ ae_bytes <$> en_log w = [Z.of_nat (length raw)]
    /\ match read_body sc_uuid_parse raw with Some (ListBody items _) => length items = 3%nat | _ => False end.
Proof. cbv zeta. eexists. split; [vm_compute; reflexivity|]. split; vm_compute; reflexivity. Qed.

(** ** Witnesses *)

Example Items_guarded_witness :
  exists w', sc_serve (sc_get [&"Bearer another-token"]) (sc_engine (sc_get [])) = (Ok tt, w')
    /\ en_items (w_store w') = w_store (sc_world 3).
Proof.
  pose proof (Items_guarded sc_buckets sc_clock sc_uuid sc_payload_size (fun _ => false) sc_propagator (fun _ c => c)
    sc_uuid_parse sc_match None (api sc_clock sc_service 0) sc_router sc_verifier
    (sc_get [&"Bearer another-token"]) (sc_engine (sc_get []))) as Ht.
  destruct Ht as (w' & E & Hi & _).
  - exact sc_literal.
  - reflexivity.
  - intros token Htoken. vm_compute in Htoken. injection Htoken as <-.
    intros E. apply (f_equal arr_bytes) in E. revert E. vm_compute. discriminate.
  - exists w'. split; [exact E|exact Hi].
Defined.

Example Admission_witness :
  exists d w1, Allow sc_buckets &"ip:192.0.2.7" (World 200 (Some sc_limiter)) = (Ok d, w1).
Proof.
  pose proof (Admission sc_buckets &"ip:192.0.2.7" (ret tt) (sc_engine (sc_get [])) (sc_get []) background) as Ht.
  destruct Ht as (d & w1 & w' & E & _).
  - split; [discriminate|]. split; [apply Nat.leb_le; vm_compute; reflexivity|vm_compute; reflexivity].
  - reflexivity.
  - reflexivity.
  - exists d, w1. exact E.
Defined.

Example Caller_isolation_witness :
  collision \/ (sc_key = sc_key /\ &"alice" = &"alice").
Proof.
  apply (Caller_isolation (Subject_of &"alice") (Subject_of &"alice") background background sc_key sc_key);
    [vm_compute; reflexivity|vm_compute; reflexivity|reflexivity].
Defined.

Definition sc_authenticated : http_request := sc_get [&"Bearer s3cr3t-T0ken=="].

Example Handler_identity_witness :
  exists w' r' ctx, x_request (en_exchange (w_store (S := engine (option MemoryStore)) w')) = Some r' /\ rq_context (hr_request r') = Some ctx
    /\ PrincipalFromContext (Some ctx) = Some (mkPrincipal &"ci" None).
Proof.
  pose proof (Handler_identity sc_buckets (Authenticate (Some sc_verifier)) (ret tt) (sc_engine sc_authenticated)
    sc_authenticated background (mkPrincipal &"ci" None)) as Ht.
  specialize (Ht (w_tick (snd (@Authenticate sha256_hash unit (Some sc_verifier) (Some background)
    (Some (rq_headers (hr_request sc_authenticated))) (World 200 tt)))) eq_refl eq_refl).
  destruct Ht as (w' & ctx & r' & Hr & Hc & _ & _ & _ & Hp & _).
  - vm_compute. reflexivity.
  - vm_compute. reflexivity.
  - exists w', r', ctx. split; [exact Hr|]. split; [exact Hc|exact Hp].
Defined.

Example Retry_after_covers_witness : 1500000001 <= retryAfterSeconds 1500000001 * Second.
Proof. apply (Retry_after_covers 1500000001). discriminate. Defined.
