(* ===== verification/Server.v ===== *)
(** * The HTTP server (pkg/httpserver)

    The configuration of a server, and its life: one goroutine serves, sends its
    terminal error and closes the channel. [http.Server] is seen through the calls on
    it; a run is a sequence of steps of the goroutine and of its callers. *)
From S2P Require Import Prelude GoText GoTime GoNet Errors.

Definition defaultReadTimeout : Z := 10 * Second.
Definition defaultWriteTimeout : Z := 15 * Second.
Definition defaultIdleTimeout : Z := 60 * Second.
Definition defaultAddr : bytes := &":80".
Definition defaultShutdownTimeout : Z := 10 * Second.
Definition defaultMaxHeaderBytes : Z := 2 ^ 20.

(** [http.NotFoundHandler()], or a handler of the application. *)
Inductive handler (H : Type) := NotFoundHandler | Handler (h : H).
Arguments NotFoundHandler {H}.
Arguments Handler {H} _.

Section Options.
Context {H : Type}.

(** The fields of [http.Server] that are set. *)
Record http_server := mkHttpServer {
  hs_handler : handler H;
  hs_read : Z;
  hs_write : Z;
  hs_idle : Z;
  hs_addr : bytes;
  hs_max_header : Z;
  hs_read_header : Z;
}.

(** [sv_listener] is the address of an injected listener. *)
Record Server := mkServer {
  sv_server : http_server;
  sv_shutdownTimeout : Z;
  sv_listener : option bytes;
}.

(** ** Options *)

Definition Option : Type := Server -> Server.

Definition Listener (listener : option bytes) : Option := fun s =>
  match listener with Some _ => mkServer (sv_server s) (sv_shutdownTimeout s) listener | None => s end.

Definition Port (port : bytes) : Option := fun s =>
  let port := TrimSpace port in
  match Atoi port with
  | None => s
  | Some _ =>
    let h := sv_server s in
    mkServer (mkHttpServer (hs_handler h) (hs_read h) (hs_write h) (hs_idle h) (JoinHostPort &"" port) (hs_max_header h) (hs_read_header h))
      (sv_shutdownTimeout s) (sv_listener s)
  end.

Definition ReadTimeout (timeout : Z) : Option := fun s =>
  if 0 <? timeout then
    let h := sv_server s in
    mkServer (mkHttpServer (hs_handler h) timeout (hs_write h) (hs_idle h) (hs_addr h) (hs_max_header h) timeout)
      (sv_shutdownTimeout s) (sv_listener s)
  else s.

Definition WriteTimeout (timeout : Z) : Option := fun s =>
  if 0 <? timeout then
    let h := sv_server s in
    mkServer (mkHttpServer (hs_handler h) (hs_read h) timeout (hs_idle h) (hs_addr h) (hs_max_header h) (hs_read_header h))
      (sv_shutdownTimeout s) (sv_listener s)
  else s.

Definition IdleTimeout (timeout : Z) : Option := fun s =>
  if 0 <? timeout then
    let h := sv_server s in
    mkServer (mkHttpServer (hs_handler h) (hs_read h) (hs_write h) timeout (hs_addr h) (hs_max_header h) (hs_read_header h))
      (sv_shutdownTimeout s) (sv_listener s)
  else s.

Definition ShutdownTimeout (timeout : Z) : Option := fun s =>
  if 0 <? timeout then mkServer (sv_server s) timeout (sv_listener s) else s.

(** A nil handler is [None]. *)
Definition New (handler : option H) (opts : list (option Option)) : Server :=
  let handler := match handler with Some h => Handler h | None => NotFoundHandler end in
  let s := mkServer
    (mkHttpServer handler defaultReadTimeout defaultWriteTimeout defaultIdleTimeout defaultAddr defaultMaxHeaderBytes defaultReadTimeout)
    defaultShutdownTimeout None in
  fold_left (fun s opt => match opt with Some f => f s | None => s end) opts s.

(** The timeout of [Shutdown]. *)
Definition shutdown_timeout (s : Server) : Z :=
  if sv_shutdownTimeout s <=? 0 then defaultShutdownTimeout else sv_shutdownTimeout s.

(** [ShutdownContext]: what is shut down, if anything; a nil context is refused. *)
Definition ShutdownContext (s : option Server) (ctx : bool) (shutdown : result unit) : result unit :=
  match s with
  | None => Ok tt
  | Some _ => if ctx then shutdown else Err (Opaque &"httpserver: nil shutdown context")
  end.
Definition Shutdown (s : option Server) (shutdown : Z -> result unit) : result unit :=
  match s with None => Ok tt | Some v => ShutdownContext s true (shutdown (shutdown_timeout v)) end.

Definition Addr (s : option Server) : bytes :=
  match s with
  | None => []
  | Some s => match sv_listener s with Some a => a | None => hs_addr (sv_server s) end
  end.
End Options.
Arguments http_server : clear implicits.
Arguments Server : clear implicits.

(** ** The life of a server *)

(** Where the serving goroutine is. *)
Inductive stage := Idle | Serving | Sending (err : error) | Closing | Finished.

(** [rn_once] is the once of [Start]; the channel has room for one value; [rn_sent] and
    [rn_received] record what passed through it, a receive from the closed channel
    being [None]. *)
Record run := mkRun {
  rn_once : bool;
  rn_stage : stage;
  rn_buffer : list error;
  rn_closed : bool;
  rn_sent : list error;
  rn_received : list (option error);
}.

Definition initial : run := mkRun false Idle [] false [] [].

Definition Start (r : run) : run :=
  if rn_once r then r else mkRun true Serving (rn_buffer r) (rn_closed r) (rn_sent r) (rn_received r).

(** Start by a caller; serving ends with [err]; the goroutine sends and closes; a receive
    from [Notify]. *)
Inductive step : run -> run -> Prop :=
  | step_start r : step r (Start r)
  | step_serve r err :
      rn_stage r = Serving ->
      step r (mkRun (rn_once r) (Sending err) (rn_buffer r) (rn_closed r) (rn_sent r) (rn_received r))
  | step_send r err :
      rn_stage r = Sending err -> (length (rn_buffer r) < 1)%nat ->
      step r (mkRun (rn_once r) Closing (rn_buffer r ++ [err]) (rn_closed r) (rn_sent r ++ [err]) (rn_received r))
  | step_close r :
      rn_stage r = Closing -> rn_closed r = false ->
      step r (mkRun (rn_once r) Finished (rn_buffer r) true (rn_sent r) (rn_received r))
  | step_receive r err rest :
      rn_buffer r = err :: rest ->
      step r (mkRun (rn_once r) (rn_stage r) rest (rn_closed r) (rn_sent r) (rn_received r ++ [Some err]))
  | step_receive_closed r :
      rn_buffer r = [] -> rn_closed r = true ->
      step r (mkRun (rn_once r) (rn_stage r) [] true (rn_sent r) (rn_received r ++ [None])).

Definition reachable : run -> Prop := rtc step initial.

(** ** Facts *)

(** What a stage says of the channel. *)
Definition stage_ok (r : run) : Prop :=
  match rn_stage r with
  | Idle => rn_once r = false /\ rn_sent r = [] /\ rn_closed r = false
  | Serving | Sending _ => rn_once r = true /\ rn_sent r = [] /\ rn_closed r = false
  | Closing => rn_once r = true /\ (exists err, rn_sent r = [err]) /\ rn_closed r = false
  | Finished => rn_once r = true /\ (exists err, rn_sent r = [err]) /\ rn_closed r = true
  end.

(** What was received was sent: the values first, in order, then the closed channel. *)
Definition channel_ok (r : run) : Prop :=
  exists got closed_reads, rn_received r = (Some <$> got) ++ replicate closed_reads None
    /\ rn_sent r = got ++ rn_buffer r /\ (closed_reads <> 0%nat -> rn_closed r = true /\ rn_buffer r = []).

Lemma step_stage_ok r r' : stage_ok r -> step r r' -> stage_ok r'.
Proof.
  unfold stage_ok. intros Hs Hstep.
  destruct Hstep as [r|r err E|r err E Hl|r E Hc|r err rest E|r E Hc]; cbn [rn_stage rn_once rn_sent rn_closed] in *.
  - unfold Start. destruct (rn_once r) eqn:Eo; [by rewrite Eo|]. cbn. destruct (rn_stage r); naive_solver.
  - by rewrite E in Hs.
  - rewrite E in Hs. destruct Hs as (? & -> & ?). split_and!; [done|by exists err|done].
  - rewrite E in Hs. naive_solver.
  - done.
  - destruct (rn_stage r); naive_solver.
Qed.

Lemma step_channel_ok r r' : stage_ok r -> channel_ok r -> step r r' -> channel_ok r'.
Proof.
  intros Hs (got & k & Hr & Hsent & Hk) Hstep.
  destruct Hstep as [r|r err E|r err E Hl|r E Hc|r err rest E|r E Hc]; unfold channel_ok;
    cbn [rn_received rn_sent rn_buffer rn_closed].
  - unfold Start. destruct (rn_once r); exists got, k; auto.
  - exists got, k; auto.
  - exists got, k. unfold stage_ok in Hs. rewrite E in Hs. destruct Hs as (_ & Hn & Hopen). split_and!; [done| |].
    + by rewrite Hsent, app_assoc.
    + intros H0. destruct (Hk H0) as [Hc _]. congruence.
  - exists got, k. split_and!; [done|done|]. intros H0. destruct (Hk H0). congruence.
  - destruct k as [|k]; [|destruct (Hk ltac:(done)) as [_ Hn]; congruence].
    exists (got ++ [err]), 0%nat. split_and!; [|by rewrite Hsent, E, <- app_assoc|done].
    rewrite Hr. cbn [replicate]. by rewrite !app_nil_r, fmap_app.
  - exists got, (S k). split_and!; [|by rewrite Hsent, E|done].
    rewrite Hr, <- app_assoc. f_equal. clear. induction k as [|k IH]; [done|]. cbn. by rewrite IH.
Qed.

Lemma reachable_ok r : reachable r -> stage_ok r /\ channel_ok r.
Proof.
  intros Hr. apply (rtc_ind_r (R := step) (fun r => stage_ok r /\ channel_ok r) initial); [|intros r1 r2 _ Hstep [Hs Hc]|exact Hr].
  - split; [done|]. by exists [], 0%nat.
  - split; [by eapply step_stage_ok|by eapply step_channel_ok].
Qed.

(** The terminal error is delivered once: however Start, the goroutine and the readers
    of Notify interleave, at most one error is sent, a reader gets it at most once, and
    before any reader is told that the channel is closed. *)
Theorem Terminal_error_once r :
  reachable r ->
  (length (rn_sent r) <= 1)%nat
  /\ (rn_received r = [] \/ exists err k, rn_sent r = [err] /\ rn_received r = Some err :: replicate k None).
Proof.
  intros [Hs (got & k & Hr & Hsent & Hk)]%reachable_ok. unfold stage_ok in Hs.
  assert (rn_sent r = [] \/ exists err, rn_sent r = [err]) as Hone by (destruct (rn_stage r); naive_solver).
  split; [by destruct Hone as [->|[err ->]]; simpl; lia|]. rewrite Hr.
  destruct got as [|err got].
  - destruct k as [|k]; [by left|]. destruct (Hk ltac:(done)) as [Hc Hb]. rewrite Hb in Hsent.
    rewrite Hc, Hsent in Hs. destruct (rn_stage r); naive_solver.
  - right. destruct Hone as [E|[err' E]]; rewrite E in Hsent; [done|]. injection Hsent as -> Hg.
    symmetry in Hg. apply app_nil in Hg as [-> _]. by exists err, k.
Qed.

Lemma finished_step r r' : reachable r -> rn_stage r = Finished -> step r r' -> rn_stage r' = Finished.
Proof.
  intros [Hs _]%reachable_ok E Hstep. unfold stage_ok in Hs. rewrite E in Hs. destruct Hs as (Ho & _ & _).
  destruct Hstep as [x|x e Ex|x e Ex|x Ex|x e rest Ex|x Ex Hx]; simpl in *; try congruence.
  unfold Start. by rewrite Ho.
Qed.

(** C30: The server never gets stuck on its channel: once serving has ended, the goroutine
    runs to its end without a reader, by two steps of its own at most, and from then on
    every receive returns. *)
Theorem Terminal_error_delivered r err :
  reachable r -> rn_stage r = Sending err ->
  exists r1 r2, step r r1 /\ step r1 r2 /\ rn_stage r2 = Finished /\ rn_sent r2 = [err]
    /\ forall r3, rtc step r2 r3 -> exists r4, step r3 r4 /\ length (rn_received r4) = S (length (rn_received r3)).
Proof.
  intros Hreach E. destruct (reachable_ok r Hreach) as [Hs Hc]. pose proof Hs as Hs'. unfold stage_ok in Hs'. rewrite E in Hs'.
  destruct Hs' as (Ho & Hsent & Hcl). destruct Hc as (got & k & _ & Hg & _). rewrite Hsent in Hg.
  symmetry in Hg. apply app_nil in Hg as [_ Hb].
  pose (r1 := mkRun (rn_once r) Closing (rn_buffer r ++ [err]) (rn_closed r) (rn_sent r ++ [err]) (rn_received r)).
  pose (rf := mkRun (rn_once r1) Finished (rn_buffer r1) true (rn_sent r1) (rn_received r1)).
  assert (step r r1) as H1 by (apply (step_send r err E); rewrite Hb; simpl; lia).
  assert (step r1 rf) as H2 by (by apply (step_close r1)).
  assert (reachable rf) as Hf by (eapply rtc_r; [eapply rtc_r; [exact Hreach|exact H1]|exact H2]).
  exists r1, rf. split; [exact H1|]. split; [exact H2|]. split; [done|]. split; [simpl; by rewrite Hsent|].
  intros r3 H3.
  assert (rn_stage r3 = Finished) as E3.
  { apply (rtc_ind_r (R := step) (fun r => reachable r /\ rn_stage r = Finished) rf); [done| |exact H3].
    intros ra rb _ Hstep [Hra Ea]. split; [by eapply rtc_r|by eapply finished_step]. }
  assert (reachable r3) as [Hs3 _]%reachable_ok by (exact (rtc_ind_r (R := step) reachable rf Hf (fun y z _ Hyz Hy => rtc_r _ _ _ Hy Hyz) r3 H3)).
  unfold stage_ok in Hs3. rewrite E3 in Hs3. destruct Hs3 as (_ & _ & Hc3).
  destruct (rn_buffer r3) as [|err' rest] eqn:Eb.
  - eexists. split; [by apply step_receive_closed|]. simpl. rewrite length_app. simpl. lia.
  - eexists. split; [by eapply step_receive|]. simpl. rewrite length_app. simpl. lia.
Qed.

(** A run in which Start is called twice, serving fails and two readers ask. *)
Definition sample_run : run := mkRun true Finished [] true [Opaque &"bind"] [Some (Opaque &"bind"); None].

Lemma sample_sending : reachable (mkRun true (Sending (Opaque &"bind")) [] false [] []).
Proof.
  eapply rtc_r; [eapply rtc_r; [eapply rtc_r; [apply rtc_refl|apply (step_start initial)]|]|].
  - exact (step_start (mkRun true Serving [] false [] [])).
  - exact (step_serve (mkRun true Serving [] false [] []) (Opaque &"bind") eq_refl).
Qed.

Lemma sample_reachable : reachable sample_run.
Proof.
  eapply rtc_r; [eapply rtc_r; [eapply rtc_r; [eapply rtc_r; [exact sample_sending|]|]|]|].
  - apply (step_send _ (Opaque &"bind")); [done|simpl; lia].
  - by apply step_close.
  - by apply (step_receive (mkRun true Finished [Opaque &"bind"] true [Opaque &"bind"] []) (Opaque &"bind") []).
  - exact (step_receive_closed (mkRun true Finished [] true [Opaque &"bind"] [Some (Opaque &"bind")]) eq_refl eq_refl).
Qed.

Lemma Terminal_error_once_witness :
  reachable sample_run
  /\ (length (rn_sent sample_run) <= 1)%nat
  /\ (rn_received sample_run = [] \/ exists err k, rn_sent sample_run = [err] /\ rn_received sample_run = Some err :: replicate k None).
Proof. split; [exact sample_reachable|]. exact (Terminal_error_once sample_run sample_reachable). Defined.

Lemma Terminal_error_delivered_witness :
  let r := mkRun true (Sending (Opaque &"bind")) [] false [] [] in
  exists r1 r2, step r r1 /\ step r1 r2 /\ rn_stage r2 = Finished /\ rn_sent r2 = [Opaque &"bind"]
    /\ forall r3, rtc step r2 r3 -> exists r4, step r3 r4 /\ length (rn_received r4) = S (length (rn_received r3)).
Proof. exact (Terminal_error_delivered _ (Opaque &"bind") sample_sending eq_refl). Defined.
