(* ===== verification/App.v ===== *)
(** * The composition root (internal/app/app.go)

    [RunContext] builds the tracing provider, the database pool, the router and the
    server from the configuration, waits, and releases what it built. What it asks of
    the outside is a trace of calls answered by an oracle; what the server serves is
    the [routing] value that its handler closes over. *)
From S2P Require Import Prelude GoText GoTime GoFloat GoUnicode Sha256 Errors World Trace Cursor Auth RateLimit Metrics Security Observability Router Telemetry Config Server.

Definition databaseStartupTimeout : Z := 10 * Second.
Definition telemetryShutdownTimeout : Z := 5 * Second.
Definition cursor_purpose : bytes := &"items:list:created_at_desc_id_desc:v1".

(** What the handler closes over: the service's store is on [ro_pool], and its cursors
    are signed by [ro_codec], if any. *)
Record routing := mkRouting {
  ro_pool : Z;
  ro_codec : option SignedCursorCodec;
  ro_metrics : option Metrics;
  ro_tracer : option (Z * bytes);
  ro_auth : option BearerSHA256;
  ro_limiter : option Limiter;
}.

(** What ends the wait: the context, or a receive from [Notify]. *)
Inductive wake := CtxDone | Served (err : option error).

Inductive appcall :=
  | ResourceNew (attributes : list (bytes * bytes))
  | ExporterNew (url : bytes)
  | ProviderNew (resource : Z) (ratio : float64) (exporter : option Z)
  | ProviderFlush (provider : Z) (ctx : option context)
  | ProviderShutdown (provider : Z) (ctx : option context)
  | PoolNew (ctx : context) (url : bytes)
  | PoolPing (pool : Z) (ctx : context)
  | PoolClose (pool : Z)
  | SetReleaseMode
  | ServerStart (server : Server routing)
  | Wait (server : Server routing)
  | LogInfo (message : bytes)
  | ServerShutdown (server : Server routing).

Definition answer (c : appcall) : Type :=
  match c with
  | ResourceNew _ | PoolNew _ _ => result Z
  | ExporterNew _ => result (option Z)
  | ProviderNew _ _ _ => Z
  | ProviderFlush _ _ | ProviderShutdown _ _ | PoolPing _ _ | ServerShutdown _ => result unit
  | Wait _ => wake
  | PoolClose _ | SetReleaseMode | ServerStart _ | LogInfo _ => unit
  end.

Abbreviation event := (Trace.event answer).
Abbreviation trace := (list event).

Definition not_closed (e : error) : bool := negb (Is e ErrServerClosed).

Section App.
Context {U : Unicode} {H : Hash256} (sysnow : nat -> time) (float_text : float64 -> bytes).
Context (with_timeout : Z -> context -> context) (limiter_error : config_error -> error).
Context (oracle : trace -> forall c, answer c).

Abbreviation call := (Trace.call oracle).

(** The OpenTelemetry SDK, each operation a call. *)
Definition sdk : SDK trace := mkSDK trace
  (fun attributes => plainly (call (ResourceNew attributes)))
  (fun resource ratio exporter => call (ProviderNew resource ratio exporter))
  (fun provider ctx => plainly (call (ProviderFlush provider ctx)))
  (fun provider ctx => plainly (call (ProviderShutdown provider ctx))).

Definition otlp (url : bytes) : M trace (option Z) := plainly (call (ExporterNew url)).

(** What is built before the pool is opened, from the configuration alone. *)
Definition cursor_codec (cfg : Config) : result (option SignedCursorCodec) :=
  match CursorSigningKeyBytes cfg with
  | Err err => Err (Wrapf &"app: decode cursor signing key: " err [])
  | Ok [] => Ok None
  | Ok key =>
    match NewCursorCodec sysnow key [Some (WithCursorPurpose cursor_purpose)] with
    | Err err => Err (Wrapf &"app: initialize cursor codec: " err [])
    | Ok codec => Ok (Some codec)
    end
  end.

Definition telemetry_config (cfg : Config) : Telemetry.Config :=
  Telemetry.mkConfig (OTELExporterOTLPEndpoint cfg) (OTELExporterOTLPInsecure cfg) (OTELServiceName cfg)
    (AppEnv cfg) (OTELTracesSamplerArg cfg).

(** The last components, in the order in which they are built. *)
Definition bearer_verifier (cfg : Config) : result (option BearerSHA256) :=
  if AuthEnabled cfg then
    match NewBearerSHA256 (AuthBearerTokenSHA256 cfg) with
    | Err err => Err (Wrapf &"app: initialize authentication: " err [])
    | Ok verifier => Ok (Some verifier)
    end
  else Ok None.

Definition limiter_config (cfg : Config) : RateLimit.Config :=
  RateLimit.mkConfig (RateLimitBurst cfg) (RateLimitRequestsPerSecond cfg) (RateLimitMaxClients cfg)
    (RateLimitIdleTTL cfg) RejectNew None.

Definition rate_limiter (cfg : Config) : result (option Limiter) :=
  if RateLimitEnabled cfg then
    match RateLimit.New sysnow (limiter_config cfg) with
    | inr err => Err (Wrapf &"app: initialize rate limiter: " (limiter_error err) [])
    | inl limiter => Ok (Some limiter)
    end
  else Ok None.

Definition http_server_of (cfg : Config) (handler : routing) : Server routing :=
  Server.New (Some handler)
    [Some (Port (HTTPPort cfg)); Some (ReadTimeout (10 * Second)); Some (WriteTimeout (15 * Second));
     Some (ShutdownTimeout (10 * Second))].

(** The select, and the graceful shutdown. *)
Definition serve (server : Server routing) : M trace unit :=
  call (ServerStart server);;;
  woken <-- call (Wait server);;
  serveErr <--
    match woken with
    | CtxDone => call (LogInfo &"app - Run - context cancelled");;; ret None
    | Served serverErr =>
      ret (err ← serverErr; if not_closed err then Some (Wrapf &"app: HTTP server: " err []) else None)
    end;;
  stopped <-- call (ServerShutdown server);;
  match stopped with
  | Err err => if not_closed err then fail (Wrapf &"app: HTTP shutdown: " err []) else
      match serveErr with Some e => fail e | None => ret tt end
  | Ok _ => match serveErr with Some e => fail e | None => ret tt end
  end.

(** From the open pool on. *)
Definition run_pool (ctx : context) (cfg : Config) (codec : option SignedCursorCodec) (tracing : Provider) (pool : Z)
  : M trace unit :=
  checked (call (PoolPing pool (with_timeout databaseStartupTimeout ctx))) (fun err => Wrapf &"app: database readiness: " err []);;;
  (if bool_decide (AppEnv cfg = &"production") then call SetReleaseMode else ret tt);;;
  let httpMetrics := if MetricsEnabled cfg then Some Metrics.New else None in
  authenticator <-- of_result (bearer_verifier cfg);;
  rateLimiter <-- of_result (rate_limiter cfg);;
  let handler := mkRouting pool codec httpMetrics (Tracer (Some tracing) InstrumentationName) authenticator rateLimiter in
  serve (http_server_of cfg handler).

Definition run_traced (ctx : context) (cfg : Config) (codec : option SignedCursorCodec) (tracing : Provider)
  : M trace unit :=
  pool <-- checked (call (PoolNew (with_timeout databaseStartupTimeout ctx) (DatabaseURL cfg)))
    (fun err => Wrapf &"app: create database pool: " err []);;
  deferred (run_pool ctx cfg codec tracing pool) (call (PoolClose pool)).

(** The deferred shutdown of tracing may replace the outcome. *)
Definition shut_tracing (tracing : Provider) (body : M trace unit) : M trace unit :=
  outcome <-- attempt body;;
  shut <-- Telemetry.Shutdown sdk (Some tracing) (Some (with_timeout telemetryShutdownTimeout background));;
  match shut.2 with
  | Ok _ => of_result outcome
  | Err shutdownErr =>
    let telemetryErr := Wrapf &"app: shutdown telemetry: " shutdownErr [] in
    match outcome with
    | Ok _ => fail telemetryErr
    | Err runErr => fail (Joined [runErr; telemetryErr])
    end
  end.

Definition RunContext (ctx : option context) (cfg : option Config) : M trace unit :=
  match ctx, cfg with
  | None, _ => fail (Opaque &"app: nil context")
  | Some _, None => fail (Opaque &"app: nil config")
  | Some ctx, Some cfg =>
    of_result (Config.Validate cfg);;;
    codec <-- of_result (cursor_codec cfg);;
    tracing <-- wrapping &"app: initialize telemetry: " (Telemetry.New float_text sdk otlp (Some ctx) (telemetry_config cfg));;
    shut_tracing tracing (run_traced ctx cfg codec tracing)
  end.

(** [Run] gives [RunContext] a context that ends with a signal. *)
Definition Run (signalled : context) (cfg : option Config) : M trace unit := RunContext (Some signalled) cfg.

(** ** The handler as a router *)

Context (start_span : Z * bytes -> tracer) (TraceContext : propagator).

Definition router_options (r : routing) : list (option RouterOption) :=
  [Some (WithMetrics (ro_metrics r));
   Some (WithTracing (start_span <$> ro_tracer r) (Some TraceContext));
   Some (WithAuthenticator ((fun verifier => Authenticate (Some verifier)) <$> ro_auth r));
   Some (WithRateLimiter (ro_limiter r))].
End App.
