(* ===== verification/AppFacts.v ===== *)
(** * The composition root: facts

    An accepted configuration builds every component, the components are wired to the
    settings, and whatever the outside answers, what was acquired is released, last
    acquired first. *)
From S2P Require Import Prelude GoText GoEncoding GoTime GoFloat GoUnicode Sha256 Errors World Trace Idempotency Cursor CursorFacts Auth RateLimit Metrics Security Observability Router Telemetry TelemetryFacts Config ConfigFacts Server App.

(** ** Components from an accepted configuration *)

Section Components.
Context {U : Unicode} {H : Hash256} (sysnow : nat -> time) (float_text : float64 -> bytes).
Context (limiter_error : config_error -> error).
Implicit Types cfg : Config.

(** The signing key is the digest of 32 bytes of the configuration. *)
Definition codec_of cfg (codec : option SignedCursorCodec) : Prop :=
  match codec with
  | None => CursorSigningKeyBytes cfg = Ok []
  | Some c => exists key, CursorSigningKeyBytes cfg = Ok key /\ length key = 32%nat
      /\ (ConfigFacts.production cfg -> key <> development_key_bytes)
      /\ cc_key c = Sum256 key /\ cc_purpose c = cursor_purpose
  end.

Lemma cursor_codec_valid cfg :
  valid_config cfg ->
  exists codec, cursor_codec sysnow cfg = Ok codec /\ codec_of cfg codec /\ (ConfigFacts.production cfg -> is_Some codec).
Proof.
  intros Hv. unfold cursor_codec. destruct (CursorSigningKeyBytes_valid cfg Hv) as [[E Hn]|(key & E & Hl & Hp)].
  - rewrite E. exists None. split; [done|]. split; [exact E|done].
  - rewrite E. destruct key as [|b key']; [done|]. set (key := b :: key') in *.
    unfold NewCursorCodec, NewSignedCursorCodec. rewrite Hl.
    match goal with |- context [validateCursorCodecConfig ?c] => assert (validateCursorCodecConfig c = Ok tt) as -> by (vm_compute; reflexivity) end.
    eexists. split; [cbn; reflexivity|]. split; [|by intros _; eexists]. exists key. by split_and!.
Qed.

Lemma hex_decode_tight s d : hex_decode s = Some d -> TrimSpace s = s.
Proof.
  intros Hd.
  assert (forall b, b ∈ s -> bz b < 0x80 /\ is_space (bz b) = false) as Hb.
  { intros b Hb. pose proof (hex_decode_lower _ _ Hd) as Hl.
    assert (lower_byte b ∈ hex_encode d) as Hin by (rewrite <- Hl; by apply list_elem_of_fmap_2).
    pose proof (hex_encode_token d) as Ht. rewrite forallb_forall in Ht. apply list_elem_of_In, Ht in Hin.
    clear Hb. revert b Hin. apply (Forall_bytes_forall (fun b => token_char (lower_byte b) = true -> bz b < 0x80 /\ is_space (bz b) = false)).
    vm_compute. reflexivity. }
  apply TrimSpace_tight.
  - apply Forall_forall. intros b Hin. by apply Hb.
  - destruct s as [|b l]; [done|]. apply Hb. constructor.
  - destruct s as [|b l] using rev_ind; [done|]. rewrite rev_unit. apply Hb. apply elem_of_app. right. constructor.
Qed.

Definition verifier_of cfg (verifier : option BearerSHA256) : Prop :=
  match verifier with
  | None => AuthEnabled cfg = false
  | Some v => AuthEnabled cfg = true /\ hex_decode (AuthBearerTokenSHA256 cfg) = Some (arr_bytes (bs_digest v))
  end.

Lemma bearer_verifier_valid cfg :
  valid_config cfg -> exists verifier, bearer_verifier cfg = Ok verifier /\ verifier_of cfg verifier.
Proof.
  intros Hv. unfold bearer_verifier. destruct (AuthEnabled cfg) eqn:Ea; [|by exists None].
  destruct (vc_digest _ Hv) as [E|(d & Hd & Hl)]; [by destruct (vc_auth _ Hv Ea)|].
  unfold NewBearerSHA256, NewBearerSHA256WithSubject, parseSHA256Digest.
  pose proof (hex_decode_length _ _ Hd) as Hlen. rewrite (hex_decode_tight _ _ Hd), bool_decide_true by done.
  replace (Z.of_nat _ =? 64) with true by lia. cbn [negb orb]. rewrite Hd, Hl. cbn [Nat.eqb negb rbind].
  replace (Auth.Validate _) with (@Ok unit tt) by (vm_compute; reflexivity). cbn [rbind].
  eexists. split; [done|]. split; [done|]. cbn [bs_digest]. rewrite Hd. f_equal. symmetry. by apply arr_bytes_array_of.
Qed.

Definition limiter_of cfg (limiter : option Limiter) : Prop :=
  match limiter with
  | None => RateLimitEnabled cfg = false
  | Some l => RateLimitEnabled cfg = true /\ capacity l = RateLimitBurst cfg
      /\ refillRate l = RateLimitRequestsPerSecond cfg /\ maxClients l = RateLimitMaxClients cfg
      /\ idleTTL l = RateLimitIdleTTL cfg /\ overflow l = RejectNew /\ buckets l = ∅
  end.

Lemma rate_limiter_valid cfg :
  valid_config cfg -> exists limiter, rate_limiter sysnow limiter_error cfg = Ok limiter /\ limiter_of cfg limiter.
Proof.
  intros Hv. unfold rate_limiter. destruct (RateLimitEnabled cfg) eqn:Ee; [|by exists None].
  pose proof (vc_limits _ Hv) as Hl. revert Hl. unfold validate_limits. rewrite Ee.
  repeat (case_match; [done|]). intros _. bool_simpl.
  assert (RateLimit.Validate (limiter_config cfg) = None) as Hn.
  { unfold RateLimit.Validate, limiter_config. cbn [Capacity RefillRate cfg_MaxClients IdleTTL Overflow].
    unfold maxRateLimitBurst, maxRateLimitMaxClients, maxRateLimitIdleTTL, maxRateLimitRPS,
      MaxCapacity, MaxClients, MaxIdleTTL, MaxRefillRate, Second, Hour in *.
    repeat match goal with
    | E : ?b = false |- context [if ?b then _ else _] => rewrite E
    | |- context [if ?b then _ else _] => replace b with false by (symmetry; repeat (apply orb_false_iff; split); first [assumption|lia|done])
    end. done. }
  unfold RateLimit.New. rewrite Hn. eexists. split; [done|]. by split_and!.
Qed.
End Components.

(** ** Traces *)

(** What is held, the last acquired first: a pool with whether it answered a ping, and
    a server with the pool it serves from. *)
Inductive resource := Tracing (provider : Z) | Pool (pool : Z) (ready : bool) | Listening (pool : Z).

Definition server_pool (s : Server routing) : option Z :=
  match hs_handler (sv_server s) with Handler r => Some (ro_pool r) | NotFoundHandler => None end.

(** The discipline of a call: [None] when it does not respect what is held. A pool is
    pinged, and a server waited for or shut down, while it is on top; a server starts on a
    pool that answered; and what is released is on top. *)
Definition balance (held : list resource) (e : event) : option (list resource) :=
  match e with
  | Event c a =>
    match c return answer c -> option (list resource) with
    | ProviderNew _ _ _ => fun provider => Some (Tracing provider :: held)
    | ProviderFlush _ _ => fun _ => None
    | ProviderShutdown provider _ => fun _ =>
      match held with Tracing p :: rest => if p =? provider then Some rest else None | _ => None end
    | PoolNew _ _ => fun opened => match opened with Ok pool => Some (Pool pool false :: held) | Err _ => Some held end
    | PoolPing pool _ => fun answered =>
      match held with Pool p ready :: rest => if p =? pool then Some (Pool p (ready || is_ok answered) :: rest) else None | _ => None end
    | PoolClose pool => fun _ =>
      match held with Pool p _ :: rest => if p =? pool then Some rest else None | _ => None end
    | ServerStart s => fun _ =>
      match held with Pool p true :: _ => if bool_decide (server_pool s = Some p) then Some (Listening p :: held) else None | _ => None end
    | Wait s => fun _ =>
      match held with Listening p :: _ => if bool_decide (server_pool s = Some p) then Some held else None | _ => None end
    | ServerShutdown s => fun _ =>
      match held with Listening p :: rest => if bool_decide (server_pool s = Some p) then Some rest else None | _ => None end
    | ResourceNew _ | ExporterNew _ | SetReleaseMode | LogInfo _ => fun _ => Some held
    end a
  end.

Fixpoint scan (held : list resource) (evs : trace) : option (list resource) :=
  match evs with [] => Some held | e :: rest => match balance held e with Some held => scan held rest | None => None end end.

Lemma scan_app held a b : scan held (a ++ b) = match scan held a with Some h => scan h b | None => None end.
Proof. revert held. induction a as [|e a IH]; intros held; [done|]. cbn [app scan]. by destruct (balance held e). Qed.

(** The outside failed. *)
Definition failed (e : event) : bool :=
  match e with
  | Event c a =>
    match c return answer c -> bool with
    | ResourceNew _ | PoolNew _ _ => fun r => negb (is_ok r)
    | ExporterNew _ => fun r => match r with Ok (Some _) => false | _ => true end
    | PoolPing _ _ | ProviderShutdown _ _ | ProviderFlush _ _ => fun r => negb (is_ok r)
    | ServerShutdown _ => fun r => match r with Ok _ => false | Err err => not_closed err end
    | Wait _ => fun woken => match woken with Served (Some err) => not_closed err | _ => false end
    | _ => fun _ => false
    end a
  end.

Section Runs.
Context {U : Unicode} {H : Hash256} (sysnow : nat -> time) (float_text : float64 -> bytes).
Context (with_timeout : Z -> context -> context) (limiter_error : config_error -> error).
Context (oracle : trace -> forall c, answer c) (cfg : Config).

(** A server as the configuration wants it. *)
Definition wired (s : Server routing) : Prop :=
  exists r, hs_handler (sv_server s) = Handler r
    /\ hs_addr (sv_server s) = &":" ++ TrimSpace (HTTPPort cfg)
    /\ codec_of cfg (ro_codec r) /\ (ConfigFacts.production cfg -> is_Some (ro_codec r))
    /\ verifier_of cfg (ro_auth r) /\ limiter_of cfg (ro_limiter r)
    /\ (is_Some (ro_metrics r) <-> MetricsEnabled cfg = true).

Definition well_wired (e : event) : Prop :=
  match ev_call e with
  | ServerStart s => wired s
  | ExporterNew url => has_prefix url (scheme_prefix (OTELExporterOTLPInsecure cfg)) = true
  | PoolNew _ url => url = DatabaseURL cfg
  | SetReleaseMode => AppEnv cfg = &"production"
  | _ => True
  end.

(** The environment's name fits the resource of the traces. *)
Definition short_environment : Prop := Z.of_nat (length (TrimSpace (AppEnv cfg))) <= maxEnvironmentBytes.

Definition run_ok {A} (held held' : list resource) (r : result A) (new : trace) : Prop :=
  scan held new = Some held' /\ Forall well_wired new
  /\ (short_environment -> is_ok r = forallb (fun e => negb (failed e)) new).

Lemma serve_emits q rest server :
  server_pool server = Some q -> wired server ->
  emits [] (serve oracle server) (run_ok (Pool q true :: rest) (Pool q true :: rest)).
Proof.
  intros Hq Hw. unfold serve. emit. all: cbn [app]; unfold run_ok; split_and!;
    [cbn [scan balance]; by rewrite ?Hq, ?bool_decide_true by done|by repeat constructor|intros _; cbn].
  all: repeat match goal with
  | x : option error |- _ => destruct x; cbn in *
  | |- context [not_closed ?e] => destruct (not_closed e) in *
  end; cbn in *; by simplify_eq.
Qed.

Lemma server_of_valid r :
  valid_config cfg ->
  hs_handler (sv_server (http_server_of cfg r)) = Handler r
  /\ hs_addr (sv_server (http_server_of cfg r)) = &":" ++ TrimSpace (HTTPPort cfg).
Proof.
  intros Hv. pose proof (vc_port _ Hv) as Hp. unfold port_number in Hp.
  unfold http_server_of, Server.New, Port. cbn [fold_left]. destruct (Atoi _) as [n|]; [|done]. split; [done|].
  reflexivity.
Qed.

Lemma run_pool_emits rest ctx codec tracing pool :
  valid_config cfg -> codec_of cfg codec -> (ConfigFacts.production cfg -> is_Some codec) ->
  emits [] (run_pool sysnow with_timeout limiter_error oracle ctx cfg codec tracing pool)
    (fun r new => exists ready, run_ok (Pool pool false :: rest) (Pool pool ready :: rest) r new).
Proof.
  intros Hv Hc Hp. unfold run_pool, checked.
  destruct (bearer_verifier_valid cfg Hv) as (verifier & Ev & Hver).
  destruct (rate_limiter_valid sysnow limiter_error cfg Hv) as (limiter & El & Hlim). rewrite Ev, El.
  do 2 apply emits_bind; emit_call. intros [[]|e].
  2: { eapply emits_return; [done|]. exists false. split_and!; [cbn; by rewrite Z.eqb_refl|by repeat constructor|done]. }
  eapply emits_return; [done|]. cbn beta iota. apply emits_bind.
  eapply (emits_weaken _ _ (fun r evs => r = Ok tt /\ scan (Pool pool false :: rest) evs = Some (Pool pool true :: rest)
    /\ Forall well_wired evs /\ forallb (fun e => negb (failed e)) evs = true)).
  - case_bool_decide; [emit_call; intros []|eapply emits_return; [done|]]; cbn [app];
      (split_and!; [done|cbn; by rewrite Z.eqb_refl|by repeat constructor|done]).
  - intros r evs (-> & Hs & Hw & Hf). cbn beta iota zeta.
    do 2 (apply emits_bind; eapply emits_return; [done|]; cbn beta iota).
    match goal with |- emits _ (serve _ (http_server_of _ ?r)) _ => destruct (server_of_valid r Hv) as [Eh Ea] end.
    eapply emits_after; [apply (serve_emits pool rest); [unfold server_pool; by rewrite Eh|]|].
    + eexists. split_and!; try done. cbn. by destruct (MetricsEnabled cfg); split; [| |intros []|].
    + intros r new (Hs' & Hw' & Hf'). exists true. split_and!; [by rewrite scan_app, Hs|by apply Forall_app|].
      intros Hshort. by rewrite forallb_app, Hf, Hf'.
Qed.

Lemma run_traced_emits rest ctx codec tracing :
  valid_config cfg -> codec_of cfg codec -> (ConfigFacts.production cfg -> is_Some codec) ->
  emits [] (run_traced sysnow with_timeout limiter_error oracle ctx cfg codec tracing) (run_ok rest rest).
Proof.
  intros Hv Hc Hp. unfold run_traced, checked. do 2 apply emits_bind; emit_call. intros [pool|e].
  2: { eapply emits_return; [done|]. split_and!; [done|by repeat constructor|done]. }
  eapply emits_return; [done|]. cbn beta iota. unfold deferred. apply emits_bind, emits_attempt.
  eapply emits_after; [by apply (run_pool_emits rest)|]. intros r new (ready & Hs & Hw & Hf).
  cbn beta iota zeta. apply emits_bind, emits_attempt. emit_call. intros []. cbn beta iota.
  eapply emits_return; [done|]. split_and!.
  - rewrite <- app_assoc, scan_app. cbn [scan balance app]. rewrite scan_app, Hs. cbn. by rewrite Z.eqb_refl.
  - apply Forall_app. split; [apply Forall_app; split; [by repeat constructor|done]|by repeat constructor].
  - intros Hshort. rewrite !forallb_app, <- Hf by done. cbn. by rewrite !andb_true_r.
Qed.

Lemma shut_tracing_emits p tracing body :
  tp_provider tracing = Some p -> tp_shutdown tracing = None ->
  emits [] body (run_ok [Tracing p] [Tracing p]) ->
  emits [] (shut_tracing with_timeout oracle tracing body) (run_ok [Tracing p] []).
Proof.
  intros Hp Hn Hb. unfold shut_tracing. apply emits_bind, emits_attempt.
  eapply emits_weaken; [exact Hb|]. intros r new (Hs & Hw & Hf). cbn beta iota zeta.
  unfold Telemetry.Shutdown. rewrite Hp, Hn. emit. all: split_and!;
    [rewrite scan_app, Hs; cbn; by rewrite Z.eqb_refl|apply Forall_app; split; [done|by repeat constructor]|
     intros Hshort; rewrite forallb_app, <- Hf by done; cbn; rewrite ?andb_true_r, ?andb_false_r; by simplify_eq].
Qed.

(** The configuration fits the tracing provider, the name of the environment apart. *)
Lemma telemetry_accepts :
  valid_config cfg -> short_environment ->
  exists n, normalizeConfig float_text (telemetry_config cfg) = Ok n.
Proof.
  intros Hv Hs. destruct (accepted_endpoint _ _ (vc_endpoint _ Hv) (vc_endpoint_len _ Hv)) as [url Hu].
  pose proof (vc_texts _ Hv) as Ht. unfold text_settings in Ht. rewrite !Forall_cons in Ht. destruct_and!.
  edestruct normalizeConfig_accepts as [name Hn]; [..|by eexists]; try done; [|by apply vc_ratio].
  pose proof (vc_name _ Hv). unfold len, maxOTELServiceNameBytes, maxServiceNameBytes in *. done.
Qed.

Lemma normalized_url n :
  normalizeConfig float_text (telemetry_config cfg) = Ok n ->
  endpointURL n = [] \/ has_prefix (endpointURL n) (scheme_prefix (OTELExporterOTLPInsecure cfg)) = true.
Proof.
  unfold normalizeConfig. intros ([] & _ & Hn)%rbind_Ok. destruct (too_long _ _); [done|].
  apply rbind_Ok in Hn as ([] & _ & Hn). do 2 (destruct (_ : bool) in Hn; [done|]).
  apply rbind_Ok in Hn as (url & Hu & [= <-]). by eapply normalizeEndpoint_scheme.
Qed.

Lemma telemetry_emits pre c :
  valid_config cfg ->
  emits [] (wrapping pre (Telemetry.New float_text (sdk oracle) (otlp oracle) (Some c) (telemetry_config cfg)))
    (fun r new => match r with
       | Ok tracing => exists p, tp_provider tracing = Some p /\ tp_shutdown tracing = None /\ run_ok [] [Tracing p] r new
       | Err _ => run_ok [] [] r new
       end).
Proof.
  intros Hv. unfold wrapping. apply emits_bind, emits_attempt.
  eapply (emits_weaken _ _ (fun r new => match r with
       | Ok tracing => exists p, tp_provider tracing = Some p /\ tp_shutdown tracing = None /\ run_ok [] [Tracing p] r new
       | Err _ => run_ok [] [] r new
       end)).
  2: { intros [tracing|e] evs Hq; (eapply emits_return; [done|]); exact Hq. }
  unfold Telemetry.New, newProvider. apply emits_bind. eapply emits_return; [done|].
  pose proof telemetry_accepts as Hacc.
  destruct (normalizeConfig float_text (telemetry_config cfg)) as [n|e] eqn:En; cbn beta iota zeta.
  2: { split_and!; [done|by constructor|]. intros Hs. by destruct (Hacc Hv Hs). }
  apply normalized_url in En. clear Hacc. unfold wrapping, newOTLPHTTPExporter, otlp, sdk.
  cbn [sdk_resource sdk_provider].
  set (attrs := [(_, serviceName n)] ++ _). clearbody attrs. destruct (decide (endpointURL n = [])) as [Eu|Eu].
  - rewrite (bool_decide_true (endpointURL n = [])) by done. cbn [negb]. emit.
    all: try (eexists; split; [done|]; split; [done|]); split_and!; try done; simplify_eq; by repeat constructor.
  - rewrite (bool_decide_false (endpointURL n = [])) by done. cbn [negb]. destruct En as [En|En]; [done|]. emit.
    all: try (eexists; split; [done|]; split; [done|]); split_and!; try done; simplify_eq; by repeat constructor.
Qed.

Lemma RunContext_emits ctx :
  emits [] (RunContext sysnow float_text with_timeout limiter_error oracle ctx (Some cfg)) (fun r new =>
    scan [] new = Some [] /\ Forall well_wired new
    /\ (ctx <> None -> Config.Validate cfg = Ok tt -> short_environment ->
          is_ok r = forallb (fun e => negb (failed e)) new)).
Proof.
  unfold RunContext. destruct ctx as [c|]; [|eapply emits_return; [done|]; by split_and!].
  apply emits_bind. eapply emits_return; [done|].
  destruct (Config.Validate cfg) as [[]|e] eqn:Ev; [|by split_and!].
  pose proof (accepted_valid _ Ev) as Hv. destruct (cursor_codec_valid sysnow cfg Hv) as (codec & Ec & Hc & Hp). rewrite Ec.
  apply emits_bind. eapply emits_return; [done|]. cbn beta iota. apply emits_bind.
  eapply emits_weaken; [by apply telemetry_emits|]. intros [tracing|e] new Hq.
  2: { destruct Hq as (Hs & Hw & Hf). by split_and!; auto. }
  destruct Hq as (p & Hp' & Hn & Hs & Hw & Hf).
  eapply emits_after; [eapply shut_tracing_emits; [done|done|by apply run_traced_emits]|].
  intros r new' (Hs' & Hw' & Hf'). split_and!; [by rewrite scan_app, Hs|by apply Forall_app|].
  intros _ _ Hshort. by rewrite forallb_app, <- Hf, <- Hf'.
Qed.
End Runs.

(** ** The properties *)

Section Properties.
Context {U : Unicode} {H : Hash256} (sysnow : nat -> time) (float_text : float64 -> bytes).
Context (with_timeout : Z -> context -> context) (limiter_error : config_error -> error).
Context (oracle : trace -> forall c, answer c).

Abbreviation run := (RunContext sysnow float_text with_timeout limiter_error oracle).

(** C8: Whatever the outside answers, and however the run ends, what it acquired it
    releases exactly once and last acquired first: the server is shut down, then the
    pool is closed, then tracing; the server starts only on a pool that answered a
    ping, and nothing is used before it is acquired or after it is released. *)
Theorem Run_releases ctx cfg w :
  exists new, w_store (run ctx cfg w).2 = w_store w ++ new /\ scan [] new = Some [].
Proof.
  destruct cfg as [cfg|]; [|exists []; rewrite app_nil_r; by destruct ctx].
  destruct (RunContext_emits sysnow float_text with_timeout limiter_error oracle cfg ctx w) as (new & Hs & Hb & _). eauto.
Qed.

(** C13: A run on an accepted configuration, its environment's name within the limit of
    tracing, succeeds exactly when nothing outside failed: no component refuses what
    [Config.Validate] accepted, and no failure of the outside is lost. A closed server
    is not a failure. *)
Theorem Run_fails_outside c cfg w :
  Config.Validate cfg = Ok tt -> short_environment cfg ->
  exists new, w_store (run (Some c) (Some cfg) w).2 = w_store w ++ new
    /\ is_ok (run (Some c) (Some cfg) w).1 = forallb (fun e => negb (failed e)) new.
Proof.
  intros Hv Hshort.
  destruct (RunContext_emits sysnow float_text with_timeout limiter_error oracle cfg (Some c) w) as (new & Hs & _ & _ & Hf).
  exists new. split; [done|]. by apply Hf.
Qed.

(** C19: What a run starts is what the configuration says: the exporter's URL has the
    scheme of the insecure flag, the pool is that of the database URL, and the server
    listens on the port; its router authenticates with the configured digest exactly
    when authentication is enabled, limits with the configured limits exactly when
    limiting is enabled, and signs cursors with the configured key; in production there
    is one, and not the development key. *)
Theorem Run_wired (start_span : Z * bytes -> tracer) (TraceContext : propagator) ctx cfg w :
  exists new, w_store (run ctx (Some cfg) w).2 = w_store w ++ new
    /\ Forall (well_wired cfg) new
    /\ forall s r, Event (ServerStart s) tt ∈ new -> hs_handler (sv_server s) = Handler r ->
        let rc := configure (router_options start_span TraceContext r) in
        (is_Some (rc_auth rc) <-> AuthEnabled cfg = true)
        /\ (is_Some (rc_limiter rc) <-> RateLimitEnabled cfg = true)
        /\ (is_Some (rc_metrics rc) <-> MetricsEnabled cfg = true).
Proof.
  destruct (RunContext_emits sysnow float_text with_timeout limiter_error oracle cfg ctx w) as (new & Hs & _ & Hw & _).
  exists new. split; [done|]. split; [done|]. intros s r Hin Hr. rewrite Forall_forall in Hw.
  destruct (Hw _ Hin) as (r' & Hr' & _ & _ & _ & Hv & Hl & Hm). rewrite Hr in Hr'. injection Hr' as <-.
  unfold verifier_of, limiter_of in *. cbn. split_and!; [| |done].
  - destruct (ro_auth r); cbn; (split; [by intros []; destruct_and?|]); [eauto|congruence].
  - destruct (ro_limiter r); cbn; (split; [by intros []; destruct_and?|]); [eauto|congruence].
Qed.

(** The limit that [Config.Validate] does not check: an environment's name of more
    than 128 bytes is accepted, and then every run fails at once, before it calls
    anything outside. *)
Theorem Long_environment_fails c cfg w :
  Config.Validate cfg = Ok tt -> ~ short_environment cfg ->
  is_ok (run (Some c) (Some cfg) w).1 = false /\ w_store (run (Some c) (Some cfg) w).2 = w_store w.
Proof.
  intros Hv Hl. pose proof (accepted_valid _ Hv) as Hvc. unfold RunContext.
  destruct (cursor_codec_valid sysnow cfg Hvc) as (codec & Ec & _ & _). rewrite Hv, Ec.
  pose proof (long_environment_refused float_text (telemetry_config cfg)) as Hr.
  unfold short_environment in Hl. cbn [Environment telemetry_config] in Hr. specialize (Hr ltac:(lia)).
  unfold bind, of_result, wrapping, Telemetry.New, newProvider.
  by destruct (normalizeConfig float_text (telemetry_config cfg)).
Qed.
End Properties.
