(* ===== verification/Commands.v ===== *)
(** * The other commands (cmd/migrate, cmd/healthcheck, cmd/app) and the logger

    Each [main] runs over the trace of what it asks of the outside. [log.Fatal] and
    [os.Exit] end the process, deferred calls included: the failure of a run is what
    they print. *)
From S2P Require Import Prelude GoText GoFloat GoTime GoUnicode GoNet GoParseUrl Errors World Trace Config.

(** ** cmd/migrate *)

Module Migrate.

Inductive action := Up | Down | Step | Version.

Definition usage : error := Opaque &"usage: migrate [up|down|step N|version]".

Definition command (args : list bytes) : result (action * Z) :=
  match args with
  | [] => Ok (Up, 0)
  | name :: rest =>
    if 2 <? Z.of_nat (length args) then Err usage
    else
      let alone a := match rest with [] => Ok (a, 0) | _ => Err usage end in
      if bool_decide (name = &"up") then alone Up
      else if bool_decide (name = &"down") then alone Down
      else if bool_decide (name = &"version") then alone Version
      else if bool_decide (name = &"step") then
        match rest with
        | [text] =>
          match Atoi text with
          | Some n => if n =? 0 then Err (Opaque &"step argument must be a non-zero integer") else Ok (Step, n)
          | None => Err (Opaque &"step argument must be a non-zero integer")
          end
        | _ => Err (Opaque &"step requires an integer argument")
        end
      else Err usage
  end.

(** Two errors of the migration library are told apart. *)
Inductive failure := ErrNoChange | ErrNilVersion | OtherFailure (e : error).

Inductive migration :=
  | Getenv (key : bytes)
  | Open (source database : bytes)
  | MigrateUp (db : Z)
  | MigrateSteps (db n : Z)
  | MigrateVersion (db : Z)
  | PrintVersion (version : Z) (dirty : bool)
  | CloseMigration (db : Z).

Definition migration_answer (c : migration) : Type :=
  match c with
  | Getenv _ => bytes
  | Open _ _ => result Z
  | MigrateUp _ | MigrateSteps _ _ => option failure
  | MigrateVersion _ => Z * bool * option failure
  | PrintVersion _ _ | CloseMigration _ => unit
  end.

Abbreviation trace := (list (Trace.event migration_answer)).

Section Main.
Context (failure_error : failure -> error) (oracle : trace -> forall c, migration_answer c).
Abbreviation call := (Trace.call oracle).

(** [err != nil && !errors.Is(err, ErrNoChange) && !errors.Is(err, ErrNilVersion)]. *)
Definition fatal_failure (r : option failure) : option failure :=
  match r with Some (OtherFailure e) => Some (OtherFailure e) | _ => None end.

Definition conclude (r : option failure) : M trace unit :=
  match fatal_failure r with
  | Some e => fail (Wrapf &"migration failed: " (failure_error e) [])
  | None => ret tt
  end.

Definition perform (db : Z) (a : action) (argument : Z) : M trace unit :=
  match a with
  | Up => r <-- call (MigrateUp db);; conclude r
  | Down => r <-- call (MigrateSteps db (-1));; conclude r
  | Step => r <-- call (MigrateSteps db argument);; conclude r
  | Version =>
    r <-- call (MigrateVersion db);;
    let '(version, dirty, versionErr) := r in
    match versionErr with
    | Some ErrNilVersion | None => call (PrintVersion version dirty)
    | Some e => fail (Wrapf &"read migration version: " (failure_error e) [])
    end
  end.

Definition migrate_main (args : list bytes) : M trace unit :=
  parsed <-- of_result (command args);;
  let '(a, argument) := parsed in
  databaseURL <-- call (Getenv &"DATABASE_URL");;
  if bool_decide (databaseURL = []) then fail (Opaque &"DATABASE_URL is required")
  else
    sourceURL <-- call (Getenv &"MIGRATIONS_PATH");;
    let sourceURL := if bool_decide (sourceURL = []) then &"file://db/migrations" else sourceURL in
    db <-- checked (call (Open sourceURL databaseURL)) (fun err => Wrapf &"open migration database: " err []);;
    perform db a argument;;;
    call (CloseMigration db).
End Main.
End Migrate.

(** ** cmd/healthcheck *)

Module Healthcheck.

Definition timeout : Z := 2 * Second.

Inductive probe := Getenv (key : bytes) | HttpGet (url : bytes) (timeout : Z) (redirects : bool).
Definition probe_answer (c : probe) : Type := match c with Getenv _ => bytes | HttpGet _ _ _ => result Z end.
Abbreviation trace := (list (Trace.event probe_answer)).

(** The port of the probe. *)
Definition probe_port (text : bytes) : result Z :=
  match Atoi (if bool_decide (text = []) then &"8080" else text) with
  | Some n => if (n <? 1) || (65535 <? n) then Err (Opaque &"HTTP_PORT must be between 1 and 65535") else Ok n
  | None => Err (Opaque &"HTTP_PORT must be between 1 and 65535")
  end.

Definition probe_url (port : Z) : bytes := &"http://" ++ JoinHostPort &"127.0.0.1" (Itoa port) ++ &"/api/healthz".

Section Main.
Context (oracle : trace -> forall c, probe_answer c).
Abbreviation call := (Trace.call oracle).

(** A failure is [fail]: exit status 1. *)
Definition healthcheck_main : M trace unit :=
  port <-- call (Getenv &"HTTP_PORT");;
  portNumber <-- of_result (probe_port port);;
  status <-- plainly (call (HttpGet (probe_url portNumber) timeout false));;
  if status =? 200 then ret tt else fail (errorf &"readiness returned HTTP %d" [Itoa status]).
End Main.
End Healthcheck.

(** ** pkg/logger: the installed logger; [None] is the no-op logger *)

Module Logger.
Inductive severity := DebugLevel | InfoLevel | WarnLevel | ErrorLevel | FatalLevel.

(** A field is its name and what zap prints of its value. *)
Definition field : Type := bytes * bytes.

Section Init.
Context {U : Unicode} (ParseLevel : bytes -> result Z) (Build : Z -> nat -> result Z).

(** [lg_synced] lists the loggers that were flushed, [lg_entries] what was given to which
    logger. *)
Record logger := mkLogger {
  lg_current : option Z;
  lg_synced : list (option Z);
  lg_entries : list (option Z * severity * bytes * list field);
}.

Definition Init (logLevel : bytes) : M logger unit :=
  level <-- of_result (ParseLevel (ToLower (TrimSpace logLevel)));;
  built <-- observe (Build level);;
  built <-- of_result built;;
  state <-- World.load;;
  save (mkLogger (Some built) (lg_synced state ++ [lg_current state]) (lg_entries state)).

Definition Sync : M logger unit :=
  state <-- World.load;; save (mkLogger (lg_current state) (lg_synced state ++ [lg_current state]) (lg_entries state)).

Definition current : M logger (option Z) := state <-- World.load;; ret (lg_current state).

(** The methods of [*zap.Logger]. *)
Definition write (l : option Z) (s : severity) (message : bytes) (fields : list field) : M logger unit :=
  state <-- World.load;; save (mkLogger (lg_current state) (lg_synced state) (lg_entries state ++ [(l, s, message, fields)])).

Definition Debug message fields : M logger unit := l <-- current;; write l DebugLevel message fields.
Definition Info message fields : M logger unit := l <-- current;; write l InfoLevel message fields.
Definition Warn message fields : M logger unit := l <-- current;; write l WarnLevel message fields.
Definition Error message fields : M logger unit := l <-- current;; write l ErrorLevel message fields.

(** zap's fatal hook ends the process. *)
Definition Fatal message fields : M logger unit :=
  l <-- current;; write l FatalLevel message fields;;; fail (Opaque &"exit status 1").

(** [zap.Error], of an error that is not nil. *)
Definition ErrWrap (err : error) : field := (&"error", Error_text err).
End Init.
End Logger.

(** ** cmd/app: [load] and [run] are config.Load and app.Run; the failure is what
    [log.Fatalf] prints, and it skips the deferred flush. *)
Definition app_main {U : Unicode} ParseLevel Build (lookup : environment) (run : Config -> M Logger.logger unit) : M Logger.logger unit :=
  cfg <-- checked (ret (Load lookup)) (fun err => Wrapf &"load configuration: " err []);;
  checked (attempt (Logger.Init ParseLevel Build (LogLevel cfg))) (fun err => Wrapf &"initialize logger: " err []);;;
  checked (attempt (run cfg)) (fun err => Wrapf &"run application: " err []);;;
  attempt Logger.Sync;;;
  ret tt.
