(* ===== verification/CommandsFacts.v ===== *)
(** * The other commands: facts

    The command lines of the migration command and what it does to the database, and what
    the health probe asks. *)
From S2P Require Import Prelude GoText GoFloat GoTime GoUnicode GoNet Errors World Trace Config ConfigFacts Commands.

(** ** cmd/migrate *)

Section MigrateFacts.
Import Migrate.

(** The command lines that are accepted, and what they mean. *)
Inductive command_line : list bytes -> action -> Z -> Prop :=
  | line_default : command_line [] Up 0
  | line_up : command_line [&"up"] Up 0
  | line_down : command_line [&"down"] Down 0
  | line_version : command_line [&"version"] Version 0
  | line_step text n : Atoi text = Some n -> n <> 0 -> command_line [&"step"; text] Step n.

Lemma command_sound args a n : command args = Ok (a, n) -> command_line args a n.
Proof.
  unfold command. destruct args as [|name rest]; [intros [= <- <-]; constructor|]. destruct (_ <? _); [done|].
  do 3 (case_bool_decide; [subst name; destruct rest; [intros [= <- <-]; constructor|done]|]).
  case_bool_decide; [|done]. subst name.
  destruct rest as [|text [|]]; try done. destruct (Atoi text) as [m|] eqn:Em; [|done].
  destruct (Z.eqb_spec m 0); [done|]. intros [= <- <-]. by constructor.
Qed.

(** [command] accepts the command lines of the usage text and no other; a step count is
    a non-zero integer. *)
Theorem Command_grammar args a n : command args = Ok (a, n) <-> command_line args a n.
Proof.
  split; [apply command_sound|]. intros [| | | |text m Em Hm]; try reflexivity.
  unfold command. rewrite (bool_decide_true (&"step" = &"step")) by done.
  replace (_ <? _) with false by reflexivity. rewrite !bool_decide_false by done. rewrite Em.
  by destruct (Z.eqb_spec m 0).
Qed.

(** Calls that change the database. *)
Definition changes (e : Trace.event migration_answer) : bool :=
  match ev_call e with MigrateUp _ | MigrateSteps _ _ => true | _ => false end.

(** What a command is to ask of the migration library. *)
Definition asks (a : action) (n : Z) (c : migration) : Prop :=
  match a with
  | Up => exists db, c = MigrateUp db
  | Down => exists db, c = MigrateSteps db (-1)
  | Step => exists db, c = MigrateSteps db n
  | Version => False
  end.

Context (failure_error : failure -> error) (oracle : trace -> forall c, migration_answer c).

(** The database is changed only as the command line says, at most once, and never
    by [version] or by a line that is refused; a run that succeeds closes what it
    opened. *)
Theorem Migrate_changes args w :
  exists new, w_store (migrate_main failure_error oracle args w).2 = w_store w ++ new
    /\ (length (List.filter changes new) <= 1)%nat
    /\ Forall (fun e => changes e = true -> exists a n, command_line args a n /\ asks a n (ev_call e)) new
    /\ (is_ok (migrate_main failure_error oracle args w).1 = true -> Exists (fun e => exists db, ev_call e = CloseMigration db) new).
Proof.
  set (Q := fun (r : result unit) new => (length (List.filter changes new) <= 1)%nat
    /\ Forall (fun e => changes e = true -> exists a n, command_line args a n /\ asks a n (ev_call e)) new
    /\ (is_ok r = true -> Exists (fun e => exists db, ev_call e = CloseMigration db) new)).
  enough (emits [] (migrate_main failure_error oracle args) Q) as Hm by exact (Hm w).
  unfold migrate_main. apply emits_bind. eapply emits_return; [done|].
  destruct (command args) as [[a n]|e] eqn:Ec; [|by split_and!; [simpl; lia|constructor|]].
  apply command_sound in Ec. unfold perform, conclude. destruct a; emit; cbn [app].
  all: split_and!; [simpl; lia| |first [done|intros _; repeat first [apply Exists_cons_hd; eexists; reflexivity|apply Exists_cons_tl]]].
  all: repeat first [apply Forall_nil_2 | apply Forall_cons; split; [intros Hch|]];
    simpl in Hch; try done; try (eexists _, _; split; [exact Ec|simpl; eauto]).
Qed.
End MigrateFacts.

(** ** cmd/healthcheck *)

Section HealthcheckFacts.
Import Healthcheck.
Context {U : Unicode} (oracle : trace -> forall c, probe_answer c).

Lemma probe_port_range text port : probe_port text = Ok port -> 1 <= port <= 65535.
Proof.
  unfold probe_port. destruct (Atoi _) as [n|]; [|done]. destruct (_ || _) eqn:E; [done|]. intros [= <-].
  bool_simpl. lia.
Qed.

(** The status or the error that an event holds. *)
Definition got (e : Trace.event probe_answer) : option (result Z) :=
  match e with
  | Event c a => match c return probe_answer c -> option (result Z) with HttpGet _ _ _ => Some | Getenv _ => fun _ => None end a
  end.

(** The probe asks the loopback interface only, at a port from 1 to 65535, without
    following redirects, and succeeds exactly when the answer is 200. *)
Theorem Healthcheck_probe w :
  exists new, w_store (healthcheck_main oracle w).2 = w_store w ++ new
    /\ Forall (fun e => match ev_call e with
         | HttpGet url _ redirects => redirects = false
             /\ exists port, 1 <= port <= 65535 /\ url = &"http://127.0.0.1:" ++ Itoa port ++ &"/api/healthz"
         | Getenv key => key = &"HTTP_PORT"
         end) new
    /\ (is_ok (healthcheck_main oracle w).1 = true <-> exists url t r, Event (HttpGet url t r) (Ok 200) ∈ new).
Proof.
  set (Q := fun (r : result unit) (new : trace) => Forall (fun e => match ev_call e with
         | HttpGet url _ redirects => redirects = false
             /\ exists port, 1 <= port <= 65535 /\ url = &"http://127.0.0.1:" ++ Itoa port ++ &"/api/healthz"
         | Getenv key => key = &"HTTP_PORT"
         end) new
    /\ (is_ok r = true <-> exists url t r, Event (HttpGet url t r) (Ok 200) ∈ new)).
  enough (emits [] (healthcheck_main oracle) Q) as Hm by exact (Hm w).
  unfold healthcheck_main, plainly, checked. apply emits_bind; emit_call. intros text. apply emits_bind. eapply emits_return; [done|].
  destruct (probe_port text) as [port|e] eqn:Ep.
  2: { split; [by repeat constructor|]. split; [done|]. intros (url & t & r & Hin).
       apply list_elem_of_singleton in Hin. discriminate Hin. }
  apply probe_port_range in Ep. cbn beta iota. do 2 apply emits_bind; emit_call. intros answered.
  assert (forall r : result unit, (is_ok r = true <-> answered = Ok 200) ->
    Q r (([] ++ [Event (Getenv &"HTTP_PORT") text]) ++ [Event (HttpGet (probe_url port) timeout false) answered])) as HQ.
  { intros r Hr. split; [repeat constructor; exists port; split; [lia|]|].
    - reflexivity.
    - rewrite Hr. split; [intros ->; do 3 eexists; cbn [app]; apply list_elem_of_further, list_elem_of_here|].
      intros (url & t & b & Hin). apply list_elem_of_In in Hin as [Hin|[Hin|[]]]; [discriminate Hin|].
      apply (f_equal got) in Hin. by injection Hin. }
  destruct answered as [status|e]; (eapply emits_return; [done|]); cbn beta iota; [|by apply HQ].
  destruct (Z.eqb_spec status 200) as [->|Hn]; (eapply emits_return; [done|]); apply HQ; [done|].
  split; [done|]. by intros [= ->].
Qed.

(** The probe and the application agree on the port: for a setting that the
    application accepts and that has no space around it, the probe's port is the one the
    application listens on. *)
Theorem Healthcheck_agrees lookup cfg text :
  load lookup = Ok cfg -> lookup &"HTTP_PORT" = Some text -> TrimSpace text = text ->
  exists port, probe_port text = Ok port /\ Atoi (HTTPPort cfg) = Some port.
Proof.
  intros (Hr & Hv & _)%load_Ok Hl Ht. apply read_settings_trimmed in Hr as (_ & Hp & _).
  unfold valueOrDefault in Hp. rewrite Hl in Hp. cbn in Hp. rewrite Ht in Hp.
  pose proof (vc_port _ Hv) as Hn. rewrite Hp, Ht in Hn. unfold port_number in Hn.
  unfold probe_port. rewrite bool_decide_false by (by intros ->). rewrite Hp.
  destruct (Atoi text) as [n|]; [|done]. apply negb_true_iff in Hn. rewrite Hn. eauto.
Qed.
End HealthcheckFacts.
