(* ===== verification/AppScenario.v ===== *)
(** * A configured application

    A production environment, loaded and run: the properties of the configuration, of the
    composition root and of the health probe are evaluated on it. *)
From S2P Require Import Prelude GoText GoTime GoFloat GoUnicode Sha256 Errors World Trace Item Store Scenario.
From S2P Require Import RateLimit Security Observability Router Telemetry Config ConfigFacts Server App AppFacts Commands CommandsFacts.

#[local] Existing Instance sha256_hash.
#[local] Instance sc_unicode : Unicode := {| lower_letter r := r; upper_letter r := r |}.

Section AppScenario.
(** A signing key, in upper case. *)
Definition sc_signing_key : bytes := &"00FF02030405060708090A0B0C0D0E0F101112131415161718191A1B1C1D1E1F".

Definition sc_environment (app_env port : bytes) : environment := fun key =>
  if bool_decide (key = &"APP_ENV") then Some app_env
  else if bool_decide (key = &"HTTP_PORT") then Some port
  else if bool_decide (key = &"DATABASE_URL") then Some &"postgres://db/app"
  else if bool_decide (key = &"CURSOR_SIGNING_KEY") then Some sc_signing_key
  else if bool_decide (key = &"OTEL_EXPORTER_OTLP_ENDPOINT") then Some &"https://collector:4318"
  else if bool_decide (key = &"RATE_LIMIT_ENABLED") then Some &"true"
  else None.

Definition empty_config : Config :=
  Config.mkConfig [] [] [] [] false [] [] false [] f_zero false [] false f_zero 0 0 0 [].
Definition sc_loaded (app_env port : bytes) : Config :=
  match load (sc_environment app_env port) with Ok cfg => cfg | Err _ => empty_config end.

Definition sc_config : Config := sc_loaded &"production" &" 9090".
Definition sc_long : Config := sc_loaded (replicate 129 (zb 97)) &"9090".

(** Everything outside succeeds, and the context ends the wait. *)
Definition sc_oracle (t : trace) (c : appcall) : answer c :=
  match c with
  | ResourceNew _ => Ok 1 | ExporterNew _ => Ok (Some 2) | ProviderNew _ _ _ => 3
  | ProviderFlush _ _ | ProviderShutdown _ _ => Ok tt
  | PoolNew _ _ => Ok 4 | PoolPing _ _ => Ok tt | PoolClose _ => tt
  | SetReleaseMode => tt | ServerStart _ => tt | Wait _ => CtxDone | LogInfo _ => tt | ServerShutdown _ => Ok tt
  end.

Definition sc_run (cfg : Config) : result unit * world trace :=
  RunContext sc_clock (fun _ => &"x") (fun _ c => c) (fun _ => Opaque &"limiter") sc_oracle (Some background) (Some cfg) (World 0 []).
End AppScenario.

Lemma sc_load : load (sc_environment &"production" &" 9090") = Ok sc_config.
Proof. vm_compute. reflexivity. Qed.

(** A run calls the outside twelve times and releases all it acquired. *)
Example sc_run_releases :
  (is_ok (fst (sc_run sc_config)), length (w_store (snd (sc_run sc_config))), scan [] (w_store (snd (sc_run sc_config))))
  = (true, 12%nat, Some []).
Proof. vm_compute. reflexivity. Qed.

(** ** Witnesses *)

Example Production_guards_witness :
  load (sc_environment &"production" &" 9090") = Ok sc_config /\ OTELExporterOTLPInsecure sc_config = false.
Proof.
  split; [exact sc_load|].
  apply (Production_guards (sc_environment &"production" &" 9090") sc_config sc_load). vm_compute. reflexivity.
Defined.

Example Config_errors_discreet_witness :
  exists e, load (sc_environment &"production" &"70000") = Err e /\ discreet &"70000" e.
Proof.
  assert (exists e, load (sc_environment &"production" &"70000") = Err e) as [e E] by (eexists; vm_compute; reflexivity).
  exists e. split; [exact E|]. exact (Config_errors_discreet (sc_environment &"production" &"70000") e E).
Defined.

Example Run_fails_outside_witness : exists new, w_store (snd (sc_run sc_config)) = [] ++ new
  /\ is_ok (fst (sc_run sc_config)) = forallb (fun e => negb (failed e)) new.
Proof.
  apply (Run_fails_outside sc_clock (fun _ => &"x") (fun _ c => c) (fun _ => Opaque &"limiter") sc_oracle background sc_config (World 0 [])).
  - vm_compute. reflexivity.
  - vm_compute. discriminate.
Defined.

Example Long_environment_fails_witness : is_ok (fst (sc_run sc_long)) = false.
Proof.
  apply (Long_environment_fails sc_clock (fun _ => &"x") (fun _ c => c) (fun _ => Opaque &"limiter") sc_oracle background sc_long (World 0 [])).
  - vm_compute. reflexivity.
  - intros Hl. revert Hl. vm_compute. congruence.
Defined.

Example Healthcheck_agrees_witness :
  exists port, Healthcheck.probe_port &"9090" = Ok port /\ Atoi (HTTPPort (sc_loaded &"staging" &"9090")) = Some port.
Proof.
  apply (Healthcheck_agrees (sc_environment &"staging" &"9090") (sc_loaded &"staging" &"9090") &"9090").
  - vm_compute. reflexivity.
  - reflexivity.
  - vm_compute. reflexivity.
Defined.

(** The probe does not trim the setting that [config] trims: with a space before the port
    the application runs and the probe fails without asking it. *)
Lemma Healthcheck_space :
  is_ok (load (sc_environment &"production" &" 9090")) = true /\ is_ok (Healthcheck.probe_port &" 9090") = false.
Proof. vm_compute. split; reflexivity. Qed.
