(* ===== verification/Deployment.v ===== *)
(** * The deployed service

    The composition root and the router together: what a client of a process that was
    started on a configuration may do. *)
From S2P Require Import Prelude GoText GoEncoding GoTime GoFloat GoUnicode GoJson Sha256 Errors World Trace Item Auth AuthFacts RateLimit HttpApi.
From S2P Require Import Metrics Exchange Observability Security Router Frames RouterFacts GuardFacts Telemetry Config ConfigFacts Server App AppFacts.
From S2P Require Import Memory Scenario HttpFacts HttpScenario RouterScenario AppScenario.

Section Deployment.
Context {U : Unicode} {H : Hash256} {S : Type}.
(** The parameters of the composition root. *)
Context (sysnow : nat -> time) (float_text : float64 -> bytes) (with_timeout : Z -> context -> context).
Context (limiter_error : config_error -> error) (oracle : trace -> forall c, answer c).
(** The parameters of the router that it starts. *)
Context (range : gmap bytes bucket -> list (bytes * bucket)) (new_uuid : nat -> uuid) (body_size : payload -> Z).
Context (broken_pipe : error -> bool) (start_span : Z * bytes -> tracer) (TraceContext : propagator).
Context (uuid_parse : bytes -> option uuid).
Context (match_route : list (bytes * bytes * endpoint) -> bytes -> bytes -> option (bytes * bytes)).
Context (readiness : option (option context -> M unit unit)) (items : HttpApi.Handler (S := S)).

(** The handler that a server was started with, on one request. *)
Definition serves (s : Server.Server routing) (q : http_request) : option (M (engine S) unit) :=
  match hs_handler (sv_server s) with
  | Server.Handler r => Some (NewRouter range sysnow new_uuid body_size broken_pipe TraceContext with_timeout uuid_parse
      match_route readiness items (router_options start_span TraceContext r) q)
  | NotFoundHandler => None
  end.

(** The bytes are those of the digest that the configuration gives in hexadecimal. *)
Definition configured_digest (cfg : Config) (digest : array 32) : Prop :=
  hex_decode (AuthBearerTokenSHA256 cfg) = Some (arr_bytes digest).

(** C2: A process started with authentication enabled guards its items: whatever its run
    meets, every server it starts answers every request, and a request without a token
    of the configured digest neither reads nor changes an item and is refused under the
    versioned API, at any moment of the shared state. *)
Theorem Deployed_guard ctx cfg w :
  literal_prefixes match_route -> AuthEnabled cfg = true ->
  exists new, w_store (RunContext sysnow float_text with_timeout limiter_error oracle ctx (Some cfg) w).2 = w_store w ++ new
    /\ forall s, Event (ServerStart s) tt ∈ new -> forall q (e : world (engine S)),
      (forall token, ParseBearerToken (Some (rq_headers (hr_request q))) = Ok token -> ~ configured_digest cfg (Sum256 token)) ->
      exists run e', serves s q = Some run /\ run e = (Ok tt, e')
        /\ en_items (w_store e') = en_items (w_store e)
        /\ (isVersionedAPIPath (path_of q) = true -> refused (en_items (w_store e)) (outer_view (w_store e'))).
Proof.
  intros Hlit Hauth.
  destruct (RunContext_emits sysnow float_text with_timeout limiter_error oracle cfg ctx w) as (new & Hs & _ & Hw & _).
  exists new. split; [done|]. intros s Hin q e Ht. rewrite Forall_forall in Hw.
  destruct (Hw _ Hin) as (r & Hr & _ & _ & _ & Hv & _). unfold serves. rewrite Hr.
  destruct (ro_auth r) as [v|] eqn:Ea; [|by cbn in Hv; congruence]. destruct Hv as [_ Hd].
  edestruct (requests_guarded range sysnow new_uuid body_size broken_pipe TraceContext with_timeout uuid_parse
    match_route readiness items (configure (router_options start_span TraceContext r)) v q e Hlit) as (e' & Hrun & Hi & Href).
  - cbn. by rewrite Ea.
  - intros token Hp E. apply (Ht token Hp). unfold configured_digest. by rewrite Hd, E.
  - eexists _, e'. split; [done|]. by split_and!.
Qed.
End Deployment.

(** ** A deployment *)

#[local] Existing Instance sha256_hash.
#[local] Instance dp_letters : Unicode := {| lower_letter r := r; upper_letter r := r |}.

Definition dp_environment : environment := fun key =>
  if bool_decide (key = &"AUTH_ENABLED") then Some &"true"
  else if bool_decide (key = &"AUTH_BEARER_TOKEN_SHA256") then Some (hex_encode (sha256 wit_secret))
  else sc_environment &"staging" &"9090" key.
Definition dp_config : Config := match load dp_environment with Ok cfg => cfg | Err _ => empty_config end.
Definition dp_run : result unit * world trace :=
  RunContext sc_clock (fun _ => &"x") (fun _ c => c) (fun _ => Opaque &"limiter") sc_oracle (Some background) (Some dp_config) (World 0 []).
Definition dp_request : http_request := sc_get [&"Bearer another-token"].
Definition dp_starts (e : event) : bool := match ev_call e with ServerStart _ => true | _ => false end.
Definition dp_serves (s : Server.Server routing) :=
  serves (S := option MemoryStore) sc_clock (fun _ c => c) sc_buckets sc_uuid sc_payload_size (fun _ => false)
    (fun _ _ _ => SpanValue false [] []) sc_propagator sc_uuid_parse sc_match None (api sc_clock sc_service 0) s dp_request.

Example Deployed_guard_witness :
  exists s run e', dp_serves s = Some run /\ run (sc_engine dp_request) = (Ok tt, e')
    /\ en_items (w_store e') = w_store (sc_world 3).
Proof.
  destruct (Deployed_guard (S := option MemoryStore) sc_clock (fun _ => &"x") (fun _ c => c) (fun _ => Opaque &"limiter") sc_oracle
    sc_buckets sc_uuid sc_payload_size (fun _ => false) (fun _ _ _ => SpanValue false [] []) sc_propagator sc_uuid_parse
    sc_match None (api sc_clock sc_service 0) (Some background) dp_config (World 0 [])) as (new & Hs & Hg).
  - exact sc_literal.
  - vm_compute. reflexivity.
  - assert (existsb dp_starts new = true) as Hstart.
    { change (existsb dp_starts ([] ++ new) = true). change (w_store (World 0 (@nil event))) with (@nil event) in Hs.
      rewrite <- Hs. vm_compute. reflexivity. }
    apply existsb_exists in Hstart as ([c a] & Hin & Hc). destruct c; try discriminate Hc. destruct a.
    apply list_elem_of_In in Hin.
    destruct (Hg _ Hin dp_request (sc_engine dp_request)) as (run & e' & Hr & He & Hi & _).
    + intros token Htoken. vm_compute in Htoken. injection Htoken as <-.
      intros E. revert E. unfold configured_digest. vm_compute. discriminate.
    + exists server, run, e'. split; [exact Hr|]. split; [exact He|exact Hi].
Defined.
