(* ===== verification/GoRegexp.v ===== *)
(** * Regular expressions

    Go's [regexp] on byte strings, for the constructs that the program uses: greedy
    and lazy repetition, one capture group, line anchors. A match is the first one in
    Perl's order, which is the order Go follows; [matches] is the language a pattern
    denotes. Negated classes are over single bytes: the excluded characters are
    ASCII, so a multi-byte character is in the class exactly when its bytes are. *)
From S2P Require Import Prelude GoText.

Inductive re :=
  | Eps
  | Byte (f : byte -> bool)
  | Seq (a b : re)
  | Alt (a b : re)
  | Star (lazy : bool) (a : re)
  | Group (a : re)
  | LineStart
  | LineEnd.

Definition Plus (a : re) : re := Seq a (Star false a).
Definition PlusLazy (a : re) : re := Seq a (Star true a).
Definition Opt (a : re) : re := Alt a Eps.
Fixpoint UpTo (n : nat) (a : re) : re :=
  match n with O => Eps | S n => Opt (Seq a (UpTo n a)) end.
Fixpoint Literal (s : bytes) : re :=
  match s with
  | [] => Eps
  | b :: s => Seq (Byte (fun c => bool_decide (c = b))) (Literal s)
  end.

(** Where the matcher stands: the byte before, the bytes to come, the last capture. *)
Record pos := mkPos { p_prev : option byte; p_rest : bytes; p_cap : option bytes }.

Definition newline : byte := zb 10.

Definition at_line_start (p : pos) : bool :=
  match p_prev p with None => true | Some b => bool_decide (b = newline) end.
Definition at_line_end (p : pos) : bool :=
  match p_rest p with [] => true | b :: _ => bool_decide (b = newline) end.

Definition orelse {A} (a b : option A) : option A := match a with Some _ => a | None => b end.

Section Star.
Context {R : Type} (ma : pos -> (pos -> option R) -> option R) (lazy : bool).

(** Repetition stops after an empty iteration; [n] bounds the bytes left. *)
Fixpoint star (n : nat) (p : pos) (k : pos -> option R) : option R :=
  let more :=
    match n with
    | O => None
    | S n' => ma p (fun p' => if Nat.ltb (length (p_rest p')) (length (p_rest p)) then star n' p' k else None)
    end in
  if lazy then orelse (k p) more else orelse more (k p).
End Star.

Fixpoint run {R} (r : re) (p : pos) (k : pos -> option R) : option R :=
  match r with
  | Eps => k p
  | Byte f =>
    match p_rest p with
    | b :: rest => if f b then k (mkPos (Some b) rest (p_cap p)) else None
    | [] => None
    end
  | Seq a b => run a p (fun p' => run b p' k)
  | Alt a b => orelse (run a p k) (run b p k)
  | Star lazy a => star (run a) lazy (length (p_rest p)) p k
  | Group a =>
    run a p (fun p' =>
      k (mkPos (p_prev p') (p_rest p') (Some (take (length (p_rest p) - length (p_rest p')) (p_rest p)))))
  | LineStart => if at_line_start p then k p else None
  | LineEnd => if at_line_end p then k p else None
  end.

(** [^r$] without the multi-line flag, as a predicate. *)
Definition full_match (r : re) (s : bytes) : bool :=
  match run r (mkPos None s None) (fun p => if bool_decide (p_rest p = []) then Some tt else None) with
  | Some _ => true
  | None => false
  end.

(** The leftmost match: the text matched, its capture and what follows it. *)
Fixpoint find (r : re) (prev : option byte) (s : bytes) : option (bytes * option bytes * (option byte * bytes)) :=
  match run r (mkPos prev s None) Some with
  | Some p => Some (take (length s - length (p_rest p)) s, p_cap p, (p_prev p, p_rest p))
  | None => match s with [] => None | b :: s' => find r (Some b) s' end
  end.

Definition FindSubmatch (r : re) (s : bytes) : option bytes := m ← find r None s; snd (fst m).
Definition MatchString (r : re) (s : bytes) : bool := match find r None s with Some _ => true | None => false end.

(** [FindAllString(s, -1)] for a pattern that does not match the empty string: [n]
    bounds the matches. *)
Fixpoint find_all (n : nat) (r : re) (prev : option byte) (s : bytes) : list bytes :=
  match n with
  | O => []
  | S n =>
    match find r prev s with
    | None => []
    | Some (text, _, (prev', rest)) => text :: find_all n r prev' rest
    end
  end.
Definition FindAllString (r : re) (s : bytes) : list bytes := find_all (length s) r None s.

(** ** The language of a pattern *)

Inductive matches : re -> bytes -> Prop :=
  | matches_eps : matches Eps []
  | matches_byte f b : f b = true -> matches (Byte f) [b]
  | matches_seq a b s t : matches a s -> matches b t -> matches (Seq a b) (s ++ t)
  | matches_left a b s : matches a s -> matches (Alt a b) s
  | matches_right a b s : matches b s -> matches (Alt a b) s
  | matches_stop lazy a : matches (Star lazy a) []
  | matches_more lazy a s t : s <> [] -> matches a s -> matches (Star lazy a) t -> matches (Star lazy a) (s ++ t)
  | matches_group a s : matches a s -> matches (Group a) s.

(** Patterns without anchors. *)
Fixpoint anchor_free (r : re) : bool :=
  match r with
  | LineStart | LineEnd => false
  | Seq a b | Alt a b => anchor_free a && anchor_free b
  | Star _ a | Group a => anchor_free a
  | Eps | Byte _ => true
  end.

Lemma orelse_None {A} (a b : option A) : orelse a b = None <-> a = None /\ b = None.
Proof. destruct a; cbn; naive_solver. Qed.

(** The matcher finds nothing only when there is nothing to find. *)
Definition complete {R} (L : bytes -> Prop) (m : pos -> (pos -> option R) -> option R) : Prop :=
  forall p k, m p k = None -> forall s t, p_rest p = s ++ t -> L s ->
    exists prev cap, k (mkPos prev t cap) = None.

(** What it finds is what the continuation makes of a match. *)
Definition sound {R} (L : bytes -> Prop) (m : pos -> (pos -> option R) -> option R) : Prop :=
  forall p k x, m p k = Some x ->
    exists s p', L s /\ p_rest p = s ++ p_rest p' /\ k p' = Some x.

Lemma star_sound {R} L (ma : pos -> (pos -> option R) -> option R) lazy n (LS : bytes -> Prop) :
  sound L ma -> LS [] -> (forall s t, s <> [] -> L s -> LS t -> LS (s ++ t)) -> sound LS (star ma lazy n).
Proof.
  intros Hs H0 Hmore. induction n as [|n IH]; intros p k x.
  - cbn. intros Hx. assert (k p = Some x) as E by (destruct lazy, (k p); cbn in Hx; congruence).
    by exists [], p.
  - cbn [star]. intros Hx.
    assert (k p = Some x \/ ma p (fun p' => if Nat.ltb (length (p_rest p')) (length (p_rest p))
      then star ma lazy n p' k else None) = Some x) as [E|E].
    { destruct lazy; [destruct (k p)|destruct (ma p _)]; cbn in Hx; auto. }
    + by exists [], p.
    + destruct (Hs _ _ _ E) as (s & p' & HL & Er & Ek). destruct (Nat.ltb_spec (length (p_rest p')) (length (p_rest p))); [|done].
      destruct (IH _ _ _ Ek) as (t & p'' & HLS & Er' & Ek'). exists (s ++ t), p''.
      split; [|by rewrite Er, Er', app_assoc]. apply Hmore; [|done|done].
      intros ->. rewrite Er in *. cbn in *. lia.
Qed.

Lemma star_complete {R} L (ma : pos -> (pos -> option R) -> option R) lazy :
  complete L ma -> forall n p k, star ma lazy n p k = None -> (length (p_rest p) <= n)%nat ->
  forall r s t, r = Star lazy Eps -> p_rest p = s ++ t ->
  (exists parts, s = concat parts /\ Forall (fun x => x <> [] /\ L x) parts) ->
  exists prev cap, k (mkPos prev t cap) = None.
Proof.
  intros Hc. induction n as [|n IH]; intros p k Hn Hlen r s t Hr Es (parts & -> & Hp).
  - destruct parts as [|x parts].
    + exists (p_prev p), (p_cap p). cbn in Hn, Es. destruct p as [prev rest cap]. cbn in *. subst rest.
      by destruct lazy, (k _).
    + apply Forall_cons in Hp as [[Hx _] _]. destruct x; [done|]. cbn in Es. rewrite Es in Hlen. cbn in Hlen. lia.
  - cbn [star] in Hn.
    assert (k p = None /\ ma p (fun p' => if Nat.ltb (length (p_rest p')) (length (p_rest p))
      then star ma lazy n p' k else None) = None) as [Hk Hm].
    { destruct lazy; apply orelse_None in Hn; tauto. }
    destruct parts as [|x parts].
    + exists (p_prev p), (p_cap p). cbn in Es. rewrite <- Es. by destruct p.
    + apply Forall_cons in Hp as [[Hx HL] Hp]. cbn [concat] in Es. rewrite <- app_assoc in Es.
      destruct (Hc _ _ Hm _ _ Es HL) as (prev & cap & E). cbn [p_rest] in E.
      assert (length x <> 0)%nat by (by destruct x).
      rewrite Es, !length_app in E. rewrite (proj2 (Nat.ltb_lt _ _)) in E by lia.
      eapply (IH _ _ E); [|done|done|by exists parts].
      cbn [p_rest]. rewrite Es, !length_app in Hlen. rewrite length_app. lia.
Qed.

Lemma matches_star_parts lazy a s :
  matches (Star lazy a) s -> exists parts, s = concat parts /\ Forall (fun x => x <> [] /\ matches a x) parts.
Proof.
  intros Hm. remember (Star lazy a) as r eqn:E. induction Hm; try done; injection E as -> ->.
  - by exists [].
  - destruct IHHm2 as (parts & -> & Hp); [done|]. exists (s :: parts). split; [done|]. by constructor.
Qed.

Lemma run_complete {R} r : anchor_free r = true -> complete (matches r) (run (R := R) r).
Proof.
  induction r; cbn [anchor_free]; intros Ha p k Hn s t Es Hm; cbn [run] in Hn.
  - inversion Hm; subst. destruct p as [prev rest cap]. cbn in Es. subst. by eexists _, _.
  - inversion Hm; subst. cbn in Es. rewrite Es in Hn. rewrite H0 in Hn. by eexists _, _.
  - apply andb_true_iff in Ha as [Ha1 Ha2].
    inversion Hm as [| |a b s1 s2 H1 H2| | | | |]; subst. rewrite <- app_assoc in Es.
    destruct (IHr1 Ha1 _ _ Hn _ _ Es H1) as (prev & cap & E). by apply (IHr2 Ha2 _ _ E s2 t).
  - apply andb_true_iff in Ha as [Ha1 Ha2]. apply orelse_None in Hn as [Hn1 Hn2].
    inversion Hm; subst; [by apply (IHr1 Ha1 _ _ Hn1 s)|by apply (IHr2 Ha2 _ _ Hn2 s)].
  - apply matches_star_parts in Hm. by eapply star_complete; [by apply IHr|done..].
  - inversion Hm; subst. destruct (IHr Ha _ _ Hn _ _ Es H0) as (prev & cap & E). by eexists _, _.
  - done.
  - done.
Qed.

Lemma run_sound {R} r : anchor_free r = true -> sound (matches r) (run (R := R) r).
Proof.
  induction r; cbn [anchor_free]; intros Ha p k x Hx; cbn [run] in Hx.
  - exists [], p. by repeat constructor.
  - destruct (p_rest p) as [|b rest] eqn:E; [done|]. destruct (f b) eqn:Ef; [|done].
    eexists [b], _. by repeat constructor; try done.
  - apply andb_true_iff in Ha as [Ha1 Ha2]. destruct (IHr1 Ha1 _ _ _ Hx) as (s & p' & Hs & Es & Hk).
    destruct (IHr2 Ha2 _ _ _ Hk) as (t & p'' & Ht & Et & Hk'). exists (s ++ t), p''.
    split; [by constructor|]. by rewrite Es, Et, app_assoc.
  - apply andb_true_iff in Ha as [Ha1 Ha2].
    destruct (run r1 p k) eqn:E.
    + destruct (IHr1 Ha1 _ _ _ E) as (s & p' & Hs & Es & Hk). cbn in Hx. exists s, p'.
      split; [by constructor|]. split; [done|congruence].
    + destruct (IHr2 Ha2 _ _ _ Hx) as (s & p' & Hs & Es & Hk). exists s, p'. split; [by constructor|done].
  - eapply star_sound; [by apply IHr|constructor|by constructor|done].
  - destruct (IHr Ha _ _ _ Hx) as (s & p' & Hs & Es & Hk). eexists s, _. split; [by constructor|].
    split; [|exact Hk]. done.
  - done.
  - done.
Qed.

(** The matcher decides the language. *)
Lemma full_match_spec r s : anchor_free r = true -> full_match r s = true <-> matches r s.
Proof.
  intros Ha. unfold full_match. split.
  - destruct (run r _ _) as [x|] eqn:E; [|done]. intros _.
    destruct (run_sound r Ha _ _ _ E) as (t & p' & Ht & Es & Hk). cbn in Es.
    destruct (bool_decide_reflect (p_rest p' = [])) as [Er|]; [|done]. rewrite Er, app_nil_r in Es. by subst.
  - intros Hm. destruct (run r _ _) eqn:E; [done|]. exfalso.
    destruct (run_complete r Ha _ _ E s [] (eq_sym (app_nil_r s)) Hm) as (prev & cap & Hk). done.
Qed.
