(* ===== verification/GoPath.v ===== *)
(** * Lexical paths

    Go's [path/filepath] on Unix, for what the program uses of it: [Clean], [IsAbs],
    [Join], [Dir] and [Rel], on slash-separated segments. *)
From S2P Require Import Prelude GoText.

Definition slash : byte := zb 47.
Definition dot : bytes := &".".
Definition dotdot : bytes := &"..".

Definition IsAbs (path : bytes) : bool := match path with b :: _ => bool_decide (b = slash) | [] => false end.

(** One element of a path; [out] is the cleaned path so far, last segment first. *)
Definition clean_step (rooted : bool) (out : list bytes) (seg : bytes) : list bytes :=
  if bool_decide (seg = []) || bool_decide (seg = dot) then out
  else if bool_decide (seg = dotdot) then
    match out with
    | top :: rest => if bool_decide (top = dotdot) then seg :: out else rest
    | [] => if rooted then [] else [seg]
    end
  else seg :: out.

Definition clean_segments (path : bytes) : list bytes :=
  rev (fold_left (clean_step (IsAbs path)) (split_byte slash path) []).

Definition unsegments (rooted : bool) (segs : list bytes) : bytes :=
  (if rooted then [slash] else []) ++ join_bytes [slash] segs.

Definition Clean (path : bytes) : bytes :=
  match unsegments (IsAbs path) (clean_segments path) with
  | [] => dot
  | cleaned => cleaned
  end.

(** [Join(dir, name)] for a non-empty [dir]. *)
Definition Join (dir name : bytes) : bytes := Clean (dir ++ &"/" ++ name).

(** [Dir]: what precedes the last separator, it included, cleaned. *)
Definition Dir (path : bytes) : bytes :=
  Clean (rev (drop_while (fun b => negb (bool_decide (b = slash))) (rev path))).

(** The parts of two lists after their common prefix. *)
Fixpoint after_common (a b : list bytes) : list bytes * list bytes :=
  match a, b with
  | x :: a', y :: b' => if bool_decide (x = y) then after_common a' b' else (a, b)
  | _, _ => (a, b)
  end.

(** What [Rel] walks over: the target [.] is an element, the base [.] is not. *)
Definition target_segments (path : bytes) : list bytes :=
  match clean_segments path with
  | [] => if IsAbs path then [] else [dot]
  | segs => segs
  end.

(** [Rel(base, target)]: up to the common ancestor, which must not lie above the
    start of a relative base, and down to the target. *)
Definition Rel (base target : bytes) : option bytes :=
  if bool_decide (Clean base = Clean target) then Some dot
  else if negb (Bool.eqb (IsAbs base) (IsAbs target)) then None
  else
    let '(up, down) := after_common (clean_segments base) (target_segments target) in
    match up with
    | first :: _ => if bool_decide (first = dotdot) then None
                    else Some (join_bytes [slash] (((fun _ => dotdot) <$> up) ++ down))
    | [] => Some (join_bytes [slash] down)
    end.

(** ** Lemmas *)

(** An element of a cleaned path that names a child. *)
Definition normal (seg : bytes) : Prop := seg <> [] /\ seg <> dot /\ seg <> dotdot /\ slash ∉ seg.

Lemma split_byte_slashes c s : Forall (fun seg => c ∉ seg) (split_byte c s).
Proof.
  induction s as [|x s IH]; cbn [split_byte]; [repeat constructor; set_solver|].
  case_bool_decide; [constructor; [set_solver|done]|].
  destruct (split_byte c s) as [|seg segs]; [repeat constructor; set_solver|].
  inversion_clear IH. constructor; [set_solver|done].
Qed.

Lemma split_byte_not_nil c s : split_byte c s <> [].
Proof. destruct s; cbn; repeat case_match; done. Qed.

Lemma split_byte_concat c p q : split_byte c (p ++ c :: q) = split_byte c p ++ split_byte c q.
Proof.
  induction p as [|x p IH]; cbn [split_byte app].
  - by rewrite bool_decide_eq_true_2.
  - case_bool_decide; [by rewrite IH|]. rewrite IH.
    pose proof (split_byte_not_nil c p). by destruct (split_byte c p).
Qed.

Lemma split_byte_id c p : c ∉ p -> split_byte c p = [p].
Proof.
  induction p as [|x p IH]; intros Hp; cbn [split_byte]; [done|].
  rewrite bool_decide_eq_false_2 by set_solver. by rewrite IH by set_solver.
Qed.

Lemma split_byte_join c segs :
  segs <> [] -> Forall (fun seg => c ∉ seg) segs -> split_byte c (join_bytes [c] segs) = segs.
Proof.
  induction segs as [|seg [|seg' rest] IH]; intros Hne Hall; [done|inversion_clear Hall; by apply split_byte_id|].
  inversion_clear Hall as [|?? Hseg Hrest].
  change (join_bytes [c] (seg :: seg' :: rest)) with (seg ++ c :: join_bytes [c] (seg' :: rest)).
  rewrite split_byte_concat, split_byte_id by done. by rewrite IH.
Qed.

(** The cleaned path so far, last element first: children above climbs, and no
    climbs from the root. *)
Definition clean_form (rooted : bool) (out : list bytes) : Prop :=
  exists kids k, out = kids ++ repeat dotdot k /\ Forall normal kids /\ (rooted = true -> k = 0%nat).

Lemma normal_dotdot : ~ normal dotdot.
Proof. intros (_ & _ & H & _). by apply H. Qed.

Lemma clean_step_form rooted out seg :
  slash ∉ seg -> clean_form rooted out -> clean_form rooted (clean_step rooted out seg).
Proof.
  intros Hs (kids & k & -> & Hk & H0). unfold clean_step.
  destruct (bool_decide (seg = []) || bool_decide (seg = dot)) eqn:E; [by exists kids, k|].
  bool_simpl. case_bool_decide as E2.
  - subst seg. destruct kids as [|kid kids]; cbn [app].
    + destruct k as [|k]; cbn [repeat].
      * destruct rooted; [by exists [], 0%nat|]. by exists [], 1%nat.
      * rewrite bool_decide_eq_true_2 by done. exists [], (S (S k)). split; [done|]. split; [done|].
        intros Hr. by specialize (H0 Hr).
    + inversion_clear Hk as [|?? Hkid Hkids].
      rewrite bool_decide_eq_false_2 by (intros ->; by apply normal_dotdot). by exists kids, k.
  - exists (seg :: kids), k. split; [done|]. split; [|done]. by constructor.
Qed.

Lemma clean_fold_form rooted segs out :
  Forall (fun seg => slash ∉ seg) segs -> clean_form rooted out -> clean_form rooted (fold_left (clean_step rooted) segs out).
Proof.
  revert out. induction segs as [|seg segs IH]; intros out Hs Hf; [done|].
  inversion_clear Hs. cbn [fold_left]. apply IH; [done|]. by apply clean_step_form.
Qed.

Lemma clean_segments_form path : exists kids k,
  clean_segments path = repeat dotdot k ++ kids /\ Forall normal kids /\ (IsAbs path = true -> k = 0%nat).
Proof.
  destruct (clean_fold_form (IsAbs path) (split_byte slash path) []) as (kids & k & E & Hk & H0).
  - apply split_byte_slashes.
  - by exists [], 0%nat.
  - exists (rev kids), k. unfold clean_segments. rewrite E, rev_app_distr. split; [|split; [|done]].
    + f_equal. apply rev_repeat.
    + by apply List.Forall_rev.
Qed.

Lemma clean_segments_abs path : IsAbs path = true -> Forall normal (clean_segments path).
Proof. intros Ha. destruct (clean_segments_form path) as (kids & k & -> & Hk & H0). by rewrite (H0 Ha). Qed.

(** Pushing the elements of a cleaned path on the right. *)
Lemma clean_fold_normal rooted segs out :
  Forall normal segs -> fold_left (clean_step rooted) segs out = rev segs ++ out.
Proof.
  revert out. induction segs as [|seg segs IH]; intros out Hs; [done|].
  inversion_clear Hs as [|?? (H1 & H2 & H3 & _) Hs']. cbn [fold_left rev]. rewrite IH by done.
  unfold clean_step. rewrite !bool_decide_eq_false_2 by done. cbn. by rewrite <- app_assoc.
Qed.

Lemma normal_slashes segs : Forall normal segs -> Forall (fun seg => slash ∉ seg) segs.
Proof. intros Hs. eapply Forall_impl; [exact Hs|]. by intros seg (_ & _ & _ & ?). Qed.

Lemma clean_segments_rooted segs : Forall normal segs -> clean_segments (unsegments true segs) = segs.
Proof.
  intros Hs. unfold clean_segments, unsegments. cbn [app IsAbs]. rewrite bool_decide_eq_true_2 by done.
  cbn [split_byte]. rewrite bool_decide_eq_true_2 by done. cbn [fold_left].
  replace (clean_step true [] []) with (@nil bytes) by done.
  destruct segs as [|seg segs]; [done|].
  rewrite split_byte_join by (done || by apply normal_slashes).
  by rewrite clean_fold_normal, app_nil_r, rev_involutive by done.
Qed.

Lemma IsAbs_Clean path : IsAbs path = true -> Clean path = unsegments true (clean_segments path) /\ IsAbs (Clean path) = true.
Proof. intros Ha. unfold Clean. rewrite Ha. split; [done|]. cbn. by rewrite bool_decide_eq_true_2. Qed.

Lemma clean_segments_Clean path : IsAbs path = true -> clean_segments (Clean path) = clean_segments path.
Proof.
  intros Ha. destruct (IsAbs_Clean path Ha) as [-> _]. apply clean_segments_rooted. by apply clean_segments_abs.
Qed.

Lemma after_common_spec a b up down : after_common a b = (up, down) -> exists p, a = p ++ up /\ b = p ++ down.
Proof.
  revert b. induction a as [|x a IH]; intros [|y b]; cbn [after_common].
  - intros [= <- <-]. by exists [].
  - intros [= <- <-]. by exists [].
  - intros [= <- <-]. by exists [].
  - case_bool_decide as E; [|intros [= <- <-]; by exists []].
    intros (p & -> & ->)%IH. subst. by exists (y :: p).
Qed.
