(* ===== verification/Rewrite.v ===== *)
(** * The single-pass rewriter of the template bootstrap

    [normalizeReplacements] and [replaceOnce] of cmd/bootstrap/main.go, on byte
    strings. The scanning loop advances by the length of the text it replaces, so it
    is written with fuel: one unit for each turn. [munch] is what the pass promises,
    on the table of replacements as a map: at each position the longest old text
    that starts there is replaced, and what has been written is not read again. *)
From S2P Require Import Prelude GoText Order.

Record replacement := mkReplacement { r_old : bytes; r_new : bytes }.

#[global] Instance replacement_eq_dec : EqDecision replacement.
Proof. solve_decision. Defined.

(** ** Operations *)

(** [sort.SliceStable]: an element goes before the first one that is not smaller. *)
Definition sort_stable {A} (less : A -> A -> bool) (l : list A) : list A :=
  sort_slice (fun x y => negb (less y x)) l.

(** Longer old texts first, then in the order of their bytes. *)
Definition longer_first (left right : replacement) : bool :=
  if Nat.eqb (length (r_old left)) (length (r_old right)) then bytes_ltb (r_old left) (r_old right)
  else Nat.ltb (length (r_old right)) (length (r_old left)).

(** The loop of [normalizeReplacements]: empty, identical and repeated olds go. *)
Fixpoint distinct_olds (seen : list bytes) (items : list replacement) : list replacement :=
  match items with
  | [] => []
  | item :: items =>
    if bool_decide (r_old item = []) || bool_decide (r_old item = r_new item) then distinct_olds seen items
    else if bool_decide (r_old item ∈ seen) then distinct_olds seen items
    else item :: distinct_olds (r_old item :: seen) items
  end.

Definition normalizeReplacements (items : list replacement) : list replacement :=
  sort_stable longer_first (distinct_olds [] items).

(** The inner loop: the first replacement whose old text starts here. *)
Definition matching (source : bytes) (items : list replacement) : option replacement :=
  List.find (fun item => has_prefix source (r_old item)) items.

(** The outer loop on what is left of the source; [None] when the fuel is spent. *)
Fixpoint replace_loop (fuel : nat) (items : list replacement) (source : bytes) : option bytes :=
  match source with
  | [] => Some []
  | b :: rest =>
    match fuel with
    | O => None
    | S fuel =>
      match matching source items with
      | Some item => app (r_new item) <$> replace_loop fuel items (drop (length (r_old item)) source)
      | None => cons b <$> replace_loop fuel items rest
      end
    end
  end.

Definition replaceOnce (fuel : nat) (input : bytes) (items : list replacement) : option bytes :=
  match items with
  | [] => Some input
  | _ => replace_loop fuel items input
  end.

(** ** What a pass promises *)

(** The table that a list of replacements denotes: the first entry for an old text
    counts, empty and identical ones do not. *)
Definition significant (item : replacement) : Prop := r_old item <> [] /\ r_old item <> r_new item.
#[global] Instance significant_dec item : Decision (significant item).
Proof. unfold significant. apply _. Defined.

Definition table (items : list replacement) : gmap bytes bytes :=
  list_to_map ((fun item => (r_old item, r_new item)) <$> filter significant items).

(** [old] is the longest entry of the table that starts the source. *)
Definition longest (t : gmap bytes bytes) (source old new : bytes) : Prop :=
  t !! old = Some new /\ old `prefix_of` source /\
  forall old', is_Some (t !! old') -> old' `prefix_of` source -> (length old' <= length old)%nat.

Inductive munch (t : gmap bytes bytes) : bytes -> bytes -> Prop :=
  | munch_end : munch t [] []
  | munch_old old new rest output :
      longest t (old ++ rest) old new -> munch t rest output -> munch t (old ++ rest) (new ++ output)
  | munch_keep b rest output :
      (forall old, is_Some (t !! old) -> ~ old `prefix_of` b :: rest) ->
      munch t rest output -> munch t (b :: rest) (b :: output).

(** ** Lemmas *)

Lemma distinct_olds_elem seen items item :
  item ∈ distinct_olds seen items -> item ∈ items /\ significant item /\ r_old item ∉ seen.
Proof.
  revert seen. induction items as [|i items IH]; intros seen; cbn [distinct_olds]; [set_solver|].
  destruct (bool_decide (r_old i = []) || _) eqn:E1.
  { intros [? ?]%IH. set_solver. }
  bool_simpl. destruct (bool_decide (r_old i ∈ seen)) eqn:E2; bool_simpl.
  { intros [? ?]%IH. set_solver. }
  intros [->|Hi]%elem_of_cons; [|apply IH in Hi; set_solver].
  split; [by constructor|]. by repeat split.
Qed.

Lemma distinct_olds_NoDup seen items : NoDup (r_old <$> distinct_olds seen items).
Proof.
  revert seen. induction items as [|i items IH]; intros seen; cbn [distinct_olds]; [constructor|].
  repeat break_if; auto. constructor; [|done].
  intros (j & Hj & Hin)%list_elem_of_fmap. apply distinct_olds_elem in Hin. set_solver.
Qed.

(** The loop keeps the first significant entry of each old text. *)
Lemma distinct_olds_lookup seen items old new :
  old ∉ seen ->
  (mkReplacement old new ∈ distinct_olds seen items <-> table items !! old = Some new).
Proof.
  unfold table. revert seen. induction items as [|[o n] items IH]; intros seen Hs; cbn [distinct_olds r_old r_new].
  { rewrite filter_nil. cbn [fmap list_fmap list_to_map foldr]. rewrite lookup_empty. set_solver. }
  rewrite filter_cons. unfold significant at 1. cbn [r_old r_new].
  destruct (bool_decide (o = []) || _) eqn:E1.
  { rewrite decide_False by (apply orb_true_iff in E1; rewrite !bool_decide_eq_true in E1; intros [N1 N2]; destruct E1; [by apply N1|by apply N2]). by apply IH. }
  bool_simpl. rewrite decide_True by done. rewrite fmap_cons. cbn [list_to_map foldr].
  destruct (decide (o = old)) as [->|Hne].
  - rewrite bool_decide_eq_false_2 by done. cbn [uncurry r_old r_new]. rewrite lookup_insert_eq.
    rewrite elem_of_cons. split; [|intros [= ->]; by left].
    intros [[= ->]|Hin]; [done|]. apply distinct_olds_elem in Hin. set_solver.
  - cbn [uncurry r_old r_new]. rewrite lookup_insert_ne by done. break_if; bool_simpl; [by apply IH|].
    rewrite elem_of_cons. rewrite IH by set_solver. naive_solver.
Qed.

Lemma sort_slice_ext_NoDup {A} (f g : A -> A -> bool) l :
  NoDup l -> (forall x y, x <> y -> x ∈ l -> y ∈ l -> f x y = g x y) -> sort_slice f l = sort_slice g l.
Proof.
  induction l as [|x l IH]; intros Hn H; cbn [sort_slice foldr]; [done|].
  apply NoDup_cons in Hn as [Hx Hn]. fold (sort_slice f l) (sort_slice g l). rewrite IH by set_solver.
  apply sort_insert_ext. intros y. rewrite sort_slice_perm. set_solver.
Qed.

Lemma longer_first_total l : NoDup (r_old <$> l) -> strict_total_on longer_first l.
Proof.
  intros Hn. unfold longer_first. split.
  - intros x y _ _. repeat break_if; rewrite ?Nat.eqb_eq, ?Nat.eqb_neq, ?Nat.ltb_lt, ?Nat.ltb_ge in *; try lia.
    apply bytes_ltb_asym.
  - intros x y z _ _ _. repeat break_if; rewrite ?Nat.eqb_eq, ?Nat.eqb_neq, ?Nat.ltb_lt in *; try lia.
    apply bytes_ltb_trans.
  - intros x y Hx Hy Hxy.
    repeat break_if; rewrite ?Nat.eqb_eq, ?Nat.eqb_neq, ?Nat.ltb_lt, ?Nat.ltb_ge in *; try lia.
    apply bytes_ltb_total. intros E. apply Hxy.
    apply list_elem_of_lookup in Hx as [i Hi], Hy as [j Hj].
    assert (i = j) as ->; [|congruence].
    eapply (NoDup_lookup (r_old <$> l) i j (r_old x)); [done|..]; rewrite list_lookup_fmap.
    + by rewrite Hi.
    + by rewrite Hj, E.
Qed.

Lemma sort_stable_distinct l : NoDup (r_old <$> l) -> sort_stable longer_first l = sort_slice longer_first l.
Proof.
  intros Hn. pose proof (longer_first_total l Hn) as Ht. apply NoDup_fmap_1 in Hn.
  apply sort_slice_ext_NoDup; [done|]. intros x y Hxy Hx Hy.
  destruct (longer_first y x) eqn:E; cbn.
  - by rewrite (sto_asym _ _ Ht y x).
  - by rewrite (sto_total _ _ Ht y x).
Qed.

Lemma normalize_perm items : normalizeReplacements items ≡ₚ distinct_olds [] items.
Proof.
  unfold normalizeReplacements. rewrite sort_stable_distinct by apply distinct_olds_NoDup. apply sort_slice_perm.
Qed.

Lemma normalize_sorted items : StronglySorted (fun x y => longer_first x y = true) (normalizeReplacements items).
Proof.
  unfold normalizeReplacements. pose proof (distinct_olds_NoDup [] items) as Hn.
  rewrite sort_stable_distinct by done.
  apply sort_slice_sorted; [by apply longer_first_total|by eapply NoDup_fmap_1].
Qed.

Lemma normalize_lookup items old new :
  mkReplacement old new ∈ normalizeReplacements items <-> table items !! old = Some new.
Proof. rewrite normalize_perm. apply distinct_olds_lookup. set_solver. Qed.

Lemma matching_Some source items item :
  matching source (normalizeReplacements items) = Some item ->
  longest (table items) source (r_old item) (r_new item) /\ r_old item <> [].
Proof.
  intros Hm. unfold matching in Hm.
  assert (item ∈ normalizeReplacements items) as Hin by (apply list_elem_of_In; apply (find_some _ _ Hm)).
  pose proof (find_some _ _ Hm) as [_ Hp]. apply has_prefix_spec in Hp.
  split; [|rewrite normalize_perm in Hin; by apply distinct_olds_elem in Hin as (_ & [? _] & _)].
  split; [apply normalize_lookup; by destruct item|]. split; [done|].
  intros old' [new' Hold'] Hp'. apply normalize_lookup in Hold'.
  pose proof (normalize_sorted items) as Hs. revert Hm Hs Hold'. clear -Hp'.
  induction (normalizeReplacements items) as [|i l IH]; [done|]. cbn [List.find].
  destruct (has_prefix source (r_old i)) eqn:E; intros Hf Hs Hin.
  - simplify_eq. apply elem_of_cons in Hin as [<-|Hin]; [done|].
    inversion_clear Hs as [|?? _ Hall]. rewrite Forall_forall in Hall. specialize (Hall _ Hin).
    unfold longer_first in Hall. cbn in Hall. break_if; [apply Nat.eqb_eq in Heqb|apply Nat.ltb_lt in Hall]; lia.
  - apply elem_of_cons in Hin as [<-|Hin]; [cbn in E; apply has_prefix_spec in Hp'; congruence|].
    inversion_clear Hs. eauto.
Qed.

Lemma matching_None source items :
  matching source (normalizeReplacements items) = None ->
  forall old, is_Some (table items !! old) -> ~ old `prefix_of` source.
Proof.
  intros Hm old [new Hold] Hp. apply normalize_lookup, list_elem_of_In in Hold.
  pose proof (find_none _ _ Hm _ Hold) as E. cbn in E. apply has_prefix_spec in Hp. congruence.
Qed.

Lemma longest_fun t source old new old' new' :
  longest t source old new -> longest t source old' new' -> old = old' /\ new = new'.
Proof.
  intros (Ht & Hp & Hl) (Ht' & Hp' & Hl').
  assert (old = old') as <-; [|split; congruence].
  assert (length old = length old') as E by (apply Nat.le_antisymm; eauto).
  destruct (prefix_weak_total old old' source Hp Hp') as [H|H]; [|symmetry];
    apply prefix_length_eq; (done || lia).
Qed.

Lemma table_no_empty items : table items !! [] = None.
Proof.
  destruct (table items !! []) eqn:E; [|done]. apply normalize_lookup in E.
  rewrite normalize_perm in E. by apply distinct_olds_elem in E as (_ & [? _] & _).
Qed.

Lemma munch_fun t source out out' : t !! [] = None -> munch t source out -> munch t source out' -> out = out'.
Proof.
  intros Hnil Hm. revert out'. induction Hm as [|old new rest out Hl Hm IH|b rest out Hn Hm IH]; intros out' Hm'.
  - inversion Hm' as [|old new rest out [Ho _] _ E|]; [done|].
    apply app_nil in E as [-> ->]. congruence.
  - inversion Hm' as [E E'|old' new' rest' out'' Hl' Hr E|b rest' out'' Hn Hr E]; subst.
    + symmetry in E. apply app_nil in E as [-> ->]. destruct Hl. congruence.
    + rewrite E in Hl'. destruct (longest_fun _ _ _ _ _ _ Hl Hl') as [<- <-]. apply app_inv_head in E as ->.
      f_equal. by apply IH.
    + exfalso. destruct Hl as (Ht & Hp & _). rewrite <- E in Hp. by apply (Hn old).
  - inversion Hm' as [|old' new' rest' out'' Hl' Hr E|b' rest' out'' Hn' Hr E]; subst.
    + exfalso. destruct Hl' as (Ht & Hp & _). rewrite E in Hp. by apply (Hn old').
    + f_equal. by apply IH.
Qed.

Lemma replace_loop_munch items source fuel :
  (length source <= fuel)%nat ->
  exists output, replace_loop fuel (normalizeReplacements items) source = Some output
    /\ munch (table items) source output.
Proof.
  revert source. induction fuel as [|fuel IH]; intros [|b rest] Hf; cbn [replace_loop length] in *;
    [eexists; split; [done|constructor]|lia|eexists; split; [done|constructor]|].
  destruct (matching (b :: rest) (normalizeReplacements items)) as [item|] eqn:E.
  - apply matching_Some in E as [Hl Hne]. pose proof Hl as (_ & [tail Hp] & _).
    rewrite Hp, drop_app_length.
    assert (length (b :: rest) = length (r_old item) + length tail)%nat as Hlen by (by rewrite Hp, length_app).
    destruct (IH tail) as (out & -> & Hm).
    { cbn in Hlen. assert (length (r_old item) <> 0)%nat by (by destruct (r_old item)). lia. }
    eexists. split; [done|]. rewrite Hp in Hl. by constructor.
  - destruct (IH rest) as (out & -> & Hm); [lia|].
    eexists. split; [done|]. constructor; [by apply matching_None|done].
Qed.

Lemma table_nil items : normalizeReplacements items = [] -> forall old, table items !! old = None.
Proof.
  intros Hn old. destruct (table items !! old) eqn:E; [|done].
  apply normalize_lookup in E. rewrite Hn in E. set_solver.
Qed.

Lemma munch_none t source : (forall old, t !! old = None) -> munch t source source.
Proof.
  intros Ht. induction source; constructor; [|done]. intros old [? Hs]. by rewrite Ht in Hs.
Qed.

Lemma replaceOnce_munch items source fuel :
  (length source <= fuel)%nat ->
  exists output, replaceOnce fuel source (normalizeReplacements items) = Some output
    /\ munch (table items) source output.
Proof.
  intros Hf. unfold replaceOnce. destruct (normalizeReplacements items) as [|i l] eqn:E.
  - eexists. split; [done|]. by apply munch_none, table_nil.
  - rewrite <- E. by apply replace_loop_munch.
Qed.

(** ** Properties *)

(** C26: The rewriter, given as many turns as the input has bytes, always finishes
    when it is applied to normalized replacements, and its output is the only one
    that the table of replacements allows: a partition of the input in which each
    longest old text found is replaced, every other byte is kept, and nothing
    written is read again. The order in which the replacements were collected and
    the repeated ones do not matter beyond that table. *)
Theorem Replace_refines_munch items source output :
  replaceOnce (length source) source (normalizeReplacements items) = Some output
  <-> munch (table items) source output.
Proof.
  destruct (replaceOnce_munch items source (length source)) as (out & -> & Hm); [done|].
  split; [by intros [= ->]|]. intros Hm'. f_equal. eapply munch_fun; [apply table_no_empty|done..].
Qed.

(** C40: The loop ends on every input when no old text is empty, which
    [normalizeReplacements] establishes whatever it is given; an empty old text that
    is tried first makes it run for ever. *)
Theorem Replace_terminates items :
  (Forall (fun item => r_old item <> []) items ->
   forall source fuel, (length source <= fuel)%nat -> is_Some (replaceOnce fuel source items))
  /\ Forall (fun item => r_old item <> []) (normalizeReplacements items)
  /\ (forall new source fuel, source <> [] -> replaceOnce fuel source (mkReplacement [] new :: items) = None).
Proof.
  split; [|split].
  - intros Hne source fuel. unfold replaceOnce. destruct items as [|i l]; [by eexists|].
    revert source. generalize dependent (i :: l). clear i l. intros items Hne.
    induction fuel as [|fuel IH]; intros [|b rest] Hf; cbn [replace_loop length] in *; (lia || eauto).
    destruct (matching (b :: rest) items) as [item|] eqn:E; [|rewrite fmap_is_Some; apply IH; lia].
    unfold matching in E. apply find_some in E as [Hin%list_elem_of_In Hp].
    rewrite Forall_forall in Hne. specialize (Hne _ Hin).
    apply fmap_is_Some, IH. rewrite length_drop. cbn.
    assert (length (r_old item) <> 0)%nat by (by destruct (r_old item)). lia.
  - rewrite Forall_forall. intros i Hi. rewrite normalize_perm in Hi. by apply distinct_olds_elem in Hi as (_ & [? _] & _).
  - intros new source fuel Hne. cbn [replaceOnce]. revert source Hne.
    induction fuel as [|fuel IH]; intros [|b rest] Hne; cbn [replace_loop]; [done..|].
    cbn [matching List.find r_old r_new has_prefix length]. rewrite drop_0. by rewrite IH.
Qed.

(** A concrete input. *)
Lemma Replace_terminates_witness :
  is_Some (replaceOnce 3 &"aba" [mkReplacement &"a" &"aa"; mkReplacement &"ab" &"x"])
  /\ replaceOnce 50 &"aba" [mkReplacement [] &"x"; mkReplacement &"ab" &"x"] = None.
Proof.
  pose proof (Replace_terminates [mkReplacement &"a" &"aa"; mkReplacement &"ab" &"x"]) as (H & _ & _).
  pose proof (Replace_terminates [mkReplacement &"ab" &"x"]) as (_ & _ & H').
  split; [apply H; [by repeat constructor|by vm_compute; lia]|by apply H'].
Defined.
