(* ===== verification/Bootstrap.v ===== *)
(** * The template bootstrap (cmd/bootstrap/main.go)

    What the command computes: option parsing and validation, the names derived from
    a module path, the table of replacements, and the checks on texts and paths.
    BootstrapRun.v has what it does to a checkout. A formatted error is
    kept as its format and its arguments. *)
From S2P Require Import Prelude GoText GoNet GoRegexp GoPath GoFloat Errors Order Rewrite.

Definition defaultRoot : bytes := &".".
Definition maxTextFile : Z := 32 * 2 ^ 20.

(** ** Patterns *)

Definition alnum : byte -> bool := is_alnum.
Definition alnum_or (extra : bytes) : byte -> bool := fun b => is_alnum b || in_set extra b.

Definition modulePathPattern : re :=
  Seq (Byte alnum) (Seq (Star false (Byte (alnum_or &".+~-")))
    (Plus (Seq (Literal &"/") (Seq (Byte alnum) (Star false (Byte (alnum_or &".+_~-"))))))).
Definition slugPattern : re :=
  Seq (Byte (fun b => is_lower b || is_digit b))
      (Star false (Byte (fun b => is_lower b || is_digit b || in_set &"_-" b))).
(** A letter or digit, or several with up to [n] characters between them. *)
Definition label (n : nat) : re :=
  Seq (Byte alnum) (Opt (Seq (UpTo n (Byte (alnum_or &"-"))) (Byte alnum))).
Definition ownerPattern : re := label 37.
Definition emailPattern : re :=
  Seq (Plus (Byte (alnum_or &".!#$%&'*+/=?^_`{|}~-"))) (Seq (Literal &"@")
    (Seq (label 61) (Plus (Seq (Literal &".") (label 61))))).
Definition blank (b : byte) : bool := in_set [zb 9; zb 32] b.
Definition moduleDirective : re :=
  Seq LineStart (Seq (Literal &"module") (Seq (Plus (Byte blank))
    (Group (Plus (Byte (fun b => negb (in_set [zb 13; zb 10; zb 9; zb 32] b))))))).
Definition copyrightHolder : re :=
  Seq LineStart (Seq (Literal &"Copyright (c)") (Seq (Plus (Byte blank))
    (Seq (Plus (Byte (fun b => negb (in_set [zb 9; zb 10; zb 12; zb 13; zb 32] b)))) (Seq (Plus (Byte blank))
      (Seq (Group (PlusLazy (Byte (fun b => negb (in_set [zb 13; zb 10] b)))))
        (Seq (Star false (Byte blank)) (Seq (Opt (Byte (fun b => bool_decide (b = zb 13)))) LineEnd))))))).

(** ** Names *)

(** [strings.ToUpper] of one byte; an invalid one becomes the replacement character. *)
Definition upper_byte (b : byte) : bytes :=
  if is_lower b then [zb (bz b - 32)]
  else if bz b <? 0x80 then [b] else [zb 0xEF; zb 0xBF; zb 0xBD].

Definition title_separator (b : byte) : bool := in_set &"-_." b.

(** [strings.FieldsFunc]: the non-empty runs between separators. *)
Fixpoint fields (sep : byte -> bool) (s : bytes) (current : bytes) : list bytes :=
  let flush rest := match current with [] => rest | _ => rev current :: rest end in
  match s with
  | [] => flush []
  | b :: s => if sep b then flush (fields sep s []) else fields sep s (b :: current)
  end.

Definition titleFromSlug (slug : bytes) : bytes :=
  join_bytes &" "
    ((fun part => match part with b :: rest => upper_byte b ++ rest | [] => [] end) <$> fields title_separator slug []).

Definition version_suffix (s : bytes) : bool :=
  match s with
  | v :: (_ :: _) as digits => bool_decide (v = zb 118) && forallb is_digit (drop 1 s)
  | _ => false
  end.

Definition projectSlug (module : bytes) : bytes :=
  match rev (split_byte slash module) with
  | [] => []
  | last :: rest =>
    if version_suffix last then match rest with previous :: _ => previous | [] => last end else last
  end.

Definition githubOwner (module : bytes) : bytes :=
  match split_byte slash module with
  | host :: owner :: _ :: _ => if equal_fold host &"github.com" then owner else []
  | _ => []
  end.

(** ** Options *)

Record options := mkOptions {
  o_root : bytes;
  o_module : bytes;
  o_slug : bytes;
  o_owner : bytes;
  o_author : bytes;
  o_email : bytes;
  o_dryRun : bool;
  o_force : bool;
}.

Definition validateOptions (opts : options) : result unit :=
  if bool_decide (o_module opts = []) then Err (Opaque &"--module is required")
  else if bool_decide (o_slug opts = []) then Err (Opaque &"--slug is required")
  else if negb (full_match modulePathPattern (o_module opts)) || contains (o_module opts) &"//"
  then Err (errorf &"invalid module path %q" [o_module opts])
  else if existsb (fun segment => bool_decide (segment = dot) || bool_decide (segment = dotdot))
            (split_byte slash (o_module opts))
  then Err (errorf &"invalid module path %q" [o_module opts])
  else if negb (full_match slugPattern (o_slug opts))
  then Err (errorf &"invalid project slug %q (use lower-case letters, digits, '_' or '-')" [o_slug opts])
  else if negb (bool_decide (o_owner opts = [])) && negb (full_match ownerPattern (o_owner opts))
  then Err (errorf &"invalid GitHub owner %q" [o_owner opts])
  else if negb (bool_decide (o_author opts = []))
          && (negb (ValidString (o_author opts)) || has_rune is_control (o_author opts))
  then Err (errorf &"invalid author %q (control characters are not allowed)" [o_author opts])
  else if negb (bool_decide (o_email opts = []))
          && (negb (own_address (o_email opts))
              || negb (MatchString emailPattern (o_email opts)))
  then Err (errorf &"invalid email address %q" [o_email opts])
  else Ok tt.

(** The option variable that a flag sets; several flags share one. *)
Inductive setting := Module_ | Slug | Owner | Author | Email | Root | DryRun | Force.

Definition flag_setting (name : bytes) : option setting :=
  let among l := existsb (fun n => bool_decide (name = n)) l in
  if among [&"module"; &"module-path"; &"m"] then Some Module_
  else if among [&"slug"; &"project-slug"; &"s"] then Some Slug
  else if among [&"owner"; &"github-owner"; &"o"] then Some Owner
  else if among [&"author"] then Some Author
  else if among [&"email"; &"author-email"] then Some Email
  else if among [&"root"] then Some Root
  else if among [&"dry-run"] then Some DryRun
  else if among [&"force"; &"allow-dirty"] then Some Force
  else None.

Definition is_bool_setting (f : setting) : bool := match f with DryRun | Force => true | _ => false end.

Definition set_option (o : options) (f : setting) (v : bytes) : option options :=
  let '(mkOptions root module slug owner author email dry force) := o in
  match f with
  | Module_ => Some (mkOptions root v slug owner author email dry force)
  | Slug => Some (mkOptions root module v owner author email dry force)
  | Owner => Some (mkOptions root module slug v author email dry force)
  | Author => Some (mkOptions root module slug owner v email dry force)
  | Email => Some (mkOptions root module slug owner author v dry force)
  | Root => Some (mkOptions v module slug owner author email dry force)
  | DryRun => b ← ParseBool v; Some (mkOptions root module slug owner author email b force)
  | Force => b ← ParseBool v; Some (mkOptions root module slug owner author email dry b)
  end.

(** [flag.ErrHelp] and the other errors of [FlagSet.Parse]. *)
Inductive flag_error := FlagHelp | FlagError (format : bytes) (arg : bytes).

(** [name=value], if there is an equals sign after the first character. *)
Definition split_value (name : bytes) : bytes * option bytes :=
  match index_byte (drop 1 name) (zb 61) with
  | Some i => (take (S i) name, Some (drop (S (S i)) name))
  | None => (name, None)
  end.

(** [FlagSet.Parse]: the options and the positional arguments. *)
Fixpoint parse_flags (n : nat) (args : list bytes) (o : options) : (options * list bytes) + flag_error :=
  match n, args with
  | S n, arg :: rest =>
    match arg with
    | minus :: ((second :: _) as tail) =>
      if negb (bool_decide (minus = zb 45)) then inl (o, args)
      else if bool_decide (arg = &"--") then inl (o, rest)
      else
        let name := if bool_decide (second = zb 45) then drop 1 tail else tail in
        if match name with [] => true | c :: _ => bool_decide (c = zb 45) || bool_decide (c = zb 61) end
        then inr (FlagError &"bad flag syntax: %s" arg)
        else
          let '(name, value) := split_value name in
          match flag_setting name with
          | None =>
            if bool_decide (name = &"help") || bool_decide (name = &"h") then inr FlagHelp
            else inr (FlagError &"flag provided but not defined: -%s" name)
          | Some f =>
            if is_bool_setting f then
              match set_option o f (default &"true" value) with
              | None => inr (FlagError &"invalid boolean value for -%s" name)
              | Some o => parse_flags n rest o
              end
            else
              match value, rest with
              | None, [] => inr (FlagError &"flag needs an argument: -%s" name)
              | None, v :: rest =>
                match set_option o f v with
                | None => inr (FlagError &"invalid value for -%s" name)
                | Some o => parse_flags n rest o
                end
              | Some v, _ =>
                match set_option o f v with
                | None => inr (FlagError &"invalid value for -%s" name)
                | Some o => parse_flags n rest o
                end
              end
          end
    | _ => inl (o, args)
    end
  | _, _ => inl (o, args)
  end.

Definition trimmed_options (o : options) : options :=
  let root := TrimSpace (o_root o) in
  mkOptions (match root with [] => defaultRoot | _ => root end) (TrimSpace (o_module o)) (TrimSpace (o_slug o))
    (TrimSpace (o_owner o)) (TrimSpace (o_author o)) (TrimSpace (o_email o)) (o_dryRun o) (o_force o).

Definition set_module (o : options) (v : bytes) : options := default o (set_option o Module_ v).
Definition set_slug (o : options) (v : bytes) : options := default o (set_option o Slug v).

(** The positional arguments fill the module and the slug, if they are not set. *)
Definition take_positional (o : options) (positional : list bytes) : options * list bytes :=
  let '(o, positional) :=
    match o_module o, positional with
    | [], v :: rest => (set_module o v, rest)
    | _, _ => (o, positional)
    end in
  match o_slug o, positional with
  | [], v :: rest => (set_slug o v, rest)
  | _, _ => (o, positional)
  end.

Definition parseOptions (args : list bytes) : options + (flag_error + error) :=
  match parse_flags (length args) args (mkOptions defaultRoot [] [] [] [] [] false false) with
  | inr e => inr (inl e)
  | inl (o, positional) =>
    let '(o, positional) := take_positional o positional in
    match positional with
    | _ :: _ => inr (inr (errorf &"unexpected positional argument(s): %s" [join_bytes &" " positional]))
    | [] =>
      let o := trimmed_options o in
      match validateOptions o with
      | Err e => inr (inr e)
      | Ok _ => inl o
      end
    end
  end.

(** ** Replacements *)

Record metadata := mkMetadata {
  oldModule : bytes;
  oldSlug : bytes;
  oldOwner : bytes;
  oldTitle : bytes;
  oldAuthor : bytes;
  oldEmails : list bytes;
}.

Definition nonempty (s : bytes) : bool := negb (bool_decide (s = [])).

(** The pairs about the repository: its names, and its GitHub owner. *)
Definition name_items (meta : metadata) (opts : options) : list replacement :=
  [mkReplacement (oldModule meta) (o_module opts);
   mkReplacement (oldSlug meta) (o_slug opts);
   mkReplacement (oldTitle meta) (titleFromSlug (o_slug opts))].

Definition owner_items (meta : metadata) (newOwner plainOwner : bytes) : list replacement :=
  if nonempty (oldOwner meta) && nonempty newOwner then
    [mkReplacement (&"github.com/" ++ oldOwner meta) (&"github.com/" ++ newOwner);
     mkReplacement (&"@" ++ oldOwner meta) (&"@" ++ newOwner)]
    ++ (if bool_decide (oldOwner meta = newOwner) then [] else [mkReplacement (oldOwner meta) plainOwner])
  else [].

Definition author_items (meta : metadata) (plainOwner : bytes) : list replacement :=
  if nonempty (oldAuthor meta) && nonempty plainOwner then [mkReplacement (oldAuthor meta) plainOwner] else [].

Definition email_items (meta : metadata) (email : bytes) : result (list replacement) :=
  match oldEmails meta, email with
  | _ :: _, [] => Err (Opaque &"--email is required to replace the maintainer address found in project policy files")
  | [], [] => Ok []
  | [], _ => Err (Opaque &"--email was supplied but no maintainer email was found in project policy files")
  | [old], _ => Ok [mkReplacement old email]
  | many, _ => Err (errorf &"--email is ambiguous; found %d maintainer addresses" [Itoa (Z.of_nat (length many))])
  end.

Definition makeReplacements (meta : metadata) (opts : options) : result (list replacement) :=
  let newOwner := if bool_decide (o_owner opts = []) then githubOwner (o_module opts) else o_owner opts in
  if nonempty newOwner && negb (full_match ownerPattern newOwner)
  then Err (errorf &"invalid GitHub owner %q" [newOwner])
  else if nonempty (oldOwner meta) && bool_decide (newOwner = [])
  then Err (Opaque &"the new module is not a GitHub path; pass --owner to replace the existing GitHub owner")
  else
    let plainOwner := if nonempty (o_author opts) then o_author opts else newOwner in
    rbind (email_items meta (o_email opts)) (fun emails =>
      Ok (normalizeReplacements
        (name_items meta opts ++ owner_items meta newOwner plainOwner ++ author_items meta plainOwner ++ emails))).

(** ** Texts and paths *)

Definition isText (data : bytes) : bool := negb (existsb (fun b => bool_decide (b = zb 0)) data) && ValidString data.

Definition safePath (root relative : bytes) : result bytes :=
  let clean := Clean relative in
  if bool_decide (clean = dot) || IsAbs clean then Err (errorf &"unsafe tracked path %q" [relative])
  else
    let joined := Join root clean in
    match Rel root joined with
    | None => Err (errorf &"tracked path escapes worktree: %q" [relative])
    | Some rel =>
      if bool_decide (rel = dotdot) || has_prefix rel (dotdot ++ [slash])
      then Err (errorf &"tracked path escapes worktree: %q" [relative])
      else Ok joined
    end.
