(* ===== verification/BootstrapFacts.v ===== *)
(** * The template bootstrap: what it promises

    Contained paths, the language of accepted options, when the replacements leave the
    texts of a module already as asked, and two ways in which a second run does not. *)
From S2P Require Import Prelude GoText GoRegexp GoPath Errors Order Rewrite Bootstrap.

(** ** Paths *)

(** Going up is never accepted: the way from the root only goes down. *)
Lemma Rel_down root joined rel :
  IsAbs root = true -> IsAbs joined = true -> Rel root joined = Some rel ->
  rel <> dotdot -> has_prefix rel (dotdot ++ [slash]) = false ->
  exists segs, clean_segments joined = clean_segments root ++ segs.
Proof.
  intros Hr Hj. unfold Rel. case_bool_decide as E.
  - intros _ _ _. exists []. rewrite app_nil_r, <- (clean_segments_Clean root), <- (clean_segments_Clean joined) by done.
    by rewrite E.
  - rewrite Hr, Hj. cbn [Bool.eqb negb]. destruct (after_common _ _) as [up down] eqn:Ea.
    assert (target_segments joined = clean_segments joined) as Et
      by (unfold target_segments; rewrite Hj; by destruct (clean_segments joined)).
    rewrite Et in Ea. apply after_common_spec in Ea as (p & Ep & Eq).
    destruct up as [|u up]; [intros _ _ _; exists down; by rewrite Eq, Ep, app_nil_r|].
    case_bool_decide; [done|]. intros Hrel Hd Hp. exfalso.
    assert (rel = join_bytes [slash] (dotdot :: ((fun _ => dotdot) <$> up) ++ down)) as -> by (by injection Hrel).
    destruct (((fun _ => dotdot) <$> up) ++ down) as [|v rest]; [by apply Hd|].
    change (has_prefix ((dotdot ++ [slash]) ++ join_bytes [slash] (v :: rest)) (dotdot ++ [slash]) = false) in Hp.
    by rewrite has_prefix_app in Hp.
Qed.

Lemma Join_abs root name : IsAbs root = true -> IsAbs (Join root name) = true.
Proof.
  intros Ha. unfold Join. apply IsAbs_Clean. destruct root; [done|]. done.
Qed.

(** A path that [safePath] accepts lies, lexically, in the worktree: it is clean,
    every element of it names a child, and its elements start with those of the
    root. Whatever bytes Git lists, the command never opens or replaces a file named
    through [..], an absolute path or the root's own parent. *)
Theorem safePath_contained root relative path :
  IsAbs root = true -> safePath root relative = Ok path ->
  exists segs, path = unsegments true (clean_segments root ++ segs) /\ Forall normal (clean_segments root ++ segs).
Proof.
  intros Hr. unfold safePath. break_if; [done|].
  destruct (Rel _ _) as [rel|] eqn:Erel; [|done]. break_if; [done|]. intros [= <-]. bool_simpl.
  assert (IsAbs (Join root (Clean relative)) = true) as Hj by by apply Join_abs.
  destruct (Rel_down _ _ _ Hr Hj Erel) as [segs Es]; [done..|].
  exists segs. rewrite <- Es. split; [|by apply clean_segments_abs].
  unfold Join in Hj |- *. set (p := root ++ _) in *.
  assert (IsAbs p = true) as Hp by (by destruct root).
  rewrite clean_segments_Clean by done. by apply IsAbs_Clean.
Qed.

(** A concrete input. *)
Lemma safePath_contained_witness :
  exists segs, &"/work/repo/cmd/main.go" = unsegments true (clean_segments &"/work/repo" ++ segs)
    /\ Forall normal (clean_segments &"/work/repo" ++ segs).
Proof. apply (safePath_contained &"/work/repo" &"cmd/./x/../main.go"); vm_compute; reflexivity. Defined.

Example safePath_rejects :
  is_ok (safePath &"/work/repo" &"../secret") = false
  /\ is_ok (safePath &"/work/repo" &"/etc/passwd") = false
  /\ is_ok (safePath &"/work/repo" &"a/../../repo2/x") = false
  /\ is_ok (safePath &"/work/repo" &".") = false.
Proof. vm_compute. tauto. Qed.

(** ** A second run *)

(** The table that a run on a checkout with these names computes. *)
Definition rerun (module slug owner author email : bytes) (meta : metadata) : result (list replacement) :=
  makeReplacements meta (mkOptions defaultRoot module slug owner author email false false).

(** The GitHub owner and the name in plain text that a run writes. *)
Definition new_owner (opts : options) : bytes :=
  if bool_decide (o_owner opts = []) then githubOwner (o_module opts) else o_owner opts.
Definition plain_owner (opts : options) : bytes := if nonempty (o_author opts) then o_author opts else new_owner opts.

(** The options ask for one owner, and for the slug that the module path gives. *)
Definition consistent (opts : options) : Prop :=
  o_slug opts = projectSlug (o_module opts)
  /\ (githubOwner (o_module opts) = [] \/ o_owner opts = [] \/ o_owner opts = githubOwner (o_module opts)).

(** The metadata are those that the options ask for. *)
Record as_asked (opts : options) (meta : metadata) : Prop := {
  aa_module : oldModule meta = o_module opts;
  aa_slug : oldSlug meta = projectSlug (oldModule meta);
  aa_title : oldTitle meta = titleFromSlug (projectSlug (oldModule meta));
  aa_owner : oldOwner meta = githubOwner (oldModule meta);
  aa_author : oldAuthor meta = [] \/ oldAuthor meta = plain_owner opts;
  aa_emails : Forall (fun address => address = o_email opts) (oldEmails meta);
}.

Lemma normalize_identities items :
  Forall (fun item => r_old item = r_new item) items -> normalizeReplacements items = [].
Proof.
  intros H. destruct (normalizeReplacements items) as [|i l] eqn:E; [done|].
  assert (i ∈ normalizeReplacements items) as Hi by (rewrite E; by left).
  rewrite normalize_perm in Hi. apply distinct_olds_elem in Hi as (Hi & [_ Hne] & _).
  rewrite Forall_forall in H. by destruct Hne; apply H.
Qed.

Lemma owner_items_same owner plainOwner meta :
  oldOwner meta = owner \/ oldOwner meta = [] -> Forall (fun item => r_old item = r_new item) (owner_items meta owner plainOwner).
Proof.
  unfold owner_items. intros [-> | ->]; [|by constructor]. break_if; [|by constructor].
  rewrite bool_decide_eq_true_2 by done. by repeat constructor.
Qed.

(** There is then nothing to replace. *)
Lemma as_asked_nothing opts meta items :
  consistent opts -> as_asked opts meta -> makeReplacements meta opts = Ok items -> items = [].
Proof.
  intros [Hslug Hgh] [Em Es Et Eo Ha He]. unfold makeReplacements. fold (new_owner opts).
  change (if nonempty (o_author opts) then o_author opts else new_owner opts) with (plain_owner opts).
  break_if; [done|]. break_if; [done|].
  destruct (email_items meta (o_email opts)) as [emails|] eqn:Ee; [|done]. cbn [rbind]. intros [= <-].
  apply normalize_identities. rewrite Em in Es, Et, Eo.
  do 3 (constructor; [cbn [r_old r_new]; congruence|]). repeat apply Forall_app_2.
  - apply owner_items_same. rewrite Eo. clear Heqb Heqb0. unfold new_owner. case_bool_decide as E; [by left|].
    destruct Hgh as [Hn|[|Hn]]; [by right|done|by left].
  - unfold author_items. destruct Ha as [-> | ->]; [by constructor|]. clear. case_match; by repeat constructor.
  - unfold email_items in Ee. destruct (oldEmails meta) as [|a [|b l]], (o_email opts) as [|x y]; simplify_eq; [done|].
    apply Forall_cons in He as [-> _]. by repeat constructor.
Qed.

(** The pair of a module path that stays the same is dropped, and with it the
    protection of the path from the pair of the slug. *)
Theorem Bootstrap_rerun_corrupts_module :
  exists meta items,
    as_asked (mkOptions defaultRoot &"github.com/acme/widgets-api" &"widgets" [] [] [] false false) meta
    /\ rerun &"github.com/acme/widgets-api" &"widgets" [] [] [] meta = Ok items
    /\ replaceOnce 50 &"module github.com/acme/widgets-api" items = Some &"module github.com/acme/widgets".
Proof.
  exists (mkMetadata &"github.com/acme/widgets-api" &"widgets-api" &"acme" &"Widgets Api" [] []).
  exists [mkReplacement &"Widgets Api" &"Widgets"; mkReplacement &"widgets-api" &"widgets"].
  split; [|split; vm_compute; reflexivity].
  split; try reflexivity; [by left|done].
Qed.

(** An accepted address is not always one that the policy files can be read for: the
    pattern is looked for anywhere in the option, not matched against all of it. A second
    run then finds a part of the address, and replaces the part by the whole. *)
Theorem Bootstrap_rerun_grows_email :
  exists items,
    validateOptions (mkOptions defaultRoot &"github.com/acme/api" &"api" [] [] &"ops@example.com-" false false) = Ok tt
    /\ FindAllString emailPattern &"Report to ops@example.com-" = [&"ops@example.com"]
    /\ rerun &"github.com/acme/api" &"api" [] [] &"ops@example.com-"
         (mkMetadata &"github.com/acme/api" &"api" &"acme" &"Api" [] [&"ops@example.com"]) = Ok items
    /\ replaceOnce 50 &"Report to ops@example.com-" items = Some &"Report to ops@example.com--".
Proof.
  exists [mkReplacement &"ops@example.com" &"ops@example.com-"]. split_and!; vm_compute; reflexivity.
Qed.
