(* ===== verification/BootstrapRun.v ===== *)
(** * The template bootstrap: what it does to a checkout

    [run] of cmd/bootstrap/main.go with everything that asks Git or the operating
    system: the discovery of the metadata, the plan over the tracked files and the
    atomic replacement of each. Every system call is an event of a trace, and its
    answer is a function [oracle] of the calls before it, about which nothing is
    assumed: any call may fail at any time and files may change between calls. *)
From S2P Require Import Prelude GoText GoRegexp GoPath Errors World Trace Order Rewrite Bootstrap.

(** ** System calls *)

(** [fs.FileMode] bits and [os.FileInfo]; [fi_identity] is what [os.SameFile] compares. *)
Definition ModeSymlink : Z := 2 ^ 27.
Definition ModeSetuid : Z := 2 ^ 23.
Definition ModeSetgid : Z := 2 ^ 22.
Definition ModeSticky : Z := 2 ^ 20.
Definition ModeDir : Z := 2 ^ 31.
Definition ModePerm : Z := 511.
(** [ModeDir | ModeSymlink | ModeNamedPipe | ModeSocket | ModeDevice | ModeCharDevice | ModeIrregular]. *)
Definition ModeType : Z := 2 ^ 31 + 2 ^ 27 + 2 ^ 25 + 2 ^ 24 + 2 ^ 26 + 2 ^ 21 + 2 ^ 19.

Record file_info := mkFileInfo { fi_mode : Z; fi_size : Z; fi_identity : Z }.

Definition is_symlink (i : file_info) : bool := negb (Z.land (fi_mode i) ModeSymlink =? 0).
Definition is_regular (i : file_info) : bool := Z.land (fi_mode i) ModeType =? 0.
Definition is_dir (i : file_info) : bool := negb (Z.land (fi_mode i) ModeDir =? 0).

Definition handle := Z.

Inductive syscall :=
  | PathAbs (path : bytes)
  | OsStat (path : bytes)
  | OsLstat (path : bytes)
  | OsReadFile (path : bytes)
  | GitOutput (args : list bytes)
  | OpenRoot (path : bytes)
  | RootLstat (root : handle) (path : bytes)
  | RootOpen (root : handle) (path : bytes)
  | FileStat (file : handle)
  | ReadLimited (file : handle) (limit : Z)
  | CreateTemp (directory pattern : bytes)
  | Chmod (file : handle) (mode : Z)
  | WriteFile (file : handle) (data : bytes)
  | SyncFile (file : handle)
  | CloseFile (file : handle)
  | Rename (old new : bytes)
  | Remove (path : bytes)
  | OpenDirectory (path : bytes)
  | PrintOut (format : bytes) (args : list bytes).

(** What a call answers. A Git command gives its combined output and an error. *)
Definition answer (c : syscall) : Type :=
  match c with
  | PathAbs _ | OsReadFile _ | ReadLimited _ _ => result bytes
  | OsStat _ | OsLstat _ | RootLstat _ _ | FileStat _ => result file_info
  | GitOutput _ => bytes * option error
  | OpenRoot _ | RootOpen _ _ | OpenDirectory _ => result handle
  | CreateTemp _ _ => result (handle * bytes)
  | Chmod _ _ | WriteFile _ _ | SyncFile _ | CloseFile _ | Rename _ _ | Remove _ => result unit
  | PrintOut _ _ => unit
  end.

Abbreviation event := (Trace.event answer).
Abbreviation trace := (list event).

Definition wrapf (format : bytes) (args : list bytes) (e : error) : error :=
  Wrapf (join_bytes [zb 0] (format :: args)) e [].

Section Run.
Context (oracle : trace -> forall c, answer c).

Abbreviation call := (Trace.call oracle).

(** ** Git *)

Definition runGit (root : bytes) (args : list bytes) : M trace bytes :=
  reply <-- call (GitOutput (&"-C" :: root :: args));;
  match reply with
  | (output, Some e) =>
    match TrimSpace output with
    | [] => fail e
    | message => fail (Wrapf [] e (&": " ++ message))
    end
  | (output, None) => ret output
  end.

Definition gitRoot (input : bytes) : M trace bytes :=
  abs <-- checked (call (PathAbs input)) (wrapf &"resolve root: %w" []);;
  info <-- checked (call (OsStat abs)) (wrapf &"stat root: %w" []);;
  if negb (is_dir info) then fail (errorf &"root %q is not a directory" [input])
  else
    out <-- checked (attempt (runGit abs [&"rev-parse"; &"--show-toplevel"]))
              (wrapf &"%q is not inside a Git worktree: %w" [input]);;
    match TrimSpace out with
    | [] => fail (Opaque &"git returned an empty worktree root")
    | root => ret (Clean root)
    end.

Definition requireCleanWorktree (root : bytes) : M trace unit :=
  out <-- checked (attempt (runGit root [&"status"; &"--porcelain=v1"; &"--untracked-files=all"]))
            (wrapf &"inspect Git worktree: %w" []);;
  match TrimSpace out with
  | [] => ret tt
  | _ => fail (Opaque &"git worktree is dirty; commit/stash changes or rerun with --force")
  end.

Definition trackedFiles (root : bytes) : M trace (list bytes) :=
  out <-- checked (attempt (runGit root [&"ls-files"; &"-z"])) (wrapf &"list tracked files: %w" []);;
  ret (sort_slice bytes_ltb (List.filter nonempty (split_byte (zb 0) out))).

(** ** Metadata *)

Definition readTrackedTextFile (root relative : bytes) : M trace (option bytes) :=
  _ <-- of_result (safePath root relative);;
  worktree <-- checked (call (OpenRoot root)) (wrapf &"open worktree root: %w" []);;
  deferred (
    info <-- plainly (call (RootLstat worktree (Clean relative)));;
    if is_symlink info || negb (is_regular info) || (maxTextFile <? fi_size info) then ret None
    else
      file <-- plainly (call (RootOpen worktree (Clean relative)));;
      deferred (
        opened <-- plainly (call (FileStat file));;
        if negb (fi_identity info =? fi_identity opened) || negb (is_regular opened) || (maxTextFile <? fi_size opened)
        then ret None
        else
          data <-- plainly (call (ReadLimited file (maxTextFile + 1)));;
          ret (if (maxTextFile <? Z.of_nat (length data)) || negb (isText data) then None else Some data))
        (ignoring (call (CloseFile file))))
    (ignoring (call (CloseFile worktree))).

Fixpoint discoverCopyrightHolder (root : bytes) (files : list bytes) : M trace bytes :=
  match files with
  | [] => ret []
  | relative :: files =>
    if negb (bool_decide (Clean relative = &"LICENSE")) then discoverCopyrightHolder root files
    else
      data <-- checked (attempt (readTrackedTextFile root relative)) (wrapf &"read LICENSE: %w" []);;
      ret (match data with
           | None => []
           | Some data => match FindSubmatch copyrightHolder data with None => [] | Some holder => TrimSpace holder end
           end)
  end.

Definition knownDocs : list bytes := [&"SECURITY.md"; &"CODE_OF_CONDUCT.md"].

(** The addresses that the policy documents mention, in the order met. *)
Fixpoint policy_emails (root : bytes) (files : list bytes) (seen : list bytes) : M trace (list bytes) :=
  match files with
  | [] => ret seen
  | relative :: files =>
    if negb (bool_decide (Clean relative ∈ knownDocs)) then policy_emails root files seen
    else
      data <-- checked (attempt (readTrackedTextFile root relative)) (wrapf &"read %s: %w" [relative]);;
      policy_emails root files
        (seen ++ match data with None => [] | Some data => FindAllString emailPattern data end)
  end.

Definition discoverEmails (root : bytes) (files : list bytes) : M trace (list bytes) :=
  seen <-- policy_emails root files [];;
  ret (sort_slice bytes_ltb (remove_dups seen)).

Definition readMetadata (root : bytes) (files : list bytes) : M trace metadata :=
  goMod <-- checked (call (OsReadFile (Join root &"go.mod"))) (wrapf &"read go.mod: %w" []);;
  match FindSubmatch moduleDirective goMod with
  | None => fail (Opaque &"go.mod does not contain a module directive")
  | Some module =>
    emails <-- discoverEmails root files;;
    author <-- discoverCopyrightHolder root files;;
    let slug := projectSlug module in
    ret (mkMetadata module slug (githubOwner module) (titleFromSlug slug) author emails)
  end.

(** ** The plan *)

Record fileChange := mkChange { fc_relative : bytes; fc_path : bytes; fc_after : bytes; fc_mode : Z }.

(** The rewriter with the fuel that is always enough. *)
Definition rewritten (before : bytes) (items : list replacement) : bytes :=
  default before (replaceOnce (length before) before items).

Fixpoint collectChanges (root : bytes) (files : list bytes) (items : list replacement)
    (changes : list fileChange) (skipped : Z) : M trace (list fileChange * Z) :=
  match files with
  | [] => ret (changes, skipped)
  | relative :: files =>
    absolute <-- of_result (safePath root relative);;
    info <-- checked (call (OsLstat absolute)) (wrapf &"stat %s: %w" [relative]);;
    if is_symlink info || negb (is_regular info) || (maxTextFile <? fi_size info)
    then collectChanges root files items changes (skipped + 1)
    else
      before <-- checked (call (OsReadFile absolute)) (wrapf &"read %s: %w" [relative]);;
      if negb (isText before) then collectChanges root files items changes (skipped + 1)
      else
        let after := rewritten before items in
        if bool_decide (before = after) then collectChanges root files items changes skipped
        else collectChanges root files items (changes ++ [mkChange relative absolute after (fi_mode info)]) skipped
  end.

(** ** Writing *)

Definition syncDirectory (directory : bytes) : M trace unit :=
  directoryHandle <-- plainly (call (OpenDirectory directory));;
  syncErr <-- call (SyncFile directoryHandle);;
  closeErr <-- call (CloseFile directoryHandle);;
  match syncErr with
  | Err e => if negb (Is e ErrInvalid) then fail e else of_result closeErr
  | Ok _ => of_result closeErr
  end.

(** The permission and the special bits of a mode. *)
Definition permission (mode : Z) : Z :=
  Z.lor (Z.land mode ModePerm) (Z.land mode (Z.lor ModeSetuid (Z.lor ModeSetgid ModeSticky))).

(** Everything up to the renaming, on the temporary file. *)
Definition fill_temporary (temporary : handle) (name filename data : bytes) (mode : Z) : M trace unit :=
  plainly (call (Chmod temporary (permission mode))) ;;;
  plainly (call (WriteFile temporary data)) ;;;
  plainly (call (SyncFile temporary)) ;;;
  plainly (call (CloseFile temporary)) ;;;
  plainly (call (Rename name filename)).

Definition atomicReplace (filename data : bytes) (mode : Z) : M trace unit :=
  created <-- plainly (call (CreateTemp (Dir filename) &".bootstrap-*"));;
  let '(temporary, name) := created in
  replaced <-- attempt (fill_temporary temporary name filename data mode);;
  match replaced with
  | Err e =>
    ignoring (call (CloseFile temporary)) ;;; ignoring (call (Remove name)) ;;; fail e
  | Ok _ =>
    deferred (syncDirectory (Dir filename)) (ignoring (call (CloseFile temporary)))
  end.

(** ** The command *)

Fixpoint write_changes (changes : list fileChange) : M trace unit :=
  match changes with
  | [] => ret tt
  | change :: changes =>
    checked (attempt (atomicReplace (fc_path change) (fc_after change) (fc_mode change)))
      (wrapf &"rewrite %s: %w" [fc_relative change]) ;;;
    call (PrintOut &"updated %s\n" [fc_relative change]) ;;;
    write_changes changes
  end.

Definition print (format : bytes) (args : list bytes) : M trace unit := ignoring (call (PrintOut format args)).

Fixpoint print_changes (changes : list fileChange) : M trace unit :=
  match changes with
  | [] => ret tt
  | change :: changes => print &"would update %s\n" [fc_relative change] ;;; print_changes changes
  end.

(** The closing line of either mode. *)
Definition print_summary (format : bytes) (changes : list fileChange) (skipped : Z) : M trace unit :=
  print format [Itoa (Z.of_nat (length changes))] ;;;
  (if 0 <? skipped then print &"; %d binary/symlink file(s) skipped" [Itoa skipped] else ret tt) ;;;
  print &"\n" [].

(** The changes that a run with these options plans. *)
Definition plan_changes (opts : options) : M trace (list fileChange * Z) :=
  root <-- gitRoot (o_root opts);;
  (if negb (o_force opts) then requireCleanWorktree root else ret tt) ;;;
  files <-- trackedFiles root;;
  meta <-- readMetadata root files;;
  replacements <-- of_result (makeReplacements meta opts);;
  collectChanges root files replacements [] 0.

Definition run (args : list bytes) : M trace unit :=
  match parseOptions args with
  | inr (inl FlagHelp) => ret tt
  | inr (inl (FlagError format arg)) => fail (errorf format [arg])
  | inr (inr e) => fail e
  | inl opts =>
    plan <-- plan_changes opts;;
    let '(changes, skipped) := plan in
    if o_dryRun opts then
      print_changes changes ;;; print_summary &"dry-run: %d file(s) would change" changes skipped
    else
      write_changes changes ;;; print_summary &"bootstrap: %d file(s) updated" changes skipped
  end.
End Run.
