(* ===== verification/BootstrapRunFacts.v ===== *)
(** * The template bootstrap: what a run may do to a checkout

    Properties of the trace of system calls of a run, for every behaviour of Git and
    of the operating system: nothing is written before the plan is complete, files are
    replaced by renaming complete ones, and a checkout already as asked is left alone. *)
From S2P Require Import Prelude GoText GoRegexp GoPath Errors World Trace Order Rewrite Bootstrap BootstrapFacts BootstrapRun.

(** ** Calls that change the checkout *)

Definition mutating (c : syscall) : bool :=
  match c with
  | CreateTemp _ _ | Chmod _ _ | WriteFile _ _ | Rename _ _ | Remove _ => true
  | _ => false
  end.
Definition reading (ev : event) : Prop := mutating (ev_call ev) = false.

Section Facts.
Context (oracle : trace -> forall c, answer c).

Lemma runGit_reads root args : adds reading (runGit oracle root args).
Proof. unfold runGit. adds. Qed.
#[local] Hint Resolve runGit_reads : trace.

Lemma gitRoot_reads input : adds reading (gitRoot oracle input).
Proof. unfold gitRoot. adds. Qed.
#[local] Hint Resolve gitRoot_reads : trace.

Lemma requireCleanWorktree_reads root : adds reading (requireCleanWorktree oracle root).
Proof. unfold requireCleanWorktree. adds. Qed.
#[local] Hint Resolve requireCleanWorktree_reads : trace.

Lemma trackedFiles_reads root : adds reading (trackedFiles oracle root).
Proof. unfold trackedFiles. adds. Qed.
#[local] Hint Resolve trackedFiles_reads : trace.

Lemma readTrackedTextFile_reads root relative : adds reading (readTrackedTextFile oracle root relative).
Proof. unfold readTrackedTextFile. adds. Qed.
#[local] Hint Resolve readTrackedTextFile_reads : trace.

Lemma discoverCopyrightHolder_reads root files : adds reading (discoverCopyrightHolder oracle root files).
Proof.
  induction files as [|f files IH]; cbn [discoverCopyrightHolder]; adds.
Qed.
#[local] Hint Resolve discoverCopyrightHolder_reads : trace.

Lemma policy_emails_reads root files seen : adds reading (policy_emails oracle root files seen).
Proof.
  revert seen. induction files as [|f files IH]; intros seen; cbn [policy_emails]; adds.
Qed.
#[local] Hint Resolve policy_emails_reads : trace.

Lemma readMetadata_reads root files : adds reading (readMetadata oracle root files).
Proof.
  unfold readMetadata, discoverEmails. adds.
Qed.
#[local] Hint Resolve readMetadata_reads : trace.

Lemma collectChanges_reads root files items changes skipped :
  adds reading (collectChanges oracle root files items changes skipped).
Proof.
  revert changes skipped. induction files as [|f files IH]; intros changes skipped; cbn [collectChanges]; adds.
Qed.
#[local] Hint Resolve collectChanges_reads : trace.

Lemma plan_changes_reads opts : adds reading (plan_changes oracle opts).
Proof.
  unfold plan_changes. adds.
Qed.
#[local] Hint Resolve plan_changes_reads : trace.

Lemma print_reads format args : adds reading (print oracle format args).
Proof. unfold print. adds. Qed.
#[local] Hint Resolve print_reads : trace.

Lemma print_changes_reads changes : adds reading (print_changes oracle changes).
Proof. induction changes; cbn [print_changes]; adds. Qed.
#[local] Hint Resolve print_changes_reads : trace.

Lemma print_summary_reads format changes skipped : adds reading (print_summary oracle format changes skipped).
Proof. unfold print_summary. adds. Qed.
#[local] Hint Resolve print_summary_reads : trace.

(** ** What a run finds out *)

(** Git listed the tracked files, and a clean worktree. *)
Definition listed (evs : list event) (root : bytes) (files : list bytes) : Prop :=
  exists out, Event (GitOutput [&"-C"; root; &"ls-files"; &"-z"]) (out, None) ∈ evs
    /\ files = sort_slice bytes_ltb (List.filter nonempty (split_byte (zb 0) out)).
Definition clean_checked (evs : list event) (root : bytes) : Prop :=
  exists out, Event (GitOutput [&"-C"; root; &"status"; &"--porcelain=v1"; &"--untracked-files=all"]) (out, None) ∈ evs
    /\ TrimSpace out = [].

(** This text was read from a tracked file, within the worktree. *)
Definition read_as (evs : list event) (root relative text : bytes) : Prop :=
  exists worktree file, Event (OpenRoot root) (Ok worktree) ∈ evs
    /\ Event (RootOpen worktree (Clean relative)) (Ok file) ∈ evs
    /\ Event (ReadLimited file (maxTextFile + 1)) (Ok text) ∈ evs.

Definition mentioned (evs : list event) (root address : bytes) : Prop :=
  exists relative text, Clean relative ∈ knownDocs /\ read_as evs root relative text /\ address ∈ FindAllString emailPattern text.
Definition license_holder (evs : list event) (root holder : bytes) : Prop :=
  exists relative text name, Clean relative = &"LICENSE" /\ read_as evs root relative text
    /\ FindSubmatch copyrightHolder text = Some name /\ holder = TrimSpace name.

(** The metadata of a checkout are those of its texts. *)
Record discovered (evs : list event) (root : bytes) (meta : metadata) : Prop := {
  di_module : exists text, Event (OsReadFile (Join root &"go.mod")) (Ok text) ∈ evs
    /\ FindSubmatch moduleDirective text = Some (oldModule meta);
  di_slug : oldSlug meta = projectSlug (oldModule meta);
  di_owner : oldOwner meta = githubOwner (oldModule meta);
  di_title : oldTitle meta = titleFromSlug (projectSlug (oldModule meta));
  di_author : oldAuthor meta = [] \/ license_holder evs root (oldAuthor meta);
  di_emails : NoDup (oldEmails meta) /\ Forall (mentioned evs root) (oldEmails meta);
}.

(** A tracked file was looked at and, if it is a regular file of a bounded size, read;
    it is changed when it is a text that the replacements change. *)
Definition settled_file (evs : list event) (root : bytes) (items : list replacement) (relative : bytes)
    (cs : list fileChange) : Prop :=
  exists path info, safePath root relative = Ok path /\ Event (OsLstat path) (Ok info) ∈ evs
    /\ if is_symlink info || negb (is_regular info) || (maxTextFile <? fi_size info) then cs = []
       else exists before, Event (OsReadFile path) (Ok before) ∈ evs
              /\ cs = if isText before && negb (bool_decide (before = rewritten before items))
                      then [mkChange relative path (rewritten before items) (fi_mode info)] else [].

(** Everything is known that decides which files change, and how: the worktree is clean,
    unless that was waived, the metadata are discovered, the replacements computed, and
    every tracked file is settled. *)
Definition complete_plan (evs : list event) (opts : options) (cs : list fileChange) : Prop :=
  exists root files meta items css,
    (o_force opts = false -> clean_checked evs root) /\ listed evs root files /\ discovered evs root meta
    /\ makeReplacements meta opts = Ok items
    /\ Forall2 (settled_file evs root items) files css /\ cs = concat css.

Lemma read_as_more evs evs' root relative text : evs ⊆ evs' -> read_as evs root relative text -> read_as evs' root relative text.
Proof. intros Hs (h & f & ? & ? & ?). exists h, f. auto. Qed.
Lemma mentioned_more evs evs' root address : evs ⊆ evs' -> mentioned evs root address -> mentioned evs' root address.
Proof. intros Hs (f & text & ? & ? & ?). exists f, text. eauto using read_as_more. Qed.
Lemma license_holder_more evs evs' root holder : evs ⊆ evs' -> license_holder evs root holder -> license_holder evs' root holder.
Proof. intros Hs (f & text & name & ? & ? & ?). exists f, text, name. eauto using read_as_more. Qed.
Lemma listed_more evs evs' root files : evs ⊆ evs' -> listed evs root files -> listed evs' root files.
Proof. intros Hs (out & ? & ?). exists out. auto. Qed.
Lemma clean_checked_more evs evs' root : evs ⊆ evs' -> clean_checked evs root -> clean_checked evs' root.
Proof. intros Hs (out & ? & ?). exists out. auto. Qed.
Lemma settled_file_more evs evs' root items f cs : evs ⊆ evs' -> settled_file evs root items f cs -> settled_file evs' root items f cs.
Proof.
  intros Hs (path & info & Hp & Hi & Hc). exists path, info. split; [done|]. split; [auto|].
  destruct (_ || _); [done|]. destruct Hc as (before & ? & ?). exists before. auto.
Qed.
Lemma discovered_more evs evs' root meta : evs ⊆ evs' -> discovered evs root meta -> discovered evs' root meta.
Proof.
  intros Hs [(text & ? & ?) ? ? ? Ha [? He]]. split; try done.
  - exists text. auto.
  - destruct Ha; [by left|right]. by eapply license_holder_more.
  - split; [done|]. eapply Forall_impl; [exact He|]. intros a. by apply mentioned_more.
Qed.

(** ** What is planned *)

(** A planned change is about a file of the worktree that was regular when it was
    looked at, and is the rewriting of the text that was read from it. *)
Definition planned (evs : list event) (root : bytes) (items : list replacement) (c : fileChange) : Prop :=
  safePath root (fc_relative c) = Ok (fc_path c)
  /\ (exists info, Event (OsLstat (fc_path c)) (Ok info) ∈ evs
        /\ is_symlink info = false /\ is_regular info = true /\ fc_mode c = fi_mode info)
  /\ exists before, Event (OsReadFile (fc_path c)) (Ok before) ∈ evs
        /\ isText before = true /\ fc_after c = rewritten before items /\ fc_after c <> before.

Lemma planned_more evs evs' root items c : evs ⊆ evs' -> planned evs root items c -> planned evs' root items c.
Proof.
  intros Hs (Hp & (info & Hi & H1 & H2 & H3) & (before & Hb & H4)).
  split; [done|]. split; [exists info; auto|exists before; auto].
Qed.

Lemma planned_app_r evs evs' root items c : planned evs root items c -> planned (evs' ++ evs) root items c.
Proof. apply planned_more. set_solver. Qed.

Lemma planned_app_l evs evs' root items c : planned evs root items c -> planned (evs ++ evs') root items c.
Proof. apply planned_more. set_solver. Qed.

(** The temporary file is filled step by step before the renaming. *)
Definition filled (temporary : handle) (name data : bytes) (mode : Z) : list event :=
  [Event (Chmod temporary (permission mode)) (Ok tt); Event (WriteFile temporary data) (Ok tt);
   Event (SyncFile temporary) (Ok tt); Event (CloseFile temporary) (Ok tt)].

Definition plain (ev : event) : Prop :=
  match ev_call ev with CreateTemp _ _ | Rename _ _ => False | _ => True end.

Lemma fill_temporary_emits temporary name filename data mode :
  emits [] (fill_temporary oracle temporary name filename data mode) (fun r evs =>
    (exists e, r = Err e /\ Forall plain evs)
    \/ evs = filled temporary name data mode ++ [Event (Rename name filename) r]).
Proof.
  unfold fill_temporary. emit; simplify_eq/=; repeat match goal with a : unit |- _ => destruct a end;
    try by left; eexists; split; [done|]; by repeat constructor.
  all: by right.
Qed.

(** The name of the temporary file that an event created or renamed. *)
Definition created (ev : event) : option bytes :=
  match ev_call ev as c return answer c -> option bytes with
  | CreateTemp _ _ => fun a => match a with Ok (_, name) => Some name | Err _ => None end
  | _ => fun _ => None
  end (ev_answer ev).
Definition renamed (ev : event) : option bytes :=
  match ev_call ev as c return answer c -> option bytes with
  | Rename name _ => fun a => match a with Ok _ => Some name | Err _ => None end
  | _ => fun _ => None
  end (ev_answer ev).

(** Every renaming puts the whole new text of a change in place: it directly follows
    the creation of its temporary file in the directory of the target and the steps
    that fill, flush and close it, all of which succeeded. *)
Definition renamed_whole (cs : list fileChange) (evs : list event) : Prop :=
  forall ev name target, ev ∈ evs -> ev_call ev = Rename name target ->
  exists pre post temporary c, c ∈ cs /\ fc_path c = target
    /\ evs = pre ++ (Event (CreateTemp (Dir target) &".bootstrap-*") (Ok (temporary, name))
                    :: filled temporary name (fc_after c) (fc_mode c) ++ [ev]) ++ post.

(** A temporary file does not stay: it is renamed, or its removal is requested. *)
Definition no_debris (evs : list event) : Prop :=
  forall ev name, ev ∈ evs -> created ev = Some name ->
  exists ev', ev' ∈ evs /\ (renamed ev' = Some name \/ ev_call ev' = Remove name).

Definition atomic_writes (cs : list fileChange) (evs : list event) : Prop := renamed_whole cs evs /\ no_debris evs.

Lemma atomic_writes_app cs evs evs' : atomic_writes cs evs -> atomic_writes cs evs' -> atomic_writes cs (evs ++ evs').
Proof.
  intros [Hr Hn] [Hr' Hn']. split.
  - intros ev name target [H|H]%elem_of_app Hc.
    + destruct (Hr _ _ _ H Hc) as (pre & post & h & c & ? & ? & ->).
      exists pre, (post ++ evs'), h, c. by rewrite <- !app_assoc.
    + destruct (Hr' _ _ _ H Hc) as (pre & post & h & c & ? & ? & ->).
      exists (evs ++ pre), post, h, c. by rewrite <- !app_assoc.
  - intros ev name [H|H]%elem_of_app Hc; [destruct (Hn _ _ H Hc) as (ev' & ? & ?)|destruct (Hn' _ _ H Hc) as (ev' & ? & ?)];
      exists ev'; split; set_solver.
Qed.

Lemma atomic_writes_plain cs evs : Forall plain evs -> atomic_writes cs evs.
Proof.
  rewrite Forall_forall. intros H. split.
  - intros ev name target Hev%H Hc. unfold plain in Hev. by rewrite Hc in Hev.
  - intros [c a] name Hev%H Hc. by destruct c.
Qed.

Lemma atomic_writes_weaken cs cs' evs : cs ⊆ cs' -> atomic_writes cs evs -> atomic_writes cs' evs.
Proof.
  intros Hs [Hr Hn]. split; [|done]. intros ev name target H Hc.
  destruct (Hr _ _ _ H Hc) as (pre & post & h & c & ? & ? & ->). exists pre, post, h, c. auto.
Qed.

Lemma filled_plain temporary name data mode : Forall plain (filled temporary name data mode).
Proof. by repeat constructor. Qed.

Lemma reading_plain evs : Forall reading evs -> Forall plain evs.
Proof. intros H. eapply Forall_impl; [exact H|]. by intros [[] ?]. Qed.

Lemma plain_rename l ev name target : Forall plain l -> ev ∈ l -> ev_call ev <> Rename name target.
Proof. rewrite Forall_forall. intros H Hin%H Hc. unfold plain in Hin. by rewrite Hc in Hin. Qed.

Lemma plain_created l ev : Forall plain l -> ev ∈ l -> created ev = None.
Proof. rewrite Forall_forall. intros H Hin%H. by destruct ev as [[] ?]. Qed.

Section One.
Context (c : fileChange) (temporary : handle) (name : bytes) (r : result unit) (evs tail : list event).
Context (Hevs : (exists e, r = Err e /\ Forall plain evs)
  \/ evs = filled temporary name (fc_after c) (fc_mode c) ++ [Event (Rename name (fc_path c)) r]).
Context (Htail : Forall plain tail).
Context (Hremoved : forall e, r = Err e -> exists ev, ev ∈ tail /\ ev_call ev = Remove name).

Let start : event := Event (CreateTemp (Dir (fc_path c)) &".bootstrap-*") (Ok (temporary, name)).

Lemma one_renamed_whole : renamed_whole [c] (start :: evs ++ tail).
Proof.
  intros ev name' target Hin Hc.
  apply elem_of_cons in Hin as [->|Hin]; [done|].
  apply elem_of_app in Hin as [Hin|Hin]; [|by destruct (plain_rename _ _ _ _ Htail Hin Hc)].
  destruct Hevs as [(e & _ & Hp)|Ee]; [by destruct (plain_rename _ _ _ _ Hp Hin Hc)|].
  pose proof Hin as Hin'. rewrite Ee in Hin'.
  apply elem_of_app in Hin' as [Hin'|Hin']; [by destruct (plain_rename _ _ _ _ (filled_plain _ _ _ _) Hin' Hc)|].
  apply list_elem_of_singleton in Hin' as ->. cbn in Hc. simplify_eq.
  exists [], tail, temporary, c. split; [by left|]. by split.
Qed.

Lemma one_no_debris : no_debris (start :: evs ++ tail).
Proof.
  intros ev name' Hin Hc.
  assert (ev = start) as ->.
  { apply elem_of_cons in Hin as [->|Hin]; [done|]. exfalso.
    apply elem_of_app in Hin as [Hin|Hin]; [|by rewrite (plain_created _ _ Htail Hin) in Hc].
    destruct Hevs as [(e & _ & Hp)|Ee]; [by rewrite (plain_created _ _ Hp Hin) in Hc|]. rewrite Ee in Hin.
    apply elem_of_app in Hin as [Hin|Hin]; [by rewrite (plain_created _ _ (filled_plain _ _ _ _) Hin) in Hc|].
    by apply list_elem_of_singleton in Hin as ->. }
  cbn in Hc. simplify_eq. destruct r as [[]|e].
  - destruct Hevs as [(e & ? & _)|Ee]; [done|]. exists (Event (Rename name' (fc_path c)) (Ok tt)).
    split; [rewrite Ee; set_solver|by left].
  - destruct (Hremoved e) as (ev & Hev & Hc); [done|]. exists ev. split; [set_solver|by right].
Qed.
End One.

(** ** What is written *)

Lemma syncDirectory_emits directory t :
  emits t (syncDirectory oracle directory) (fun _ evs => exists tail, evs = t ++ tail /\ Forall plain tail).
Proof.
  unfold syncDirectory. emit; rewrite <- ?app_assoc; eexists; (split; [done|]); by repeat constructor.
Qed.

(** The new text of a change is in place. *)
Definition in_place (evs : list event) (c : fileChange) : Prop :=
  exists name, Event (Rename name (fc_path c)) (Ok tt) ∈ evs.

Lemma atomicReplace_emits c :
  emits [] (atomicReplace oracle (fc_path c) (fc_after c) (fc_mode c)) (fun r evs =>
    atomic_writes [c] evs /\ (r = Ok tt -> in_place evs c)).
Proof.
  unfold atomicReplace, plainly, checked. do 2 apply emits_bind; emit_call. intros [[temporary name]|e].
  2: { eapply emits_return; [done|]. split; [|done]. split.
       - intros ev n t Hin Hc. by apply list_elem_of_singleton in Hin as ->.
       - intros ev n Hin Hc. by apply list_elem_of_singleton in Hin as ->. }
  eapply emits_return; [done|]. cbn beta iota zeta. apply emits_bind, emits_attempt.
  intros w. destruct (fill_temporary_emits temporary name (fc_path c) (fc_after c) (fc_mode c) w) as (evs & Hs & Hf).
  exists evs. split; [done|]. cbn [app] in *. destruct (fst _) as [[]|e] eqn:Er; cbn beta iota.
  - unfold deferred. apply emits_bind, emits_attempt. eapply emits_weaken; [apply syncDirectory_emits|].
    intros r evs' (tail & -> & Ht). cbn beta iota. emit. cbn [app]. rewrite <- app_assoc.
    all: split; [split; [eapply one_renamed_whole|eapply one_no_debris]; try done; by apply Forall_app_2; [|repeat constructor]|].
    all: intros _; exists name; destruct Hf as [(e & [=] & _)| ->]; set_solver.
  - emit. cbn [app]. rewrite <- app_assoc. split; [|done].
    split; [eapply one_renamed_whole|eapply one_no_debris]; try done; try (by repeat constructor);
      intros e' _; eexists; (split; [right; left|done]).
Qed.

Lemma write_changes_emits changes :
  emits [] (write_changes oracle changes) (fun r evs =>
    atomic_writes changes evs /\ (r = Ok tt -> Forall (in_place evs) changes) /\ (changes = [] -> evs = [])).
Proof.
  induction changes as [|c changes IH]; cbn [write_changes].
  { eapply emits_return; [done|]. split; [by apply atomic_writes_plain|done]. }
  apply (emits_weaken _ _ (fun r evs => atomic_writes (c :: changes) evs /\ (r = Ok tt -> Forall (in_place evs) (c :: changes))));
    [|by intros r evs [? ?]].
  unfold checked. apply emits_bind, emits_bind, emits_attempt.
  eapply emits_weaken; [apply atomicReplace_emits|]. intros r evs [Hw Hp].
  apply (atomic_writes_weaken _ (c :: changes)) in Hw; [|set_solver]. cbn beta iota.
  destruct r as [[]|e]; (eapply emits_return; [done|]); cbn beta iota; [|done].
  apply emits_bind; emit_call. intros [] w. destruct (IH w) as (evs' & Hs & Hw' & Hp' & _).
  exists evs'. split; [done|]. rewrite <- app_assoc. split.
  - apply atomic_writes_app; [done|].
    apply atomic_writes_app; [apply atomic_writes_plain; by repeat constructor|].
    eapply atomic_writes_weaken; [|exact Hw']. set_solver.
  - intros Hr. destruct (Hp eq_refl) as [name Hn]. constructor; [exists name; set_solver|].
    eapply Forall_impl; [exact (Hp' Hr)|]. intros c' [name' Hn']. exists name'. set_solver.
Qed.

(** Once a run writes, it looks at nothing any more. *)
Definition writing (ev : event) : Prop :=
  match ev_call ev with
  | CreateTemp _ _ | Chmod _ _ | WriteFile _ _ | SyncFile _ | CloseFile _ | Rename _ _ | Remove _ | OpenDirectory _ | PrintOut _ _ => True
  | _ => False
  end.

Lemma write_changes_writes changes : adds writing (write_changes oracle changes).
Proof.
  assert (forall filename data mode, adds writing (atomicReplace oracle filename data mode)) as Ha
    by (intros; unfold atomicReplace, fill_temporary, syncDirectory; adds).
  induction changes as [|c changes IH]; cbn [write_changes]; [adds|].
  unfold checked. repeat apply adds_bind; try intros ?; adds; by auto.
Qed.

Lemma print_summary_writes format changes skipped : adds writing (print_summary oracle format changes skipped).
Proof. unfold print_summary, print. adds. Qed.

(** ** What is found out *)

Lemma emits_more {A} t (m : M trace A) P Q : adds P m -> emits t m Q -> emits t m (fun r evs => t ⊆ evs /\ Q r evs).
Proof.
  intros Ha Hm. eapply emits_weaken; [apply emits_and; [apply emits_adds, Ha|exact Hm]|].
  intros r evs [(new & -> & _) Hq]. split; [set_solver|done].
Qed.

Ltac seen := repeat (apply elem_of_app; first [right; by apply list_elem_of_singleton|left]).

Lemma runGit_emits root args t :
  emits t (runGit oracle root args) (fun r evs => forall out, r = Ok out -> Event (GitOutput (&"-C" :: root :: args)) (out, None) ∈ evs).
Proof. unfold runGit. emit; intros out [= <-]. seen. Qed.

Lemma requireCleanWorktree_emits root t :
  emits t (requireCleanWorktree oracle root) (fun r evs => r = Ok tt -> clean_checked evs root).
Proof.
  unfold requireCleanWorktree, checked. do 2 apply emits_bind. apply emits_attempt. eapply emits_weaken; [apply runGit_emits|].
  intros [out|e] evs Hout; (eapply emits_return; [done|]); cbn beta iota; [|done].
  destruct (TrimSpace out) eqn:Et; (eapply emits_return; [done|]); [|done]. intros _. exists out. auto.
Qed.

Lemma trackedFiles_emits root t :
  emits t (trackedFiles oracle root) (fun r evs => forall files, r = Ok files -> listed evs root files).
Proof.
  unfold trackedFiles, checked. do 2 apply emits_bind. apply emits_attempt. eapply emits_weaken; [apply runGit_emits|].
  intros [out|e] evs Hout; (eapply emits_return; [done|]); cbn beta iota; [|done].
  eapply emits_return; [done|]. intros files [= <-]. exists out. auto.
Qed.

Lemma readTrackedTextFile_emits root relative t :
  emits t (readTrackedTextFile oracle root relative) (fun r evs => forall text, r = Ok (Some text) -> read_as evs root relative text).
Proof.
  unfold readTrackedTextFile. emit; intros text Ht; simplify_eq/=.
  eexists _, _. split_and!; seen.
Qed.

Lemma policy_emails_emits root files seen t :
  Forall (mentioned t root) seen ->
  emits t (policy_emails oracle root files seen) (fun r evs => forall l, r = Ok l -> Forall (mentioned evs root) l).
Proof.
  revert seen t. induction files as [|f files IH]; intros seen t Hs; cbn [policy_emails].
  { eapply emits_return; [done|]. by intros l [= <-]. }
  case_bool_decide as Hf; cbn [negb]; [|by apply IH].
  unfold checked. do 2 apply emits_bind. apply emits_attempt.
  eapply emits_weaken; [eapply emits_more; [apply readTrackedTextFile_reads|apply readTrackedTextFile_emits]|].
  intros [data|e] evs [Hsub Hr]; (eapply emits_return; [done|]); cbn beta iota; [|done].
  apply IH, Forall_app_2; [eapply Forall_impl; [exact Hs|]; intros a; by apply mentioned_more|].
  destruct data as [text|]; [|constructor]. apply Forall_forall. intros a Ha. exists f, text. split_and!; auto.
Qed.

Lemma discoverEmails_emits root files t :
  emits t (discoverEmails oracle root files) (fun r evs => forall l, r = Ok l -> NoDup l /\ Forall (mentioned evs root) l).
Proof.
  unfold discoverEmails. apply emits_bind. eapply emits_weaken; [apply policy_emails_emits; constructor|].
  intros [l|e] evs Hl; [|done]. eapply emits_return; [done|]. intros l' [= <-]. specialize (Hl l eq_refl).
  rewrite sort_slice_perm. split; [apply NoDup_remove_dups|]. rewrite Forall_forall in *. intros a. rewrite elem_of_remove_dups. auto.
Qed.

Lemma discoverCopyrightHolder_emits root files t :
  emits t (discoverCopyrightHolder oracle root files) (fun r evs => forall holder, r = Ok holder -> holder = [] \/ license_holder evs root holder).
Proof.
  induction files as [|f files IH]; cbn [discoverCopyrightHolder].
  { eapply emits_return; [done|]. intros h [= <-]. by left. }
  case_bool_decide as Hf; cbn [negb]; [|apply IH].
  unfold checked. do 2 apply emits_bind. apply emits_attempt. eapply emits_weaken; [apply readTrackedTextFile_emits|].
  intros [data|e] evs Hr; (eapply emits_return; [done|]); cbn beta iota; [|done]. eapply emits_return; [done|]. intros h [= <-].
  destruct data as [text|]; [|by left]. destruct (FindSubmatch copyrightHolder text) as [name|] eqn:En; [|by left].
  right. exists f, text, name. split_and!; auto.
Qed.

Lemma discoverEmails_reads root files : adds reading (discoverEmails oracle root files).
Proof. unfold discoverEmails. adds. Qed.

Lemma readMetadata_emits root files t :
  emits t (readMetadata oracle root files) (fun r evs => forall meta, r = Ok meta -> discovered evs root meta).
Proof.
  unfold readMetadata, checked. do 2 apply emits_bind. emit_call. intros [goMod|e]; (eapply emits_return; [done|]); [|done]. cbn beta iota.
  destruct (FindSubmatch moduleDirective goMod) as [module|] eqn:Em; [|by eapply emits_return].
  apply emits_bind. eapply emits_weaken; [eapply emits_more; [apply discoverEmails_reads|apply discoverEmails_emits]|].
  intros [emails|e] evs [Hsub He]; [|done]. destruct (He emails eq_refl) as [Hn Hm].
  apply emits_bind. eapply emits_weaken; [eapply emits_more; [apply discoverCopyrightHolder_reads|apply discoverCopyrightHolder_emits]|].
  intros [author|e] evs' [Hsub' Ha]; [|done]. eapply emits_return; [done|]. intros meta [= <-].
  split; cbn [oldModule oldSlug oldOwner oldTitle oldAuthor oldEmails]; try done.
  - exists goMod. split; [|done]. apply Hsub', Hsub. seen.
  - by apply Ha.
  - split; [done|]. eapply Forall_impl; [exact Hm|]. intros a. by apply mentioned_more.
Qed.

(** ** What is planned *)

Lemma collectChanges_emits root files items changes skipped t :
  emits t (collectChanges oracle root files items changes skipped) (fun r evs => forall cs n, r = Ok (cs, n) ->
    exists css, Forall2 (settled_file evs root items) files css /\ cs = changes ++ concat css).
Proof.
  revert changes skipped t. induction files as [|f files IH]; intros changes skipped t; cbn [collectChanges].
  { eapply emits_return; [done|]. intros cs n [= <- <-]. exists []. by rewrite app_nil_r. }
  assert (forall t' c changes' skipped', changes' = changes ++ c -> settled_file t' root items f c ->
    emits t' (collectChanges oracle root files items changes' skipped') (fun r evs => forall cs n, r = Ok (cs, n) ->
      exists css, Forall2 (settled_file evs root items) (f :: files) css /\ cs = changes ++ concat css)) as Hnext.
  { intros t' c changes' skipped' -> Hc.
    eapply emits_weaken; [eapply emits_more; [apply collectChanges_reads|apply IH]|].
    intros r evs [Hsub Hr] cs n E. destruct (Hr cs n E) as (css & Hcss & ->). exists (c :: css).
    split; [|by rewrite <- app_assoc]. constructor; [by eapply settled_file_more|done]. }
  apply emits_bind. destruct (safePath root f) as [absolute|e] eqn:Ep; (eapply emits_return; [done|]); [|done].
  unfold checked. do 2 apply emits_bind; emit_call. intros [info|e]; (eapply emits_return; [done|]); [|done].
  cbn beta iota. destruct (is_symlink info || _ || _) eqn:E1.
  { apply (Hnext _ []); [by rewrite app_nil_r|]. exists absolute, info. rewrite E1. split_and!; [done|seen|done]. }
  do 2 apply emits_bind; emit_call. intros [before|e]; (eapply emits_return; [done|]); [|done]. cbn beta iota.
  assert (forall c, c = (if isText before && negb (bool_decide (before = rewritten before items))
      then [mkChange f absolute (rewritten before items) (fi_mode info)] else []) ->
    settled_file ((t ++ [Event (OsLstat absolute) (Ok info)]) ++ [Event (OsReadFile absolute) (Ok before)]) root items f c) as Hfile.
  { intros c ->. exists absolute, info. rewrite E1. split_and!; [done|seen|]. exists before. split; [seen|done]. }
  destruct (isText before) eqn:E2; cbn [negb andb] in *.
  2: { apply (Hnext _ []); [by rewrite app_nil_r|by apply Hfile]. }
  case_bool_decide as E3; cbn [negb] in *.
  - apply (Hnext _ []); [by rewrite app_nil_r|by apply Hfile].
  - eapply Hnext; [done|by apply Hfile].
Qed.

Lemma settled_planned evs root items f cs : settled_file evs root items f cs -> Forall (planned evs root items) cs.
Proof.
  intros (path & info & Hp & Hi & Hc). destruct (_ || _) eqn:E1 in Hc; [by subst|]. destruct Hc as (before & Hb & ->).
  destruct (isText before && _) eqn:E2; [|done]. bool_simpl. constructor; [|done]. split; [done|]. split.
  - by exists info.
  - exists before. by split_and!.
Qed.

Lemma complete_planned evs opts cs : complete_plan evs opts cs -> exists root items, Forall (planned evs root items) cs.
Proof.
  intros (root & files & meta & items & css & _ & _ & _ & _ & Hf & ->). exists root, items.
  induction Hf; cbn [concat]; [done|]. apply Forall_app_2; [by eapply settled_planned|done].
Qed.

Lemma plan_changes_emits opts :
  emits [] (plan_changes oracle opts) (fun r evs => forall cs n, r = Ok (cs, n) -> complete_plan evs opts cs).
Proof.
  unfold plan_changes. apply emits_bind. eapply emits_weaken; [apply emits_adds, gitRoot_reads|].
  intros [root|e] evs _; [|done]. apply emits_bind.
  apply (emits_weaken _ _ (fun r evs => r = Ok tt -> o_force opts = false -> clean_checked evs root)).
  { destruct (o_force opts); cbn [negb]; [by eapply emits_return|].
    eapply emits_weaken; [apply requireCleanWorktree_emits|]. auto. }
  intros [[]|e] evs1 Hclean; [|done]. specialize (Hclean eq_refl).
  apply emits_bind. eapply emits_weaken; [eapply emits_more; [apply trackedFiles_reads|apply trackedFiles_emits]|].
  intros [files|e] evs2 [S2 Hfiles]; [|done]. specialize (Hfiles files eq_refl).
  apply emits_bind. eapply emits_weaken; [eapply emits_more; [apply readMetadata_reads|apply readMetadata_emits]|].
  intros [meta|e] evs3 [S3 Hmeta]; [|done]. specialize (Hmeta meta eq_refl).
  apply emits_bind. destruct (makeReplacements meta opts) as [items|e] eqn:Em; (eapply emits_return; [done|]); [|done].
  cbn beta iota. eapply emits_weaken; [eapply emits_more; [apply collectChanges_reads|apply collectChanges_emits]|].
  intros r evs4 [S4 Hr] cs n E. destruct (Hr cs n E) as (css & Hcss & ->). exists root, files, meta, items, css.
  split_and!; [|eauto using listed_more|eauto using discovered_more|done..].
  intros Hf. eapply clean_checked_more; [exact S4|]. eapply clean_checked_more; [exact S3|]. eapply clean_checked_more; [exact S2|]. by apply Hclean.
Qed.

(** A run that parsed its options: its plan, then what it does with it. *)
Lemma run_emits args opts :
  parseOptions args = inl opts ->
  forall w, exists before after cs,
    w_store (snd (run oracle args w)) = w_store w ++ before ++ after /\ Forall reading before
    /\ (after = [] /\ cs = [] /\ is_ok (fst (run oracle args w)) = false
        \/ complete_plan before opts cs
           /\ if o_dryRun opts then Forall reading after
              else Forall writing after /\ atomic_writes cs after
                   /\ (is_ok (fst (run oracle args w)) = true -> Forall (in_place after) cs)
                   /\ (cs = [] -> Forall reading after)).
Proof.
  intros Eo w. unfold run. rewrite Eo.
  match goal with |- context [bind (plan_changes oracle opts) ?k] => set (rest := k) end. unfold bind.
  destruct (plan_changes_emits opts w) as (evs & Hs & Hp).
  destruct (plan_changes_reads opts w) as (evs' & Hs' & Hr). rewrite Hs in Hs'. apply app_inv_head in Hs' as <-.
  destruct (plan_changes _ _ w) as [[[cs n]|e] w1]; cbn [fst snd app] in *.
  2: { exists evs, [], []. rewrite Hs, app_nil_r. split; [done|]. split; [done|]. left. by split_and!. }
  specialize (Hp cs n eq_refl). subst rest. cbn beta iota zeta. destruct (o_dryRun opts).
  - assert (adds reading (print_changes oracle cs;;; print_summary oracle &"dry-run: %d file(s) would change" cs n)) as H by adds.
    destruct (H w1) as (evs2 & Hs2 & Hr2). exists evs, evs2, cs. rewrite Hs2, Hs, app_assoc.
    split; [done|]. split; [done|]. by right.
  - assert (emits [] (write_changes oracle cs;;; print_summary oracle &"bootstrap: %d file(s) updated" cs n)
      (fun r evs2 => Forall writing evs2 /\ atomic_writes cs evs2 /\ (is_ok r = true -> Forall (in_place evs2) cs)
        /\ (cs = [] -> Forall reading evs2))) as H.
    { apply emits_bind. eapply emits_weaken; [apply emits_and; [apply write_changes_writes|apply write_changes_emits]|].
      intros [[]|e] evs2 (Hw & Ha & Hi & Hnil); [|by split_and!; [| | |intros ->%Hnil]].
      eapply emits_weaken; [apply emits_and; [apply emits_adds, print_summary_reads|apply emits_adds, print_summary_writes]|].
      intros r evs3 [(new & -> & Hn) (new' & E & Hn')]. apply app_inv_head in E as <-. split_and!.
      - by apply Forall_app_2.
      - apply atomic_writes_app; [done|]. by apply atomic_writes_plain, reading_plain.
      - intros _. eapply Forall_impl; [by apply Hi|]. intros c [name Hname]. exists name. set_solver.
      - intros ->%Hnil. done. }
    destruct (H w1) as (evs2 & Hs2 & H2). exists evs, evs2, cs. rewrite Hs2, Hs, app_assoc.
    split; [done|]. split; [done|]. by right.
Qed.

Lemma run_no_options args e w : parseOptions args = inr e -> w_store (snd (run oracle args w)) = w_store w.
Proof. intros Eo. unfold run. rewrite Eo. by destruct e as [[]|]. Qed.

(** C29: Whatever Git and the operating system answer, a run writes nothing before its
    plan is complete. Either it changes nothing at all, as in a dry run and when any check
    fails; or, before its first write, it had parsed its options, found the worktree clean
    (unless [--force] was given), listed the tracked files, read the metadata, computed the
    replacements, and looked at every tracked file, none of which is outside the worktree or
    unreadable, and the changes are those of these texts. After that it inspects nothing
    any more. *)
Theorem Run_checks_before_writing args w :
  exists before after,
    w_store (snd (run oracle args w)) = w_store w ++ before ++ after
    /\ Forall reading before
    /\ (Forall reading after
        \/ exists opts cs, parseOptions args = inl opts /\ o_dryRun opts = false
             /\ complete_plan before opts cs /\ Forall writing after /\ renamed_whole cs after).
Proof.
  destruct (parseOptions args) as [opts|e] eqn:Eo.
  2: { exists [], []. rewrite (run_no_options _ _ _ Eo), app_nil_r. auto. }
  destruct (run_emits args opts Eo w) as (before & after & cs & Hs & Hr & H). exists before, after.
  split; [done|]. split; [done|]. destruct H as [(-> & _)|[Hp H]]; [by left|].
  destruct (o_dryRun opts) eqn:Ed; [by left|right]. destruct H as (Hw & [Ha _] & _). by exists opts, cs.
Qed.

(** C24: Whatever fails and whenever, each renaming over a tracked file puts in place
    the complete rewriting of a text that was read, through a temporary file of the
    same directory that was written, flushed and closed with success just before;
    the target is a path of the worktree that was a regular file and not a link; and
    every temporary file is renamed or its removal is requested. A run that succeeds,
    and is not a dry one, has put every change of its complete plan in place. *)
Theorem Run_replaces_atomically args w :
  exists before after,
    w_store (snd (run oracle args w)) = w_store w ++ before ++ after
    /\ Forall plain before
    /\ exists root items cs, Forall (planned before root items) cs /\ atomic_writes cs after
         /\ forall opts, parseOptions args = inl opts -> o_dryRun opts = false -> is_ok (fst (run oracle args w)) = true ->
              complete_plan before opts cs /\ Forall (in_place after) cs.
Proof.
  destruct (parseOptions args) as [opts|e] eqn:Eo.
  2: { exists [], []. rewrite (run_no_options _ _ _ Eo), app_nil_r. split; [done|]. split; [done|].
       exists [], [], []. split; [done|]. split; [by apply atomic_writes_plain|done]. }
  destruct (run_emits args opts Eo w) as (before & after & cs & Hs & Hr & H). exists before, after.
  split; [done|]. split; [by apply reading_plain|]. destruct H as [(-> & -> & Hf)|[Hp H]].
  { exists [], [], []. split; [done|]. split; [by apply atomic_writes_plain|]. intros. congruence. }
  destruct (complete_planned _ _ _ Hp) as (root & items & Hcs). exists root, items, cs. split; [done|].
  destruct (o_dryRun opts) eqn:Ed.
  - split; [|intros ? [= <-]; congruence]. apply (atomic_writes_weaken []); [set_solver|]. by apply atomic_writes_plain, reading_plain.
  - destruct H as (Hw & Ha & Hi & _). split; [done|]. intros ? [= <-] _ Hok. auto.
Qed.
Lemma rewritten_nothing text : rewritten text [] = text.
Proof. done. Qed.

Lemma settled_nothing evs root files css : Forall2 (settled_file evs root []) files css -> concat css = [].
Proof.
  induction 1 as [|f cs files css (path & info & _ & _ & Hc) _ IH]; [done|]. cbn [concat]. rewrite IH, app_nil_r.
  destruct (_ || _); [done|]. destruct Hc as (before & _ & ->). rewrite rewritten_nothing, bool_decide_true by done. by rewrite andb_false_r.
Qed.

(** C34: A checkout that has the names asked for is left as it is. Let the options ask for
    the slug of their module path and, when that path is on GitHub, for no owner or its
    own. Whatever the tracked files are, a run changes nothing at all if what it reads
    there is already as asked: go.mod names the module; the policy files mention no address
    but the one asked for; and LICENSE, if it names a holder, names the author asked for,
    or else the owner. This is about what a run finds; that a first run leaves a checkout
    so is not said, and is not so for every address ([Bootstrap_rerun_grows_email]). *)
Theorem Settled_checkout_unchanged args opts w evs :
  parseOptions args = inl opts -> consistent opts ->
  w_store (snd (run oracle args w)) = w_store w ++ evs ->
  (forall root files text, listed evs root files -> Event (OsReadFile (Join root &"go.mod")) (Ok text) ∈ evs ->
     FindSubmatch moduleDirective text = Some (o_module opts)) ->
  (forall root address, mentioned evs root address -> address = o_email opts) ->
  (forall root holder, license_holder evs root holder -> holder = [] \/ holder = plain_owner opts) ->
  Forall reading evs.
Proof.
  intros Eo Hcons Hs Hmod Hmail Hlic. destruct (run_emits args opts Eo w) as (before & after & cs & Hs' & Hr & H).
  rewrite Hs in Hs'. apply app_inv_head in Hs' as ->. apply Forall_app_2; [done|].
  destruct H as [(-> & _)|[(root & files & meta & items & css & _ & Hl & Hd & Hm & Hf & ->) H]]; [done|].
  destruct (o_dryRun opts); [done|]. apply H.
  assert (before ⊆ before ++ after) as Hsub by set_solver.
  destruct Hd as [(text & Hin & Ht) Es Eow Et Ha [_ He]].
  assert (items = []) as ->; [|by eapply settled_nothing].
  eapply as_asked_nothing; [done| |exact Hm]. split; try done.
  - assert (FindSubmatch moduleDirective text = Some (o_module opts)) as E
      by (eapply Hmod; [by eapply listed_more|by apply Hsub]). congruence.
  - destruct Ha as [|Ha]; [by left|]. eapply Hlic, license_holder_more, Ha. done.
  - eapply Forall_impl; [exact He|]. intros a Ha'. eapply Hmail, mentioned_more, Ha'. done.
Qed.
End Facts.

(** ** A run on a small checkout *)

(** A checkout with a single tracked file, on a machine where every call succeeds. *)
Definition small_checkout (t : trace) (c : syscall) : answer c :=
  match c return answer c with
  | PathAbs p => Ok p
  | OsStat _ => Ok (mkFileInfo ModeDir 0 1)
  | OsLstat _ | RootLstat _ _ | FileStat _ => Ok (mkFileInfo 420 27 2)
  | OsReadFile _ | ReadLimited _ _ => Ok (&"module github.com/old/proj" ++ [newline])
  | GitOutput args =>
    (match nth 2 args [] with
     | [] => []
     | command => if bool_decide (command = &"rev-parse") then &"/w" ++ [newline]
                  else if bool_decide (command = &"ls-files") then &"go.mod" ++ [zb 0] else []
     end, None)
  | OpenRoot _ | RootOpen _ _ | OpenDirectory _ => Ok 4
  | CreateTemp _ _ => Ok (5, &"/w/.bootstrap-1")
  | Chmod _ _ | WriteFile _ _ | SyncFile _ | CloseFile _ | Rename _ _ | Remove _ => Ok tt
  | PrintOut _ _ => tt
  end.

Example run_small_checkout :
  let w := snd (run small_checkout
    [&"--module"; &"github.com/new/tool"; &"-s=tool"] (World 0 [])) in
  List.filter mutating (ev_call <$> w_store w)
  = [CreateTemp &"/w" &".bootstrap-*"; Chmod 5 420; WriteFile 5 (&"module github.com/new/tool" ++ [newline]);
     Rename &"/w/.bootstrap-1" &"/w/go.mod"].
Proof. vm_compute. reflexivity. Qed.

(** ** Two runs on one checkout *)

(** What is on the disk after these events: a renaming puts in place what was written last. *)
Definition disk_step (s : (bytes -> bytes) * bytes) (ev : event) : (bytes -> bytes) * bytes :=
  match ev_call ev with
  | WriteFile _ data => (fst s, data)
  | Rename _ target => (fun path => if bool_decide (path = target) then snd s else fst s path, snd s)
  | _ => s
  end.
Definition disk (start : bytes -> bytes) (t : trace) : bytes -> bytes := fst (fold_left disk_step t (start, [])).

Definition old_names : list bytes := [&"LICENSE"; &"README.md"; &"SECURITY.md"; &"go.mod"].
Definition old_text (path : bytes) : bytes :=
  if bool_decide (path = &"/w/go.mod") then &"module github.com/old/proj" ++ [newline]
  else if bool_decide (path = &"/w/LICENSE") then &"Copyright (c) 2024 Old Author" ++ [newline]
  else if bool_decide (path = &"/w/SECURITY.md") then &"Write to old@example.com about proj." ++ [newline]
  else &"Proj by @old, see https://github.com/old/proj" ++ [newline].

(** A machine with this checkout; a file's handle is its place in the listing. *)
Definition old_checkout (t : trace) (c : syscall) : answer c :=
  match c return answer c with
  | PathAbs p => Ok p
  | OsStat _ => Ok (mkFileInfo ModeDir 0 1)
  | OsLstat _ | RootLstat _ _ | FileStat _ => Ok (mkFileInfo 420 50 2)
  | OsReadFile p => Ok (disk old_text t p)
  | RootOpen _ p => Ok (Z.of_nat (default 4%nat (fst <$> list_find (fun name => name = p) old_names)))
  | ReadLimited file _ => Ok (disk old_text t (&"/w/" ++ nth (Z.to_nat file) old_names []))
  | GitOutput args =>
    (match nth 2 args [] with
     | [] => []
     | command => if bool_decide (command = &"rev-parse") then &"/w" ++ [newline]
                  else if bool_decide (command = &"ls-files") then join_bytes [zb 0] old_names ++ [zb 0] else []
     end, None)
  | OpenRoot _ | OpenDirectory _ => Ok 9
  | CreateTemp _ _ => Ok (8, &"/w/.bootstrap-1")
  | Chmod _ _ | WriteFile _ _ | SyncFile _ | CloseFile _ | Rename _ _ | Remove _ => Ok tt
  | PrintOut _ _ => tt
  end.

Definition new_args : list bytes :=
  [&"--module"; &"github.com/new/tool"; &"-s=tool"; &"--author"; &"New Author"; &"--email"; &"new@example.com"].
Definition first_run : trace := w_store (snd (run old_checkout new_args (World 0 []))).
Definition second_run : trace := drop (length first_run) (w_store (snd (run old_checkout new_args (World 0 first_run)))).

Example first_run_rewrites :
  (fun name => disk old_text first_run (&"/w/" ++ name)) <$> old_names
  = [&"Copyright (c) 2024 New Author" ++ [newline]; &"Tool by @new, see https://github.com/new/tool" ++ [newline];
     &"Write to new@example.com about tool." ++ [newline]; &"module github.com/new/tool" ++ [newline]].
Proof. vm_compute. reflexivity. Qed.

(** A text that the second run read is as asked, and it stays in the one worktree. *)
Definition new_options : options :=
  mkOptions defaultRoot &"github.com/new/tool" &"tool" [] &"New Author" &"new@example.com" false false.
Definition text_as_asked (ev : event) : bool :=
  match ev_call ev as c return answer c -> bool with
  | OsReadFile path => fun a =>
    match a with
    | Ok text => if bool_decide (path = &"/w/go.mod")
                 then bool_decide (FindSubmatch moduleDirective text = Some (o_module new_options)) else true
    | Err _ => true
    end
  | ReadLimited _ _ => fun a =>
    match a with
    | Ok text => forallb (fun address => bool_decide (address = o_email new_options)) (FindAllString emailPattern text)
        && match FindSubmatch copyrightHolder text with
           | Some name => bool_decide (TrimSpace name = plain_owner new_options)
           | None => true
           end
    | Err _ => true
    end
  | GitOutput args => fun _ => if bool_decide (nth 2 args [] = &"ls-files") then bool_decide (nth 1 args [] = &"/w") else true
  | _ => fun _ => true
  end (ev_answer ev).

Lemma second_run_as_asked ev : ev ∈ second_run -> text_as_asked ev = true.
Proof.
  assert (forallb text_as_asked second_run = true) as H by (vm_compute; reflexivity).
  rewrite forallb_forall in H. intros Hin. apply H. exact (proj1 (list_elem_of_In _ _) Hin).
Qed.

Example Settled_checkout_unchanged_witness : Forall reading second_run /\ second_run <> [].
Proof.
  split; [|vm_compute; discriminate].
  apply (Settled_checkout_unchanged old_checkout new_args new_options (World 0 first_run)).
  - vm_compute. reflexivity.
  - split; [vm_compute; reflexivity|]. right. by left.
  - vm_compute. reflexivity.
  - intros root files text (out & Hl%second_run_as_asked & _) Hr%second_run_as_asked. cbv beta iota delta [text_as_asked ev_call ev_answer] in Hl, Hr.
    rewrite bool_decide_true in Hl by reflexivity. apply bool_decide_eq_true in Hl. cbn [nth] in Hl. subst root.
    rewrite bool_decide_true in Hr by (vm_compute; reflexivity). by apply bool_decide_eq_true in Hr.
  - intros root address (f & text & _ & (h & file & _ & _ & Hr%second_run_as_asked) & Ha). cbv beta iota delta [text_as_asked ev_call ev_answer] in Hr. bool_simpl.
    match goal with H : forallb _ _ = true |- _ => rewrite forallb_forall in H; apply list_elem_of_In, H in Ha end. by bool_simpl.
  - intros root holder (f & text & name & _ & (h & file & _ & _ & Hr%second_run_as_asked) & Hn & ->). cbv beta iota delta [text_as_asked ev_call ev_answer] in Hr. rewrite Hn in Hr.
    bool_simpl. by right.
Defined.
